(* ===== verification/_CoqProject ===== *)
-Q . S2P
Prelude.v
GoInt.v
GoString.v
GoTime.v
Sha256.v
GoSort.v
Heap.v
Domain.v
PriorityQueue.v
DelayQueue.v
Repository.v
Security.v
Receipt.v
Application.v
Provider.v
Router.v
GoFloat.v
FloatError.v
Bucket.v
Worker.v
System.v
Registry.v
Policy.v
Template.v
Quota.v
Metrics.v
Config.v
HttpApi.v
Main.v
Process.v
Lifetime.v
Settling.v
WellFormed.v
Platform.v
