(* ===== verification/Prelude.v ===== *)
(** * Verification of the multichannel notification platform

    The platform accepts notifications over HTTP, stores them in a file-backed
    store, queues them by priority and hands them to providers, with retries, a
    circuit breaker and a rate limit; providers report back with receipts.  This
    development models the Go code of [src/internal] as executable definitions and
    proves what makes each part correct, and what holds of the parts together under
    every interleaving of goroutines.

    ** Parts, and where they are modelled

    Shared libraries, on which the components stand:
    - [Prelude]: results of fallible code, generic list lemmas;
    - [GoInt]: [int64] and [uint64] wrap-around, decimal text, [strconv.Atoi];
    - [GoString]: packages [strings], [utf8] and [hex], executable;
    - [GoTime]: instants, saturating durations, the calendar of [Format];
    - [GoFloat]: binary64 by the Standard Library's [SpecFloat]; [FloatError]: each
      operation is within a relative rounding error of the exact one on rationals;
    - [Sha256]: SHA-256 and HMAC, checked on the published vectors;
    - [GoSort]: the interfaces [MapRange] (order of [range] over a map) and
      [SortSlice] ([sort.Slice]), over which the theorems are quantified;
    - [Heap]: [container/heap] over a slice whose items keep their position.

    Components, one file each, with the Go file they translate:
    - [Domain] ([notification/domain/models.go]): notifications, [Validate],
      [Transition].  State: the record [Notification], one field per Go field;
    - [Repository] ([repository/store.go]): [Store] is the path, the in-memory
      [snapshot] and the file system; [op] is one atomic method call that writes;
    - [PriorityQueue], [DelayQueue] ([queue/priority.go], [queue/delay.go]);
    - [Security] ([security/security.go]), [Receipt] ([receipt/service.go]);
    - [Application] ([application/service.go]): [Submit], [Cancel], [Pause],
      [Replay], [Recover], composed from store, queue and security;
    - [Provider], [Registry] ([provider/provider.go], [provider/registry.go]);
    - [Router], [Policy] ([routing/router.go], [routing/policy.go]);
    - [Bucket], [Quota] ([rate/limiter.go], [rate/quota.go]);
    - [Worker] ([worker/dispatcher.go]): [deliver] in three atomic parts;
    - [Template] ([template/service.go]), [Metrics] ([observability/metrics.go]),
      [Config] ([config/config.go]);
    - [HttpApi] ([transport/httpapi/server.go]): handlers and multiplexer;
    - [System]: store, queue, router, limiter, and the notifications that
      goroutines and timers hold; [step] performs one atomic step of one goroutine,
      with the definitions of [Application] and [Worker];
    - [Main] ([cmd/notification-api/main.go], [cmd/notification-worker/main.go]):
      from the configuration to the running dispatcher;
    - [Process] (the loops of [worker/dispatcher.go] and the rest of both [main]):
      the [Concurrency] loops with their [select] on context, wake token and tick,
      the timers, and [main] from the signal to its return.

    The parts together:
    - [Lifetime]: runs of [System] cut by crashes and continued by restarts on the
      file; its invariant relates provider calls, memory and file; [saved] is the data
      of the last write that succeeded.  The proposition [fair] says whether callers
      keep the two conditions, unchecked by the source, under which attempts count;
    - [Settling]: runs of [System] without interference, their setbacks and measure;
    - [WellFormed]: the type discipline along a life; why the handlers' writes are
      among those [Lifetime] allows;
    - [Platform]: the handlers of [HttpApi] as runs of [System], and the server that
      answers requests, at once or interleaved in pieces, works, crashes and restarts.

    ** How the code is represented

    A method takes the state and returns the new one with its results.  Errors are
    the text of their message.  What a call takes from outside is an argument: each
    clock reading, random bytes, the outcome of each file system call ([io]), the
    answer of a provider or of an HTTP peer.  Mutexes make methods atomic; where a
    method releases its lock between two steps, the other goroutines' operations
    stand between them, as a list of operations ([Application.transition],
    [Worker.deliver]) or as other labels of a run ([System]).  Objects behind
    pointers are in the state of their holder; where sharing shows (the version
    slice [Publish] writes through, the counters the metrics registry hands out) it
    is written out.  Code outside the repository is a parameter with documented laws
    where a theorem needs them: JSON encoding ([JsonCodec], [JsonCodecOk]: what
    [encoding/json] represents without loss reads back equal), [regexp],
    [text/template], [time.ParseDuration], the table of [unicode.ToLower],
    float-to-integer overflow ([Arch]).  Every law has an instance, used by the
    witnesses.

    ** What the theorems show

    - the whole platform: whatever requests, interleavings, crashes and restarts,
      nothing is held twice and everything stored or held is well formed; where [fair]
      holds, provider calls per notification are bounded by the attempt limit;
      requests are runs of the atomic steps; a restart recovers what was written
      (C1, C3, C4, C5, C10);
    - progress: up to setbacks, what is held is settled in a bounded number of steps
      (C2);
    - process: the goroutines the binaries start are an instance of [System], no
      wake-up is lost, the shutdown leaves no delivery half done and ends
      (C9, C11, C12, C13);
    - store: keys bind for ever, timelines and outbox are append-only and end with
      the current status, updates are compare-and-swap, a crash at any file system
      call leaves the old or the new state, a reopened store behaves as the one that
      was closed
      (C6, C7, C14, C18, C19, C20);
    - domain: what is accepted, which transitions succeed, no return from an
      accepted state (C15, C16, C17);
    - services: submission on every branch, receipts once, cancellation under
      interference
      (C21, C22, C23, C24);
    - dispatcher: the outcome of a delivery on every branch, and the resend that a
      receipt during the provider call can cause (C8, C39);
    - queues: the heap refines a bounded multiset served by priority then time, the
      delay loop moves exactly what is due into the target, and blocks until the next
      (C25, C26);
    - router, policies, quotas, bucket: the circuit breaker against its history,
      selection, quota safety under expiry, the rate that is granted, and that no more
      is refused (C27, C28, C31, C36, C37);
    - edges: HTTP idempotency, signatures, templates, provider configurations,
      metrics, configuration
      (C29, C30, C32, C33, C34, C35, C38, C40).

    Further theorems of the component files state what the above does not: paging,
    safety of reads, replay, stranded submissions, the scope of keys, the suppression
    mismatch, the overflow of reservations.

    ** Bounds and fuel

    Integers are [Z] with [wrap64] at every operation that can overflow.  Loops
    that Go bounds by a slice are structural or take the length as fuel
    ([Heap.up], [Heap.down], [DelayQueue.run_due]); decimal printing has 20 rounds,
    enough for 64 bits; the lemmas of those files prove that the fuel is enough.
    [Settling.cost] gives a notification five steps for each delivery it can still
    get, [Process.weight] gives a loop the steps to its next sleep; both are shown to
    decrease.
    Loops over blocks and text take the length of the text.

    ** Not modelled

    [logger.go] and the log lines; [net/http] (the listening server and [Shutdown]
    are an event and a step of [main]); the JSON text of requests and responses; the
    PostgreSQL schema, the web console and the manifests, which are not Go.  Memory
    sharing through the target slice and the variable map of a notification is not
    modelled: the code only writes targets in [Validate], with the value they already
    have when the notification comes from the store.  The Go scheduler is any order
    of atomic steps, and a timer may fire at any moment after it was set: theorems on
    progress say which steps remain, not when they are taken.  That a provider call
    fails because the context was cancelled is one of the answers it may give. *)

From stdpp Require Export base tactics list gmap strings sorting.
From stdpp Require Import options.
From Stdlib Require Export ZArith Lia.

(** ** Results of fallible code

    A Go [error] is modelled by the text of its message; [nil] is [None].  A
    function that returns [(T, error)] with the zero value on failure returns a
    [result T]; where the source returns a meaningful value next to the error,
    the model returns the tuple. *)

Abbreviation error := string.

Inductive result (A : Type) : Type :=
| Ok (a : A)
| Err (e : error).

Arguments Ok {A} a.
Arguments Err {A} e.

#[export] Instance result_eq_dec {A} `{EqDecision A} : EqDecision (result A).
Proof. solve_decision. Defined.

Definition result_bind {A B} (r : result A) (f : A → result B) : result B :=
  match r with
  | Ok a => f a
  | Err e => Err e
  end.

Definition is_ok {A} (r : result A) : bool :=
  match r with
  | Ok _ => true
  | Err _ => false
  end.

(** [if cond { return errors.New(msg) }; rest] of a function whose only result is
    an error. *)
Definition guard_err (cond : bool) (msg : error) (rest : option error) : option error :=
  if cond then Some msg else rest.

Declare Scope go_scope.
Delimit Scope go_scope with go.
Notation "'let?' x ':=' r 'in' k" := (result_bind r (λ x, k))
  (at level 10, x pattern, r at level 100, k at level 200) : go_scope.
Notation "'fail_if' c 'with' msg ';;' k" := (guard_err c msg k)
  (at level 10, c at level 100, msg at level 100, k at level 200) : go_scope.

(** ** Generic lemmas *)

Lemma StronglySorted_impl {A} (R1 R2 : A → A → Prop) (l : list A) :
  (∀ x y, R1 x y → R2 x y) → StronglySorted R1 l → StronglySorted R2 l.
Proof.
  intros HR. induction 1 as [|x l _ IH Hx]; constructor; [done|].
  eapply Forall_impl; [done|]. intros y. apply HR.
Qed.

Lemma StronglySorted_filter {A} (R : A → A → Prop) (P : A → Prop) `{!∀ x, Decision (P x)} (l : list A) :
  StronglySorted R l → StronglySorted R (base.filter P l).
Proof.
  induction 1 as [|x l _ IH Hx]; [constructor|]. rewrite filter_cons. case_decide; [|done].
  constructor; [done|]. rewrite Forall_forall in Hx |- *. intros y [_ Hy]%list_elem_of_filter. by apply Hx.
Qed.

(** Sums of a measure over a list. *)
Lemma sum_fmap_cons {A} (f : A → nat) (x : A) (l : list A) :
  sum_list (f <$> x :: l) = (f x + sum_list (f <$> l))%nat.
Proof. done. Qed.

Lemma sum_fmap_app {A} (f : A → nat) (l k : list A) :
  sum_list (f <$> l ++ k) = (sum_list (f <$> l) + sum_list (f <$> k))%nat.
Proof. induction l as [|x l IH]; [done|]. cbn [app]. rewrite !sum_fmap_cons, IH. lia. Qed.

Lemma sum_fmap_perm {A} (f : A → nat) (l k : list A) :
  l ≡ₚ k → sum_list (f <$> l) = sum_list (f <$> k).
Proof. induction 1; rewrite ?sum_fmap_cons; lia. Qed.
