(* ===== verification/GoInt.v ===== *)
(** * Machine integers and decimal text

    Go's [int]/[int64] and [uint64] as [Z] with the wrap-around written out, the
    decimal printing loop that [store.go], [receipt/service.go] and [security.go]
    each write by hand, and [strconv.Atoi], which [config.go] and [server.go]
    call. *)

From Stdlib Require Import Ascii.
From S2P Require Export Prelude.
Local Open Scope Z_scope.

(** ** Fixed-width arithmetic *)

Definition two64 : Z := 2 ^ 64.
Definition max_int64 : Z := 2 ^ 63 - 1.
Definition min_int64 : Z := - 2 ^ 63.
Definition max_uint64 : Z := 2 ^ 64 - 1.

Definition wrap64 (z : Z) : Z := (z + 2 ^ 63) `mod` two64 - 2 ^ 63.
Definition wrapu64 (z : Z) : Z := z `mod` two64.
Definition in_int64 (z : Z) : Prop := min_int64 ≤ z ≤ max_int64.

#[export] Instance in_int64_dec z : Decision (in_int64 z).
Proof. unfold in_int64. apply _. Defined.

(** ** Decimal printing

    [for n > 0 { b = append([]byte{byte('0' + n%10)}, b...); n /= 10 }].  An
    [int64] has at most 19 digits, so [dec_fuel] iterations always empty [n]
    ([dec_loop_value]). *)

Definition digit_char (d : Z) : ascii := ascii_of_N (Z.to_N (48 + d)).

Fixpoint dec_loop (fuel : nat) (n : Z) (b : string) : string :=
  match fuel with
  | O => b
  | S fuel =>
      if 0 <? n then dec_loop fuel (n `div` 10) (String (digit_char (n `mod` 10)) b)
      else b
  end.

Definition dec_fuel : nat := 20.

(** ** Decimal parsing: [strconv.Atoi] *)

Definition digit_of (c : ascii) : option Z :=
  let d := Z.of_N (N_of_ascii c) - 48 in
  if (0 <=? d) && (d <=? 9) then Some d else None.

Variant parsed :=
| PValue (n : Z)
| PSyntax
| PRange.

(** [strconv.ParseUint(s, 10, 64)] after the empty test: the overflow test comes
    after the digit test of the same character. *)
Fixpoint parse_digits (n : Z) (s : string) : parsed :=
  match s with
  | EmptyString => PValue n
  | String c s =>
      match digit_of c with
      | None => PSyntax
      | Some d => if max_uint64 <? n * 10 + d then PRange else parse_digits (n * 10 + d) s
      end
  end.

Definition ParseUint (s : string) : parsed :=
  match s with
  | EmptyString => PSyntax
  | _ => parse_digits 0 s
  end.

(** The value and whether the error is nil; on a syntax error the value is 0, on
    a range error it is the nearest [int]. *)
Definition atoi_signed (neg : bool) (s : string) : Z * bool :=
  match ParseUint s with
  | PSyntax => (0, false)
  | PRange => if neg then (min_int64, false) else (max_int64, false)
  | PValue n =>
      if neg then if 2 ^ 63 <? n then (min_int64, false) else (- n, true)
      else if 2 ^ 63 <=? n then (max_int64, false) else (n, true)
  end.

Definition Atoi (s : string) : Z * bool :=
  match s with
  | String "-" s' => atoi_signed true s'
  | String "+" s' => atoi_signed false s'
  | _ => atoi_signed false s
  end.

(** ** Lemmas *)

Lemma wrap64_small z : in_int64 z → wrap64 z = z.
Proof.
  unfold in_int64, wrap64, two64, min_int64, max_int64. intros.
  rewrite Z.mod_small; lia.
Qed.

Lemma wrap64_range z : in_int64 (wrap64 z).
Proof.
  unfold in_int64, wrap64, two64, min_int64, max_int64.
  pose proof (Z.mod_pos_bound (z + 2 ^ 63) (2 ^ 64) ltac:(lia)). lia.
Qed.

Lemma wrapu64_range z : 0 ≤ wrapu64 z ≤ max_uint64.
Proof.
  unfold wrapu64, two64, max_uint64.
  pose proof (Z.mod_pos_bound z (2 ^ 64) ltac:(lia)). lia.
Qed.

Lemma wrapu64_add a b : wrapu64 (wrapu64 a + b) = wrapu64 (a + b).
Proof. unfold wrapu64. apply Zplus_mod_idemp_l. Qed.

Lemma digit_of_char d : 0 ≤ d ≤ 9 → digit_of (digit_char d) = Some d.
Proof.
  intros Hd. unfold digit_of, digit_char.
  rewrite N_ascii_embedding by lia. rewrite Z2N.id by lia.
  replace (48 + d - 48) with d by lia.
  destruct (Z.leb_spec 0 d), (Z.leb_spec d 9); simpl; lia || done.
Qed.

(** Reading back what the loop printed: the digits of [n], then [b]. *)
Lemma parse_dec_loop fuel n b :
  0 ≤ n < 10 ^ Z.of_nat fuel → n ≤ max_uint64 →
  parse_digits 0 (dec_loop fuel n b) = parse_digits n b.
Proof.
  revert n b. induction fuel as [|fuel IH]; intros n b Hn Hmax.
  { simpl. by replace n with 0 by (change (10 ^ Z.of_nat 0) with 1 in Hn; lia). }
  simpl. destruct (Z.ltb_spec 0 n); [|by replace n with 0 by lia].
  rewrite Nat2Z.inj_succ, Z.pow_succ_r in Hn by lia.
  pose proof (Z.div_mod n 10 ltac:(lia)). pose proof (Z.mod_pos_bound n 10 ltac:(lia)).
  rewrite IH by lia. simpl. rewrite digit_of_char by lia.
  destruct (Z.ltb_spec max_uint64 (n `div` 10 * 10 + n `mod` 10)); [lia|].
  f_equal. lia.
Qed.

Lemma dec_fuel_enough n : n ≤ max_uint64 → n < 10 ^ Z.of_nat dec_fuel.
Proof. unfold max_uint64. change (Z.of_nat dec_fuel) with 20. lia. Qed.

Lemma parse_dec_fuel n :
  0 ≤ n ≤ max_uint64 → parse_digits 0 (dec_loop dec_fuel n "") = PValue n.
Proof.
  intros [??]. pose proof (dec_fuel_enough n). by rewrite parse_dec_loop by lia.
Qed.

(** More fuel than [dec_fuel] changes nothing: the loop of the source ends. *)
Lemma dec_loop_fuel fuel fuel' n b :
  n < 10 ^ Z.of_nat fuel → (fuel ≤ fuel')%nat → dec_loop fuel' n b = dec_loop fuel n b.
Proof.
  revert fuel' n b. induction fuel as [|fuel IH]; intros fuel' n b Hn Hle.
  - change (10 ^ Z.of_nat 0) with 1 in Hn. destruct fuel'; simpl; [done|].
    destruct (Z.ltb_spec 0 n); [lia|done].
  - destruct fuel' as [|fuel']; [lia|]. simpl.
    destruct (Z.ltb_spec 0 n); [|done]. apply IH; [|lia].
    rewrite Nat2Z.inj_succ, Z.pow_succ_r in Hn by lia.
    apply Z.div_lt_upper_bound; lia.
Qed.

(** The printed text is digits only, so it never contains a separator. *)
Definition is_digit (c : ascii) : bool := if digit_of c is Some _ then true else false.

Lemma dec_loop_digits fuel n b :
  forallb is_digit (String.list_ascii_of_string b) = true →
  forallb is_digit (String.list_ascii_of_string (dec_loop fuel n b)) = true.
Proof.
  revert n b. induction fuel as [|fuel IH]; intros n b Hb; [done|].
  simpl. destruct (Z.ltb_spec 0 n); [|done]. apply IH. simpl. rewrite Hb.
  unfold is_digit. pose proof (Z.mod_pos_bound n 10 ltac:(lia)).
  by rewrite digit_of_char by lia.
Qed.

Lemma dec_loop_nonempty fuel n b :
  0 < n → fuel ≠ O → dec_loop fuel n b ≠ "".
Proof.
  assert (H : ∀ f n b, b ≠ "" → dec_loop f n b ≠ "").
  { induction f as [|f IH]; simpl; intros; [done|]. case_match; [by apply IH|done]. }
  intros Hn Hf. destruct fuel as [|f]; [done|]. simpl.
  destruct (Z.ltb_spec 0 n); [|lia]. by apply H.
Qed.

(** ** Printing: [strconv.FormatInt(n, 10)], [%d] *)

Definition FormatInt (n : Z) : string :=
  if n =? 0 then "0"
  else if n <? 0 then String "-" (dec_loop dec_fuel (- n) "") else dec_loop dec_fuel n "".

Lemma dec_head fuel n :
  0 < n → ∃ c s, dec_loop (S fuel) n "" = String c s ∧ is_digit c = true.
Proof.
  intros Hn. destruct (dec_loop (S fuel) n "") as [|c s] eqn:Hd.
  { by apply dec_loop_nonempty in Hd. }
  exists c, s. split; [done|]. pose proof (dec_loop_digits (S fuel) n "" eq_refl) as Hf.
  rewrite Hd in Hf. simpl in Hf. by apply andb_prop in Hf as [? _].
Qed.

Lemma Atoi_digits c s : is_digit c = true → Atoi (String c s) = atoi_signed false (String c s).
Proof.
  intros Hc. assert (Hp : c ≠ "+"%char) by (by intros ->).
  assert (Hm : c ≠ "-"%char) by (by intros ->).
  destruct c as [[] [] [] [] [] [] [] []]; try done.
Qed.

(** Printing then reading a non-negative number, with or without a sign. *)
Lemma ParseUint_dec n : 0 < n ≤ max_uint64 → ParseUint (dec_loop dec_fuel n "") = PValue n.
Proof.
  intros Hn. destruct (dec_head 19 n) as (c & s & Hd & _); [lia|].
  pose proof (parse_dec_fuel n ltac:(lia)) as Hp. unfold dec_fuel in *. rewrite Hd in *. exact Hp.
Qed.

Lemma FormatInt_Atoi n : in_int64 n → Atoi (FormatInt n) = (n, true).
Proof.
  unfold in_int64, min_int64, max_int64, FormatInt. intros Hn.
  destruct (Z.eqb_spec n 0) as [->|Hz]; [done|]. destruct (Z.ltb_spec n 0) as [Hneg|Hpos].
  - cbn [Atoi]. unfold atoi_signed. rewrite ParseUint_dec by (unfold max_uint64; lia).
    destruct (Z.ltb_spec (2 ^ 63) (- n)); [lia|]. by rewrite Z.opp_involutive.
  - destruct (dec_head 19 n) as (c & s & Hd & Hc); [lia|].
    pose proof (ParseUint_dec n ltac:(unfold max_uint64; lia)) as Hp.
    unfold dec_fuel in *. rewrite Hd in *. rewrite Atoi_digits by done. unfold atoi_signed.
    rewrite Hp. destruct (Z.leb_spec (2 ^ 63) n); [lia|done].
Qed.

Lemma FormatInt_inj n m : in_int64 n → in_int64 m → FormatInt n = FormatInt m → n = m.
Proof.
  intros Hn Hm Heq. pose proof (FormatInt_Atoi n Hn) as H1. rewrite Heq, FormatInt_Atoi in H1 by done.
  congruence.
Qed.

Create HintDb go_int.
Create Rewrite HintDb go_int.
#[export] Hint Resolve wrap64_range wrapu64_range dec_loop_nonempty : go_int.
#[export] Hint Rewrite wrap64_small using (unfold in_int64, min_int64, max_int64 in *; lia) : go_int.

Example Atoi_ex : Atoi "-120" = (-120, true) ∧ Atoi "12x" = (0, false)
  ∧ Atoi "+7" = (7, true) ∧ Atoi "9223372036854775808" = (max_int64, false) ∧ Atoi "" = (0, false).
Proof. by vm_compute. Qed.
