(* ===== verification/GoString.v ===== *)
(** * Go strings

    A Go [string] is a sequence of bytes, as Rocq's [string] is.  This file holds
    the functions of packages [strings], [unicode/utf8] and [encoding/hex] that
    the platform calls.  Only the table behind [unicode.ToLower] for runes outside
    ASCII is left abstract (class [Unicode]): it is generated data. *)

From Stdlib Require Import Ascii.
From S2P Require Export Prelude.
Local Open Scope Z_scope.

Abbreviation to_bytes := String.list_ascii_of_string.
Abbreviation of_bytes := String.string_of_list_ascii.

Definition byte_val (c : ascii) : Z := Z.of_N (N_of_ascii c).
Definition val_byte (z : Z) : ascii := ascii_of_N (Z.to_N z).
Definition len (s : string) : Z := Z.of_nat (String.length s).

(** ** UTF-8 *)

Definition in_range (lo z hi : Z) : bool := (lo <=? z) && (z <=? hi).

Definition rune_error : Z := 65533.

(** [utf8.DecodeRune]: the rune and its width; an invalid byte is [RuneError] of
    width 1. *)
Definition decode_rune (l : list Z) : Z * nat :=
  match l with
  | [] => (rune_error, 0%nat)
  | b0 :: l1 =>
      if b0 <? 128 then (b0, 1%nat) else
      match l1 with
      | b1 :: l2 =>
          if in_range 194 b0 223 then
            if in_range 128 b1 191 then ((b0 - 192) * 64 + (b1 - 128), 2%nat) else (rune_error, 1%nat)
          else match l2 with
          | b2 :: l3 =>
              let lo := if b0 =? 224 then 160 else 128 in
              let hi := if b0 =? 237 then 159 else 191 in
              if in_range 224 b0 239 then
                if in_range lo b1 hi && in_range 128 b2 191
                then ((b0 - 224) * 4096 + (b1 - 128) * 64 + (b2 - 128), 3%nat)
                else (rune_error, 1%nat)
              else match l3 with
              | b3 :: _ =>
                  let lo := if b0 =? 240 then 144 else 128 in
                  let hi := if b0 =? 244 then 143 else 191 in
                  if in_range 240 b0 244 && in_range lo b1 hi && in_range 128 b2 191
                     && in_range 128 b3 191
                  then ((b0 - 240) * 262144 + (b1 - 128) * 4096 + (b2 - 128) * 64 + (b3 - 128), 4%nat)
                  else (rune_error, 1%nat)
              | [] => (rune_error, 1%nat)
              end
          | [] => (rune_error, 1%nat)
          end
      | [] => (rune_error, 1%nat)
      end
  end.

Definition encode_rune (r : Z) : list Z :=
  if in_range 0 r 127 then [r]
  else if in_range 128 r 2047 then [192 + r `div` 64; 128 + r `mod` 64]
  else if in_range 2048 r 65535 && negb (in_range 55296 r 57343)
  then [224 + r `div` 4096; 128 + (r `div` 64) `mod` 64; 128 + r `mod` 64]
  else if in_range 65536 r 1114111
  then [240 + r `div` 262144; 128 + (r `div` 4096) `mod` 64; 128 + (r `div` 64) `mod` 64; 128 + r `mod` 64]
  else [239; 191; 189].

Fixpoint runes (fuel : nat) (l : list Z) : list Z :=
  match fuel, l with
  | S fuel, _ :: _ => let '(r, w) := decode_rune l in r :: runes fuel (drop w l)
  | _, _ => []
  end.

(** ** [strings.ToLower] *)

Class Unicode := { to_lower_table : Z → Z }.

Definition unicode_ToLower `{Unicode} (r : Z) : Z :=
  if r <=? 127 then if in_range 65 r 90 then r + 32 else r
  else to_lower_table r.

Definition is_ascii (s : string) : bool := forallb (λ c, byte_val c <? 128) (to_bytes s).

Definition lower_byte (c : ascii) : ascii :=
  if in_range 65 (byte_val c) 90 then val_byte (byte_val c + 32) else c.

(** [strings.Map(unicode.ToLower, s)]: a negative rune is dropped. *)
Definition map_runes (f : Z → Z) (s : string) : string :=
  let l := byte_val <$> to_bytes s in
  of_bytes (val_byte <$> mjoin (encode_rune <$> base.filter (λ r, 0 ≤ r) (f <$> runes (length l) l))).

Definition ToLower `{Unicode} (s : string) : string :=
  if is_ascii s then of_bytes (lower_byte <$> to_bytes s)
  else map_runes unicode_ToLower s.

(** ** [strings.TrimSpace]

    The white space of [unicode.IsSpace], in its UTF-8 encoding: the number of
    bytes of the space the list starts with, 0 when it starts with none. *)

Definition ascii_space (b : Z) : bool := in_range 9 b 13 || (b =? 32).
Definition space3 (b : Z) : bool := in_range 128 b 138 || (b =? 168) || (b =? 169) || (b =? 175).

Definition space_len (l : list ascii) : nat :=
  match byte_val <$> l with
  | b0 :: rest =>
      if ascii_space b0 then 1%nat else
      match rest with
      | b1 :: rest =>
          if (b0 =? 194) && ((b1 =? 133) || (b1 =? 160)) then 2%nat else
          match rest with
          | b2 :: _ =>
              if ((b0 =? 225) && (b1 =? 154) && (b2 =? 128))
                 || ((b0 =? 226) && (b1 =? 128) && space3 b2)
                 || ((b0 =? 226) && (b1 =? 129) && (b2 =? 159))
                 || ((b0 =? 227) && (b1 =? 128) && (b2 =? 128)) then 3%nat else 0%nat
          | [] => 0%nat
          end
      | [] => 0%nat
      end
  | [] => 0%nat
  end.

(** The same on a reversed list: the space the text ends with. *)
Definition rspace_len (l : list ascii) : nat :=
  match byte_val <$> l with
  | b0 :: rest =>
      if ascii_space b0 then 1%nat else
      match rest with
      | b1 :: rest =>
          if (b1 =? 194) && ((b0 =? 133) || (b0 =? 160)) then 2%nat else
          match rest with
          | b2 :: _ =>
              if ((b2 =? 225) && (b1 =? 154) && (b0 =? 128))
                 || ((b2 =? 226) && (b1 =? 128) && space3 b0)
                 || ((b2 =? 226) && (b1 =? 129) && (b0 =? 159))
                 || ((b2 =? 227) && (b1 =? 128) && (b0 =? 128)) then 3%nat else 0%nat
          | [] => 0%nat
          end
      | [] => 0%nat
      end
  | [] => 0%nat
  end.

(** Strip while [measure] finds something; [fuel] is the length of the list. *)
Fixpoint strip (measure : list ascii → nat) (fuel : nat) (l : list ascii) : list ascii :=
  match fuel with
  | O => l
  | S fuel => match measure l with O => l | n => strip measure fuel (drop n l) end
  end.

Definition strip_all (measure : list ascii → nat) (l : list ascii) : list ascii :=
  strip measure (length l) l.

Definition trim_by (left right : list ascii → nat) (s : string) : string :=
  of_bytes (reverse (strip_all right (reverse (strip_all left (to_bytes s))))).

Definition TrimSpace (s : string) : string := trim_by space_len rspace_len s.

(** [strings.Trim(s, cutset)] for a cutset of ASCII characters. *)
Definition cut_len (cutset : string) (l : list ascii) : nat :=
  match l with
  | c :: _ => if existsb (Ascii.eqb c) (to_bytes cutset) then 1%nat else 0%nat
  | [] => 0%nat
  end.

Definition Trim (s cutset : string) : string := trim_by (cut_len cutset) (cut_len cutset) s.

(** ** Searching and splitting *)

Definition HasPrefix (s pre : string) : bool := String.prefix pre s.

Fixpoint HasSuffix (s suffix : string) : bool :=
  bool_decide (s = suffix) ||
  match s with
  | EmptyString => false
  | String _ s' => HasSuffix s' suffix
  end.

Definition TrimPrefix (s pre : string) : string :=
  if HasPrefix s pre then of_bytes (drop (String.length pre) (to_bytes s)) else s.

Fixpoint Contains (s sub : string) : bool :=
  HasPrefix s sub ||
  match s with
  | EmptyString => false
  | String _ s' => Contains s' sub
  end.

(** [strings.Split(s, sep)] for a separator of one byte. *)
Fixpoint Split (s : string) (sep : ascii) : list string :=
  match s with
  | EmptyString => [EmptyString]
  | String c s' =>
      if Ascii.eqb c sep then EmptyString :: Split s' sep
      else match Split s' sep with
           | w :: ws => String c w :: ws
           | [] => [String c EmptyString]
           end
  end.

(** [strings.SplitN(s, sep, 2)]. *)
Fixpoint Split2 (s : string) (sep : ascii) : list string :=
  match s with
  | EmptyString => [EmptyString]
  | String c s' =>
      if Ascii.eqb c sep then [EmptyString; s']
      else match Split2 s' sep with
           | w :: ws => String c w :: ws
           | [] => [String c EmptyString]
           end
  end.

(** [s[:n]] and [s[n:]] for [n] within the string. *)
Definition slice_to (s : string) (n : nat) : string := of_bytes (take n (to_bytes s)).
Definition slice_from (s : string) (n : nat) : string := of_bytes (drop n (to_bytes s)).

(** ** [encoding/hex] *)

Definition hex_char (d : Z) : ascii := val_byte (if d <? 10 then 48 + d else 87 + d).

Definition EncodeToString (l : list Z) : string :=
  of_bytes (flat_map (λ b, [hex_char (b `div` 16); hex_char (b `mod` 16)]) l).

Definition from_hex_char (c : ascii) : option Z :=
  let b := byte_val c in
  if in_range 48 b 57 then Some (b - 48)
  else if in_range 97 b 102 then Some (b - 87)
  else if in_range 65 b 70 then Some (b - 55)
  else None.

Fixpoint hex_decode (l : list ascii) : option (list Z) :=
  match l with
  | [] => Some []
  | [_] => None
  | a :: b :: rest =>
      match from_hex_char a, from_hex_char b, hex_decode rest with
      | Some x, Some y, Some r => Some (x * 16 + y :: r)
      | _, _, _ => None
      end
  end.

Definition DecodeString (s : string) : option (list Z) := hex_decode (to_bytes s).

#[global] Arguments TrimSpace : simpl never.
#[global] Arguments Trim : simpl never.
#[global] Arguments ToLower : simpl never.
#[global] Arguments EncodeToString : simpl never.
#[global] Arguments DecodeString : simpl never.
#[global] Arguments len : simpl never.

(** ** Lemmas: bytes *)

Definition no_char (c : ascii) (s : string) : Prop := c ∉ to_bytes s.

#[export] Instance no_char_dec c s : Decision (no_char c s).
Proof. unfold no_char. apply _. Defined.

Lemma of_to_bytes s : of_bytes (to_bytes s) = s.
Proof. apply String.string_of_list_ascii_of_string. Qed.

Lemma to_of_bytes l : to_bytes (of_bytes l) = l.
Proof. apply String.list_ascii_of_string_of_list_ascii. Qed.

Create HintDb go_string.
Create Rewrite HintDb go_string.
#[export] Hint Rewrite of_to_bytes to_of_bytes : go_string.

#[export] Instance to_bytes_inj : Inj (=) (=) to_bytes.
Proof. intros s1 s2 H. by rewrite <- (of_to_bytes s1), <- (of_to_bytes s2), H. Qed.

Lemma to_bytes_app s1 s2 : to_bytes (s1 +:+ s2) = to_bytes s1 ++ to_bytes s2.
Proof. induction s1; simpl; [done|]. unfold String.app in *. simpl. by f_equal. Qed.

Lemma length_to_bytes s : length (to_bytes s) = String.length s.
Proof. induction s; simpl; auto. Qed.

Lemma string_app_assoc s1 s2 s3 : (s1 +:+ s2) +:+ s3 = s1 +:+ (s2 +:+ s3).
Proof. apply (inj to_bytes). by rewrite !to_bytes_app, (assoc_L (++)). Qed.

Lemma string_app_nil_r s : s +:+ "" = s.
Proof. apply (inj to_bytes). rewrite to_bytes_app. apply app_nil_r. Qed.

#[export] Hint Rewrite to_bytes_app length_to_bytes : go_string.

(** A text split at the first occurrence of a separator is split one way only. *)
Lemma app_sep_inj (c : ascii) (l1 l2 k1 k2 : list ascii) :
  c ∉ l1 → c ∉ l2 → l1 ++ c :: k1 = l2 ++ c :: k2 → l1 = l2 ∧ k1 = k2.
Proof.
  revert l2. induction l1 as [|a l1 IH]; intros [|b l2] H1 H2 Heq; simplify_eq/=;
    [done|set_solver..|].
  destruct (IH l2); [set_solver..|]. by subst.
Qed.

Lemma join_key_inj (c : ascii) t1 t2 k1 k2 :
  no_char c t1 → no_char c t2 →
  t1 +:+ String c "" +:+ k1 = t2 +:+ String c "" +:+ k2 → t1 = t2 ∧ k1 = k2.
Proof.
  unfold no_char. intros H1 H2 Heq. apply (f_equal to_bytes) in Heq.
  rewrite !to_bytes_app in Heq. simpl in Heq.
  apply app_sep_inj in Heq as [??]; [|done..]. split; by apply (inj to_bytes).
Qed.

Lemma no_char_app c s1 s2 : no_char c (s1 +:+ s2) ↔ no_char c s1 ∧ no_char c s2.
Proof. unfold no_char. rewrite to_bytes_app. set_solver. Qed.

Lemma no_char_cons c d s : no_char c (String d s) ↔ c ≠ d ∧ no_char c s.
Proof. apply not_elem_of_cons. Qed.

(** ** Lemmas: trimming *)

Section strip.
Context (m : list ascii → nat) (m_nil : m [] = 0%nat).

Lemma strip_drop fuel l : ∃ n, strip m fuel l = drop n l.
Proof.
  revert l. induction fuel as [|fuel IH]; intros l; simpl; [by exists 0%nat|].
  destruct (m l) as [|n] eqn:Hm; [by exists 0%nat|].
  destruct (IH (drop (S n) l)) as [k ->]. exists (S n + k)%nat. by rewrite drop_drop.
Qed.

Lemma strip_done fuel l : (length l ≤ fuel)%nat → m (strip m fuel l) = 0%nat.
Proof using m_nil.
  revert l. induction fuel as [|fuel IH]; intros l Hl; simpl.
  { destruct l; [done|simpl in Hl; lia]. }
  destruct (m l) as [|n] eqn:Hm; [done|]. apply IH. rewrite length_drop.
  destruct l; [congruence|simpl in *; lia].
Qed.

Lemma strip_fixed fuel l : m l = 0%nat → strip m fuel l = l.
Proof. intros Hm. destruct fuel; simpl; [done|]. by rewrite Hm. Qed.

Lemma strip_all_drop l : ∃ n, strip_all m l = drop n l.
Proof. apply strip_drop. Qed.

Lemma strip_all_done l : m (strip_all m l) = 0%nat.
Proof using m_nil. by apply strip_done. Qed.
End strip.

(** What a trim removes is at the two ends. *)
Lemma trim_by_sublist left right s :
  ∃ i j, to_bytes (trim_by left right s) = take i (drop j (to_bytes s)).
Proof.
  unfold trim_by. rewrite to_of_bytes.
  destruct (strip_all_drop left (to_bytes s)) as [j ->].
  destruct (strip_all_drop right (reverse (drop j (to_bytes s)))) as [k Hk].
  exists (length (drop j (to_bytes s)) - k)%nat, j.
  by rewrite Hk, drop_reverse, reverse_involutive.
Qed.

(** A measure that looks at the first bytes only: a prefix of a list that starts
    with no space starts with none either. *)
Class PrefixMeasure (m : list ascii → nat) := {
  pm_nil : m [] = 0%nat;
  pm_take : ∀ n l, m l = 0%nat → m (take n l) = 0%nat;
}.

#[export] Instance space_len_prefix : PrefixMeasure space_len.
Proof.
  split; [done|]. intros [|[|[|n]]] [|a [|b [|c l]]] H; try done; revert H;
    unfold space_len; simpl; repeat case_match; done.
Qed.

#[export] Instance rspace_len_prefix : PrefixMeasure rspace_len.
Proof.
  split; [done|]. intros [|[|[|n]]] [|a [|b [|c l]]] H; try done; revert H;
    unfold rspace_len; simpl; repeat case_match; done.
Qed.

#[export] Instance cut_len_prefix cutset : PrefixMeasure (cut_len cutset).
Proof. split; [done|]. by intros [|n] [|a l] H. Qed.

Lemma trim_by_idemp left right `{!PrefixMeasure left, !PrefixMeasure right} s :
  trim_by left right (trim_by left right s) = trim_by left right s.
Proof.
  unfold trim_by. rewrite to_of_bytes.
  set (l := strip_all left (to_bytes s)).
  assert (Hl : left l = 0%nat) by apply strip_all_done, pm_nil.
  set (r := strip_all right (reverse l)).
  assert (Hr : right r = 0%nat) by apply strip_all_done, pm_nil.
  assert (left (reverse r) = 0%nat) as Hlr.
  { unfold r. destruct (strip_all_drop right (reverse l)) as [n ->].
    rewrite drop_reverse, reverse_involutive. by apply pm_take. }
  unfold strip_all at 2. rewrite strip_fixed by done.
  rewrite reverse_involutive. unfold strip_all. by rewrite strip_fixed.
Qed.

Lemma TrimSpace_idemp s : TrimSpace (TrimSpace s) = TrimSpace s.
Proof. apply (trim_by_idemp _ _). Qed.

(** ** Lemmas: lower case *)

Definition lower_fixed (c : ascii) : bool := negb (in_range 65 (byte_val c) 90).

Lemma byte_val_range c : 0 ≤ byte_val c < 256.
Proof. unfold byte_val. pose proof (N_ascii_bounded c). lia. Qed.

Lemma byte_val_inj c d : byte_val c = byte_val d → c = d.
Proof.
  unfold byte_val. intros H%N2Z.inj.
  by rewrite <- (ascii_N_embedding c), H, ascii_N_embedding.
Qed.

Lemma val_byte_val z : 0 ≤ z < 256 → byte_val (val_byte z) = z.
Proof.
  intros Hz. unfold byte_val, val_byte. rewrite N_ascii_embedding by lia. lia.
Qed.

Lemma in_range_true lo z hi : in_range lo z hi = true ↔ lo ≤ z ≤ hi.
Proof. unfold in_range. rewrite andb_true_iff, !Z.leb_le. lia. Qed.

Lemma in_range_false lo z hi : in_range lo z hi = false ↔ z < lo ∨ hi < z.
Proof. unfold in_range. rewrite andb_false_iff, !Z.leb_gt. lia. Qed.

Lemma lower_byte_fixed c : lower_fixed (lower_byte c) = true.
Proof.
  unfold lower_fixed, lower_byte. destruct (in_range 65 (byte_val c) 90) eqn:Hc.
  - apply in_range_true in Hc. rewrite val_byte_val by lia.
    apply negb_true_iff, in_range_false. lia.
  - by rewrite Hc.
Qed.

Lemma lower_byte_id c : lower_fixed c = true → lower_byte c = c.
Proof. unfold lower_fixed, lower_byte. by destruct (in_range 65 (byte_val c) 90). Qed.

Lemma lower_byte_ascii c : byte_val c < 128 → byte_val (lower_byte c) < 128.
Proof.
  unfold lower_byte. intros Hc. destruct (in_range 65 (byte_val c) 90) eqn:Hr; [|done].
  apply in_range_true in Hr. rewrite val_byte_val; lia.
Qed.

Lemma is_ascii_spec s : is_ascii s = true ↔ Forall (λ c, byte_val c < 128) (to_bytes s).
Proof.
  unfold is_ascii. rewrite forallb_forall, <- List.Forall_forall.
  apply Forall_iff. intros c. apply Z.ltb_lt.
Qed.

Section lower.
Context `{Unicode}.

Lemma ToLower_ascii s : is_ascii s = true → is_ascii (ToLower s) = true.
Proof.
  intros Hs. unfold ToLower. rewrite Hs. apply is_ascii_spec in Hs. apply is_ascii_spec.
  rewrite to_of_bytes. apply Forall_fmap. eapply Forall_impl; [done|].
  intros c. apply lower_byte_ascii.
Qed.

Lemma ToLower_lowered s :
  is_ascii s = true → Forall (λ c, lower_fixed c = true) (to_bytes (ToLower s)).
Proof.
  intros Hs. unfold ToLower. rewrite Hs, to_of_bytes. apply Forall_fmap, Forall_true.
  intros c. apply lower_byte_fixed.
Qed.

Lemma ToLower_fixed s :
  is_ascii s = true → Forall (λ c, lower_fixed c = true) (to_bytes s) → ToLower s = s.
Proof.
  intros Hs Hf. unfold ToLower. rewrite Hs. rewrite <- (of_to_bytes s) at 2. f_equal.
  rewrite <- (list_fmap_id (to_bytes s)) at 2. apply list_fmap_ext. intros i c Hc.
  apply lower_byte_id. by eapply Forall_lookup_1 in Hf.
Qed.

(** Trimming a lowered ASCII text leaves a text that lowering and trimming fix. *)
Lemma trim_lower_fixed s :
  is_ascii s = true →
  is_ascii (TrimSpace (ToLower s)) = true ∧
  TrimSpace (ToLower (TrimSpace (ToLower s))) = TrimSpace (ToLower s).
Proof.
  intros Hs.
  destruct (trim_by_sublist space_len rspace_len (ToLower s)) as (i & j & Hij).
  fold (TrimSpace (ToLower s)) in Hij.
  assert (Ha : is_ascii (TrimSpace (ToLower s)) = true).
  { apply is_ascii_spec. rewrite Hij. apply Forall_take, Forall_drop, is_ascii_spec.
    by apply ToLower_ascii. }
  split; [done|]. rewrite ToLower_fixed; [apply TrimSpace_idemp|done|].
  rewrite Hij. apply Forall_take, Forall_drop. by apply ToLower_lowered.
Qed.
End lower.

(** ** Lemmas: hexadecimal text *)

Lemma hex_char_decode d : 0 ≤ d < 16 → from_hex_char (hex_char d) = Some d.
Proof.
  intros Hd. unfold hex_char. set (z := if d <? 10 then 48 + d else 87 + d).
  assert (Hz : z = 48 + d ∧ d < 10 ∨ z = 87 + d ∧ 10 ≤ d).
  { unfold z. destruct (Z.ltb_spec d 10); lia. }
  unfold from_hex_char. rewrite val_byte_val by lia.
  destruct (in_range 48 z 57) eqn:H1.
  { apply in_range_true in H1. f_equal. lia. }
  apply in_range_false in H1.
  destruct (in_range 97 z 102) eqn:H2; [apply in_range_true in H2; f_equal; lia|].
  apply in_range_false in H2. lia.
Qed.

Lemma hex_decode_pair x y rest :
  0 ≤ x < 16 → 0 ≤ y < 16 →
  hex_decode (hex_char x :: hex_char y :: rest) = cons (x * 16 + y) <$> hex_decode rest.
Proof.
  intros Hx Hy. cbn [hex_decode]. rewrite !hex_char_decode by done.
  by destruct (hex_decode rest).
Qed.

Lemma hex_decode_encode (l : list Z) :
  Forall (λ b, 0 ≤ b < 256) l → DecodeString (EncodeToString l) = Some l.
Proof.
  unfold DecodeString, EncodeToString. rewrite to_of_bytes.
  induction 1 as [|b l Hb _ IH]; [done|].
  cbn [flat_map app]. rewrite hex_decode_pair.
  - rewrite IH. simpl. do 2 f_equal. pose proof (Z.div_mod b 16). lia.
  - split; [apply Z.div_pos|apply Z.div_lt_upper_bound]; lia.
  - apply Z.mod_pos_bound. lia.
Qed.

Lemma length_EncodeToString l : String.length (EncodeToString l) = (2 * length l)%nat.
Proof.
  unfold EncodeToString. rewrite <- length_to_bytes, to_of_bytes.
  induction l as [|b l IH]; cbn [flat_map app length]; lia.
Qed.

(** ** Lemmas: splitting *)

Fixpoint join (ws : list string) (sep : ascii) : string :=
  match ws with
  | [] => ""
  | [w] => w
  | w :: ws => w +:+ String sep (join ws sep)
  end.

Lemma Split_nonempty s sep : Split s sep ≠ [].
Proof. destruct s; simpl; repeat case_match; done. Qed.

Lemma join_Split s sep : join (Split s sep) sep = s.
Proof.
  induction s as [|c s IH]; [done|]. simpl.
  pose proof (Split_nonempty s sep) as Hne.
  destruct (Ascii.eqb_spec c sep) as [->|_].
  - destruct (Split s sep) as [|w ws] eqn:Hs; [done|].
    change (String sep (join (w :: ws) sep) = String sep s). by rewrite IH.
  - destruct (Split s sep) as [|w ws] eqn:Hs; [done|].
    destruct ws; simpl in *; by subst.
Qed.

Lemma Split_no_sep s sep : Forall (no_char sep) (Split s sep).
Proof.
  unfold no_char. induction s as [|c s IH]; simpl; [repeat constructor; set_solver|].
  destruct (Ascii.eqb_spec c sep) as [->|Hc]; [constructor; [set_solver|done]|].
  destruct (Split s sep) as [|w ws]; inversion_clear IH; repeat constructor; set_solver.
Qed.

Lemma Split_one s sep : no_char sep s → Split s sep = [s].
Proof.
  unfold no_char. induction s as [|c s IH]; simpl; intros Hn; [done|].
  destruct (Ascii.eqb_spec c sep) as [->|Hc]; [set_solver|].
  by rewrite IH by set_solver.
Qed.

Lemma Split_app s1 s2 sep :
  no_char sep s1 → Split (s1 +:+ String sep s2) sep = s1 :: Split s2 sep.
Proof.
  unfold no_char, String.app. induction s1 as [|c s IH]; simpl; intros Hn.
  { by rewrite Ascii.eqb_refl. }
  destruct (Ascii.eqb_spec c sep) as [->|Hc]; [set_solver|].
  by rewrite IH by set_solver.
Qed.

Lemma prefix_app s1 s2 : HasPrefix (s1 +:+ s2) s1 = true.
Proof.
  unfold HasPrefix, String.app. induction s1 as [|c s1 IH]; simpl; [by destruct s2|].
  by rewrite IH; destruct ascii_dec.
Qed.

Lemma TrimPrefix_app s1 s2 : TrimPrefix (s1 +:+ s2) s1 = s2.
Proof.
  unfold TrimPrefix. rewrite prefix_app, to_bytes_app, <- length_to_bytes, drop_app_length.
  apply of_to_bytes.
Qed.

#[export] Hint Rewrite TrimPrefix_app prefix_app : go_string.

Example TrimSpace_ex : TrimSpace "  a b	 " = "a b".
Proof. reflexivity. Qed.
Example Split_ex : Split "a/b//c" "/" = ["a"; "b"; ""; "c"].
Proof. reflexivity. Qed.
