(* ===== verification/GoTime.v ===== *)
(** * Instants and durations

    A [time.Time] is the number of nanoseconds between the Unix epoch and the
    instant, a [time.Duration] an [int64] number of nanoseconds.  [Sub], [Since]
    and [Until] saturate as package [time] does.  [Format] is given for the two
    layouts of [quota.go], over the proleptic Gregorian calendar. *)

From Stdlib Require Import Ascii.
From S2P Require Export GoInt GoString.
Local Open Scope Z_scope.

Abbreviation time := Z.
Abbreviation Duration := Z.

Definition Millisecond : Duration := 1000000.
Definition Second : Duration := 1000000000.

(** [time.Time{}]: January 1 of year 1, UTC. *)
Definition time_zero : time := - 62135596800 * Second.

Definition After (t u : time) : bool := u <? t.
Definition Before (t u : time) : bool := t <? u.

Definition sat64 (z : Z) : Z := Z.max min_int64 (Z.min max_int64 z).

Definition Sub (t u : time) : Duration := sat64 (t - u).
Definition Since (now t : time) : Duration := Sub now t.
Definition Until (now t : time) : Duration := Sub t now.

(** [time.Unix(sec, 0)]: the seconds are stored from year 1 in an [int64]. *)
Definition Unix (sec : Z) : time := (wrap64 (sec + 62135596800) - 62135596800) * Second.

(** ** Calendar *)

Definition day_number (t : time) : Z := t `div` (86400 * Second).

(** Year of the era (400 years of 146097 days, from March 1 of year 0), month
    and day of a day of the era. *)
Definition era_days : Z := 146097.

Definition civil_of_era_day (doe : Z) : Z * Z * Z :=
  let yoe := (doe - doe `div` 1460 + doe `div` 36524 - doe `div` 146096) `div` 365 in
  let doy := doe - (365 * yoe + yoe `div` 4 - yoe `div` 100) in
  let mp := (5 * doy + 2) `div` 153 in
  let d := doy - (153 * mp + 2) `div` 5 + 1 in
  let m := if mp <? 10 then mp + 3 else mp - 9 in
  ((if m <=? 2 then yoe + 1 else yoe), m, d).

Definition civil_of_day (n : Z) : Z * Z * Z :=
  let z := n + 719468 in
  let '(y, m, d) := civil_of_era_day (z `mod` era_days) in
  (y + 400 * (z `div` era_days), m, d).

(** The inverse, used to show that the date determines the day. *)
Definition era_day_of_civil (y m d : Z) : Z :=
  let y' := if m <=? 2 then y - 1 else y in
  let mp := if 2 <? m then m - 3 else m + 9 in
  365 * y' + y' `div` 4 - y' `div` 100 + (153 * mp + 2) `div` 5 + d - 1.

(** ** [Format] *)

Fixpoint zeros (n : nat) (s : string) : string :=
  match n with
  | O => s
  | S n => String "0" (zeros n s)
  end.

(** [appendInt(b, n, width)] for [n >= 0]. *)
Definition pad_int (width : nat) (n : Z) : string :=
  let s := dec_loop dec_fuel n "" in zeros (width - String.length s) s.

Definition append_year (y : Z) : string :=
  if y <? 0 then String "-" (pad_int 4 (- y)) else pad_int 4 y.

(** [now.Format("2006-01-02")] and [now.Format("2006-01")]. *)
Definition format_day (t : time) : string :=
  let '(y, m, d) := civil_of_day (day_number t) in
  append_year y +:+ "-" +:+ pad_int 2 m +:+ "-" +:+ pad_int 2 d.

Definition format_month (t : time) : string :=
  let '(y, m, _) := civil_of_day (day_number t) in
  append_year y +:+ "-" +:+ pad_int 2 m.

Example format_ex :
  format_day (1700000000 * Second) = "2023-11-14" ∧ format_month (951782400 * Second) = "2000-02"
  ∧ format_day (951782400 * Second) = "2000-02-29" ∧ format_day 0 = "1970-01-01"
  ∧ format_day time_zero = "0001-01-01".
Proof. by vm_compute. Qed.

(** ** Lemmas *)

Lemma sat64_range z : in_int64 (sat64 z).
Proof. unfold in_int64, sat64, min_int64, max_int64. lia. Qed.

Lemma sat64_id z : in_int64 z → sat64 z = z.
Proof. unfold in_int64, sat64, min_int64, max_int64. lia. Qed.

Fixpoint all_from (P : Z → bool) (n : nat) (z : Z) : bool :=
  match n with
  | O => true
  | S n => P z && all_from P n (z + 1)
  end.

Lemma all_from_spec P n z k :
  all_from P n z = true → z ≤ k < z + Z.of_nat n → P k = true.
Proof.
  revert z. induction n as [|n IH]; intros z H Hk; [lia|]. simpl in H.
  apply andb_prop in H as [Hz Hn]. destruct (decide (k = z)) as [->|]; [done|].
  apply (IH (z + 1)); [done|lia].
Qed.

(** The year of the era is right at the first and the last day of each of the
    400 years, and monotone in between. *)
Definition year_days (doe : Z) : Z :=
  doe - doe `div` 1460 + doe `div` 36524 - doe `div` 146096.
Definition year_start (y : Z) : Z := 365 * y + y `div` 4 - y `div` 100.

Lemma year_days_step d : 0 ≤ d < 146096 → year_days d ≤ year_days (d + 1).
Proof.
  unfold year_days. intros Hd. destruct (decide (d = 146095)) as [->|Hne]; [done|].
  rewrite (Z.div_small d 146096), (Z.div_small (d + 1) 146096) by lia.
  pose proof (Z.div_le_mono d (d + 1) 36524).
  assert ((d + 1) `div` 1460 ≤ d `div` 1460 + 1).
  { rewrite <- (Z.div_add d 1 1460) by lia. apply Z.div_le_mono; lia. }
  lia.
Qed.

Lemma year_days_mono d1 d2 : 0 ≤ d1 ≤ d2 → d2 ≤ 146096 → year_days d1 ≤ year_days d2.
Proof.
  intros [H0 Hle] Hm. replace d2 with (d1 + Z.of_nat (Z.to_nat (d2 - d1))) in * by lia.
  clear Hle. induction (Z.to_nat (d2 - d1)) as [|n IH].
  - by rewrite Z.add_0_r.
  - etrans; [apply IH; lia|]. replace (d1 + Z.of_nat (S n)) with (d1 + Z.of_nat n + 1) by lia.
    apply year_days_step. lia.
Qed.

Definition year_ok (y : Z) : bool :=
  (365 * y <=? year_days (year_start y)) &&
  ((y =? 0) || (year_days (year_start y - 1) <? 365 * y)).

Lemma years_ok : all_from year_ok 400 0 = true.
Proof. vm_compute. reflexivity. Qed.

Lemma year_of_era doe y :
  0 ≤ doe < era_days → y = year_days doe `div` 365 →
  0 ≤ y ≤ 399 ∧ year_start y ≤ doe ≤ year_start y + 365.
Proof.
  unfold era_days. intros Hd Hy.
  assert (Hlo : 0 ≤ year_days doe) by (apply (year_days_mono 0); lia).
  assert (Hhi : year_days doe ≤ 145999) by (apply (year_days_mono doe 146096); lia).
  pose proof (Z.div_mod (year_days doe) 365). pose proof (Z.mod_pos_bound (year_days doe) 365).
  assert (Hyr : 0 ≤ y ≤ 399) by lia. split; [done|].
  assert (Hge : ∀ y', 0 ≤ y' ≤ 399 → 365 * y' ≤ year_days doe → year_start y' ≤ doe).
  { intros y' Hy' Hle. pose proof (all_from_spec _ _ _ y' years_ok ltac:(lia)) as Hok.
    unfold year_ok in Hok. apply andb_prop in Hok as [_ Hok].
    destruct (Z_le_gt_dec (year_start y') doe); [done|].
    apply orb_prop in Hok as [Hok|Hok]; [apply Z.eqb_eq in Hok as ->; by destruct Hd|].
    apply Z.ltb_lt in Hok.
    assert (0 ≤ year_start y' - 1 ≤ 146096).
    { unfold year_start in *. Z.to_euclidean_division_equations. lia. }
    pose proof (year_days_mono doe (year_start y' - 1)). lia. }
  split; [apply Hge; lia|].
  destruct (decide (y = 399)) as [->|].
  { change (year_start 399) with 145731. lia. }
  destruct (Z_le_gt_dec doe (year_start y + 365)); [done|]. exfalso.
  pose proof (all_from_spec _ _ _ (y + 1) years_ok ltac:(lia)) as Hok.
  unfold year_ok in Hok. apply andb_prop in Hok as [Hok%Z.leb_le _].
  assert (0 ≤ year_start (y + 1) ≤ doe).
  { unfold year_start in *. Z.to_euclidean_division_equations. lia. }
  pose proof (year_days_mono (year_start (y + 1)) doe). lia.
Qed.

(** Month and day from the day of the year, by computation on its 366 values. *)
Definition month_day (doy : Z) : Z * Z :=
  let mp := (5 * doy + 2) `div` 153 in
  ((if mp <? 10 then mp + 3 else mp - 9), doy - (153 * mp + 2) `div` 5 + 1).

Definition month_day_ok (doy : Z) : bool :=
  let '(m, d) := month_day doy in
  let mp := if 2 <? m then m - 3 else m + 9 in
  ((153 * mp + 2) `div` 5 + d - 1 =? doy) && (1 <=? m) && (m <=? 12) && (1 <=? d) && (d <=? 31).

Lemma month_days_ok : all_from month_day_ok 366 0 = true.
Proof. vm_compute. reflexivity. Qed.

Lemma civil_era_inv doe y m d :
  0 ≤ doe < era_days → civil_of_era_day doe = (y, m, d) →
  era_day_of_civil y m d = doe ∧ (if m <=? 2 then 1 ≤ y ≤ 400 else 0 ≤ y ≤ 399)
  ∧ 1 ≤ m ≤ 12 ∧ 1 ≤ d ≤ 31.
Proof.
  intros Hd Hc. unfold civil_of_era_day in Hc. fold (year_days doe) in Hc.
  destruct (year_of_era doe _ Hd eq_refl) as [Hy Hs].
  set (yoe := year_days doe `div` 365) in *.
  replace (doe - (365 * yoe + yoe `div` 4 - yoe `div` 100)) with (doe - year_start yoe) in Hc
    by done.
  pose proof (all_from_spec _ _ _ (doe - year_start yoe) month_days_ok ltac:(lia)) as Hok.
  unfold month_day_ok, month_day in Hok. injection Hc as Hyy Hm Hdd.
  rewrite Hm in Hyy. rewrite Hm, Hdd, !andb_true_iff, !Z.leb_le, Z.eqb_eq in Hok. clear Hm Hdd.
  unfold era_day_of_civil. fold (year_start yoe) in Hs. unfold year_start in *.
  revert Hok Hyy. destruct (Z.leb_spec m 2), (Z.ltb_spec 2 m); intros Hok <-;
    repeat split; try lia; replace (yoe + 1 - 1) with yoe by lia; lia.
Qed.

(** The date determines the day. *)
Lemma civil_of_day_inj n1 n2 : civil_of_day n1 = civil_of_day n2 → n1 = n2.
Proof.
  unfold civil_of_day. intros H.
  pose proof (Z.mod_pos_bound (n1 + 719468) era_days ltac:(done)) as Hb1.
  pose proof (Z.mod_pos_bound (n2 + 719468) era_days ltac:(done)) as Hb2.
  pose proof (Z.div_mod (n1 + 719468) era_days ltac:(done)) as Hq1.
  pose proof (Z.div_mod (n2 + 719468) era_days ltac:(done)) as Hq2.
  destruct (civil_of_era_day ((n1 + 719468) `mod` era_days)) as [[y1 m1] d1] eqn:H1.
  destruct (civil_of_era_day ((n2 + 719468) `mod` era_days)) as [[y2 m2] d2] eqn:H2.
  apply civil_era_inv in H1 as (He1 & Hy1 & _); [|done].
  apply civil_era_inv in H2 as (He2 & Hy2 & _); [|done].
  injection H as Hq -> ->.
  generalize dependent ((n1 + 719468) `div` era_days). intros q1 Hq Hq1.
  generalize dependent ((n2 + 719468) `div` era_days). intros q2 Hq Hq2.
  assert (q1 = q2 ∧ y1 = y2) as [-> ->] by (destruct (m2 <=? 2); lia).
  lia.
Qed.

(** Printing and reading back a padded number. *)
Lemma parse_zeros n s : parse_digits 0 (zeros n s) = parse_digits 0 s.
Proof. by induction n. Qed.

Lemma parse_pad_int w n :
  0 ≤ n ≤ max_uint64 → parse_digits 0 (pad_int w n) = PValue n.
Proof. intros Hn. unfold pad_int. by rewrite parse_zeros, parse_dec_fuel. Qed.

Lemma pad_int_inj w n1 n2 :
  0 ≤ n1 ≤ max_uint64 → 0 ≤ n2 ≤ max_uint64 → pad_int w n1 = pad_int w n2 → n1 = n2.
Proof.
  intros H1 H2 H. apply (parse_pad_int w) in H1, H2. rewrite H in H1. congruence.
Qed.

Lemma dash_not_digit : is_digit "-" = false.
Proof. reflexivity. Qed.

Lemma zeros_digits n s :
  forallb is_digit (to_bytes s) = true → forallb is_digit (to_bytes (zeros n s)) = true.
Proof. induction n; simpl; auto. Qed.

Lemma pad_int_no_dash w n : no_char "-" (pad_int w n).
Proof.
  unfold no_char, pad_int. intros Hin.
  pose proof (zeros_digits (w - String.length (dec_loop dec_fuel n "")) _
    (dec_loop_digits dec_fuel n "" eq_refl)) as Hd.
  rewrite forallb_forall in Hd. apply list_elem_of_In, Hd in Hin.
  by rewrite dash_not_digit in Hin.
Qed.

(** Within years 0 and 2^64 the formatted day identifies the UTC day. *)
Definition year_of (t : time) : Z := (civil_of_day (day_number t)).1.1.

Lemma civil_of_day_bounds n y m d :
  civil_of_day n = (y, m, d) → 1 ≤ m ≤ 12 ∧ 1 ≤ d ≤ 31.
Proof.
  unfold civil_of_day. destruct (civil_of_era_day _) as [[y0 m0] d0] eqn:H.
  intros [= <- -> ->]. apply civil_era_inv in H as (_ & _ & ?); [done|].
  by apply Z.mod_pos_bound.
Qed.

Lemma format_day_inj t1 t2 :
  0 ≤ year_of t1 ≤ max_uint64 → 0 ≤ year_of t2 ≤ max_uint64 →
  format_day t1 = format_day t2 → day_number t1 = day_number t2.
Proof.
  unfold year_of, format_day, append_year. intros Hy1 Hy2 H. apply civil_of_day_inj.
  destruct (civil_of_day (day_number t1)) as [[y1 m1] d1] eqn:H1.
  destruct (civil_of_day (day_number t2)) as [[y2 m2] d2] eqn:H2.
  apply civil_of_day_bounds in H1, H2. simpl in *.
  destruct (Z.ltb_spec y1 0), (Z.ltb_spec y2 0); [lia..|].
  apply join_key_inj in H as [Hy H]; [|apply pad_int_no_dash..].
  apply join_key_inj in H as [Hm Hd]; [|apply pad_int_no_dash..].
  apply pad_int_inj in Hy, Hm, Hd; unfold max_uint64 in *; try lia. by subst.
Qed.

(** The month is part of the day. *)
Lemma format_day_month t1 t2 : day_number t1 = day_number t2 → format_month t1 = format_month t2.
Proof. unfold format_month. by intros ->. Qed.
