(* ===== verification/Sha256.v ===== *)
(** * SHA-256 and HMAC-SHA-256

    Packages [crypto/sha256] and [crypto/hmac] of the Go standard library, as
    [security.go] and [server.go] use them: FIPS 180-4 and RFC 2104 over bytes in
    [0, 256).  Checked against the published test vectors at the end. *)

From S2P Require Export GoString.
Local Open Scope Z_scope.

Definition mask32 : Z := 2 ^ 32 - 1.
Definition add32 (a b : Z) : Z := Z.land (a + b) mask32.
Definition rotr (n x : Z) : Z := Z.lor (Z.shiftr x n) (Z.land (Z.shiftl x (32 - n)) mask32).

Definition Ch (x y z : Z) : Z := Z.lxor (Z.land x y) (Z.land (Z.lxor x mask32) z).
Definition Maj (x y z : Z) : Z := Z.lxor (Z.lxor (Z.land x y) (Z.land x z)) (Z.land y z).
Definition Sigma0 (x : Z) : Z := Z.lxor (Z.lxor (rotr 2 x) (rotr 13 x)) (rotr 22 x).
Definition Sigma1 (x : Z) : Z := Z.lxor (Z.lxor (rotr 6 x) (rotr 11 x)) (rotr 25 x).
Definition sigma0 (x : Z) : Z := Z.lxor (Z.lxor (rotr 7 x) (rotr 18 x)) (Z.shiftr x 3).
Definition sigma1 (x : Z) : Z := Z.lxor (Z.lxor (rotr 17 x) (rotr 19 x)) (Z.shiftr x 10).

Definition round_constants : list Z :=
  [1116352408; 1899447441; 3049323471; 3921009573; 961987163; 1508970993;
   2453635748; 2870763221; 3624381080; 310598401; 607225278; 1426881987;
   1925078388; 2162078206; 2614888103; 3248222580; 3835390401; 4022224774;
   264347078; 604807628; 770255983; 1249150122; 1555081692; 1996064986;
   2554220882; 2821834349; 2952996808; 3210313671; 3336571891; 3584528711;
   113926993; 338241895; 666307205; 773529912; 1294757372; 1396182291;
   1695183700; 1986661051; 2177026350; 2456956037; 2730485921; 2820302411;
   3259730800; 3345764771; 3516065817; 3600352804; 4094571909; 275423344;
   430227734; 506948616; 659060556; 883997877; 958139571; 1322822218;
   1537002063; 1747873779; 1955562222; 2024104815; 2227730452; 2361852424;
   2428436474; 2756734187; 3204031479; 3329325298].

Definition initial_state : list Z :=
  [1779033703; 3144134277; 1013904242; 2773480762; 1359893119; 2600822924;
   528734635; 1541459225].


(** ** Words and blocks *)

Fixpoint words (l : list Z) : list Z :=
  match l with
  | a :: b :: c :: d :: rest => (a * 16777216 + b * 65536 + c * 256 + d) :: words rest
  | _ => []
  end.

Definition word_bytes (w : Z) : list Z :=
  [w `div` 16777216; (w `div` 65536) `mod` 256; (w `div` 256) `mod` 256; w `mod` 256].

(** A one bit, zeros up to 56 bytes modulo 64, and the length in bits. *)
Definition pad (l : list Z) : list Z :=
  let n := Z.of_nat (length l) in
  let k := (55 - n) `mod` 64 in
  l ++ [128] ++ replicate (Z.to_nat k) 0
    ++ word_bytes (8 * n `div` 4294967296) ++ word_bytes ((8 * n) `mod` 4294967296).

(** The message schedule, latest word first: [w] holds the last 16 words. *)
Fixpoint schedule (n : nat) (w : list Z) : list Z :=
  match n with
  | O => []
  | S n =>
      let x := add32 (add32 (sigma1 (nth 1 w 0)) (nth 6 w 0)) (add32 (sigma0 (nth 14 w 0)) (nth 15 w 0)) in
      x :: schedule n (x :: take 15 w)
  end.

Definition round (st : list Z) (kw : Z * Z) : list Z :=
  match st with
  | [a; b; c; d; e; f; g; h] =>
      let t1 := add32 (add32 h (Sigma1 e)) (add32 (Ch e f g) (add32 kw.1 kw.2)) in
      let t2 := add32 (Sigma0 a) (Maj a b c) in
      [add32 t1 t2; a; b; c; add32 d t1; e; f; g]
  | _ => st
  end.

Definition compress (st : list Z) (block : list Z) : list Z :=
  let w := words block in
  zip_with add32 st (foldl round st (zip round_constants (w ++ schedule 48 (reverse w)))).

Fixpoint blocks (fuel : nat) (st l : list Z) : list Z :=
  match fuel, l with
  | S fuel, _ :: _ => blocks fuel (compress st (take 64 l)) (drop 64 l)
  | _, _ => st
  end.

(** [sha256.Sum256]. *)
Definition Sum256 (l : list Z) : list Z :=
  let p := pad l in flat_map word_bytes (blocks (length p) initial_state p).

Definition bytes_of (s : string) : list Z := byte_val <$> to_bytes s.

(** [hmac.New(sha256.New, key)] fed with [msg]. *)
Definition hmac_sha256 (key msg : list Z) : list Z :=
  let k := if (64 <? Z.of_nat (length key)) then Sum256 key else key in
  let k := k ++ replicate (64 - length k) 0 in
  Sum256 ((Z.lxor 92 <$> k) ++ Sum256 ((Z.lxor 54 <$> k) ++ msg)).

(** ** Lemmas *)

Lemma land_mask32 x : Z.land x mask32 = x `mod` 2 ^ 32.
Proof. unfold mask32. rewrite <- Z.land_ones by lia. f_equal. Qed.

Definition is_byte (b : Z) : Prop := 0 ≤ b < 256.
Definition is_word (w : Z) : Prop := 0 ≤ w < 2 ^ 32.

Lemma add32_word a b : is_word (add32 a b).
Proof. unfold is_word, add32. rewrite land_mask32. apply Z.mod_pos_bound. lia. Qed.

Lemma word_bytes_bytes w : is_word w → Forall is_byte (word_bytes w).
Proof.
  unfold is_word, is_byte, word_bytes. intros Hw.
  repeat constructor; try (apply Z.mod_pos_bound; lia).
  - apply Z.div_pos; lia.
  - apply Z.div_lt_upper_bound; lia.
Qed.

Lemma bytes_of_bytes s : Forall is_byte (bytes_of s).
Proof. apply Forall_fmap, Forall_true. intros c. apply byte_val_range. Qed.

Lemma compress_word st block : length st = 8%nat → Forall is_word (compress st block).
Proof.
  intros _. unfold compress. generalize (foldl round st (zip round_constants (words block
    ++ schedule 48 (reverse (words block))))). intros l.
  revert l. induction st as [|x st IH]; intros [|y l]; simpl; constructor; auto using add32_word.
Qed.

Lemma length_round st kw : length (round st kw) = length st.
Proof. unfold round. by repeat case_match. Qed.

Lemma length_rounds st l : length (foldl round st l) = length st.
Proof. revert st. induction l as [|x l IH]; intros st; simpl; [done|]. by rewrite IH, length_round. Qed.

Lemma length_compress st block : length (compress st block) = length st.
Proof. unfold compress. rewrite length_zip_with, length_rounds. lia. Qed.

Lemma blocks_word fuel st l :
  length st = 8%nat → Forall is_word st →
  length (blocks fuel st l) = 8%nat ∧ Forall is_word (blocks fuel st l).
Proof.
  revert st l. induction fuel as [|fuel IH]; intros st [|x l] Hlen Hst; cbn [blocks]; try done.
  apply IH; [by rewrite length_compress|by apply compress_word].
Qed.

(** A digest is 32 bytes. *)
Lemma Sum256_bytes l : length (Sum256 l) = 32%nat ∧ Forall is_byte (Sum256 l).
Proof.
  unfold Sum256. destruct (blocks_word (length (pad l)) initial_state (pad l)) as [Hlen Hw].
  - done.
  - repeat constructor; done.
  - split.
    + destruct (blocks _ _ _) as [|? [|? [|? [|? [|? [|? [|? [|? [|]]]]]]]]]; try done.
    + clear Hlen. induction Hw as [|w l' Hw _ IH]; [constructor|].
      apply Forall_app. split; [by apply word_bytes_bytes|done].
Qed.

Lemma hmac_bytes key msg :
  length (hmac_sha256 key msg) = 32%nat ∧ Forall is_byte (hmac_sha256 key msg).
Proof. apply Sum256_bytes. Qed.

Lemma hex_digest_roundtrip l : DecodeString (EncodeToString (Sum256 l)) = Some (Sum256 l).
Proof. apply hex_decode_encode. apply Sum256_bytes. Qed.

(** ** Test vectors: FIPS 180-4 and RFC 4231 *)

Example sha256_abc : EncodeToString (Sum256 (bytes_of "abc"))
  = "ba7816bf8f01cfea414140de5dae2223b00361a396177a9cb410ff61f20015ad".
Proof. by vm_compute. Qed.

Example sha256_two_blocks :
  EncodeToString (Sum256 (bytes_of "abcdbcdecdefdefgefghfghighijhijkijkljklmklmnlmnomnopnopq"))
  = "248d6a61d20638b8e5c026930c3e6039a33ce45964ff2167f6ecedd419db06c1".
Proof. by vm_compute. Qed.

Example hmac_rfc4231_2 :
  EncodeToString (hmac_sha256 (bytes_of "Jefe") (bytes_of "what do ya want for nothing?"))
  = "5bdcc146bf60754e6a042426089575c75a003f089d2739839dec58b964ec3843".
Proof. by vm_compute. Qed.
