(* ===== verification/GoSort.v ===== *)
(** * Map iteration and sorting

    Two sources of freedom of Go programs, stated as interfaces so that the
    theorems hold for every choice: [range] over a map visits the entries in an
    unspecified order ([MapRange]), and [sort.Slice] returns some sorted
    permutation ([SortSlice]), unstable on ties. *)

From S2P Require Export Prelude.

(** ** Orders given by a [less] function *)

Definition le_of {A} (less : A → A → bool) (x y : A) : Prop := less y x = false.

Class LessOrder {A} (less : A → A → bool) : Prop := {
  less_asym : ∀ x y, less x y = true → less y x = false;
  le_of_trans : ∀ x y z, le_of less x y → le_of less y z → le_of less x z;
}.

#[export] Instance le_of_dec {A} (less : A → A → bool) x y : Decision (le_of less x y).
Proof. unfold le_of. apply _. Defined.

(** ** Interfaces *)

Class MapRange := map_range : ∀ {A}, gmap string A → list (string * A).
Class MapRangeOk `{MapRange} : Prop :=
  map_range_perm : ∀ A (m : gmap string A), map_range m ≡ₚ map_to_list m.

Class SortSlice := sort_slice : ∀ {A}, (A → A → bool) → list A → list A.
Class SortSliceOk `{SortSlice} : Prop := {
  sort_slice_perm : ∀ A (less : A → A → bool) l, sort_slice less l ≡ₚ l;
  sort_slice_sorted : ∀ A (less : A → A → bool) l,
    LessOrder less → StronglySorted (le_of less) (sort_slice less l);
}.

(** Values visited by [for _, x := range m]. *)
Definition range_values `{MapRange} {A} (m : gmap string A) : list A := (map_range m).*2.

(** ** Implementations *)

Definition map_to_list_range : MapRange := λ A m, map_to_list m.

Definition merge_sort_slice : SortSlice := λ A less l, merge_sort (le_of less) l.

(** ** Lemmas *)

Lemma map_to_list_range_ok : @MapRangeOk map_to_list_range.
Proof. intros A m. reflexivity. Qed.

Section orders.
Context {A} (less : A → A → bool) `{!LessOrder less}.

#[export] Instance le_of_transitive : Transitive (le_of less).
Proof. intros x y z. apply le_of_trans. Qed.

#[export] Instance le_of_total : Total (le_of less).
Proof.
  intros x y. unfold le_of. destruct (less y x) eqn:H; [right|by left].
  by apply less_asym.
Qed.

#[export] Instance le_of_reflexive : Reflexive (le_of less).
Proof. intros x. by destruct (total (le_of less) x x). Qed.

Lemma less_le x y : less x y = true → le_of less x y.
Proof. apply less_asym. Qed.
End orders.

Lemma merge_sort_slice_ok : @SortSliceOk merge_sort_slice.
Proof.
  split; unfold sort_slice, merge_sort_slice; intros.
  - apply merge_sort_Permutation.
  - by apply StronglySorted_merge_sort; apply _.
Qed.

Section range.
Context `{MapRangeOk}.

Lemma elem_of_range {A} (m : gmap string A) k x : (k, x) ∈ map_range m ↔ m !! k = Some x.
Proof. rewrite map_range_perm. apply elem_of_map_to_list. Qed.

Lemma elem_of_range_values {A} (m : gmap string A) x :
  x ∈ range_values m ↔ ∃ k, m !! k = Some x.
Proof.
  unfold range_values. rewrite list_elem_of_fmap. split.
  - intros ([k y] & -> & Hk%elem_of_range). by exists k.
  - intros [k Hk]. exists (k, x). by rewrite elem_of_range.
Qed.

Lemma range_keys_nodup {A} (m : gmap string A) : NoDup (map_range m).*1.
Proof. rewrite map_range_perm. apply NoDup_fst_map_to_list. Qed.
End range.

(** ** Order by a number, ties broken by a name *)

Section prio_name.
Context {A : Type} (prio : A → Z) (name : A → string).

Definition less_prio_name (x y : A) : bool :=
  if decide (prio x = prio y) then String.ltb (name x) (name y) else bool_decide (prio x < prio y)%Z.

Lemma ltb_negb_leb s1 s2 : String.ltb s1 s2 = negb (String.leb s2 s1).
Proof.
  unfold String.ltb, String.leb. rewrite (String.compare_antisym s1 s2).
  by destruct (String.compare s2 s1).
Qed.

Lemma leb_trans s1 s2 s3 :
  String.leb s1 s2 = true → String.leb s2 s3 = true → String.leb s1 s3 = true.
Proof.
  intros H1%Is_true_true H2%Is_true_true. apply Is_true_true. revert H1 H2.
  apply (transitivity (R := String.le)).
Qed.

Lemma leb_ltb_total s1 s2 : String.leb s1 s2 = false → String.leb s2 s1 = true.
Proof. destruct (String.leb_total s1 s2); congruence. Qed.

Lemma le_prio_name x y :
  le_of less_prio_name x y ↔ (prio x < prio y)%Z ∨ (prio x = prio y ∧ String.leb (name x) (name y) = true).
Proof.
  unfold le_of, less_prio_name. rewrite ltb_negb_leb.
  destruct (decide (prio y = prio x)) as [->|Hne].
  - rewrite negb_false_iff. intuition lia.
  - rewrite bool_decide_eq_false. intuition lia.
Qed.

#[export] Instance less_prio_name_order : LessOrder less_prio_name.
Proof.
  split.
  - intros x y Hxy. apply le_prio_name. unfold less_prio_name in Hxy.
    rewrite ltb_negb_leb in Hxy. destruct (decide (prio x = prio y)).
    + right. split; [done|]. apply negb_true_iff in Hxy. by apply leb_ltb_total.
    + apply bool_decide_eq_true in Hxy. by left.
  - intros x y z. rewrite !le_prio_name. intros [?|[? H1]] [?|[? H2]]; try (left; lia).
    right. split; [lia|]. by eapply leb_trans.
Qed.

Lemma le_prio_name_antisym x y :
  le_of less_prio_name x y → le_of less_prio_name y x → name x = name y.
Proof.
  rewrite !le_prio_name. intros [?|[? H1]] [?|[? H2]]; try lia.
  by apply String.leb_antisym.
Qed.

(** With pairwise distinct names the sorted order is unique, so the freedom of
    [sort.Slice] and of map iteration does not show in the result. *)
Lemma sorted_prio_name_unique l1 l2 :
  (∀ x y, x ∈ l1 → y ∈ l1 → name x = name y → x = y) →
  StronglySorted (le_of less_prio_name) l1 → StronglySorted (le_of less_prio_name) l2 →
  l1 ≡ₚ l2 → l1 = l2.
Proof.
  intros Hinj H1 H2 Hp. apply (StronglySorted_unique_strong (le_of less_prio_name)); [|done..].
  intros x y Hx Hy Hxy Hyx. apply Hinj; [done|by rewrite Hp|]. by apply le_prio_name_antisym.
Qed.
End prio_name.
