(* ===== verification/Heap.v ===== *)
(** * [container/heap]

    The standard library's binary heap over a slice, in the form the two queues of
    package [queue] use it: the elements carry their own position ([index], kept by
    [Swap] and [Push]), and [Less] compares two positions of the slice.  [HeapItem]
    is Go's [heap.Interface] for such a slice; its laws say that the position is
    not part of the order. *)

From S2P Require Export GoSort.

Create HintDb go_heap.

Class HeapItem (A : Type) := {
  less : A → A → bool;
  set_index : nat → A → A;
  index : A → nat;
}.

Class HeapItemOk (A : Type) `{HeapItem A} : Prop := {
  heap_less_order :: LessOrder (less (A := A));
  less_set_l : ∀ i x y, less (set_index i x) y = less x y;
  less_set_r : ∀ i x y, less x (set_index i y) = less x y;
  index_set : ∀ i x, index (set_index i x) = i;
  set_set : ∀ i j x, set_index i (set_index j x) = set_index i x;
}.

Section ops.
Context {A : Type} `{HeapItem A}.

(** [h.Less(i, j)]; the positions are always in range. *)
Definition Less (h : list A) (i j : nat) : bool :=
  match h !! i, h !! j with
  | Some x, Some y => less x y
  | _, _ => false
  end.

(** [h[i], h[j] = h[j], h[i]; h[i].index = i; h[j].index = j]. *)
Definition Swap (h : list A) (i j : nat) : list A :=
  match h !! i, h !! j with
  | Some x, Some y => <[j := set_index j x]> (<[i := set_index i y]> h)
  | _, _ => h
  end.

Definition parent (j : nat) : nat := (j - 1) / 2.

(** [up(h, j)]: at most [j] iterations. *)
Fixpoint up (fuel : nat) (h : list A) (j : nat) : list A :=
  match fuel with
  | O => h
  | S fuel =>
      let i := parent j in
      if bool_decide (i = j) || negb (Less h j i) then h
      else up fuel (Swap h i j) i
  end.

(** The smaller child of [i] within the first [n] elements. *)
Definition child (h : list A) (i n : nat) : option nat :=
  let j1 := 2 * i + 1 in
  if n <=? j1 then None
  else let j2 := j1 + 1 in
    if (j2 <? n) && Less h j2 j1 then Some j2 else Some j1.

(** [down(h, i, n)]: at most [n] iterations. *)
Fixpoint down (fuel : nat) (h : list A) (i n : nat) : list A :=
  match fuel with
  | O => h
  | S fuel =>
      match child h i n with
      | None => h
      | Some j => if negb (Less h j i) then h else down fuel (Swap h i j) j n
      end
  end.

(** [heap.Init]: [for i := n/2 - 1; i >= 0; i-- { down(h, i, n) }]. *)
Definition Init (h : list A) : list A :=
  let n := length h in
  foldl (λ h i, down n h i n) h (reverse (seq 0 (n / 2))).

(** [h.Push(x); up(h, h.Len()-1)] with [Push] of package [queue]. *)
Definition Push (h : list A) (x : A) : list A :=
  let h' := h ++ [set_index (length h) x] in
  up (length h') h' (length h' - 1).

(** [n := h.Len()-1; h.Swap(0, n); down(h, 0, n); return h.Pop()]. *)
Definition Pop (h : list A) : option (A * list A) :=
  let n := length h - 1 in
  let h' := down n (Swap h 0 n) 0 n in
  match h' !! n with
  | Some x => Some (x, take n h')
  | None => None
  end.

(** ** Specification *)

(** [h[i] <= h[j]]: [Less(j, i)] is false. *)
Definition leq_at (h : list A) (i j : nat) : Prop := Less h j i = false.

(** The heap order on the first [n] elements. *)
Definition heap_upto (h : list A) (n : nat) : Prop :=
  ∀ j, 0 < j < n → leq_at h (parent j) j.

Definition is_heap (h : list A) : Prop := heap_upto h (length h).

(** Every element knows its position. *)
Definition indexed (h : list A) : Prop := ∀ k x, h !! k = Some x → index x = k.

(** A heap with consistent positions: the invariant of the queues. *)
Definition heap_ok (h : list A) : Prop := is_heap h ∧ indexed h.

(** An element up to its position. *)
Definition unindexed (x : A) : A := set_index 0 x.
End ops.

(** ** Lemmas *)

Section lemmas.
Context {A : Type} `{!HeapItem A, !HeapItemOk A}.
Implicit Types (h : list A) (i j k n : nat).

Lemma parent_spec j : 0 < j → j = 2 * parent j + 1 ∨ j = 2 * parent j + 2.
Proof. unfold parent. intros. pose proof (Nat.div_mod (j - 1) 2).
  pose proof (Nat.mod_upper_bound (j - 1) 2). lia. Qed.

Lemma parent_0 : parent 0 = 0.
Proof. reflexivity. Qed.

(** Where an element of the swapped slice comes from. *)
Definition transp (i j k : nat) : nat :=
  if decide (k = j) then i else if decide (k = i) then j else k.

Lemma lookup_Swap h i j k x y :
  h !! i = Some x → h !! j = Some y →
  Swap h i j !! k = set_index k <$> h !! transp i j k ∨
  (k ≠ i ∧ k ≠ j ∧ Swap h i j !! k = h !! k).
Proof.
  intros Hx Hy. unfold Swap, transp. rewrite Hx, Hy.
  pose proof (lookup_lt_Some _ _ _ Hx). pose proof (lookup_lt_Some _ _ _ Hy).
  destruct (decide (k = j)) as [->|Hj].
  { left. rewrite list_lookup_insert_eq by (rewrite length_insert; lia). by rewrite Hx. }
  rewrite list_lookup_insert_ne by done. destruct (decide (k = i)) as [->|Hi].
  { left. rewrite list_lookup_insert_eq by done. by rewrite Hy. }
  right. by rewrite list_lookup_insert_ne.
Qed.

Lemma length_Swap h i j : length (Swap h i j) = length h.
Proof. unfold Swap. repeat case_match; by rewrite ?length_insert. Qed.

(** The order of two positions after a swap is the order of the positions they
    come from. *)
Lemma Less_Swap h i j a b :
  i < length h → j < length h → Less (Swap h i j) a b = Less h (transp i j a) (transp i j b).
Proof.
  intros [x Hx]%lookup_lt_is_Some [y Hy]%lookup_lt_is_Some. unfold Less.
  assert (Ht : ∀ k, k ≠ i → k ≠ j → transp i j k = k).
  { intros k. unfold transp. by repeat case_decide. }
  destruct (lookup_Swap h i j a x y) as [->|(? & ? & ->)]; [done..| |rewrite (Ht a) by done];
    (destruct (lookup_Swap h i j b x y) as [->|(? & ? & ->)]; [done..| |rewrite (Ht b) by done]).
  - destruct (h !! transp i j a), (h !! transp i j b); simpl; by rewrite ?less_set_l, ?less_set_r.
  - destruct (h !! transp i j a), (h !! b); simpl; by rewrite ?less_set_l, ?less_set_r.
  - destruct (h !! a), (h !! transp i j b); simpl; by rewrite ?less_set_l, ?less_set_r.
  - done.
Qed.

Lemma Less_asym h i j : Less h i j = true → Less h j i = false.
Proof. unfold Less. repeat case_match; try done. apply less_asym. Qed.

Lemma leq_at_trans h i j k :
  j < length h → leq_at h i j → leq_at h j k → leq_at h i k.
Proof.
  intros [y Hy]%lookup_lt_is_Some. unfold leq_at, Less. rewrite Hy.
  destruct (h !! i) as [x|], (h !! k) as [z|]; intros Hxy Hyz; try done.
  by apply (le_of_trans x y z).
Qed.

(** Facts about one position of the heap order, after a swap. *)
Lemma leq_at_Swap h i j a b :
  i < length h → j < length h →
  leq_at h (transp i j a) (transp i j b) → leq_at (Swap h i j) a b.
Proof. unfold leq_at. intros ??. by rewrite Less_Swap. Qed.

(** [up] moves one element that may be out of order towards the root. *)
Definition up_inv (h : list A) (j : nat) : Prop :=
  j < length h ∧
  (∀ k, 0 < k < length h → k ≠ j → leq_at h (parent k) k) ∧
  (∀ k, 0 < k < length h → parent k = j → 0 < j → leq_at h (parent j) k).

Lemma transp_l i j : transp i j i = j.
Proof. unfold transp. repeat case_decide; congruence. Qed.

Lemma transp_r i j : transp i j j = i.
Proof. unfold transp. by rewrite decide_True. Qed.

Lemma transp_ne i j k : k ≠ i → k ≠ j → transp i j k = k.
Proof. unfold transp. intros. by rewrite !decide_False. Qed.

Lemma up_inv_step h j :
  up_inv h j → 0 < j → Less h j (parent j) = true → up_inv (Swap h (parent j) j) (parent j).
Proof.
  intros (Hj & H1 & H2) Hpos Hless. set (i := parent j) in *.
  assert (Hij : i < j) by (pose proof (parent_spec j Hpos); lia).
  pose proof (Less_asym _ _ _ Hless) as Hji.
  unfold up_inv. rewrite length_Swap. split_and!; [lia| |].
  - intros k Hk Hki. apply leq_at_Swap; [lia..|].
    destruct (decide (k = j)) as [->|Hkj]; [by rewrite transp_r, transp_l|].
    rewrite (transp_ne _ _ k) by done.
    destruct (decide (parent k = j)) as [Hp|Hpj].
    { rewrite Hp, transp_r. by apply H2. }
    destruct (decide (parent k = i)) as [Hp|Hpi].
    { rewrite Hp, transp_l. apply (leq_at_trans _ _ i); [lia|done|].
      rewrite <- Hp. by apply H1. }
    rewrite transp_ne by done. by apply H1.
  - intros k Hk Hp Hi. pose proof (parent_spec i Hi).
    assert (Hgi : leq_at h (parent i) i) by (apply H1; lia).
    apply leq_at_Swap; [lia..|]. rewrite (transp_ne _ _ (parent i)) by lia.
    destruct (decide (k = j)) as [->|Hkj]; [by rewrite transp_r|].
    rewrite transp_ne by (pose proof (parent_spec k); lia).
    apply (leq_at_trans _ _ i); [lia|done|]. rewrite <- Hp. by apply H1.
Qed.

Lemma up_length fuel h j : length (up fuel h j) = length h.
Proof.
  revert h j. induction fuel as [|fuel IH]; intros h j; cbn [up]; [done|].
  case_match; [done|]. by rewrite IH, length_Swap.
Qed.

Lemma up_is_heap fuel h j : up_inv h j → j ≤ fuel → is_heap (up fuel h j).
Proof.
  revert h j. induction fuel as [|fuel IH]; intros h j Hinv Hle; cbn [up].
  - destruct Hinv as (_ & H1 & _). intros k Hk. apply H1; lia.
  - destruct (bool_decide_reflect (parent j = j)) as [Hp|Hp]; simpl.
    { assert (j = 0) as -> by (destruct (decide (j = 0)); [done|pose proof (parent_spec j); lia]).
      destruct Hinv as (_ & H1 & _). intros k Hk. apply H1; lia. }
    assert (0 < j) by (destruct j; [done|lia]).
    destruct (Less h j (parent j)) eqn:Hless; simpl.
    + pose proof (parent_spec j). apply IH; [by apply up_inv_step|lia].
    + destruct Hinv as (_ & H1 & _). intros k Hk.
      destruct (decide (k = j)) as [->|]; [done|by apply H1].
Qed.

(** [down] moves one element that may be out of order towards the leaves. *)
Definition down_inv (h : list A) (i n : nat) : Prop :=
  n ≤ length h ∧
  (∀ k, 0 < k < n → parent k ≠ i → leq_at h (parent k) k) ∧
  (∀ k, 0 < k < n → parent k = i → 0 < i → leq_at h (parent i) k).

Lemma child_None h i n : child h i n = None → ∀ k, 0 < k < n → parent k ≠ i.
Proof.
  unfold child. intros Hc k Hk Hp. pose proof (parent_spec k). subst i.
  revert Hc. destruct (Nat.leb_spec n (2 * parent k + 1)); [lia|]. by case_match.
Qed.

Lemma parent_child i : parent (2 * i + 1) = i ∧ parent (2 * i + 1 + 1) = i.
Proof.
  pose proof (parent_spec (2 * i + 1)). pose proof (parent_spec (2 * i + 1 + 1)). lia.
Qed.

Lemma leq_at_refl h i : leq_at h i i.
Proof. unfold leq_at, Less. repeat case_match; simplify_eq; [|done..]. apply le_of_reflexive, _. Qed.

Lemma child_Some h i n j :
  child h i n = Some j →
  i < j < n ∧ parent j = i ∧ ∀ k, 0 < k < n → parent k = i → leq_at h j k.
Proof.
  destruct (parent_child i) as [Hp1 Hp2]. unfold child.
  destruct (Nat.leb_spec n (2 * i + 1)) as [|Hn]; [done|].
  assert (Hsib : ∀ k, 0 < k < n → parent k = i → k = 2 * i + 1 ∨ (k = 2 * i + 1 + 1 ∧ 2 * i + 1 + 1 < n)).
  { intros k Hk Hp. pose proof (parent_spec k). lia. }
  destruct ((2 * i + 1 + 1 <? n) && Less h (2 * i + 1 + 1) (2 * i + 1)) eqn:Hc; intros [= <-].
  - apply andb_prop in Hc as [Hlt%Nat.ltb_lt Hless]. split_and!; [lia..|done|].
    intros k Hk Hp. destruct (Hsib k Hk Hp) as [->|[-> _]]; [|apply leq_at_refl].
    by apply Less_asym.
  - split_and!; [lia..|done|]. intros k Hk Hp.
    destruct (Hsib k Hk Hp) as [->|[-> Hlt]]; [apply leq_at_refl|].
    apply andb_false_iff in Hc as [?%Nat.ltb_ge|Hc]; [lia|done].
Qed.

Lemma down_inv_step h i j n :
  down_inv h i n → child h i n = Some j → Less h j i = true → down_inv (Swap h i j) j n.
Proof.
  intros (Hn & H1 & H2) (Hij & Hp & Hmin)%child_Some Hless.
  pose proof (Less_asym _ _ _ Hless) as Hji.
  unfold down_inv. rewrite length_Swap. split_and!; [done| |].
  - intros k Hk Hpk. apply leq_at_Swap; [lia..|].
    destruct (decide (k = i)) as [->|Hki].
    { pose proof (parent_spec i). rewrite transp_l, transp_ne by lia. apply H2; [lia|done|lia]. }
    destruct (decide (parent k = i)) as [Hki'|Hpi].
    + rewrite Hki', transp_l. destruct (decide (k = j)) as [->|]; [by rewrite transp_r|].
      rewrite transp_ne by done. by apply Hmin.
    + rewrite !transp_ne by (try done; intros ->; done). by apply H1.
  - intros k Hk Hpk Hj. pose proof (parent_spec k). rewrite Hp.
    apply leq_at_Swap; [lia..|]. rewrite transp_l, transp_ne by lia.
    rewrite <- Hpk. apply H1; [done|lia].
Qed.

Lemma down_length fuel h i n : length (down fuel h i n) = length h.
Proof.
  revert h i. induction fuel as [|fuel IH]; intros h i; cbn [down]; [done|].
  repeat case_match; try done. by rewrite IH, length_Swap.
Qed.

Lemma down_is_heap fuel h i n :
  down_inv h i n → n ≤ i + fuel → heap_upto (down fuel h i n) n.
Proof.
  revert h i. induction fuel as [|fuel IH]; intros h i Hinv Hle; cbn [down].
  - destruct Hinv as (_ & H1 & _). intros k Hk. pose proof (parent_spec k). apply H1; lia.
  - destruct (child h i n) as [j|] eqn:Hc.
    + destruct (Less h j i) eqn:Hless; simpl.
      * apply IH; [by apply down_inv_step|]. apply child_Some in Hc. lia.
      * apply child_Some in Hc as (Hij & Hp & Hmin). destruct Hinv as (Hn & H1 & _).
        intros k Hk. destruct (decide (parent k = i)) as [Hpk|]; [|by apply H1].
        rewrite Hpk. apply (leq_at_trans _ _ j); [lia|done|]. by apply Hmin.
    + destruct Hinv as (_ & H1 & _). intros k Hk. apply H1; [done|].
      by apply (child_None h i n).
Qed.

(** Positions from [n] on are not touched. *)
Lemma down_lookup_ge fuel h i n k :
  i < n ∨ n = 0 → n ≤ length h → n ≤ k → down fuel h i n !! k = h !! k.
Proof.
  revert h i. induction fuel as [|fuel IH]; intros h i Hi Hn Hk; cbn [down]; [done|].
  destruct (child h i n) as [j|] eqn:Hc; [|done].
  apply child_Some in Hc as (Hij & _). destruct (Less h j i); simpl; [|done].
  rewrite IH by (rewrite ?length_Swap; lia). unfold Swap.
  repeat case_match; try done. by rewrite !list_lookup_insert_ne by lia.
Qed.

(** ** Contents and positions *)

Lemma Swap_perm h i j : unindexed <$> Swap h i j ≡ₚ unindexed <$> h.
Proof.
  unfold Swap. destruct (h !! i) as [x|] eqn:Hx, (h !! j) as [y|] eqn:Hy; try done.
  rewrite !list_fmap_insert. unfold unindexed at 1 2. rewrite !set_set.
  change (set_index 0 x) with (unindexed x). change (set_index 0 y) with (unindexed y).
  apply (f_equal (fmap unindexed)) in Hx, Hy. simpl in Hx, Hy.
  rewrite <- list_lookup_fmap in Hx, Hy. by apply Permutation_insert_swap.
Qed.

Lemma Swap_indexed h i j : indexed h → indexed (Swap h i j).
Proof.
  intros Hi. unfold Swap. destruct (h !! i) as [x|] eqn:Hx, (h !! j) as [y|] eqn:Hy; try done.
  intros k z Hz. apply list_lookup_insert_Some in Hz as [(<- & <- & _)|[_ Hz]]; [apply index_set|].
  apply list_lookup_insert_Some in Hz as [(<- & <- & _)|[_ Hz]]; [apply index_set|by apply Hi].
Qed.

Lemma up_perm fuel h j : unindexed <$> up fuel h j ≡ₚ unindexed <$> h.
Proof.
  revert h j. induction fuel as [|fuel IH]; intros h j; cbn [up]; [done|].
  case_match; [done|]. by rewrite IH, Swap_perm.
Qed.

Lemma up_indexed fuel h j : indexed h → indexed (up fuel h j).
Proof.
  revert h j. induction fuel as [|fuel IH]; intros h j Hi; cbn [up]; [done|].
  case_match; [done|]. by apply IH, Swap_indexed.
Qed.

Lemma down_perm fuel h i n : unindexed <$> down fuel h i n ≡ₚ unindexed <$> h.
Proof.
  revert h i. induction fuel as [|fuel IH]; intros h i; cbn [down]; [done|].
  repeat case_match; try done. by rewrite IH, Swap_perm.
Qed.

Lemma down_indexed fuel h i n : indexed h → indexed (down fuel h i n).
Proof.
  revert h i. induction fuel as [|fuel IH]; intros h i Hi; cbn [down]; [done|].
  repeat case_match; try done. by apply IH, Swap_indexed.
Qed.

(** ** Push and Pop *)

Lemma is_heap_root h k : is_heap h → leq_at h 0 k.
Proof.
  intros Hh. induction (lt_wf k) as [k _ IH].
  destruct (decide (k < length h)) as [Hk|Hk].
  - destruct (decide (k = 0)) as [->|]; [apply leq_at_refl|].
    pose proof (parent_spec k). apply (leq_at_trans _ _ (parent k)); [lia|apply IH; lia|].
    apply Hh. lia.
  - unfold leq_at, Less. by rewrite (lookup_ge_None_2 h k) by lia.
Qed.

Lemma leq_at_prefix h h' i j :
  h' !! i = h !! i → h' !! j = h !! j → leq_at h i j → leq_at h' i j.
Proof. unfold leq_at, Less. by intros -> ->. Qed.

Lemma Push_perm h x : unindexed <$> Push h x ≡ₚ unindexed x :: (unindexed <$> h).
Proof.
  unfold Push. rewrite up_perm, fmap_app. simpl. unfold unindexed at 2. rewrite set_set.
  by rewrite Permutation_app_comm.
Qed.

Lemma length_Push h x : length (Push h x) = S (length h).
Proof. unfold Push. rewrite up_length, length_app. simpl. lia. Qed.

Lemma Push_ok h x : heap_ok h → heap_ok (Push h x).
Proof.
  intros [Hh Hi]. unfold Push. set (h' := h ++ [set_index (length h) x]).
  assert (Hlen : length h' = S (length h)) by (unfold h'; rewrite length_app; simpl; lia).
  split.
  - apply up_is_heap; [|lia]. unfold up_inv. rewrite Hlen. split_and!; [lia| |].
    + intros k Hk Hne. pose proof (parent_spec k).
      apply (leq_at_prefix h); [apply lookup_app_l; lia..|]. apply Hh. lia.
    + intros k Hk Hp. pose proof (parent_spec k). lia.
  - apply up_indexed. unfold h'. intros k y [Hk|[Hk Hy]]%lookup_app_Some; [by apply Hi|].
    apply list_lookup_singleton_Some in Hy as [? <-]. rewrite index_set. lia.
Qed.

Lemma Pop_nil : Pop (A := A) [] = None.
Proof. reflexivity. Qed.

Lemma less_unindexed x y : less (unindexed x) (unindexed y) = less x y.
Proof. unfold unindexed. by rewrite less_set_l, less_set_r. Qed.

Lemma unindexed_set i x : unindexed (set_index i x) = unindexed x.
Proof. apply set_set. Qed.

Lemma down_inv_root h n : n < length h → is_heap h → down_inv (Swap h 0 n) 0 n.
Proof.
  intros Hn Hh. unfold down_inv. rewrite length_Swap. split_and!; [lia| |lia].
  intros k Hk Hp. pose proof (parent_spec k). apply leq_at_Swap; [lia..|].
  rewrite !transp_ne by lia. apply Hh. lia.
Qed.

Lemma heap_upto_take h n : n ≤ length h → heap_upto h n → is_heap (take n h).
Proof.
  intros Hn Hh k Hk. rewrite length_take in Hk. pose proof (parent_spec k).
  apply (leq_at_prefix h); [apply lookup_take_lt; lia..|]. apply Hh. lia.
Qed.

(** The root of the heap ends at the position [Pop] cuts off. *)
Lemma Pop_last h n r :
  S n = length h → h !! 0 = Some r →
  down n (Swap h 0 n) 0 n !! n = Some (set_index n r).
Proof.
  intros Hlen Hr. destruct (lookup_lt_is_Some_2 h n) as [z Hz]; [lia|].
  rewrite down_lookup_ge by (rewrite ?length_Swap; lia).
  destruct (lookup_Swap h 0 n n r z) as [->|(? & ? & _)]; [done..| |done].
  by rewrite transp_r, Hr.
Qed.

(** [Pop] on a heap returns its first element, up to the position, and a heap of
    the others, none of which is before it. *)
Lemma Pop_ok h r :
  heap_ok h → h !! 0 = Some r →
  ∃ x h', Pop h = Some (x, h') ∧ heap_ok h' ∧ unindexed x = unindexed r ∧
    unindexed <$> h ≡ₚ unindexed x :: (unindexed <$> h') ∧
    ∀ y, y ∈ h' → less y x = false.
Proof.
  intros [Hh Hi] Hr. assert (Hlen : S (length h - 1) = length h).
  { apply lookup_lt_Some in Hr. lia. }
  unfold Pop. set (n := length h - 1) in *. pose proof (Pop_last h n r Hlen Hr) as Hn.
  set (h' := down n (Swap h 0 n) 0 n) in *. rewrite Hn.
  assert (Hlen' : length h' = S n) by (unfold h'; rewrite down_length, length_Swap; lia).
  assert (Hperm : unindexed <$> h ≡ₚ unindexed r :: (unindexed <$> take n h')).
  { rewrite <- (Swap_perm h 0 n), <- (down_perm n _ 0 n). fold h'.
    rewrite <- (take_drop n h') at 1. rewrite (drop_S _ _ _ Hn), drop_ge by lia.
    rewrite fmap_app. simpl. by rewrite unindexed_set, Permutation_app_comm. }
  exists (set_index n r), (take n h'). rewrite unindexed_set. split_and!; try done.
  - split.
    + apply heap_upto_take; [lia|]. apply down_is_heap; [|lia]. apply down_inv_root; [lia|done].
    + intros k x [Hx _]%lookup_take_Some. revert Hx. by apply down_indexed, Swap_indexed.
  - intros y Hy. rewrite less_set_r, <- less_unindexed.
    assert (Hin : unindexed y ∈ unindexed <$> h).
    { rewrite Hperm. apply list_elem_of_further. by apply list_elem_of_fmap_2. }
    apply list_elem_of_fmap in Hin as (w & -> & [k Hk]%list_elem_of_lookup).
    rewrite less_unindexed. pose proof (is_heap_root h k Hh) as Hroot.
    unfold leq_at, Less in Hroot. by rewrite Hr, Hk in Hroot.
Qed.

Lemma Init_nil : Init (A := A) [] = [].
Proof. reflexivity. Qed.

Lemma heap_ok_nil : heap_ok (A := A) [].
Proof. split; intros k; [simpl; lia|done]. Qed.
End lemmas.

#[export] Hint Resolve Push_ok heap_ok_nil : go_heap.
