(* ===== verification/Domain.v ===== *)
(** * Package [domain]: notifications and their status machine
    ([internal/notification/domain/models.go]) *)

From S2P Require Export GoTime.
Local Open Scope Z_scope.

(** ** Data *)

(** [Channel], [Status] and [Trigger] are strings in the source: any text can
    arrive in one, and the code compares it with these constants. *)
Abbreviation Channel := string.
Definition ChannelEmail : Channel := "email".
Definition ChannelSMS : Channel := "sms".
Definition ChannelWebhook : Channel := "webhook".
Definition ChannelPush : Channel := "push".

Abbreviation Status := string.
Definition StatusQueued : Status := "queued".
Definition StatusProcessing : Status := "processing".
Definition StatusAccepted : Status := "accepted".
Definition StatusSent : Status := "sent".
Definition StatusDelivered : Status := "delivered".
Definition StatusBounced : Status := "bounced".
Definition StatusComplained : Status := "complained".
Definition StatusFailed : Status := "failed".
Definition StatusExpired : Status := "expired".
Definition StatusCanceled : Status := "canceled".
Definition StatusPaused : Status := "paused".

Abbreviation Trigger := string.
Definition TriggerImmediate : Trigger := "immediate".
Definition TriggerScheduled : Trigger := "scheduled".
Definition TriggerRecurring : Trigger := "recurring".

Record Target := { tAddress : string; tName : string }.

(** A value of Go's [any], as JSON decoding builds it; numbers keep their text. *)
#[warnings="-register-all"]
Inductive any :=
| AnyNil
| AnyBool (b : bool)
| AnyNumber (text : string)
| AnyString (s : string)
| AnyBytes (s : string)
| AnyArray (l : list any)
| AnyObject (l : list (string * any)).

Record Notification := {
  nID : string;
  nTenantID : string;
  nIdempotencyKey : string;
  nChannel : Channel;
  nTargets : list Target;
  nTemplateID : string;
  nTemplateVersion : Z;
  nVariables : gmap string any;
  nSubject : string;
  nBody : string;
  nPriority : Z;
  nTrigger : Trigger;
  nScheduleAt : option time;
  nExpiresAt : option time;
  nBusinessID : string;
  nStatus : Status;
  nAttempts : Z;
  nProvider : string;
  nLastError : string;
  nCreatedAt : time;
  nUpdatedAt : time;
  nVersion : Z;
}.

Record Attempt := {
  aID : string;
  aNotificationID : string;
  aProvider : string;
  aStatus : Status;
  aErrorClass : string;
  aExternalID : string;
  aStartedAt : time;
  aFinishedAt : option time;
}.

Record TimelineEvent := {
  eID : string;
  eNotificationID : string;
  eStatus : Status;
  eProvider : string;
  eSequence : Z;
  eOccurredAt : time;
  eMetadata : gmap string string;
}.

(** [domain.Notification{}] *)
Definition zero_notification : Notification := {|
  nID := ""; nTenantID := ""; nIdempotencyKey := ""; nChannel := ""; nTargets := [];
  nTemplateID := ""; nTemplateVersion := 0; nVariables := ∅; nSubject := ""; nBody := "";
  nPriority := 0; nTrigger := ""; nScheduleAt := None; nExpiresAt := None; nBusinessID := "";
  nStatus := ""; nAttempts := 0; nProvider := ""; nLastError := "";
  nCreatedAt := time_zero; nUpdatedAt := time_zero; nVersion := 0 |}.

(** ** Field updates

    [with_request] replaces what the submission path assigns, [with_state] what
    the delivery path assigns. *)

Definition with_request (n : Notification) (id key : string) (targets : list Target)
    (trigger : Trigger) (created : time) : Notification := {|
  nID := id; nTenantID := nTenantID n; nIdempotencyKey := key; nChannel := nChannel n;
  nTargets := targets; nTemplateID := nTemplateID n; nTemplateVersion := nTemplateVersion n;
  nVariables := nVariables n; nSubject := nSubject n; nBody := nBody n;
  nPriority := nPriority n; nTrigger := trigger; nScheduleAt := nScheduleAt n;
  nExpiresAt := nExpiresAt n; nBusinessID := nBusinessID n; nStatus := nStatus n;
  nAttempts := nAttempts n; nProvider := nProvider n; nLastError := nLastError n;
  nCreatedAt := created; nUpdatedAt := nUpdatedAt n; nVersion := nVersion n |}.

Definition with_state (n : Notification) (status : Status) (attempts : Z)
    (provider lastError : string) (updated : time) (version : Z) : Notification := {|
  nID := nID n; nTenantID := nTenantID n; nIdempotencyKey := nIdempotencyKey n;
  nChannel := nChannel n; nTargets := nTargets n; nTemplateID := nTemplateID n;
  nTemplateVersion := nTemplateVersion n; nVariables := nVariables n; nSubject := nSubject n;
  nBody := nBody n; nPriority := nPriority n; nTrigger := nTrigger n;
  nScheduleAt := nScheduleAt n; nExpiresAt := nExpiresAt n; nBusinessID := nBusinessID n;
  nStatus := status; nAttempts := attempts; nProvider := provider; nLastError := lastError;
  nCreatedAt := nCreatedAt n; nUpdatedAt := updated; nVersion := version |}.

Definition with_tenant (n : Notification) (tenant : string) : Notification := {|
  nID := nID n; nTenantID := tenant; nIdempotencyKey := nIdempotencyKey n;
  nChannel := nChannel n; nTargets := nTargets n; nTemplateID := nTemplateID n;
  nTemplateVersion := nTemplateVersion n; nVariables := nVariables n; nSubject := nSubject n;
  nBody := nBody n; nPriority := nPriority n; nTrigger := nTrigger n;
  nScheduleAt := nScheduleAt n; nExpiresAt := nExpiresAt n; nBusinessID := nBusinessID n;
  nStatus := nStatus n; nAttempts := nAttempts n; nProvider := nProvider n;
  nLastError := nLastError n; nCreatedAt := nCreatedAt n; nUpdatedAt := nUpdatedAt n;
  nVersion := nVersion n |}.

Definition set_id (n : Notification) (id : string) : Notification :=
  with_request n id (nIdempotencyKey n) (nTargets n) (nTrigger n) (nCreatedAt n).
Definition set_key (n : Notification) (key : string) : Notification :=
  with_request n (nID n) key (nTargets n) (nTrigger n) (nCreatedAt n).
Definition set_targets (n : Notification) (ts : list Target) : Notification :=
  with_request n (nID n) (nIdempotencyKey n) ts (nTrigger n) (nCreatedAt n).
Definition set_trigger (n : Notification) (t : Trigger) : Notification :=
  with_request n (nID n) (nIdempotencyKey n) (nTargets n) t (nCreatedAt n).
Definition set_created (n : Notification) (t : time) : Notification :=
  with_request n (nID n) (nIdempotencyKey n) (nTargets n) (nTrigger n) t.
Definition set_status (n : Notification) (s : Status) (updated : time) (version : Z) : Notification :=
  with_state n s (nAttempts n) (nProvider n) (nLastError n) updated version.
Definition set_attempt (n : Notification) (attempts : Z) (provider lastError : string) : Notification :=
  with_state n (nStatus n) attempts provider lastError (nUpdatedAt n) (nVersion n).

(** ** Target normalisation *)

Definition Normalize `{Unicode} (t : Target) (ch : Channel) : result Target :=
  let addr := TrimSpace (ToLower (tAddress t)) in
  if decide (addr = "") then Err "target address is required"
  else if 512 <? len addr then Err "target address too long"
  else if bool_decide (ch = ChannelEmail) && negb (Contains addr "@") then Err "invalid email target"
  else if bool_decide (ch = ChannelSMS) && (len addr <? 7) then Err "invalid phone target"
  else Ok {| tAddress := addr; tName := tName t |}.

(** ** Validation

    [for i, t := range n.Targets]: an accepted target is stored back at once, so a
    rejected one leaves the targets before it normalised. *)
Fixpoint normalize_targets `{Unicode} (ch : Channel) (ts : list Target) : list Target * option error :=
  match ts with
  | [] => ([], None)
  | t :: rest =>
      match Normalize t ch with
      | Err e => (t :: rest, Some e)
      | Ok t' => let '(rest', e) := normalize_targets ch rest in (t' :: rest', e)
      end
  end.

(** The notification as [Validate] leaves it, and its error. *)
Definition Validate `{Unicode} (n : Notification) : Notification * option error :=
  if decide (TrimSpace (nTenantID n) = "") then (n, Some "tenant_id is required")
  else if decide (TrimSpace (nIdempotencyKey n) = "") then (n, Some "idempotency_key is required")
  else if bool_decide (nChannel n ≠ ChannelEmail) && bool_decide (nChannel n ≠ ChannelSMS)
          && bool_decide (nChannel n ≠ ChannelWebhook) && bool_decide (nChannel n ≠ ChannelPush)
  then (n, Some "unsupported channel")
  else if (Z.of_nat (length (nTargets n)) =? 0) || (1000 <? Z.of_nat (length (nTargets n)))
  then (n, Some "targets must contain 1..1000 items")
  else if (nPriority n <? 0) || (100 <? nPriority n)
  then (n, Some "priority must be between 0 and 100")
  else
    let n := if decide (nTrigger n = "") then set_trigger n TriggerImmediate else n in
    if bool_decide (nTrigger n = TriggerScheduled) && bool_decide (nScheduleAt n = None)
    then (n, Some "schedule_at required")
    else let '(ts, e) := normalize_targets (nChannel n) (nTargets n) in (set_targets n ts, e).

(** ** The status machine *)

Definition true_for (l : list Status) : gmap Status bool := list_to_map ((λ s, (s, true)) <$> l).

Definition allowed : gmap Status (gmap Status bool) := list_to_map [
  (StatusQueued, true_for [StatusProcessing; StatusCanceled; StatusPaused; StatusExpired]);
  (StatusProcessing, true_for [StatusAccepted; StatusSent; StatusFailed; StatusQueued; StatusPaused]);
  (StatusAccepted, true_for [StatusSent; StatusDelivered; StatusBounced; StatusFailed]);
  (StatusSent, true_for [StatusDelivered; StatusBounced; StatusComplained; StatusFailed]);
  (StatusPaused, true_for [StatusQueued; StatusCanceled])].

(** [allowed[from][next]]: a missing key reads as [false]. *)
Definition is_allowed (from next : Status) : bool :=
  default false (default ∅ (allowed !! from) !! next).

Definition Transition (now : time) (n : Notification) (next : Status) : Notification * option error :=
  if decide (nStatus n = next) then (n, None)
  else if negb (is_allowed (nStatus n) next)
  then (n, Some ("invalid status transition: " +:+ nStatus n +:+ " -> " +:+ next))
  else (set_status n next now (wrap64 (nVersion n + 1)), None).

(** ** Specification of the status machine *)

(** The edges of the machine, as one list. *)
Definition edges : list (Status * Status) := [
  (StatusQueued, StatusProcessing); (StatusQueued, StatusCanceled);
  (StatusQueued, StatusPaused); (StatusQueued, StatusExpired);
  (StatusProcessing, StatusAccepted); (StatusProcessing, StatusSent);
  (StatusProcessing, StatusFailed); (StatusProcessing, StatusQueued);
  (StatusProcessing, StatusPaused);
  (StatusAccepted, StatusSent); (StatusAccepted, StatusDelivered);
  (StatusAccepted, StatusBounced); (StatusAccepted, StatusFailed);
  (StatusSent, StatusDelivered); (StatusSent, StatusBounced);
  (StatusSent, StatusComplained); (StatusSent, StatusFailed);
  (StatusPaused, StatusQueued); (StatusPaused, StatusCanceled)].

(** How far a status is: before the provider took the message, accepted, sent,
    finished. *)
Definition phase (s : Status) : Z :=
  if decide (s ∈ [StatusQueued; StatusPaused; StatusProcessing]) then 0
  else if decide (s = StatusAccepted) then 1
  else if decide (s = StatusSent) then 2 else 3.

(** One effective transition of a notification, at some time. *)
Definition step_to (n n' : Notification) : Prop :=
  ∃ now next, Transition now n next = (n', None).

(** The edges of the state diagram of [README.md], and those the code adds. *)
Definition readme_edges : list (Status * Status) := [
  (StatusQueued, StatusProcessing); (StatusQueued, StatusPaused);
  (StatusQueued, StatusCanceled); (StatusQueued, StatusExpired);
  (StatusProcessing, StatusAccepted); (StatusProcessing, StatusSent);
  (StatusProcessing, StatusQueued); (StatusProcessing, StatusFailed);
  (StatusAccepted, StatusSent); (StatusAccepted, StatusDelivered); (StatusAccepted, StatusBounced);
  (StatusSent, StatusDelivered); (StatusSent, StatusComplained); (StatusSent, StatusBounced)].

Definition extra_edges : list (Status * Status) := [
  (StatusProcessing, StatusPaused); (StatusAccepted, StatusFailed); (StatusSent, StatusFailed);
  (StatusPaused, StatusQueued); (StatusPaused, StatusCanceled)].

(** The normal form of an address: lower case, then no white space around it. *)
Definition normal `{Unicode} (a : string) : string := TrimSpace (ToLower a).

(** The normal forms that [ch] admits. *)
Definition address_ok (ch : Channel) (a : string) : Prop :=
  1 ≤ len a ≤ 512 ∧ (ch = ChannelEmail → Contains a "@" = true) ∧ (ch = ChannelSMS → 7 ≤ len a).

(** What [Validate] establishes. *)
Definition target_ok `{Unicode} (ch : Channel) (t : Target) : Prop :=
  address_ok ch (tAddress t) ∧ TrimSpace (tAddress t) = tAddress t ∧ ∃ given, tAddress t = normal given.

Record request_ok `{Unicode} (n : Notification) : Prop := {
  ok_tenant : TrimSpace (nTenantID n) ≠ "";
  ok_key : TrimSpace (nIdempotencyKey n) ≠ "";
  ok_channel : nChannel n ∈ [ChannelEmail; ChannelSMS; ChannelWebhook; ChannelPush];
  ok_count : 1 ≤ Z.of_nat (length (nTargets n)) ≤ 1000;
  ok_priority : 0 ≤ nPriority n ≤ 100;
  ok_trigger : nTrigger n ≠ "";
  ok_schedule : nTrigger n = TriggerScheduled → nScheduleAt n ≠ None;
  ok_targets : Forall (target_ok (nChannel n)) (nTargets n);
}.

(** ** Lemmas *)

Definition successors (s : Status) : list Status :=
  if decide (StatusQueued = s) then [StatusProcessing; StatusCanceled; StatusPaused; StatusExpired]
  else if decide (StatusProcessing = s)
  then [StatusAccepted; StatusSent; StatusFailed; StatusQueued; StatusPaused]
  else if decide (StatusAccepted = s)
  then [StatusSent; StatusDelivered; StatusBounced; StatusFailed]
  else if decide (StatusSent = s)
  then [StatusDelivered; StatusBounced; StatusComplained; StatusFailed]
  else if decide (StatusPaused = s) then [StatusQueued; StatusCanceled] else [].

Lemma lookup_allowed s : default ∅ (allowed !! s) = true_for (successors s).
Proof.
  unfold allowed, successors. rewrite !list_to_map_cons, !lookup_insert.
  by repeat case_decide.
Qed.

Lemma lookup_true_list (l : list Status) s :
  default false (true_for l !! s)
  = bool_decide (s ∈ l).
Proof.
  unfold true_for. induction l as [|x l IH]; [done|].
  rewrite fmap_cons, list_to_map_cons, lookup_insert.
  destruct (decide (x = s)) as [->|Hx]; simpl.
  - symmetry. apply bool_decide_eq_true. left.
  - rewrite IH. apply bool_decide_ext. rewrite elem_of_cons. naive_solver.
Qed.

Lemma is_allowed_successors s t : is_allowed s t = bool_decide (t ∈ successors s).
Proof. unfold is_allowed. by rewrite lookup_allowed, lookup_true_list. Qed.

Lemma is_allowed_edges s t : is_allowed s t = true ↔ (s, t) ∈ edges.
Proof.
  rewrite is_allowed_successors, bool_decide_eq_true. unfold successors, edges.
  rewrite !elem_of_cons, elem_of_nil, !pair_eq.
  repeat (case_decide; [subst; rewrite !elem_of_cons, elem_of_nil; naive_solver|]).
  rewrite elem_of_nil. naive_solver.
Qed.

Lemma edges_readme : edges ≡ₚ readme_edges ++ extra_edges.
Proof. apply (bool_decide_unpack _). by vm_compute. Qed.

Lemma edges_Forall (P : Status → Status → Prop) :
  Forall (λ e, P e.1 e.2) edges → ∀ s t, is_allowed s t = true → P s t.
Proof.
  intros HP s t Hst%is_allowed_edges. rewrite Forall_forall in HP. by apply (HP (s, t)).
Qed.

Lemma Transition_cases now n next n' e :
  Transition now n next = (n', e) →
  (n' = n ∧ nStatus n = next ∧ e = None) ∨
  (n' = n ∧ nStatus n ≠ next ∧ is_allowed (nStatus n) next = false ∧ ∃ msg, e = Some msg) ∨
  (n' = set_status n next now (wrap64 (nVersion n + 1)) ∧ nStatus n ≠ next ∧
   is_allowed (nStatus n) next = true ∧ e = None).
Proof.
  unfold Transition. case_decide; [intros [= <- <-]; auto|].
  destruct (is_allowed _ _) eqn:Ha; simpl; intros [= <- <-]; naive_solver.
Qed.

Lemma phase_mono s t : is_allowed s t = true → phase s ≤ phase t ∧ (1 ≤ phase s → phase s < phase t).
Proof.
  revert s t. apply edges_Forall. unfold edges. repeat constructor; vm_compute; congruence.
Qed.

Lemma step_to_phase n n' :
  step_to n n' → phase (nStatus n) ≤ phase (nStatus n').
Proof.
  intros (now & next & [(-> & _)|[(-> & _)|(-> & _ & Ha & _)]]%Transition_cases); [done..|].
  by apply phase_mono.
Qed.

Lemma steps_phase n n' : rtc step_to n n' → phase (nStatus n) ≤ phase (nStatus n').
Proof. induction 1; [done|]. etrans; [by apply step_to_phase|done]. Qed.

Section validate.
Context `{Unicode}.

Lemma len_pos (a : string) : a ≠ "" ↔ 1 ≤ len a.
Proof. destruct a; unfold len; cbn [String.length]; split; (done || lia). Qed.

Lemma Normalize_spec t ch :
  (is_ok (Normalize t ch) = true ↔ address_ok ch (normal (tAddress t))) ∧
  ∀ t', Normalize t ch = Ok t' → t' = {| tAddress := normal (tAddress t); tName := tName t |}.
Proof.
  unfold Normalize, address_ok. change (TrimSpace (ToLower (tAddress t))) with (normal (tAddress t)).
  set (a := normal (tAddress t)). pose proof (len_pos a) as Hlen.
  case_decide as Hne; [split; [split; [done|intros [Hl _]; by apply proj1, Hlen in Hl]|done]|].
  apply Hlen in Hne. clear Hlen. destruct (Z.ltb_spec 512 (len a)); [split; [split; [done|lia]|done]|].
  destruct (bool_decide_reflect (ch = ChannelEmail)) as [->|He]; cbn [andb].
  - destruct (Contains a "@"); cbn [negb andb]; [|split; [split; [done|naive_solver]|done]].
    split; [by split|by intros t' [= <-]].
  - destruct (bool_decide_reflect (ch = ChannelSMS)) as [->|Hs]; cbn [andb]; [|split; [by split|by intros t' [= <-]]].
    destruct (Z.ltb_spec (len a) 7); [split; [split; [done|intros (_ & _ & Hl); specialize (Hl eq_refl); lia]|done]|].
    split; [by split|by intros t' [= <-]].
Qed.

Lemma Normalize_Ok t ch t' :
  Normalize t ch = Ok t' →
  t' = {| tAddress := normal (tAddress t); tName := tName t |} ∧ target_ok ch t'.
Proof.
  intros Hn. destruct (Normalize_spec t ch) as [Hok Heq]. specialize (Heq _ Hn). split; [done|].
  subst t'. split_and!; cbn [tAddress]; [by apply Hok; rewrite Hn|apply TrimSpace_idemp|by eexists].
Qed.

(** A normalised ASCII target is a fixed point. *)
Lemma Normalize_fixed t ch t' :
  is_ascii (tAddress t) = true → Normalize t ch = Ok t' → Normalize t' ch = Ok t'.
Proof.
  intros Ha Hn. pose proof Hn as [-> _]%Normalize_Ok.
  revert Hn. unfold Normalize, normal. cbn [tAddress tName].
  by rewrite (proj2 (trim_lower_fixed _ Ha)).
Qed.

Lemma normalize_targets_None ch ts ts' :
  normalize_targets ch ts = (ts', None) ↔ Forall2 (λ t t', Normalize t ch = Ok t') ts ts'.
Proof.
  revert ts'. induction ts as [|t ts IH]; intros ts'; simpl.
  { split; [by intros [= <-]|by inversion 1]. }
  destruct (Normalize t ch) as [t0|e] eqn:Ht.
  - destruct (normalize_targets ch ts) as [rest e]. split.
    + intros [= <- ->]. constructor; [done|]. by apply IH.
    + inversion 1 as [|? u ? us Hu Hus]; simplify_eq. apply IH in Hus. congruence.
  - split; [done|]. inversion 1; congruence.
Qed.

Lemma normalize_targets_fixed ch ts ts' :
  Forall (λ t, is_ascii (tAddress t) = true) ts →
  normalize_targets ch ts = (ts', None) → normalize_targets ch ts' = (ts', None).
Proof.
  rewrite !normalize_targets_None. intros Ha Hf.
  induction Hf as [|t t' ts ts' Ht _ IH]; inversion_clear Ha; constructor; auto.
  by eapply Normalize_fixed.
Qed.

Lemma normalize_targets_error ch ts :
  (normalize_targets ch ts).2 = None ↔ Forall (λ t, is_ok (Normalize t ch) = true) ts.
Proof.
  induction ts as [|t ts IH]; simpl; [by split|].
  rewrite Forall_cons, <- IH. destruct (Normalize t ch); simpl.
  - by destruct (normalize_targets ch ts) as [? [|]]; simpl; naive_solver.
  - naive_solver.
Qed.

(** The tests of [Validate] before the targets, as one proposition. *)
Definition header_ok (n : Notification) : Prop :=
  TrimSpace (nTenantID n) ≠ "" ∧ TrimSpace (nIdempotencyKey n) ≠ "" ∧
  nChannel n ∈ [ChannelEmail; ChannelSMS; ChannelWebhook; ChannelPush] ∧
  1 ≤ Z.of_nat (length (nTargets n)) ≤ 1000 ∧ 0 ≤ nPriority n ≤ 100 ∧
  (nTrigger n = TriggerScheduled → nScheduleAt n ≠ None).

(** The notification with the default trigger filled in. *)
Definition default_trigger (n : Notification) : Notification :=
  if decide (nTrigger n = "") then set_trigger n TriggerImmediate else n.

Lemma Validate_header n :
  header_ok n →
  Validate n = let n := default_trigger n in
    let '(ts, e) := normalize_targets (nChannel n) (nTargets n) in (set_targets n ts, e).
Proof.
  intros (Ht & Hk & Hc & Hl & Hp & Hs). unfold Validate. rewrite !decide_False by done.
  replace (bool_decide (nChannel n ≠ ChannelEmail) && bool_decide (nChannel n ≠ ChannelSMS)
    && bool_decide (nChannel n ≠ ChannelWebhook) && bool_decide (nChannel n ≠ ChannelPush))
    with false.
  2: { symmetry. rewrite !andb_false_iff, !bool_decide_eq_false.
       rewrite !elem_of_cons, elem_of_nil in Hc. naive_solver. }
  destruct (Z.eqb_spec (Z.of_nat (length (nTargets n))) 0); [lia|].
  destruct (Z.ltb_spec 1000 (Z.of_nat (length (nTargets n)))); [lia|].
  destruct (Z.ltb_spec (nPriority n) 0); [lia|]. destruct (Z.ltb_spec 100 (nPriority n)); [lia|].
  simpl. fold (default_trigger n). unfold default_trigger.
  case_decide as Htr; [done|].
  destruct (bool_decide_reflect (nTrigger n = TriggerScheduled)) as [Hd|]; [|done].
  rewrite bool_decide_false by auto. done.
Qed.

Lemma Validate_not_header n n' e : Validate n = (n', e) → ¬ header_ok n → e ≠ None.
Proof.
  unfold Validate, header_ok. intros Hv Hn ->. apply Hn. revert Hv. clear Hn.
  case_decide as Ht; [done|]. case_decide as Hk; [done|].
  destruct (_ && _ && _ && _) eqn:Hc; [done|].
  destruct (_ || _) eqn:Hl; [done|]. destruct (_ || _) eqn:Hp in |- *; [done|].
  rewrite !andb_false_iff, !bool_decide_eq_false in Hc. rewrite orb_false_iff in Hl, Hp.
  intros Hs. split_and!; try done; [|lia..|].
  - rewrite !elem_of_cons, elem_of_nil.
    destruct Hc as [[[Hc|Hc]|Hc]|Hc]; apply dec_stable in Hc; auto.
  - revert Hs. case_decide as Htr; [by rewrite Htr|]. intros Hs Hsch Hnone.
    by rewrite !bool_decide_true in Hs.
Qed.

#[export] Instance header_ok_dec n : Decision (header_ok n).
Proof.
  unfold header_ok.
  assert (Decision (nScheduleAt n ≠ None)) by (destruct (nScheduleAt n); [left|right]; naive_solver).
  apply _.
Defined.

Lemma default_trigger_header n : header_ok n → header_ok (default_trigger n).
Proof. unfold header_ok, default_trigger. case_decide; [|done]. simpl. naive_solver. Qed.

Lemma default_trigger_fields n :
  nChannel (default_trigger n) = nChannel n ∧ nTargets (default_trigger n) = nTargets n.
Proof. unfold default_trigger. by case_decide. Qed.

Lemma default_trigger_trigger n : nTrigger (default_trigger n) ≠ "".
Proof. unfold default_trigger. by case_decide. Qed.

(** What [Validate] leaves when it accepts. *)
Lemma Validate_request_ok n : (Validate n).2 = None → request_ok (Validate n).1.
Proof.
  destruct (decide (header_ok n)) as [Hh|Hh].
  2: { destruct (Validate n) as [n' e] eqn:Hv. pose proof (Validate_not_header _ _ _ Hv Hh). done. }
  pose proof (default_trigger_header n Hh) as (Ht & Hk & Hc & Hl & Hp & Hs).
  destruct (default_trigger_fields n) as [Hch Hts].
  rewrite Validate_header by done. cbn zeta. rewrite Hch, Hts in *.
  destruct (normalize_targets (nChannel n) (nTargets n)) as [ts e] eqn:Hn.
  cbn [fst snd] in *. intros ->. apply normalize_targets_None in Hn.
  constructor; simpl; rewrite ?Hch; try done.
  - by rewrite <- (Forall2_length _ _ _ Hn).
  - apply default_trigger_trigger.
  - apply Forall_forall. intros t' (i & Hi)%list_elem_of_lookup.
    eapply Forall2_lookup_r in Hn as (t & _ & Ht'); [|done]. by apply Normalize_Ok in Ht' as [_ ?].
Qed.
End validate.

Lemma step_to_progress n n' :
  step_to n n' → 1 ≤ phase (nStatus n) → n' = n ∨ phase (nStatus n) < phase (nStatus n').
Proof.
  intros (now & next & [(-> & _)|[(-> & _)|(-> & _ & Ha & _)]]%Transition_cases) Hp; [by left..|].
  right. by apply phase_mono.
Qed.

Lemma steps_progress n n' :
  rtc step_to n n' → 1 ≤ phase (nStatus n) → n' = n ∨ phase (nStatus n) < phase (nStatus n').
Proof.
  induction 1 as [|n n1 n' Hs _ IH]; [by left|]. intros Hp.
  destruct (step_to_progress _ _ Hs Hp) as [->|Hlt]; [by apply IH|].
  destruct IH as [->|]; [lia|by right|right; lia].
Qed.

Lemma phase_range s : 0 ≤ phase s ≤ 3.
Proof. unfold phase. repeat case_decide; lia. Qed.

Lemma phase_0 s : phase s = 0 ↔ s ∈ [StatusQueued; StatusPaused; StatusProcessing].
Proof. unfold phase. repeat case_decide; naive_solver lia. Qed.

(** ** Properties *)

(** C17: [Validate] accepts a notification exactly when its header is
    admissible and the normal form of every address (lower case, then trimmed) is:
    1 to 512 bytes, with an @ for email, at least 7 bytes for SMS.  What it then
    leaves is the request with every address in normal form, in order, the trigger
    filled in, and nothing else changed; it is well formed. *)
Theorem validate_correct `{Unicode} (n : Notification) :
  ((Validate n).2 = None ↔
     header_ok n ∧ Forall (λ t, address_ok (nChannel n) (TrimSpace (ToLower (tAddress t)))) (nTargets n)) ∧
  ((Validate n).2 = None →
     (Validate n).1 =
       set_trigger (set_targets n
         ((λ t, {| tAddress := TrimSpace (ToLower (tAddress t)); tName := tName t |}) <$> nTargets n))
         (if decide (nTrigger n = "") then TriggerImmediate else nTrigger n) ∧
     request_ok (Validate n).1).
Proof.
  destruct (decide (header_ok n)) as [Hh|Hh].
  2: { destruct (Validate n) as [n' e] eqn:Hv. pose proof (Validate_not_header _ _ _ Hv Hh).
       simpl. naive_solver. }
  pose proof (Validate_request_ok n) as Hok. split; [|intros Hn; split; [|by apply Hok]]; clear Hok.
  - rewrite Validate_header by done. cbn zeta. destruct (default_trigger_fields n) as [-> ->].
    pose proof (normalize_targets_error (nChannel n) (nTargets n)) as He.
    destruct (normalize_targets (nChannel n) (nTargets n)) as [ts e]. cbn [fst snd] in *. rewrite He.
    assert (Hall : Forall (λ t, is_ok (Normalize t (nChannel n)) = true) (nTargets n) ↔
      Forall (λ t, address_ok (nChannel n) (normal (tAddress t))) (nTargets n)).
    { apply Forall_iff. intros t. apply Normalize_spec. }
    rewrite Hall. naive_solver.
  - revert Hn. rewrite Validate_header by done. cbn zeta. destruct (default_trigger_fields n) as [-> ->].
    destruct (normalize_targets (nChannel n) (nTargets n)) as [ts e] eqn:Hn. cbn [fst snd]. intros ->.
    apply normalize_targets_None in Hn. replace ts with ((λ t, {| tAddress := normal (tAddress t); tName := tName t |}) <$> nTargets n).
    + unfold default_trigger. by case_decide.
    + clear -Hn. induction Hn as [|t t' ts ts' Ht _ IH]; [done|]. rewrite fmap_cons, IH. f_equal.
      by apply Normalize_Ok in Ht as [-> _].
Qed.

Definition sample_email : Notification := {|
  nID := ""; nTenantID := "acme"; nIdempotencyKey := "invoice-1"; nChannel := ChannelEmail;
  nTargets := [{| tAddress := " A@Example.COM "; tName := "" |}];
  nTemplateID := ""; nTemplateVersion := 0; nVariables := ∅; nSubject := "Invoice"; nBody := "ready";
  nPriority := 80; nTrigger := ""; nScheduleAt := None; nExpiresAt := None; nBusinessID := "";
  nStatus := ""; nAttempts := 0; nProvider := ""; nLastError := "";
  nCreatedAt := time_zero; nUpdatedAt := time_zero; nVersion := 0 |}.

(** Validating an accepted notification with ASCII addresses again
    changes nothing: what [Replay] submits a second time is stored as it was. *)
Theorem validate_idempotent `{Unicode} (n n' : Notification) :
  Forall (λ t, is_ascii (tAddress t) = true) (nTargets n) →
  Validate n = (n', None) → Validate n' = (n', None).
Proof.
  intros Ha Hv.
  assert (Hh : header_ok n).
  { apply dec_stable. intros Hn. by apply (Validate_not_header _ _ _ Hv). }
  rewrite Validate_header in Hv by done. cbn zeta in Hv.
  pose proof (default_trigger_header n Hh) as Hd.
  assert (Hda : nTargets (default_trigger n) = nTargets n)
    by (unfold default_trigger; by case_decide).
  set (d := default_trigger n) in *.
  destruct (normalize_targets (nChannel d) (nTargets d)) as [ts e] eqn:Hn.
  injection Hv as <- ->. rewrite <- Hda in Ha.
  pose proof (normalize_targets_fixed _ _ _ Ha Hn) as Hfix.
  apply normalize_targets_None, Forall2_length in Hn.
  assert (Hsame : default_trigger (set_targets d ts) = set_targets d ts).
  { unfold default_trigger at 1. rewrite decide_False; [done|]. apply default_trigger_trigger. }
  rewrite Validate_header; [|by unfold header_ok in *; simpl; rewrite <- Hn].
  cbn zeta. rewrite Hsame. simpl. by rewrite Hfix.
Qed.

#[local] Instance ascii_only : Unicode := {| to_lower_table := λ r, r |}.

Lemma validate_idempotent_witness :
  ∃ n', Validate sample_email = (n', None) ∧ tAddress <$> nTargets n' = ["a@example.com"]
    ∧ Validate n' = (n', None).
Proof.
  eexists. split_and!; [vm_compute; reflexivity|reflexivity|].
  apply (validate_idempotent sample_email); [by repeat constructor|vm_compute; reflexivity].
Defined.

(** C15: [Transition] succeeds exactly on the current status and on the
    edges of the machine; an edge changes the status, the update time and the
    version, by one, and nothing else; every other call changes nothing.  The edges
    are those of the diagram in the README and five more: from processing to
    paused, from accepted and sent to failed, from paused to queued and canceled. *)
Theorem transition_correct (now : time) (n : Notification) (next : Status) :
  let legal := (nStatus n, next) ∈ readme_edges ∨ (nStatus n, next) ∈ extra_edges in
  ((Transition now n next).2 = None ↔ nStatus n = next ∨ legal) ∧
  (nStatus n ≠ next → legal →
     (Transition now n next).1 = set_status n next now (wrap64 (nVersion n + 1))) ∧
  (nStatus n = next ∨ ¬ legal → (Transition now n next).1 = n).
Proof.
  intros legal. assert (Hl : is_allowed (nStatus n) next = true ↔ legal).
  { unfold legal. by rewrite is_allowed_edges, edges_readme, elem_of_app. }
  destruct (Transition now n next) as [n' e] eqn:Ht. cbn [fst snd].
  apply Transition_cases in Ht as [(-> & <- & ->)|[(-> & Hne & Ha & msg & ->)|(-> & Hne & Ha & ->)]].
  - split_and!; [|done..]. naive_solver.
  - assert (Hno : ¬ legal) by (rewrite <- Hl; congruence). naive_solver.
  - apply Hl in Ha. naive_solver.
Qed.

(** C16: once a notification is accepted by a provider, no sequence of
    transitions brings it back to queued, paused or processing; every effective
    one moves it forward, so at most two follow. *)
Theorem accepted_never_requeued (n n' : Notification) :
  rtc step_to n n' → nStatus n ∉ [StatusQueued; StatusPaused; StatusProcessing] →
  (nStatus n' ∉ [StatusQueued; StatusPaused; StatusProcessing]) ∧
  (n' = n ∨ (phase (nStatus n) < phase (nStatus n') ≤ 3)).
Proof.
  rewrite <- !phase_0. intros Hs Hn. pose proof (phase_range (nStatus n)).
  pose proof (phase_range (nStatus n')).
  destruct (steps_progress _ _ Hs) as [->|]; [lia|by auto|split; [lia|right; lia]].
Qed.

Lemma accepted_never_requeued_witness :
  let n := set_status sample_email StatusAccepted 1 3 in
  let n' := set_status n StatusDelivered 5 4 in
  (nStatus n' ∉ [StatusQueued; StatusPaused; StatusProcessing]) ∧
  (n' = n ∨ (phase (nStatus n) < phase (nStatus n') ≤ 3)).
Proof.
  apply accepted_never_requeued; [|vm_compute; set_solver].
  apply rtc_once. exists 5, StatusDelivered. reflexivity.
Defined.
