(* ===== verification/PriorityQueue.v ===== *)
(** * Package [queue]: the bounded priority queue ([internal/queue/priority.go])

    [items] is the binary heap of package [Heap]; the buffered channel [wake] of
    capacity one is a flag.  A queued [*Notification] is owned by the queue while it
    is in it, so the items hold the notification itself. *)

From S2P Require Export Heap Domain.
Local Open Scope Z_scope.

Module Queue.

Record Item := { iN : Notification; iIndex : nat; iEnqueued : time }.

(** [pq.Less]: higher priority first, then the earlier arrival. *)
Definition item_less (x y : Item) : bool :=
  if decide (nPriority (iN x) = nPriority (iN y)) then Before (iEnqueued x) (iEnqueued y)
  else nPriority (iN y) <? nPriority (iN x).

#[export] Instance item_heap : HeapItem Item := {|
  less := item_less;
  set_index i x := {| iN := iN x; iIndex := i; iEnqueued := iEnqueued x |};
  index := iIndex;
|}.

Record Queue := { items : list Item; wake : bool; max : Z }.

Definition New (max : Z) : Queue := {| items := Init []; wake := false; max := max |}.

(** [now] is the clock reading stored in the item. *)
Definition Enqueue (now : time) (n : Notification) (q : Queue) : Queue * option error :=
  if max q <=? Z.of_nat (length (items q)) then (q, Some "queue capacity reached")
  else ({| items := Push (items q) {| iN := n; iIndex := 0; iEnqueued := now |};
           wake := true; max := max q |}, None).

Definition Dequeue (q : Queue) : Queue * option Notification :=
  match items q with
  | [] => (q, None)
  | _ => match Pop (items q) with
         | Some (it, rest) => ({| items := rest; wake := wake q; max := max q |}, Some (iN it))
         | None => (q, None)
         end
  end.

(** [<-q.Wake()]: receiving takes the token. *)
Definition recv_wake (q : Queue) : Queue := {| items := items q; wake := false; max := max q |}.

Definition Len (q : Queue) : Z := Z.of_nat (length (items q)).

(** ** Specification

    The content of a queue is a multiset of entries, written as a list up to
    permutation; [before x y] is the order of service. *)

Definition entry : Type := time * Notification.
Definition entry_of (x : Item) : entry := (iEnqueued x, iN x).
Definition contents (q : Queue) : list entry := entry_of <$> items q.

Definition before (x y : entry) : bool :=
  if decide (nPriority x.2 = nPriority y.2) then x.1 <? y.1
  else nPriority y.2 <? nPriority x.2.

(** The abstract bounded queue: [enq] and [deq] on a list of entries. *)
Inductive enq (cap : Z) (now : time) (n : Notification) (l : list entry) :
  list entry → option error → Prop :=
| enq_full : cap ≤ Z.of_nat (length l) → enq cap now n l l (Some "queue capacity reached")
| enq_ok : Z.of_nat (length l) < cap → enq cap now n l ((now, n) :: l) None.

Inductive deq (l : list entry) : list entry → option Notification → Prop :=
| deq_empty : l = [] → deq l [] None
| deq_first e l' : l ≡ₚ e :: l' → Forall (λ y, before y e = false) l' → deq l l' (Some e.2).

(** The invariant of the queue. *)
Definition queue_ok (q : Queue) : Prop :=
  heap_ok (items q) ∧ Len q ≤ Z.max 0 (max q).

(** Take everything out, in order of service. *)
Fixpoint drain (fuel : nat) (q : Queue) : list Notification :=
  match fuel with
  | O => []
  | S fuel => match Dequeue q with
              | (q', Some n) => n :: drain fuel q'
              | (_, None) => []
              end
  end.

(** A history of calls. *)
Inductive call := CallEnqueue (now : time) (n : Notification) | CallDequeue | CallWake.

Definition run_call (q : Queue) (c : call) : Queue :=
  match c with
  | CallEnqueue now n => (Enqueue now n q).1
  | CallDequeue => (Dequeue q).1
  | CallWake => recv_wake q
  end.

(** ** Lemmas *)

#[export] Instance before_order : LessOrder before.
Proof.
  split; unfold le_of, before.
  - intros [tx nx] [ty ny]; simpl. repeat case_decide; lia.
  - intros [tx nx] [ty ny] [tz nz]; simpl. repeat case_decide; lia.
Qed.

#[export] Instance item_heap_ok : HeapItemOk Item.
Proof.
  split; try done.
  assert (Hl : ∀ x y : Item, less x y = before (entry_of x) (entry_of y)) by done.
  split; unfold le_of; [intros x y|intros x y z]; rewrite !Hl;
    [apply less_asym|apply le_of_trans]; apply _.
Qed.

Lemma less_before (x y : Item) : less x y = before (entry_of x) (entry_of y).
Proof. done. Qed.

Lemma entry_of_unindexed (l : list Item) : entry_of <$> (unindexed <$> l) = entry_of <$> l.
Proof. rewrite <- list_fmap_compose. by apply list_fmap_ext. Qed.

Lemma entries_perm (l : list Item) (k : list Item) :
  unindexed <$> l ≡ₚ unindexed <$> k → entry_of <$> l ≡ₚ entry_of <$> k.
Proof. intros Hp. rewrite <- (entry_of_unindexed l), <- (entry_of_unindexed k). by rewrite Hp. Qed.

Lemma length_contents q : length (contents q) = length (items q).
Proof. apply length_fmap. Qed.

Lemma New_ok m : queue_ok (New m).
Proof. split; [apply heap_ok_nil|]. unfold Len. simpl. lia. Qed.

Lemma Enqueue_ok now n q : queue_ok q → queue_ok (Enqueue now n q).1.
Proof.
  unfold Enqueue, queue_ok, Len. intros [Hh Hl].
  destruct (Z.leb_spec (max q) (Z.of_nat (length (items q)))); simpl; [done|].
  split; [by apply Push_ok|]. rewrite length_Push. lia.
Qed.

(** The shape of a successful [Dequeue]. *)
Lemma Dequeue_cases q :
  heap_ok (items q) →
  (items q = [] ∧ Dequeue q = (q, None)) ∨
  (∃ it rest, Dequeue q = ({| items := rest; wake := wake q; max := max q |}, Some (iN it)) ∧
     heap_ok rest ∧ unindexed <$> items q ≡ₚ unindexed it :: (unindexed <$> rest) ∧
     ∀ y, y ∈ rest → less y it = false).
Proof.
  intros Hh. unfold Dequeue. destruct (items q) as [|r l] eqn:Hi; [by left|right].
  destruct (Pop_ok (r :: l) r Hh eq_refl) as (x & h' & -> & Hok & _ & Hp & Hmin).
  by exists x, h'.
Qed.

Lemma Dequeue_ok q : queue_ok q → queue_ok (Dequeue q).1.
Proof.
  intros [Hh Hl]. destruct (Dequeue_cases q Hh) as [[_ ->]|(it & rest & -> & Hr & Hp & _)]; [done|].
  split; [done|]. unfold Len in *. simpl.
  apply Permutation_length in Hp. simpl in Hp. rewrite !length_fmap in Hp. lia.
Qed.

Lemma queue_call_ok q c : queue_ok q → queue_ok (run_call q c).
Proof. destruct c; [apply Enqueue_ok|apply Dequeue_ok|done]. Qed.

Lemma Dequeue_shrinks q n q' :
  queue_ok q → Dequeue q = (q', Some n) →
  length (items q) = S (length (items q')) ∧ wake q' = wake q.
Proof.
  intros [Hh _] Hd. destruct (Dequeue_cases q Hh) as [[_ He]|(it & rest & He & _ & Hp & _)];
    rewrite Hd in He; [done|]. injection He as -> _. cbn. split; [|done].
  apply Permutation_length in Hp. simpl in Hp. by rewrite !length_fmap in Hp.
Qed.

Lemma Dequeue_empty q : queue_ok q → (Dequeue q).2 = None ↔ items q = [].
Proof.
  intros [Hh _]. destruct (Dequeue_cases q Hh) as [[Hi ->]|(it & rest & -> & _ & Hp & _)]; [done|].
  split; [done|]. intros Hi. rewrite Hi in Hp. by apply Permutation_nil_cons in Hp.
Qed.

Lemma Dequeue_deq q :
  heap_ok (items q) → deq (contents q) (contents (Dequeue q).1) (Dequeue q).2.
Proof.
  intros Hh. unfold contents.
  destruct (Dequeue_cases q Hh) as [[Hi ->]|(it & rest & -> & _ & Hp & Hmin)]; simpl.
  - rewrite Hi. by constructor.
  - apply (deq_first _ (entry_of it)).
    + by apply (entries_perm (items q) (it :: rest)).
    + apply Forall_fmap, Forall_forall. intros y Hy. simpl. rewrite <- less_before. by apply Hmin.
Qed.

Lemma Enqueue_max now n q : max (Enqueue now n q).1 = max q.
Proof. unfold Enqueue. by case_match. Qed.

Lemma Enqueue_contents now n q :
  contents (Enqueue now n q).1 ≡ₚ
    if max q <=? Z.of_nat (length (contents q)) then contents q else (now, n) :: contents q.
Proof.
  unfold Enqueue. rewrite length_contents. case_match; [done|]. unfold contents. simpl.
  apply (entries_perm (Push (items q) _) ({| iN := n; iIndex := 0; iEnqueued := now |} :: items q)).
  by rewrite Push_perm.
Qed.

(** There is room, and the entry is added; or there is none, and nothing changes. *)
Lemma Enqueue_room t n q :
  ((Enqueue t n q).2 = None ↔ Len q < max q) ∧
  ((Enqueue t n q).2 = None → contents (Enqueue t n q).1 ≡ₚ (t, n) :: contents q).
Proof.
  rewrite Enqueue_contents, length_contents. unfold Enqueue, Len.
  destruct (Z.leb_spec (max q) (Z.of_nat (length (items q)))); cbn [snd]; (split; [split; (done || lia)|done]).
Qed.

Lemma Enqueue_cases t n q :
  (max q ≤ Len q ∧ Enqueue t n q = (q, Some "queue capacity reached")) ∨
  (Len q < max q ∧ (Enqueue t n q).2 = None ∧ Len (Enqueue t n q).1 = Len q + 1 ∧
   contents (Enqueue t n q).1 ≡ₚ (t, n) :: contents q).
Proof.
  pose proof (Enqueue_room t n q) as [Hr Hc]. destruct (Z.leb_spec (max q) (Len q)) as [Hl|Hl].
  - left. split; [done|]. unfold Enqueue, Len in *. case_match; [done|lia].
  - right. apply Hr in Hl as Hn. specialize (Hc Hn). split_and!; [done..| |done].
    apply Permutation_length in Hc. rewrite length_contents in Hc. cbn [length] in Hc.
    rewrite length_contents in Hc. unfold Len. lia.
Qed.

Lemma max_Dequeue q : max (Dequeue q).1 = max q.
Proof. unfold Dequeue. by repeat case_match. Qed.

Lemma queue_reachable cap cs :
  let q := foldl run_call (New cap) cs in queue_ok q ∧ max q = cap.
Proof.
  cbn zeta. assert (Hgen : ∀ q, queue_ok q → queue_ok (foldl run_call q cs) ∧ max (foldl run_call q cs) = max q).
  { induction cs as [|c cs IH]; intros q Hq; simpl; [done|].
    destruct (IH (run_call q c)) as [H1 H2]; [by apply queue_call_ok|]. split; [done|].
    rewrite H2. destruct c; simpl; [|apply max_Dequeue|done].
    unfold Enqueue. by case_match. }
  apply (Hgen (New cap)), New_ok.
Qed.

(** A list of entries served by taking a first one each time is sorted. *)
Lemma drain_contents fuel q :
  heap_ok (items q) → (length (items q) ≤ fuel)%nat →
  ∃ l, l ≡ₚ contents q ∧ StronglySorted (le_of before) l ∧ drain fuel q = l.*2.
Proof.
  revert q. induction fuel as [|fuel IH]; intros q Hh Hlen.
  { exists []. unfold contents. destruct (items q); simpl in *; [|lia].
    split_and!; [done|constructor|done]. }
  cbn [drain].
  destruct (Dequeue_cases q Hh) as [[Hi ->]|(it & rest & -> & Hr & Hp & Hmin)].
  { exists []. unfold contents. rewrite Hi. split_and!; [done|constructor|done]. }
  destruct (IH {| items := rest; wake := wake q; max := max q |} Hr) as (l & Hl & Hs & ->).
  { apply Permutation_length in Hp. simpl in *. rewrite !length_fmap in Hp. lia. }
  unfold contents in *. simpl in Hl. exists (entry_of it :: l). split_and!.
  - rewrite Hl. symmetry. by apply (entries_perm (items q) (it :: rest)).
  - constructor; [done|]. rewrite Hl. apply Forall_fmap, Forall_forall. intros y Hy.
    unfold le_of. simpl. rewrite <- less_before. by apply Hmin.
  - done.
Qed.

(** ** Properties *)

(** C25: whatever calls were made on a new queue of capacity [cap], it holds
    at most [cap] notifications, and the next [Enqueue] and [Dequeue] do what the
    abstract bounded queue does on its contents: a full queue refuses and is
    unchanged, an item is added otherwise, and [Dequeue] removes an entry no other
    entry is before, or reports emptiness. *)
Theorem queue_refines (cap : Z) (cs : list call) :
  let q := foldl run_call (New cap) cs in
  Len q ≤ Z.max 0 cap ∧
  (∀ now n, ∃ l', enq cap now n (contents q) l' (Enqueue now n q).2 ∧
     contents (Enqueue now n q).1 ≡ₚ l' ∧
     ((Enqueue now n q).2 = None → wake (Enqueue now n q).1 = true)) ∧
  deq (contents q) (contents (Dequeue q).1) (Dequeue q).2.
Proof.
  cbn zeta. destruct (queue_reachable cap cs) as [[Hh Hl] Hm]. rewrite Hm in Hl.
  set (q := foldl run_call (New cap) cs) in *. split_and!; [done| |by apply Dequeue_deq].
  intros now n. pose proof (Enqueue_contents now n q) as Hc. revert Hc.
  unfold Enqueue. rewrite Hm, <- (length_contents q).
  destruct (Z.leb_spec cap (Z.of_nat (length (contents q)))); simpl; intros Hc.
  - exists (contents q). split_and!; [by constructor|done|done].
  - exists ((now, n) :: contents q). split_and!; [by constructor|done|done].
Qed.

(** Emptying any reachable queue returns all of its notifications, by
    decreasing priority and, within one priority, in the order of arrival. *)
Theorem drain_sorted (cap : Z) (cs : list call) :
  let q := foldl run_call (New cap) cs in
  ∃ l, l ≡ₚ contents q ∧ drain (length (items q)) q = l.*2 ∧
    StronglySorted (λ x y, nPriority y.2 < nPriority x.2 ∨
      (nPriority x.2 = nPriority y.2 ∧ x.1 ≤ y.1)) l.
Proof.
  cbn zeta. destruct (queue_reachable cap cs) as [[Hh _] _].
  destruct (drain_contents _ _ Hh (le_n _)) as (l & Hl & Hs & Hd). exists l. split_and!; [done..|].
  eapply StronglySorted_impl; [|exact Hs]. unfold le_of, before. intros x y. case_decide; lia.
Qed.

End Queue.
