(* ===== verification/DelayQueue.v ===== *)
(** * Package [queue]: the delay queue ([internal/queue/delay.go])

    A bounded heap of notifications by due time, and the loop [Run] that moves the
    ones that are due to the priority queue. *)

From S2P Require Export PriorityQueue.
Local Open Scope Z_scope.

Module DelayQueue.

Record delayedItem := { dN : Notification; dDue : time; dIndex : nat }.

Definition delayed_less (x y : delayedItem) : bool := Before (dDue x) (dDue y).

#[export] Instance delayed_heap : HeapItem delayedItem := {|
  less := delayed_less;
  set_index i x := {| dN := dN x; dDue := dDue x; dIndex := i |};
  index := dIndex;
|}.

Record DelayQueue := { items : list delayedItem; notify : bool; limit : Z }.

Definition NewDelayQueue (limit : Z) : DelayQueue :=
  {| items := Init []; notify := false; limit := limit |}.

Definition Add (n : Notification) (due : time) (q : DelayQueue) : DelayQueue * bool :=
  if limit q <=? Z.of_nat (length (items q)) then (q, false)
  else ({| items := Push (items q) {| dN := n; dDue := due; dIndex := 0 |};
           notify := true; limit := limit q |}, true).

(** Where one iteration of the loop in [Run] ends: blocked on the channel, blocked
    on the channel or a timer, or an item handed to [target.Enqueue], whose error
    is dropped. *)
Inductive outcome :=
| WaitNotify
| WaitTimer (wait : Duration)
| Moved (n : Notification) (due : time) (err : option error).

(** One iteration at time [now]; [t_enq] is the reading of the clock in [Enqueue]. *)
Definition run_iter (now t_enq : time) (q : DelayQueue) (target : Queue.Queue) :
    DelayQueue * Queue.Queue * outcome :=
  match items q with
  | [] => (q, target, WaitNotify)
  | item :: _ =>
      let wait := Until now (dDue item) in
      if 0 <? wait then (q, target, WaitTimer wait)
      else match Pop (items q) with
           | Some (_, rest) =>
               let '(target', err) := Queue.Enqueue t_enq (dN item) target in
               ({| items := rest; notify := notify q; limit := limit q |}, target',
                Moved (dN item) (dDue item) err)
           | None => (q, target, WaitNotify)
           end
  end.

(** [<-q.notify] *)
Definition recv_notify (q : DelayQueue) : DelayQueue :=
  {| items := items q; notify := false; limit := limit q |}.

(** Iterate at one instant until the loop blocks: what was moved, in order. *)
Fixpoint run_due (fuel : nat) (now : time) (q : DelayQueue) (target : Queue.Queue) :
    DelayQueue * Queue.Queue * list (Notification * time * option error) :=
  match fuel with
  | O => (q, target, [])
  | S fuel =>
      match run_iter now now q target with
      | (q', target', Moved n due err) =>
          let '(q'', target'', moved) := run_due fuel now q' target' in
          (q'', target'', (n, due, err) :: moved)
      | (q', target', _) => (q', target', [])
      end
  end.

(** ** Specification *)

Definition dentry_of (x : delayedItem) : Notification * time := (dN x, dDue x).
Definition contents (q : DelayQueue) : list (Notification * time) := dentry_of <$> items q.
Definition delay_ok (q : DelayQueue) : Prop :=
  heap_ok (items q) ∧ Z.of_nat (length (items q)) ≤ Z.max 0 (limit q).

(** What happens to a queue in any order: calls of [Add], iterations of the loop at
    any time with any state of the target, and receptions from the channel. *)
Inductive dop :=
| DAdd (n : Notification) (due : time)
| DIter (now t_enq : time) (target : Queue.Queue)
| DNotified.

Definition run_dop (q : DelayQueue) (a : dop) : DelayQueue :=
  match a with
  | DAdd n due => (Add n due q).1
  | DIter now t target => (run_iter now t q target).1.1
  | DNotified => recv_notify q
  end.

Definition reached (limit : Z) (l : list dop) : DelayQueue := foldl run_dop (NewDelayQueue limit) l.

(** ** Lemmas *)

#[export] Instance delayed_heap_ok : HeapItemOk delayedItem.
Proof.
  split; try done. split; unfold le_of; simpl; unfold delayed_less, Before; intros; lia.
Qed.

Lemma dentries_perm (l k : list delayedItem) :
  unindexed <$> l ≡ₚ unindexed <$> k → dentry_of <$> l ≡ₚ dentry_of <$> k.
Proof.
  assert (He : ∀ l : list delayedItem, dentry_of <$> (unindexed <$> l) = dentry_of <$> l).
  { intros ?. rewrite <- list_fmap_compose. by apply list_fmap_ext. }
  intros Hp. rewrite <- (He l), <- (He k). by rewrite Hp.
Qed.

Lemma Add_ok n due q : delay_ok q → delay_ok (Add n due q).1.
Proof.
  unfold Add, delay_ok. intros [Hh Hl].
  destruct (Z.leb_spec (limit q) (Z.of_nat (length (items q)))); simpl; [done|].
  split; [by apply Push_ok|]. rewrite length_Push. lia.
Qed.

Lemma Until_pos now due : 0 < Until now due ↔ now < due.
Proof. unfold Until, Sub, sat64, min_int64, max_int64. lia. Qed.

(** The root of the heap is due first. *)
Lemma root_earliest r l k x : heap_ok (r :: l) → (r :: l) !! k = Some x → dDue r ≤ dDue x.
Proof.
  intros [Hh _] Hk. pose proof (is_heap_root _ k Hh) as Hroot.
  unfold leq_at, Less in Hroot. rewrite Hk in Hroot. simpl in Hroot. unfold delayed_less, Before in Hroot. lia.
Qed.

(** One iteration on a heap: empty, nothing due yet, or the earliest item moved. *)
Lemma run_iter_cases now t q target :
  heap_ok (items q) →
  (items q = [] ∧ run_iter now t q target = (q, target, WaitNotify)) ∨
  (∃ wait, run_iter now t q target = (q, target, WaitTimer wait) ∧ 0 < wait ∧
     Forall (λ x, now < x.2) (contents q)) ∨
  (∃ x rest, dDue x ≤ now ∧
     run_iter now t q target =
       ({| items := rest; notify := notify q; limit := limit q |},
        (Queue.Enqueue t (dN x) target).1, Moved (dN x) (dDue x) (Queue.Enqueue t (dN x) target).2) ∧
     heap_ok rest ∧ contents q ≡ₚ dentry_of x :: (dentry_of <$> rest) ∧
     Forall (λ y, dDue x ≤ y.2) (dentry_of <$> rest)).
Proof.
  intros Hh. unfold run_iter, contents. destruct (items q) as [|r l] eqn:Hi; [by left|right].
  destruct (Z.ltb_spec 0 (Until now (dDue r))) as [Hw|Hw].
  - left. eexists. split_and!; [done|done|]. rewrite Until_pos in Hw.
    apply Forall_fmap, Forall_forall. intros x (k & Hk)%list_elem_of_lookup. simpl.
    pose proof (root_earliest r l k x Hh Hk). lia.
  - right. destruct (Pop_ok (r :: l) r Hh eq_refl) as (x & rest & -> & Hr & Hx & Hp & Hmin).
    destruct (Queue.Enqueue t (dN r) target) as [target' err] eqn:He.
    assert (Hd : dentry_of x = dentry_of r).
    { apply (f_equal dentry_of) in Hx. exact Hx. }
    exists r, rest. rewrite He. split_and!; try done.
    + pose proof (Until_pos now (dDue r)). lia.
    + rewrite (dentries_perm (r :: l) (x :: rest)) by done. simpl. by rewrite Hd.
    + apply Forall_fmap, Forall_forall. intros y Hy%Hmin. simpl in *.
      unfold delayed_less, Before in Hy. injection Hd as _ Hd. lia.
Qed.

Definition moved_entry (m : Notification * time * option error) : Notification * time := m.1.

Lemma run_due_spec fuel now q target :
  heap_ok (items q) → (length (items q) ≤ fuel)%nat →
  let '(q', _, moved) := run_due fuel now q target in
  contents q ≡ₚ (moved_entry <$> moved) ++ contents q' ∧
  Forall (λ m, m.2 ≤ now) (moved_entry <$> moved) ∧
  Forall (λ x, now < x.2) (contents q') ∧
  StronglySorted (λ x y, x.2 ≤ y.2) (moved_entry <$> moved).
Proof.
  revert q target. induction fuel as [|fuel IH]; intros q target Hh Hlen; cbn [run_due].
  { unfold contents. destruct (items q); simpl in *; [|lia]. split_and!; constructor. }
  destruct (run_iter_cases now now q target Hh)
    as [[Hi ->]|[(wait & -> & _ & Hw)|(x & rest & Hx & -> & Hr & Hp & Hmin)]].
  - unfold contents. rewrite Hi. split_and!; constructor.
  - split_and!; [done|constructor|done|constructor].
  - set (q1 := {| items := rest; notify := notify q; limit := limit q |}).
    specialize (IH q1 (Queue.Enqueue now (dN x) target).1 Hr).
    destruct (run_due fuel now q1 _) as [[q' t'] moved]. destruct IH as (Hp' & Hm & Hr' & Hs).
    { apply Permutation_length in Hp. unfold contents in Hp. simpl in Hp.
      rewrite !length_fmap in Hp. simpl. lia. }
    unfold contents at 2 in Hp'. simpl. split_and!; try done.
    + rewrite Hp. constructor. exact Hp'.
    + by constructor.
    + constructor; [done|]. change (dentry_of <$> rest) with (contents q1) in Hmin.
      rewrite Hp' in Hmin. by apply Forall_app in Hmin as [? _].
Qed.

(** The loop leaves a heap. *)
Lemma run_due_heap fuel now q target : heap_ok (items q) → heap_ok (items (run_due fuel now q target).1.1).
Proof.
  revert q target. induction fuel as [|fuel IH]; intros q target Hh; [done|]. cbn [run_due].
  destruct (run_iter_cases now now q target Hh) as [[_ ->]|[(wait & -> & _)|(x & rest & _ & -> & Hr & _)]]; [done..|].
  specialize (IH {| items := rest; notify := notify q; limit := limit q |} (Queue.Enqueue now (dN x) target).1 Hr).
  by destruct (run_due fuel now _ _) as [[q' t'] moved].
Qed.

(** With nothing due the loop blocks, at most until the earliest entry. *)
Lemma run_iter_blocks now q target :
  heap_ok (items q) → Forall (λ x, now < x.2) (contents q) →
  match (run_iter now now q target).2 with
  | WaitNotify => contents q = []
  | WaitTimer wait => 0 < wait ∧ ∃ x, x ∈ contents q ∧ wait = Until now x.2 ∧ ∀ y, y ∈ contents q → x.2 ≤ y.2
  | Moved _ _ _ => False
  end.
Proof.
  unfold run_iter, contents. destruct (items q) as [|r l] eqn:Hi; [done|]. intros Hh Hlate.
  apply Forall_cons in Hlate as [Hr _]. cbn [dentry_of snd] in Hr. apply Until_pos in Hr as Hw.
  rewrite (proj2 (Z.ltb_lt _ _) Hw). cbn [snd]. split; [done|]. exists (dentry_of r).
  split_and!; [left|done|]. intros y (x & -> & [k Hk]%list_elem_of_lookup)%list_elem_of_fmap.
  by apply (root_earliest r l k).
Qed.

Lemma run_iter_ok now t q target : delay_ok q → delay_ok (run_iter now t q target).1.1.
Proof.
  intros [Hh Hl]. destruct (run_iter_cases now t q target Hh)
    as [[_ ->]|[(wait & -> & _)|(x & rest & _ & -> & Hr & Hp & _)]]; [done..|]. split; [done|].
  apply Permutation_length in Hp. unfold contents in Hp. cbn [length] in Hp. rewrite !length_fmap in Hp.
  cbn [fst items limit]. lia.
Qed.

Lemma reached_ok limit l : delay_ok (reached limit l).
Proof.
  unfold reached. assert (Hn : delay_ok (NewDelayQueue limit)).
  { split; [apply heap_ok_nil|simpl; lia]. }
  revert Hn. generalize (NewDelayQueue limit). induction l as [|a l IH]; intros q Hq; [done|].
  apply IH. destruct a; [by apply Add_ok|by apply run_iter_ok|by destruct Hq].
Qed.

(** What the target has room for enters it, in the order of the moves. *)
Lemma run_due_target fuel now q target :
  let '(_, target', moved) := run_due fuel now q target in
  let room := Z.to_nat (Queue.max target - Queue.Len target) in
  Queue.contents target' ≡ₚ ((λ m, (now, m.1.1)) <$> take room moved) ++ Queue.contents target ∧
  ∀ i m, moved !! i = Some m → m.2 = if decide (i < room)%nat then None else Some "queue capacity reached".
Proof.
  revert q target. induction fuel as [|fuel IH]; intros q target; cbn [run_due]; [by rewrite take_nil|].
  unfold run_iter. destruct (items q) as [|x l]; [by rewrite take_nil|].
  destruct (0 <? Until now (dDue x)); [by rewrite take_nil|].
  destruct (Pop (x :: l)) as [[y rest]|]; [|by rewrite take_nil].
  pose proof (Queue.Enqueue_cases now (dN x) target) as Hcase.
  pose proof (Queue.Enqueue_max now (dN x) target) as Hmax.
  destruct (Queue.Enqueue now (dN x) target) as [t1 err]. cbn [fst snd] in *.
  specialize (IH {| items := rest; notify := notify q; limit := limit q |} t1).
  destruct (run_due fuel now _ t1) as [[q' t'] moved]. destruct IH as [IHc IHe]. rewrite Hmax in IHc, IHe.
  destruct Hcase as [[Hfull [= -> ->]]|(Hroom & -> & Hlen & Hc)].
  - replace (Z.to_nat (Queue.max target - Queue.Len target)) with 0%nat in * by lia. split; [done|].
    intros [|i] m; [by intros [= <-]|]. cbn [lookup list_lookup]. intros Hm. by apply IHe in Hm.
  - replace (Z.to_nat (Queue.max target - Queue.Len target))
      with (S (Z.to_nat (Queue.max target - Queue.Len t1))) by lia.
    split; [rewrite IHc, Hc; cbn [take fmap list_fmap app fst]; symmetry; apply Permutation_middle|].
    intros [|i] m; [by intros [= <-]|]. cbn [lookup list_lookup]. intros Hm. rewrite (IHe i m Hm).
    repeat case_decide; (done || lia).
Qed.

(** ** Properties *)

(** C26: whatever was added before and whatever iterations there were, the loop at
    one instant moves exactly the notifications that are due, earliest first, into
    the target, with that instant as their time of arrival, as long as it has room,
    and drops the others with the queue's error; it keeps exactly the later ones.
    Then it blocks: on the channel if nothing is left, else until the earliest of
    them is due. *)
Theorem run_due_exact (lim : Z) (ops : list dop) (now : time) (target : Queue.Queue) :
  let q := reached lim ops in
  let '(q', target', moved) := run_due (length (items q)) now q target in
  let room := Z.to_nat (Queue.max target - Queue.Len target) in
  contents q ≡ₚ (moved_entry <$> moved) ++ contents q' ∧
  Forall (λ m, m.2 ≤ now) (moved_entry <$> moved) ∧
  Forall (λ x, now < x.2) (contents q') ∧
  StronglySorted (λ x y, x.2 ≤ y.2) (moved_entry <$> moved) ∧
  Queue.contents target' ≡ₚ ((λ m, (now, m.1.1)) <$> take room moved) ++ Queue.contents target ∧
  (∀ i m, moved !! i = Some m → m.2 = if decide (i < room)%nat then None else Some "queue capacity reached") ∧
  match (run_iter now now q' target').2 with
  | WaitNotify => contents q' = []
  | WaitTimer wait => 0 < wait ∧ ∃ x, x ∈ contents q' ∧ wait = Until now x.2 ∧ ∀ y, y ∈ contents q' → x.2 ≤ y.2
  | Moved _ _ _ => False
  end.
Proof.
  intros q. pose proof (reached_ok lim ops) as [Hh _]. fold q in Hh.
  pose proof (run_due_spec (length (items q)) now q target Hh ltac:(done)) as Hspec.
  pose proof (run_due_target (length (items q)) now q target) as Htarget.
  pose proof (run_due_heap (length (items q)) now q target Hh) as Hh'.
  destruct (run_due _ now q target) as [[q' target'] moved]. cbn [fst] in Hh'.
  destruct Hspec as (H1 & H2 & H3 & H4). destruct Htarget as (H5 & H6). split_and!; [done..|].
  by apply run_iter_blocks.
Qed.

(** Two notifications that are due and one that is not, into a target with room for
    one: the earlier is delivered, the later is dropped. *)
Example run_due_ex :
  let at_ t := set_id sample_email t in
  let q := reached 5 [DAdd (at_ "b") 20; DAdd (at_ "a") 10; DAdd (at_ "c") 30] in
  let '(q', target, moved) := run_due 3 25 q (Queue.New 1) in
  (nID <$> (Queue.contents target).*2, (λ m, (nID m.1.1, m.2)) <$> moved, (λ x, nID x.1) <$> contents q') =
  (["a"], [("a", None); ("b", Some "queue capacity reached")], ["c"]).
Proof. by vm_compute. Qed.

End DelayQueue.
