(* ===== verification/Repository.v ===== *)
(** * Package [repository]: the file-backed store ([internal/repository/store.go])

    Every exported method runs under the store's mutex, so one definition per
    method is one atomic step.  A method that reads the clock takes the readings as
    arguments; one that writes the file takes the outcome of the file system calls
    ([io]).  JSON text is abstract ([JsonCodec]). *)

From Stdlib Require Import Ascii.
From S2P Require Export Domain GoSort.
Local Open Scope Z_scope.

(** ** Data *)

Record Suppression := {
  sTenantID : string;
  sChannel : Channel;
  sAddressHash : string;
  sReason : string;
  sCreatedAt : time;
}.

Record Outbox := {
  oID : string;
  oTopic : string;
  oAggregateID : string;
  oPayload : string;
  oCreatedAt : time;
  oPublishedAt : option time;
}.

Record snapshot := {
  Notifications : gmap string Notification;
  Idempotency : gmap string string;
  Events : gmap string (list TimelineEvent);
  Suppressions : gmap string Suppression;
  Receipts : gmap string bool;
  OutboxLog : list Outbox;
}.

Definition empty_snapshot : snapshot := {|
  Notifications := ∅; Idempotency := ∅; Events := ∅; Suppressions := ∅; Receipts := ∅;
  OutboxLog := [] |}.

(** [encoding/json] on the types of the store.  [marshal_notification] is the text
    of [json.Marshal(n)], empty when it fails.  [storable] says which snapshots the
    package represents without loss: strings in valid UTF-8, times without a
    monotonic reading, numbers that fit [float64]. *)
Class JsonCodec := {
  Bytes : Type;
  bytes_len : Bytes → Z;
  marshal_indent : snapshot → result Bytes;
  unmarshal_into : Bytes → snapshot → result snapshot;
  marshal_notification : Notification → string;
  storable : snapshot → Prop;
}.

Section store.
Context {codec : JsonCodec}.

(** The store and the files it writes. *)
Record Store := { path : string; data : snapshot; files : gmap string Bytes }.

Definition ErrNotFound : error := "not found".

(** ** The file *)

Inductive read_result :=
| ReadOk (b : Bytes)
| ReadNotExist
| ReadFailed (e : error).

Definition ReadFile (p : string) (fs : gmap string Bytes) : read_result :=
  match fs !! p with
  | Some b => ReadOk b
  | None => ReadNotExist
  end.

(** The store pointer, [None] for [nil], and the error.  A file that is read and
    empty takes the branch of the failed reads, with a nil error. *)
Definition Open (p : string) (fs : gmap string Bytes) (r : read_result) : option Store * option error :=
  match r with
  | ReadOk b =>
      if 0 <? bytes_len b then
        match unmarshal_into b empty_snapshot with
        | Ok d => (Some {| path := p; data := d; files := fs |}, None)
        | Err e => (None, Some e)
        end
      else (None, None)
  | ReadNotExist => (Some {| path := p; data := empty_snapshot; files := fs |}, None)
  | ReadFailed e => (None, Some e)
  end.

(** What the file system calls of one [persistLocked] return; a failed write may
    leave part of the bytes. *)
Record io := {
  io_mkdir : option error;
  io_write : option (error * Bytes);
  io_rename : option error;
}.

Definition io_fine : io := {| io_mkdir := None; io_write := None; io_rename := None |}.

Definition tmp_path (p : string) : string := p +:+ ".tmp".

Definition persistLocked (o : io) (s : Store) : Store * option error :=
  let put fs := {| path := path s; data := data s; files := fs |} in
  match io_mkdir o with
  | Some e => (s, Some e)
  | None =>
      match marshal_indent (data s) with
      | Err e => (s, Some e)
      | Ok b =>
          match io_write o with
          | Some (e, part) => (put (<[tmp_path (path s) := part]> (files s)), Some e)
          | None =>
              match io_rename o with
              | Some e => (put (<[tmp_path (path s) := b]> (files s)), Some e)
              | None => (put (<[path s := b]> (delete (tmp_path (path s)) (files s))), None)
              end
          end
      end
  end.

(** ** Methods *)

Definition set_data (s : Store) (d : snapshot) : Store :=
  {| path := path s; data := d; files := files s |}.

Definition itoa (n : Z) : string :=
  if n =? 0 then "0" else dec_loop dec_fuel n "".

Definition events_of (d : snapshot) (id : string) : list TimelineEvent := default [] (Events d !! id).

(** [s.data.Events[id] = append(events, ev)] *)
Definition append_event (d : snapshot) (id : string) (ev : TimelineEvent) : snapshot := {|
  Notifications := Notifications d; Idempotency := Idempotency d;
  Events := <[id := events_of d id ++ [ev]]> (Events d);
  Suppressions := Suppressions d; Receipts := Receipts d; OutboxLog := OutboxLog d |}.

Definition addEventLocked (now : time) (d : snapshot) (id : string) (status : Status)
    (provider : string) (meta : gmap string string) : snapshot :=
  let n := Z.of_nat (length (events_of d id)) + 1 in
  append_event d id {|
    eID := id +:+ "-" +:+ itoa n; eNotificationID := id; eStatus := status;
    eProvider := provider; eSequence := n; eOccurredAt := now; eMetadata := meta |}.

Definition put_notification (d : snapshot) (id : string) (n : Notification) : snapshot := {|
  Notifications := <[id := n]> (Notifications d); Idempotency := Idempotency d;
  Events := Events d; Suppressions := Suppressions d; Receipts := Receipts d;
  OutboxLog := OutboxLog d |}.

Definition put_key (d : snapshot) (key id : string) : snapshot := {|
  Notifications := Notifications d; Idempotency := <[key := id]> (Idempotency d);
  Events := Events d; Suppressions := Suppressions d; Receipts := Receipts d;
  OutboxLog := OutboxLog d |}.

Definition append_outbox (d : snapshot) (o : Outbox) : snapshot := {|
  Notifications := Notifications d; Idempotency := Idempotency d; Events := Events d;
  Suppressions := Suppressions d; Receipts := Receipts d; OutboxLog := OutboxLog d ++ [o] |}.

Definition put_suppression (d : snapshot) (key : string) (x : Suppression) : snapshot := {|
  Notifications := Notifications d; Idempotency := Idempotency d; Events := Events d;
  Suppressions := <[key := x]> (Suppressions d); Receipts := Receipts d;
  OutboxLog := OutboxLog d |}.

Definition put_receipt (d : snapshot) (key : string) : snapshot := {|
  Notifications := Notifications d; Idempotency := Idempotency d; Events := Events d;
  Suppressions := Suppressions d; Receipts := <[key := true]> (Receipts d);
  OutboxLog := OutboxLog d |}.

Definition idempotency_key (n : Notification) : string :=
  nTenantID n +:+ ":" +:+ nIdempotencyKey n.

(** What [Create] writes for a new key. *)
Definition created_snapshot (t_event t_outbox : time) (n : Notification) (d : snapshot) : snapshot :=
  let d := put_notification d (nID n) n in
  let d := put_key d (idempotency_key n) (nID n) in
  let d := addEventLocked t_event d (nID n) (nStatus n) "" {["source" := "submit"]} in
  append_outbox d {|
    oID := nID n +:+ "-created"; oTopic := "notification.created"; oAggregateID := nID n;
    oPayload := marshal_notification n; oCreatedAt := t_outbox; oPublishedAt := None |}.

Definition Create (t_event t_outbox : time) (o : io) (n : Notification) (s : Store) :
    Store * (Notification * bool * option error) :=
  match Idempotency (data s) !! idempotency_key n with
  | Some id => (s, (default zero_notification (Notifications (data s) !! id), false, None))
  | None =>
      let '(s', e) := persistLocked o (set_data s (created_snapshot t_event t_outbox n (data s))) in
      (s', (n, true, e))
  end.

Definition Get (id : string) (s : Store) : result Notification :=
  match Notifications (data s) !! id with
  | Some n => Ok n
  | None => Err ErrNotFound
  end.

Definition updated_snapshot (t_event : time) (n : Notification) (d : snapshot) : snapshot :=
  addEventLocked t_event (put_notification d (nID n) n) (nID n) (nStatus n) (nProvider n)
    {["attempts" := itoa (nAttempts n)]}.

Definition Update (t_event : time) (o : io) (n : Notification) (expected : Z) (s : Store) :
    Store * option error :=
  match Notifications (data s) !! nID n with
  | None => (s, Some ErrNotFound)
  | Some old =>
      if negb (nVersion old =? expected) then (s, Some "version conflict")
      else persistLocked o (set_data s (updated_snapshot t_event n (data s)))
  end.

Definition Timeline (id : string) (s : Store) : list TimelineEvent := events_of (data s) id.

(** Newest first; [None] is the run-time panic of [out[offset:]] on a negative
    offset. *)
Definition newest_first (x y : Notification) : bool := After (nCreatedAt x) (nCreatedAt y).

Definition List `{!MapRange, !SortSlice} (tenant : string) (limit offset : Z) (s : Store) :
    option (list Notification) :=
  let out := base.filter (λ n, tenant = "" ∨ nTenantID n = tenant)
    (range_values (Notifications (data s))) in
  let out := sort_slice newest_first out in
  if Z.of_nat (length out) <=? offset then Some []
  else if offset <? 0 then None
  else
    let out := drop (Z.to_nat offset) out in
    if (0 <? limit) && (limit <? Z.of_nat (length out)) then Some (take (Z.to_nat limit) out)
    else Some out.

Definition Queued `{!MapRange} (s : Store) : list Notification :=
  base.filter (λ n, nStatus n = StatusQueued) (range_values (Notifications (data s))).

(** What [RecordReceipt] writes for a new key. *)
Definition received_snapshot (now : time) (key : string) (ev : TimelineEvent) (d : snapshot) : snapshot :=
  let d := put_receipt d key in
  let d := append_event d (eNotificationID ev) ev in
  match Notifications d !! eNotificationID ev with
  | Some n =>
      let n := set_status n (eStatus ev) now (wrap64 (nVersion n + 1)) in
      put_notification d (nID n) n
  | None => d
  end.

Definition RecordReceipt (now : time) (o : io) (key : string) (ev : TimelineEvent) (s : Store) :
    Store * bool :=
  if default false (Receipts (data s) !! key) then (s, false)
  else ((persistLocked o (set_data s (received_snapshot now key ev (data s)))).1, true).

Definition suppression_key (tenant : string) (ch : Channel) (hash : string) : string :=
  tenant +:+ ":" +:+ ch +:+ ":" +:+ hash.

Definition Suppress (o : io) (x : Suppression) (s : Store) : Store * option error :=
  persistLocked o (set_data s
    (put_suppression (data s) (suppression_key (sTenantID x) (sChannel x) (sAddressHash x)) x)).

Definition IsSuppressed (tenant : string) (ch : Channel) (hash : string) (s : Store) : bool :=
  bool_decide (is_Some (Suppressions (data s) !! suppression_key tenant ch hash)).

Definition ListSuppressions `{!MapRange} (tenant : string) (s : Store) : list Suppression :=
  base.filter (λ x, tenant = "" ∨ sTenantID x = tenant) (range_values (Suppressions (data s))).

Definition Audit (s : Store) : list Outbox := OutboxLog (data s).
End store.

(** ** Stores up to the text of the outbox payloads

    [MarshalIndent] re-indents the raw JSON of the payloads, so a store read back
    from its file equals the one written up to that text. *)

Definition strip_payload (o : Outbox) : Outbox := {|
  oID := oID o; oTopic := oTopic o; oAggregateID := oAggregateID o; oPayload := "";
  oCreatedAt := oCreatedAt o; oPublishedAt := oPublishedAt o |}.

Record snapshot_eqv (d d' : snapshot) : Prop := {
  eqv_notifications : Notifications d = Notifications d';
  eqv_idempotency : Idempotency d = Idempotency d';
  eqv_events : Events d = Events d';
  eqv_suppressions : Suppressions d = Suppressions d';
  eqv_receipts : Receipts d = Receipts d';
  eqv_outbox : strip_payload <$> OutboxLog d = strip_payload <$> OutboxLog d';
}.

#[export] Instance snapshot_equiv : Equiv snapshot := snapshot_eqv.

(** What the documentation of [encoding/json] promises: the text is not empty, and
    reading it back gives the value, raw messages re-indented. *)
Class JsonCodecOk `{!JsonCodec} : Prop := {
  marshal_nonempty : ∀ d b, marshal_indent d = Ok b → 0 < bytes_len b;
  marshal_roundtrip : ∀ d b, storable d → marshal_indent d = Ok b →
    ∃ d', unmarshal_into b empty_snapshot = Ok d' ∧ d' ≡ d ∧ storable d';
  storable_empty : storable empty_snapshot;
}.

(** The files a crash during [persistLocked] can leave, [b] being the text of the
    new data: before the write, within it, after it, after the rename. *)
Inductive crash_files `{!JsonCodec} (s : Store) (b : Bytes) : gmap string Bytes → Prop :=
| crash_before : crash_files s b (files s)
| crash_writing part : crash_files s b (<[tmp_path (path s) := part]> (files s))
| crash_renamed : crash_files s b (<[path s := b]> (delete (tmp_path (path s)) (files s))).

(** ** Specification *)

Section spec.
Context {codec : JsonCodec}.

(** The mutating methods, as the steps of a history of the store. *)
Inductive op :=
| OpCreate (t_event t_outbox : time) (o : io) (n : Notification)
| OpUpdate (t_event : time) (o : io) (n : Notification) (expected : Z)
| OpReceipt (now : time) (o : io) (key : string) (ev : TimelineEvent)
| OpSuppress (o : io) (x : Suppression).

Definition run_op (s : Store) (a : op) : Store :=
  match a with
  | OpCreate t1 t2 o n => (Create t1 t2 o n s).1
  | OpUpdate t o n v => (Update t o n v s).1
  | OpReceipt t o key ev => (RecordReceipt t o key ev s).1
  | OpSuppress o x => (Suppress o x s).1
  end.

(** The effect of a step on the data alone: the file system cannot change it. *)
Definition data_op (d : snapshot) (a : op) : snapshot :=
  match a with
  | OpCreate t1 t2 _ n =>
      match Idempotency d !! idempotency_key n with
      | Some _ => d
      | None => created_snapshot t1 t2 n d
      end
  | OpUpdate t _ n v =>
      match Notifications d !! nID n with
      | None => d
      | Some old => if negb (nVersion old =? v) then d else updated_snapshot t n d
      end
  | OpReceipt t _ key ev =>
      if default false (Receipts d !! key) then d else received_snapshot t key ev d
  | OpSuppress _ x => put_suppression d (suppression_key (sTenantID x) (sChannel x) (sAddressHash x)) x
  end.

Record store_ok (d : snapshot) : Prop := {
  ok_ids : ∀ id n, Notifications d !! id = Some n → nID n = id;
  ok_keys : ∀ key id, Idempotency d !! key = Some id → is_Some (Notifications d !! id);
  ok_outbox : oAggregateID <$> OutboxLog d ≡ₚ (map_to_list (Idempotency d)).*2;
  ok_events : ∀ id, is_Some (Notifications d !! id) → events_of d id ≠ [];
}.

(** A fresh store, and the stores reached from it. *)
Definition fresh_store (p : string) (fs : gmap string Bytes) : Store :=
  {| path := p; data := empty_snapshot; files := fs |}.

(** ** Lemmas *)

Lemma persist_data o s : data (persistLocked o s).1 = data s ∧ path (persistLocked o s).1 = path s.
Proof. unfold persistLocked. by repeat case_match. Qed.

Lemma data_run_op s a : data (run_op s a) = data_op (data s) a.
Proof.
  destruct a as [t1 t2 o n|t o n v|t o key ev|o x]; simpl.
  - unfold Create. case_match; [done|].
    destruct (persist_data o (set_data s (created_snapshot t1 t2 n (data s)))) as [Hd _].
    by destruct (persistLocked _ _).
  - unfold Update. repeat case_match; try done. by rewrite (proj1 (persist_data _ _)).
  - unfold RecordReceipt. case_match; [done|]. simpl. by rewrite (proj1 (persist_data _ _)).
  - unfold Suppress. by rewrite (proj1 (persist_data _ _)).
Qed.

Lemma data_run_ops s l : data (foldl run_op s l) = foldl data_op (data s) l.
Proof. revert s. induction l as [|a l IH]; intros s; simpl; [done|]. by rewrite IH, data_run_op. Qed.

Lemma events_append d id ev id' :
  events_of (append_event d id ev) id' =
    if decide (id = id') then events_of d id ++ [ev] else events_of d id'.
Proof. unfold events_of, append_event. simpl. rewrite lookup_insert. by case_decide. Qed.

Lemma store_ok_empty : store_ok empty_snapshot.
Proof. split; simpl; [by intros ??; rewrite lookup_empty..| |by intros id [? ?]].
  by rewrite map_to_list_empty.
Qed.

(** Writing an event changes the timelines only, and only by growing them. *)
Lemma store_ok_append_event d id ev : store_ok d → store_ok (append_event d id ev).
Proof.
  intros [Hi Hk Ho He]. split; simpl; try done. intros id' Hid. rewrite events_append.
  case_decide; [by destruct (events_of d id)|by apply He].
Qed.

Lemma store_ok_replace d id n :
  store_ok d → nID n = id → events_of d id ≠ [] → store_ok (put_notification d id n).
Proof.
  intros [Hi Hk Ho He] Hid Hev. split; simpl; [| |done|].
  - intros id' n'. rewrite lookup_insert. case_decide; [by intros [= <-]; subst|apply Hi].
  - intros key id' Hkey. rewrite lookup_insert. case_decide; [by eexists|by eapply Hk].
  - intros id'. rewrite lookup_insert. case_decide; [by subst|apply He].
Qed.

Lemma store_ok_created t1 t2 n d :
  store_ok d → Idempotency d !! idempotency_key n = None → store_ok (created_snapshot t1 t2 n d).
Proof.
  intros [Hi Hk Ho He] Hfree. unfold created_snapshot, addEventLocked. split; simpl.
  - intros id' n'. rewrite lookup_insert. case_decide; [by intros [= <-]; subst|apply Hi].
  - intros key id' Hkey. rewrite lookup_insert. destruct (decide (nID n = id')); [by eexists|].
    rewrite lookup_insert in Hkey. case_decide; [by simplify_eq|by eapply Hk].
  - rewrite fmap_app, Ho, map_to_list_insert by done. simpl. apply Permutation_app_comm.
  - intros id' Hid. unfold events_of. simpl. rewrite lookup_insert.
    case_decide as Heq; simpl; [by intros [_ ?]%app_nil|].
    revert Hid. rewrite lookup_insert_ne by done. apply He.
Qed.

Lemma store_ok_data_op d a : store_ok d → store_ok (data_op d a).
Proof.
  intros Hd. destruct a as [t1 t2 o n|t o n v|t o key ev|o x]; simpl.
  - case_match; [done|by apply store_ok_created].
  - case_match; [|done]. case_match; [done|].
    apply store_ok_append_event, store_ok_replace; [done..|]. apply (ok_events d Hd). by eexists.
  - case_match; [done|]. unfold received_snapshot.
    assert (Hr : store_ok (append_event (put_receipt d key) (eNotificationID ev) ev)).
    { apply store_ok_append_event. by destruct Hd. }
    case_match eqn:Hn; [|done]. pose proof (ok_ids _ Hr _ _ Hn) as Hid. simpl.
    apply store_ok_replace; [done..|]. apply (ok_events _ Hr). rewrite Hid. by eexists.
  - by destruct Hd.
Qed.

Lemma store_ok_reachable p fs l : store_ok (data (foldl run_op (fresh_store p fs) l)).
Proof.
  rewrite data_run_ops. simpl. generalize store_ok_empty. generalize empty_snapshot.
  induction l as [|a l IH]; intros d Hd; simpl; [done|]. by apply IH, store_ok_data_op.
Qed.

(** Nothing is ever forgotten: keys stay bound, notifications stay, timelines and
    the outbox only grow at the end. *)
Record grows (d d' : snapshot) : Prop := {
  grows_keys : Idempotency d ⊆ Idempotency d';
  grows_ids : ∀ id, is_Some (Notifications d !! id) → is_Some (Notifications d' !! id);
  grows_events : ∀ id, events_of d id `prefix_of` events_of d' id;
  grows_outbox : OutboxLog d `prefix_of` OutboxLog d';
}.

#[export] Instance grows_preorder : PreOrder grows.
Proof.
  split; [by split|]. intros d1 d2 d3 [K1 I1 E1 O1] [K2 I2 E2 O2]. split; auto.
  - by transitivity (Idempotency d2).
  - intros id. by transitivity (events_of d2 id).
  - by transitivity (OutboxLog d2).
Qed.

Lemma grows_append_event d id ev : grows d (append_event d id ev).
Proof.
  split; simpl; try done. intros id'. rewrite events_append.
  case_decide; [subst; by apply prefix_app_r|done].
Qed.

Lemma grows_put d id n : grows d (put_notification d id n).
Proof.
  split; simpl; try done. intros id' Hid. rewrite lookup_insert. by case_decide.
Qed.

Lemma grows_data_op d a : grows d (data_op d a).
Proof.
  destruct a as [t1 t2 o n|t o n v|t o key ev|o x]; simpl.
  - case_match eqn:Hfree; [done|].
    unfold created_snapshot, addEventLocked.
    set (d1 := put_key (put_notification d (nID n) n) (idempotency_key n) (nID n)).
    transitivity d1; [|transitivity (append_event d1 (nID n)
      {| eID := nID n +:+ "-" +:+ itoa (Z.of_nat (length (events_of d1 (nID n))) + 1);
         eNotificationID := nID n; eStatus := nStatus n; eProvider := "";
         eSequence := Z.of_nat (length (events_of d1 (nID n))) + 1; eOccurredAt := t1;
         eMetadata := {["source" := "submit"]} |}); [apply grows_append_event|]].
    + split; simpl; try done; [by apply insert_subseteq|].
      intros id' Hid. rewrite lookup_insert. by case_decide.
    + split; simpl; try done. by apply prefix_app_r.
  - repeat case_match; try done. etrans; [apply grows_put|apply grows_append_event].
  - case_match; [done|]. unfold received_snapshot.
    assert (Hr : grows d (append_event (put_receipt d key) (eNotificationID ev) ev)).
    { etrans; [|apply grows_append_event]. by split. }
    case_match; [|done]. etrans; [done|apply grows_put].
  - by split.
Qed.

Lemma grows_ops d l : grows d (foldl data_op d l).
Proof.
  revert d. induction l as [|a l IH]; intros d; simpl; [done|]. etrans; [apply grows_data_op|apply IH].
Qed.

Lemma data_op_created t1 t2 o n d :
  Idempotency (data_op d (OpCreate t1 t2 o n)) !! idempotency_key n =
    match Idempotency d !! idempotency_key n with Some id => Some id | None => Some (nID n) end.
Proof. simpl. case_match eqn:Hb; [done|]. simpl. apply lookup_insert_eq. Qed.

Lemma Create_fresh t1 t2 o n s :
  Idempotency (data s) !! idempotency_key n = None →
  (Create t1 t2 o n s).2.1 = (n, true) ∧
  data (Create t1 t2 o n s).1 = created_snapshot t1 t2 n (data s).
Proof.
  intros Hfree. split.
  - unfold Create. rewrite Hfree. by destruct (persistLocked _ _).
  - etrans; [apply (data_run_op s (OpCreate t1 t2 o n))|]. simpl. by rewrite Hfree.
Qed.

Lemma Create_bound t1 t2 o n s id :
  Idempotency (data s) !! idempotency_key n = Some id →
  Create t1 t2 o n s = (s, (default zero_notification (Notifications (data s) !! id), false, None)).
Proof. unfold Create. by intros ->. Qed.

Lemma created_lookup t1 t2 n d id :
  Notifications (created_snapshot t1 t2 n d) !! id =
    if decide (nID n = id) then Some n else Notifications d !! id.
Proof. simpl. apply lookup_insert. Qed.

Lemma updated_lookup t n d id :
  Notifications (updated_snapshot t n d) !! id =
    if decide (nID n = id) then Some n else Notifications d !! id.
Proof. simpl. apply lookup_insert. Qed.

Lemma idempotency_key_inj n1 n2 :
  no_char ":" (nTenantID n1) → no_char ":" (nTenantID n2) →
  idempotency_key n1 = idempotency_key n2 →
  nTenantID n1 = nTenantID n2 ∧ nIdempotencyKey n1 = nIdempotencyKey n2.
Proof. apply join_key_inj. Qed.

Lemma path_ne_tmp p : p ≠ tmp_path p.
Proof.
  unfold tmp_path. intros H. apply (f_equal to_bytes), (f_equal length) in H.
  rewrite to_bytes_app, length_app in H. simpl in H. lia.
Qed.
End spec.

(** ** The equivalence is a congruence *)

#[export] Instance snapshot_equivalence : Equivalence (≡@{snapshot}).
Proof.
  split.
  - by split.
  - by intros d d' []; split.
  - intros d1 d2 d3 [] []; split; by etrans.
Qed.

Section congruence.
Context {codec : JsonCodec}.

#[export] Instance events_of_proper : Proper ((≡) ==> (=) ==> (=)) events_of.
Proof. intros d d' [] id ? <-. unfold events_of. congruence. Qed.

#[export] Instance append_event_proper : Proper ((≡) ==> (=) ==> (=) ==> (≡)) append_event.
Proof.
  intros d d' Hd id ? <- ev ? <-. pose proof (events_of_proper d d' Hd id id eq_refl).
  destruct Hd. split; simpl; congruence.
Qed.

#[export] Instance addEventLocked_proper t :
  Proper ((≡) ==> (=) ==> (=) ==> (=) ==> (=) ==> (≡)) (addEventLocked t).
Proof.
  intros d d' Hd id ? <- st ? <- pr ? <- m ? <-. unfold addEventLocked. by rewrite Hd.
Qed.

#[export] Instance put_notification_proper : Proper ((≡) ==> (=) ==> (=) ==> (≡)) put_notification.
Proof. intros d d' [] id ? <- n ? <-. split; simpl; congruence. Qed.

#[export] Instance put_key_proper : Proper ((≡) ==> (=) ==> (=) ==> (≡)) put_key.
Proof. intros d d' [] k ? <- id ? <-. split; simpl; congruence. Qed.

#[export] Instance append_outbox_proper : Proper ((≡) ==> (=) ==> (≡)) append_outbox.
Proof. intros d d' [] o ? <-. split; simpl; try congruence. rewrite !fmap_app. congruence. Qed.

#[export] Instance put_suppression_proper : Proper ((≡) ==> (=) ==> (=) ==> (≡)) put_suppression.
Proof. intros d d' [] k ? <- x ? <-. split; simpl; congruence. Qed.

#[export] Instance put_receipt_proper : Proper ((≡) ==> (=) ==> (≡)) put_receipt.
Proof. intros d d' [] k ? <-. split; simpl; congruence. Qed.

#[export] Instance data_op_proper : Proper ((≡) ==> (=) ==> (≡)) data_op.
Proof.
  intros d d' Hd a ? <-. pose proof Hd as [Hn Hi He Hs Hr Ho].
  destruct a as [t1 t2 o n|t o n v|t o key ev|o x]; simpl.
  - rewrite Hi. case_match; [done|]. unfold created_snapshot. by rewrite Hd.
  - rewrite Hn. repeat case_match; try done. unfold updated_snapshot. by rewrite Hd.
  - rewrite Hr. case_match; [done|]. unfold received_snapshot. cbn [Notifications append_event put_receipt].
    rewrite Hn. case_match; by rewrite Hd.
  - by rewrite Hd.
Qed.

#[export] Instance data_ops_proper : Proper ((≡) ==> (=) ==> (≡)) (foldl data_op).
Proof.
  intros d d' Hd l ? <-. revert d d' Hd. induction l as [|a l IH]; intros d d' Hd; simpl; [done|].
  apply IH. by rewrite Hd.
Qed.

(** What a method leaves in the file: the old text, or that of its snapshot. *)
Definition written (s s' : Store) : Prop :=
  path s' = path s ∧
  (files s' !! path s = files s !! path s ∨
   ∃ b, marshal_indent (data s') = Ok b ∧ files s' !! path s = Some b).

Lemma written_refl s : written s s.
Proof. split; [done|by left]. Qed.

Lemma persist_written o s d : written s (persistLocked o (set_data s d)).1.
Proof.
  pose proof (path_ne_tmp (path s)). unfold persistLocked, set_data. cbn [path data files].
  destruct (io_mkdir o); [split; [done|by left]|].
  destruct (marshal_indent d) as [b|] eqn:Hm; [|split; [done|by left]].
  destruct (io_write o) as [[err part]|].
  { split; [done|left]. by apply lookup_insert_ne. }
  destruct (io_rename o); [split; [done|left]; by apply lookup_insert_ne|].
  split; [done|right]. exists b. split; [done|apply lookup_insert_eq].
Qed.

Lemma run_op_written s a : written s (run_op s a).
Proof.
  destruct a as [t1 t2 o n|t o n v|t o key ev|o x]; simpl.
  - unfold Create. case_match; [apply written_refl|].
    pose proof (persist_written o s (created_snapshot t1 t2 n (data s))). by destruct (persistLocked _ _).
  - unfold Update. repeat case_match; try apply written_refl. apply persist_written.
  - unfold RecordReceipt. case_match; [apply written_refl|apply persist_written].
  - apply persist_written.
Qed.

(** Opening a file that holds a written snapshot. *)
Lemma Open_written `{!JsonCodecOk} p fs d b :
  fs !! p = Some b → storable d → marshal_indent d = Ok b →
  ∃ d', Open p fs (ReadFile p fs) = (Some {| path := p; data := d'; files := fs |}, None) ∧ d' ≡ d ∧
    storable d'.
Proof.
  intros Hb Hst Hm. unfold ReadFile, Open. rewrite Hb.
  destruct (Z.ltb_spec 0 (bytes_len b)) as [_|]; [|pose proof (marshal_nonempty _ _ Hm); lia].
  destruct (marshal_roundtrip _ _ Hst Hm) as (d' & -> & Hd & Hs'). by exists d'.
Qed.

Lemma crash_files_path s b fs :
  crash_files s b fs → fs !! path s = files s !! path s ∨ fs !! path s = Some b.
Proof.
  pose proof (path_ne_tmp (path s)).
  intros [|part|]; [by left|left; by rewrite lookup_insert_ne|right; apply lookup_insert_eq].
Qed.

Lemma persist_crash_files o s b :
  marshal_indent (data s) = Ok b → crash_files s b (files (persistLocked o s).1).
Proof.
  intros Hm. unfold persistLocked. rewrite Hm. repeat case_match; simpl; constructor.
Qed.

Lemma persist_ok_file o s :
  (persistLocked o s).2 = None →
  ∃ b, marshal_indent (data s) = Ok b ∧ files (persistLocked o s).1 !! path s = Some b.
Proof.
  unfold persistLocked. destruct (io_mkdir o); [done|].
  destruct (marshal_indent (data s)) as [b|] eqn:Hm; [|done].
  destruct (io_write o) as [[? ?]|]; [done|]. destruct (io_rename o); [done|].
  intros _. exists b. split; [done|apply lookup_insert_eq].
Qed.
End congruence.

(** A codec whose text is the value itself: it shows the laws can hold. *)
Definition memory_codec : JsonCodec := {|
  Bytes := snapshot; bytes_len _ := 1; marshal_indent := Ok; unmarshal_into b _ := Ok b;
  marshal_notification _ := "{}"; storable _ := True |}.

Lemma memory_codec_ok : @JsonCodecOk memory_codec.
Proof. split; [done| |done]. intros d b _ [= <-]. by exists d. Qed.

(** ** Lemmas: the timeline tells the status *)

(** The last event of a timeline carries the status of its notification. *)
Definition told (d : snapshot) : Prop :=
  ∀ id n, Notifications d !! id = Some n → ∃ evs ev, events_of d id = evs ++ [ev] ∧ eStatus ev = nStatus n.

(** Writing a notification together with an event of its status. *)
Lemma told_write d d' id n ev :
  told d → (∀ id', Notifications d' !! id' = if decide (id = id') then Some n else Notifications d !! id') →
  (∀ id', events_of d' id' = if decide (id = id') then events_of d id ++ [ev] else events_of d id') →
  eStatus ev = nStatus n → told d'.
Proof.
  intros Ht Hn He Hs id' m. rewrite Hn, He. case_decide; [|apply Ht]. intros [= <-]. by exists (events_of d id), ev.
Qed.

Lemma told_data_op `{codec : JsonCodec} d a : store_ok d → told d → told (data_op d a).
Proof.
  intros Hok Ht. destruct a as [t1 t2 o n|t o n v|t o key ev|o x]; simpl.
  - case_match; [done|]. eapply (told_write d _ (nID n) n); [done|..].
    + intros id'. apply created_lookup.
    + intros id'. apply (events_append (put_key (put_notification d (nID n) n) (idempotency_key n) (nID n))).
    + done.
  - case_match; [|done]. case_match; [done|]. eapply (told_write d _ (nID n) n); [done|..].
    + intros id'. apply updated_lookup.
    + intros id'. apply (events_append (put_notification d (nID n) n)).
    + done.
  - case_match; [done|]. unfold received_snapshot. cbn [Notifications append_event put_receipt].
    destruct (Notifications d !! eNotificationID ev) as [n|] eqn:Hn.
    + pose proof (ok_ids d Hok _ _ Hn) as Hid.
      eapply (told_write d _ (eNotificationID ev) (set_status n (eStatus ev) t (wrap64 (nVersion n + 1)))); [done|..].
      * intros id'. cbn. change (nID (set_status n (eStatus ev) t (wrap64 (nVersion n + 1)))) with (nID n).
        rewrite Hid. apply lookup_insert.
      * intros id'. apply (events_append (put_receipt d key)).
      * done.
    + intros id m Hm. rewrite events_append. case_decide as Heq; [|by apply Ht].
      cbn in Hm. rewrite <- Heq, Hn in Hm. done.
  - done.
Qed.

(** ** Properties *)

Section properties.
Context {codec : JsonCodec}.

(** C6: in every store reached from a fresh one, notifications are filed under
    their own id, every idempotency key names a stored notification, the outbox
    holds exactly one record per key, and every notification has a timeline; and
    no later history unbinds a key, loses a notification, or changes what is
    already in a timeline or in the outbox. *)
Theorem store_history (p : string) (fs : gmap string Bytes) (l l' : list op) :
  let s := foldl run_op (fresh_store p fs) l in
  let s' := foldl run_op s l' in
  store_ok (data s') ∧ grows (data s) (data s').
Proof.
  cbn zeta. split; [rewrite <- foldl_app; apply store_ok_reachable|].
  rewrite (data_run_ops _ l'). apply grows_ops.
Qed.

(** C14: in every store reached from a fresh one, the timeline of a notification
    ends with the status the notification has: what [GET .../timeline] answers is
    consistent with what [GET .../{id}] answers. *)
Theorem timeline_current (p : string) (fs : gmap string Bytes) (l : list op) (id : string) (n : Notification) :
  let s := foldl run_op (fresh_store p fs) l in
  Get id s = Ok n → ∃ evs ev, Timeline id s = evs ++ [ev] ∧ eStatus ev = nStatus n.
Proof.
  cbn zeta. unfold Get, Timeline. rewrite data_run_ops. cbn [data fresh_store].
  destruct (Notifications _ !! id) as [m|] eqn:Hm; [|done]. intros [= <-]. revert id m Hm.
  assert (Hgen : ∀ d, store_ok d → told d → told (foldl data_op d l)).
  { induction l as [|a l' IH]; intros d Hok Ht; [done|]. apply IH; [by apply store_ok_data_op|by apply told_data_op]. }
  apply Hgen; [apply store_ok_empty|]. intros id n0 Hn. cbn in Hn. by rewrite lookup_empty in Hn.
Qed.

(** C7: once [Create] accepted a notification, a later [Create] with the same
    tenant and key, after any history, creates nothing, changes nothing, and
    returns the notification stored under the first one's id. *)
Theorem create_idempotent (p : string) (fs : gmap string Bytes) (l l' : list op)
    (t1 t2 t3 t4 : time) (o o' : io) (n1 n2 : Notification) :
  let s := foldl run_op (fresh_store p fs) l in
  let s1 := (Create t1 t2 o n1 s).1 in
  let s2 := foldl run_op s1 l' in
  (Create t1 t2 o n1 s).2.1.2 = true →
  nTenantID n2 = nTenantID n1 → nIdempotencyKey n2 = nIdempotencyKey n1 →
  ∃ m, Create t3 t4 o' n2 s2 = (s2, (m, false, None)) ∧
    Notifications (data s2) !! nID n1 = Some m ∧ nID m = nID n1.
Proof.
  cbn zeta. set (s := foldl run_op (fresh_store p fs) l). intros Hc Ht Hk.
  assert (Hkey : idempotency_key n2 = idempotency_key n1) by (unfold idempotency_key; congruence).
  destruct (Idempotency (data s) !! idempotency_key n1) as [id|] eqn:Hfree.
  { by rewrite (Create_bound _ _ _ _ _ _ Hfree) in Hc. }
  destruct (Create_fresh t1 t2 o n1 s Hfree) as [_ Hd].
  set (s1 := (Create t1 t2 o n1 s).1) in *. set (s2 := foldl run_op s1 l').
  assert (Hok : store_ok (data s2)).
  { unfold s2, s1, s. change (Create t1 t2 o n1 (foldl run_op (fresh_store p fs) l)).1
      with (foldl run_op (foldl run_op (fresh_store p fs) l) [OpCreate t1 t2 o n1]).
    rewrite <- !foldl_app. apply store_ok_reachable. }
  assert (Hb : Idempotency (data s2) !! idempotency_key n1 = Some (nID n1)).
  { unfold s2. rewrite data_run_ops.
    eapply lookup_weaken; [|apply (grows_keys _ _ (grows_ops (data s1) l'))].
    rewrite Hd. simpl. apply lookup_insert_eq. }
  destruct (ok_keys _ Hok _ _ Hb) as [m Hm]. exists m.
  rewrite (Create_bound t3 t4 o' n2 s2 (nID n1)) by (by rewrite Hkey). rewrite Hm.
  split_and!; [done..|]. by apply (ok_ids _ Hok).
Qed.

(** Keys are scoped to their tenant as long as no tenant id contains a
    colon; with a colon two tenants share a key, and the second one's [Create]
    stores nothing and is handed the first one's notification. *)
Theorem idempotency_scope (n1 n2 : Notification) :
  (no_char ":" (nTenantID n1) → no_char ":" (nTenantID n2) →
   idempotency_key n1 = idempotency_key n2 →
   nTenantID n1 = nTenantID n2 ∧ nIdempotencyKey n1 = nIdempotencyKey n2) ∧
  (∀ a b k s t1 t2 t3 t4 o o',
     nTenantID n1 = a → nIdempotencyKey n1 = b +:+ ":" +:+ k →
     nTenantID n2 = a +:+ ":" +:+ b → nIdempotencyKey n2 = k →
     Idempotency (data s) !! idempotency_key n1 = None →
     let s1 := (Create t1 t2 o n1 s).1 in
     Create t3 t4 o' n2 s1 = (s1, (n1, false, None))).
Proof.
  split; [apply idempotency_key_inj|]. intros a b k s t1 t2 t3 t4 o o' Ha Hb Ha2 Hb2 Hfree. cbn zeta.
  assert (Hkey : idempotency_key n2 = idempotency_key n1).
  { unfold idempotency_key. rewrite Ha, Hb, Ha2, Hb2. by rewrite !string_app_assoc. }
  destruct (Create_fresh t1 t2 o n1 s Hfree) as [_ Hd].
  rewrite (Create_bound _ _ _ _ _ (nID n1)).
  - rewrite Hd, created_lookup. by rewrite decide_True.
  - rewrite Hkey, Hd. simpl. apply lookup_insert_eq.
Qed.

(** [Create] does not look at the id: with a new key and the id of a
    stored notification, of any tenant, it replaces that notification, and the old
    key then answers with the new one. *)
Theorem create_replaces_id (s : Store) (t1 t2 t3 t4 : time) (o o' : io) (old n again : Notification) :
  Notifications (data s) !! nID n = Some old →
  Idempotency (data s) !! idempotency_key n = None →
  Idempotency (data s) !! idempotency_key again = Some (nID n) →
  let s1 := (Create t1 t2 o n s).1 in
  Get (nID n) s1 = Ok n ∧ Create t3 t4 o' again s1 = (s1, (n, false, None)).
Proof.
  intros Hold Hfree Hagain. cbn zeta. destruct (Create_fresh t1 t2 o n s Hfree) as [_ Hd].
  unfold Get. rewrite Hd, created_lookup, decide_True by done. split; [done|].
  rewrite (Create_bound _ _ _ _ _ (nID n)).
  - by rewrite Hd, created_lookup, decide_True.
  - rewrite Hd. simpl. rewrite lookup_insert_ne; [done|]. intros Heq. by rewrite Heq, Hagain in Hfree.
Qed.

(** C18: of two updates prepared from the same version, the second to arrive is
    refused with a conflict and changes nothing, provided the first one advances
    the version. *)
Theorem lost_update_prevented (s : Store) (t1 t2 : time) (o1 o2 : io) (old n1 n2 : Notification) :
  Notifications (data s) !! nID n1 = Some old →
  nID n2 = nID n1 → nVersion n1 ≠ nVersion old →
  let s1 := (Update t1 o1 n1 (nVersion old) s).1 in
  Notifications (data s1) !! nID n1 = Some n1 ∧
  Update t2 o2 n2 (nVersion old) s1 = (s1, Some "version conflict").
Proof.
  intros Hold Hid Hv. cbn zeta.
  assert (Hd : data (Update t1 o1 n1 (nVersion old) s).1 = updated_snapshot t1 n1 (data s)).
  { etrans; [apply (data_run_op s (OpUpdate t1 o1 n1 (nVersion old)))|].
    simpl. by rewrite Hold, Z.eqb_refl. }
  assert (Hn : Notifications (data (Update t1 o1 n1 (nVersion old) s).1) !! nID n1 = Some n1)
    by (rewrite Hd, updated_lookup; by rewrite decide_True).
  split; [done|]. unfold Update at 1. rewrite Hid, Hn.
  destruct (Z.eqb_spec (nVersion n1) (nVersion old)); [done|]. done.
Qed.

(** C19: whatever the file system calls of [persistLocked] return, and wherever
    the process stops within it, opening the file afterwards succeeds and finds
    the data last persisted or the new data, up to payload text. *)
Theorem crash_consistent `{!JsonCodecOk} (s : Store) (d0 : snapshot) (b0 b : Bytes) (fs : gmap string Bytes) :
  files s !! path s = Some b0 → storable d0 → marshal_indent d0 = Ok b0 →
  storable (data s) → marshal_indent (data s) = Ok b → crash_files s b fs →
  (∀ o, crash_files s b (files (persistLocked o s).1)) ∧
  ∃ s', Open (path s) fs (ReadFile (path s) fs) = (Some s', None) ∧ (data s' ≡ d0 ∨ data s' ≡ data s).
Proof.
  intros Hf0 Hs0 Hm0 Hs Hm Hc. split; [intros o; by apply persist_crash_files|].
  destruct (crash_files_path _ _ _ Hc) as [Hp|Hp].
  - rewrite Hf0 in Hp. destruct (Open_written _ _ _ _ Hp Hs0 Hm0) as (d' & -> & Hd & _).
    eexists. split; [done|]. by left.
  - destruct (Open_written _ _ _ _ Hp Hs Hm) as (d' & -> & Hd & _). eexists. split; [done|]. by right.
Qed.

(** C20: a store whose last persist succeeded can be reopened, and from then
    on answers every history as the original would: same notifications, keys,
    timelines, suppressions and receipts, same outbox up to payload text. *)
Theorem reopen_equivalent `{!JsonCodecOk} (s : Store) (o : io) (l : list op) :
  storable (data s) → (persistLocked o s).2 = None →
  let fs := files (persistLocked o s).1 in
  ∃ s', Open (path s) fs (ReadFile (path s) fs) = (Some s', None) ∧
    data (foldl run_op s' l) ≡ data (foldl run_op s l).
Proof.
  intros Hs Hp. cbn zeta. destruct (persist_ok_file o s Hp) as (b & Hm & Hb).
  destruct (Open_written _ _ _ _ Hb Hs Hm) as (d' & -> & Hd & _). eexists. split; [done|].
  rewrite !data_run_ops. cbn [data]. by rewrite Hd.
Qed.

(** [List] returns the page [limit], [offset] of one listing of the
    tenant's notifications (all tenants for the empty name), newest first: reading
    consecutive pages reads every one once.  A negative offset panics. *)
Theorem list_pages `{!MapRange, !MapRangeOk, !SortSlice, !SortSliceOk} (tenant : string) (s : Store) :
  ∃ all, all ≡ₚ base.filter (λ n, tenant = "" ∨ nTenantID n = tenant) ((map_to_list (Notifications (data s))).*2) ∧
    StronglySorted (λ x y, nCreatedAt y ≤ nCreatedAt x) all ∧
    ∀ limit offset, List tenant limit offset s =
      if offset <? 0 then None
      else Some (let rest := drop (Z.to_nat offset) all in
                 if 0 <? limit then take (Z.to_nat limit) rest else rest).
Proof.
  assert (Horder : LessOrder newest_first).
  { split; unfold le_of, newest_first, After; intros; lia. }
  set (all := sort_slice newest_first (base.filter (λ n, tenant = "" ∨ nTenantID n = tenant)
    (range_values (Notifications (data s))))).
  exists all. split_and!.
  - unfold all. rewrite sort_slice_perm. unfold range_values. by rewrite map_range_perm.
  - pose proof (sort_slice_sorted _ newest_first (base.filter (λ n, tenant = "" ∨ nTenantID n = tenant)
      (range_values (Notifications (data s)))) Horder) as Hs. fold all in Hs.
    eapply StronglySorted_impl; [|exact Hs]. unfold le_of, newest_first, After. lia.
  - intros limit offset. unfold List. fold all.
    destruct (Z.leb_spec (Z.of_nat (length all)) offset).
    + destruct (Z.ltb_spec offset 0); [lia|]. rewrite drop_ge by lia.
      case_match; by rewrite ?take_nil.
    + case_match; [done|]. destruct (Z.ltb_spec 0 limit); simpl; [|done].
      destruct (Z.ltb_spec limit (Z.of_nat (length (drop (Z.to_nat offset) all)))); [done|].
      by rewrite take_ge by lia.
Qed.
End properties.

(** ** Witnesses *)

#[local] Existing Instance memory_codec.
#[local] Existing Instance memory_codec_ok.

Definition stored : Notification := set_status (set_id sample_email "ntf_1") StatusQueued 0 1.

Lemma create_idempotent_witness :
  let s := fresh_store "store.json" ∅ in
  let s1 := (Create 1 2 io_fine stored s).1 in
  ∃ m, Create 3 4 io_fine (set_id sample_email "ntf_2") s1 = (s1, (m, false, None)) ∧
    Notifications (data s1) !! "ntf_1" = Some m ∧ nID m = "ntf_1".
Proof.
  apply (create_idempotent "store.json" ∅ [] [] 1 2 3 4 io_fine io_fine stored
    (set_id sample_email "ntf_2")); reflexivity.
Defined.

(** A receipt that says more than the dispatcher knew. *)
Definition delivered_receipt : TimelineEvent := {|
  eID := "mock:x:1"; eNotificationID := "ntf_1"; eStatus := StatusDelivered; eProvider := "mock";
  eSequence := 1; eOccurredAt := 7; eMetadata := ∅ |}.

Lemma timeline_current_witness :
  let s := foldl run_op (fresh_store "store.json" ∅)
    [OpCreate 1 2 io_fine stored; OpReceipt 8 io_fine "mock:x:1" delivered_receipt] in
  let n := set_status stored StatusDelivered 8 2 in
  Get "ntf_1" s = Ok n ∧ ∃ evs ev, Timeline "ntf_1" s = evs ++ [ev] ∧ eStatus ev = nStatus n.
Proof.
  split; [vm_compute; reflexivity|].
  apply (timeline_current "store.json" ∅
    [OpCreate 1 2 io_fine stored; OpReceipt 8 io_fine "mock:x:1" delivered_receipt] "ntf_1"
    (set_status stored StatusDelivered 8 2)). vm_compute. reflexivity.
Defined.

Definition other_tenant : Notification := set_key (with_tenant (set_id sample_email "ntf_9") "other") "k".

Lemma create_replaces_id_witness :
  let s := (Create 1 2 io_fine stored (fresh_store "store.json" ∅)).1 in
  let s1 := (Create 3 4 io_fine (set_id other_tenant "ntf_1") s).1 in
  Get "ntf_1" s1 = Ok (set_id other_tenant "ntf_1") ∧
  Create 5 6 io_fine sample_email s1 = (s1, (set_id other_tenant "ntf_1", false, None)).
Proof.
  apply (create_replaces_id _ 3 4 5 6 io_fine io_fine stored (set_id other_tenant "ntf_1") sample_email);
    reflexivity.
Defined.

Lemma lost_update_prevented_witness :
  let s := (Create 1 2 io_fine stored (fresh_store "store.json" ∅)).1 in
  let n1 := set_status stored StatusProcessing 3 2 in
  let n2 := set_status stored StatusCanceled 4 2 in
  let s1 := (Update 3 io_fine n1 1 s).1 in
  Notifications (data s1) !! "ntf_1" = Some n1 ∧
  Update 4 io_fine n2 1 s1 = (s1, Some "version conflict").
Proof.
  apply (lost_update_prevented _ 3 4 io_fine io_fine stored (set_status stored StatusProcessing 3 2)
    (set_status stored StatusCanceled 4 2)); [reflexivity..|discriminate].
Defined.

Definition persisted : Store := {|
  path := "store.json"; data := created_snapshot 1 2 stored empty_snapshot;
  files := {["store.json" := empty_snapshot]} |}.

Lemma crash_consistent_witness :
  let fs := <["store.json.tmp" := empty_snapshot]> (files persisted) in
  (∀ o, crash_files persisted (data persisted) (files (persistLocked o persisted).1)) ∧
  ∃ s', Open "store.json" fs (ReadFile "store.json" fs) = (Some s', None) ∧
    (data s' ≡ empty_snapshot ∨ data s' ≡ data persisted).
Proof.
  apply (crash_consistent persisted empty_snapshot empty_snapshot (data persisted)); first [exact I|reflexivity|idtac].
  apply (crash_writing persisted).
Defined.

Lemma reopen_equivalent_witness :
  let fs := files (persistLocked io_fine persisted).1 in
  ∃ s', Open "store.json" fs (ReadFile "store.json" fs) = (Some s', None) ∧
    data (foldl run_op s' []) ≡ data (foldl run_op persisted []).
Proof. apply (reopen_equivalent persisted io_fine []); [exact I|reflexivity]. Defined.

Lemma list_pages_witness :
  ∃ all, all ≡ₚ base.filter (λ n, "" = "" ∨ nTenantID n = "") ((map_to_list (Notifications (data persisted))).*2) ∧
    StronglySorted (λ x y, nCreatedAt y ≤ nCreatedAt x) all ∧
    ∀ limit offset, @List _ map_to_list_range merge_sort_slice "" limit offset persisted =
      if offset <? 0 then None
      else Some (let rest := drop (Z.to_nat offset) all in
                 if 0 <? limit then take (Z.to_nat limit) rest else rest).
Proof.
  exact (@list_pages _ map_to_list_range map_to_list_range_ok merge_sort_slice merge_sort_slice_ok
    "" persisted).
Defined.
