(* ===== verification/Security.v ===== *)
(** * Package [security]: address hashes and receipt signatures
    ([internal/security/security.go])

    Bytes are the characters of a string; SHA-256 and HMAC are the executable ones
    of [Sha256].  [Verify] reads the clock twice, so it takes two readings. *)

From Stdlib Require Import Ascii.
From S2P Require Export Sha256 GoTime.
Local Open Scope Z_scope.

Definition HashAddress `{Unicode} (tenant address : string) : string :=
  EncodeToString (Sum256 (bytes_of (tenant +:+ ":" +:+ ToLower (TrimSpace address)))).

(** [n = -n] wraps around on the smallest integer, and the loop then prints
    nothing. *)
Definition formatInt (n : Z) : string :=
  if n =? 0 then "0"
  else
    let neg := n <? 0 in
    let b := dec_loop dec_fuel (if neg then wrap64 (- n) else n) "" in
    if neg then String "-" b else b.

(** What the three writes to the HMAC amount to. *)
Definition signed_message (timestamp : Z) (body : string) : string :=
  formatInt timestamp +:+ "." +:+ body.

Definition Sign (secret : string) (timestamp : Z) (body : string) : string :=
  EncodeToString (hmac_sha256 (bytes_of secret) (bytes_of (signed_message timestamp body))).

(** [hmac.Equal] compares the bytes. *)
Definition Verify (now1 now2 : time) (secret signature : string) (timestamp : Z) (body : string)
    (maxSkew : Duration) : option error :=
  if (maxSkew <? Since now1 (Unix timestamp)) || (maxSkew <? Until now2 (Unix timestamp))
  then Some "receipt timestamp outside replay window"
  else match DecodeString signature with
       | None => Some "invalid signature encoding"
       | Some got =>
           let expected := default [] (DecodeString (Sign secret timestamp body)) in
           if bool_decide (got = expected) then None else Some "invalid receipt signature"
       end.

Definition Redact (value : string) : string :=
  if decide (value = "") then ""
  else if len value <=? 4 then "****"
  else slice_to value 2 +:+ "****" +:+ slice_from value (String.length value - 2).

Example security_ex :
  formatInt (-120) = "-120" ∧ formatInt min_int64 = "-" ∧ Redact "+8613800138000" = "+8****00" ∧
  Redact "abcd" = "****".
Proof. by vm_compute. Qed.

(** ** Lemmas *)

Lemma formatInt_Atoi n :
  in_int64 n → Atoi (formatInt n) = if decide (n = min_int64) then (0, false) else (n, true).
Proof.
  intros Hn. case_decide as Hmin; [by subst|]. unfold in_int64, min_int64, max_int64 in *.
  rewrite <- (FormatInt_Atoi n) by (unfold in_int64, min_int64, max_int64; lia).
  unfold formatInt, FormatInt. destruct (Z.eqb_spec n 0); [done|].
  destruct (Z.ltb_spec n 0); [|done].
  by rewrite wrap64_small by (unfold in_int64, min_int64, max_int64; lia).
Qed.

Lemma formatInt_inj n m : in_int64 n → in_int64 m → formatInt n = formatInt m → n = m.
Proof.
  intros Hn Hm Heq. pose proof (formatInt_Atoi n Hn) as H1. rewrite Heq, formatInt_Atoi in H1 by done.
  destruct (decide (m = min_int64)), (decide (n = min_int64)); congruence.
Qed.

Lemma formatInt_no_dot n : no_char "." (formatInt n).
Proof.
  assert (Hd : ∀ m, no_char "." (dec_loop dec_fuel m "")).
  { intros m Hin. pose proof (dec_loop_digits dec_fuel m "" eq_refl) as Hf.
    rewrite forallb_forall in Hf. apply list_elem_of_In in Hin. by apply Hf in Hin. }
  unfold formatInt. case_match; [by apply (bool_decide_unpack _)|]. case_match; [|done].
  apply no_char_cons. split; [done|apply Hd].
Qed.

Lemma signed_message_inj t1 b1 t2 b2 :
  in_int64 t1 → in_int64 t2 → signed_message t1 b1 = signed_message t2 b2 → t1 = t2 ∧ b1 = b2.
Proof.
  intros H1 H2 Heq. apply join_key_inj in Heq as [Ht ->]; [|apply formatInt_no_dot..].
  split; [by apply formatInt_inj|done].
Qed.

Lemma Sign_decode secret t body :
  DecodeString (Sign secret t body)
    = Some (hmac_sha256 (bytes_of secret) (bytes_of (signed_message t body))).
Proof. apply hex_digest_roundtrip. Qed.

Lemma bytes_of_inj s1 s2 : bytes_of s1 = bytes_of s2 → s1 = s2.
Proof.
  intros Heq. apply (inj to_bytes). unfold bytes_of in Heq.
  assert (Inj (=) (=) byte_val) by (intros ??; apply byte_val_inj).
  by apply (inj (fmap byte_val)) in Heq.
Qed.

(** ** Properties *)

(** C30: [Verify] accepts exactly the hexadecimal texts of the HMAC of the
    timestamp and body, within the replay window; the window is symmetric, what
    [Sign] returns is accepted in it, and one text is accepted for two different
    timestamps or bodies only if the two messages they make, which differ, have the
    same HMAC. *)
Theorem verify_correct (secret : string) (t : Z) (body : string) (skew : Duration) :
  let mac m := hmac_sha256 (bytes_of secret) (bytes_of m) in
  let window now := Z.abs (now - Unix t) ≤ skew in
  (∀ now1 now2 sig, Verify now1 now2 secret sig t body skew = None ↔
     Since now1 (Unix t) ≤ skew ∧ Until now2 (Unix t) ≤ skew ∧
     DecodeString sig = Some (mac (signed_message t body))) ∧
  (∀ now, 0 ≤ skew < max_int64 →
     (Since now (Unix t) ≤ skew ∧ Until now (Unix t) ≤ skew ↔ window now) ∧
     (window now → Verify now now secret (Sign secret t body) t body skew = None)) ∧
  (∀ now now' sig t' body', in_int64 t → in_int64 t' → (t, body) ≠ (t', body') →
     Verify now now secret sig t body skew = None →
     Verify now' now' secret sig t' body' skew = None →
     signed_message t body ≠ signed_message t' body' ∧
     mac (signed_message t body) = mac (signed_message t' body')).
Proof.
  cbn zeta.
  assert (Hiff : ∀ now1 now2 sig t body, Verify now1 now2 secret sig t body skew = None ↔
     Since now1 (Unix t) ≤ skew ∧ Until now2 (Unix t) ≤ skew ∧
     DecodeString sig = Some (hmac_sha256 (bytes_of secret) (bytes_of (signed_message t body)))).
  { clear. intros now1 now2 sig t body. unfold Verify. rewrite Sign_decode. cbn [default].
    destruct (Z.ltb_spec skew (Since now1 (Unix t))); simpl; [split; [done|lia]|].
    destruct (Z.ltb_spec skew (Until now2 (Unix t))); simpl; [split; [done|lia]|].
    destruct (DecodeString sig) as [got|]; [|naive_solver].
    destruct (bool_decide_reflect (got = hmac_sha256 (bytes_of secret)
      (bytes_of (signed_message t body)))); naive_solver. }
  assert (Hwin : ∀ now, 0 ≤ skew < max_int64 →
     Since now (Unix t) ≤ skew ∧ Until now (Unix t) ≤ skew ↔ Z.abs (now - Unix t) ≤ skew).
  { intros now. unfold Since, Until, Sub, sat64, min_int64, max_int64. lia. }
  split_and!; [intros; apply Hiff| |].
  - intros now Hs. split; [by apply Hwin|]. intros Hw. apply Hiff.
    apply Hwin in Hw as [??]; [|done]. by rewrite Sign_decode.
  - intros now now' sig t' body' Ht Ht' Hne (_ & _ & H1)%Hiff (_ & _ & H2)%Hiff.
    split; [|congruence].
    intros Heq. apply Hne. apply signed_message_inj in Heq as [-> ->]; done.
Qed.

(** Every [int64] but the smallest prints as decimal text that reads
    back as itself; the smallest prints as a lone minus sign. *)
Theorem formatInt_roundtrip (z : Z) :
  let n := wrap64 z in
  (n ≠ min_int64 ↔ Atoi (formatInt n) = (n, true)) ∧ (n = min_int64 ↔ formatInt n = "-").
Proof.
  cbn zeta. set (n := wrap64 z). assert (Hn : in_int64 n) by apply wrap64_range. split.
  - rewrite formatInt_Atoi by done. case_decide; naive_solver.
  - split; [by intros ->|]. intros Hf. apply formatInt_inj; [done| |by rewrite Hf].
    by apply (bool_decide_unpack _).
Qed.
