(* ===== verification/Receipt.v ===== *)
(** * Package [receipt]: delivery receipts ([internal/receipt/service.go])

    [Ingest] checks a receipt, builds its deduplication key and hands it to
    [Repository.RecordReceipt]. *)

From Stdlib Require Import Ascii.
From S2P Require Export Repository.
Local Open Scope Z_scope.

Module Receipt.

Record Event := {
  Provider : string;
  NotificationID : string;
  ExternalID : string;
  Sequence : Z;
  EvStatus : Status;
  OccurredAt : time;
}.

(** The cases of the [switch]. *)
Definition supported : list Status :=
  [StatusAccepted; StatusSent; StatusDelivered; StatusBounced; StatusComplained; StatusFailed].

Definition formatSeq (n : Z) : string := dec_loop dec_fuel n "".

Definition receipt_key (e : Event) : string :=
  Provider e +:+ ":" +:+ ExternalID e +:+ ":" +:+ formatSeq (Sequence e).

Definition receipt_event (e : Event) : TimelineEvent := {|
  eID := receipt_key e; eNotificationID := NotificationID e; eStatus := EvStatus e;
  eProvider := Provider e; eSequence := Sequence e; eOccurredAt := OccurredAt e;
  eMetadata := ∅ |}.

Section ingest.
Context {codec : JsonCodec}.

(** [now] is the clock reading of [RecordReceipt], [o] the outcome of its write. *)
Definition Ingest (now : time) (o : io) (e : Event) (s : Store) : Store * (bool * option error) :=
  if bool_decide (Provider e = "") || bool_decide (NotificationID e = "") || (Sequence e <=? 0)
  then (s, (false, Some "provider, notification_id and positive sequence required"))
  else if negb (bool_decide (EvStatus e ∈ supported))
  then (s, (false, Some "unsupported receipt status"))
  else match Get (NotificationID e) s with
       | Err err => (s, (false, Some err))
       | Ok _ =>
           let '(s', fresh) := RecordReceipt now o (receipt_key e) (receipt_event e) s in
           (s', (fresh, None))
       end.

(** ** Lemmas *)

Definition valid (e : Event) : Prop :=
  Provider e ≠ "" ∧ NotificationID e ≠ "" ∧ 0 < Sequence e ∧ EvStatus e ∈ supported.

#[export] Instance valid_dec e : Decision (valid e).
Proof. unfold valid. apply _. Defined.

Lemma Ingest_valid now o e s :
  valid e → Ingest now o e s =
    match Get (NotificationID e) s with
    | Err err => (s, (false, Some err))
    | Ok _ => let '(s', fresh) := RecordReceipt now o (receipt_key e) (receipt_event e) s in
              (s', (fresh, None))
    end.
Proof.
  intros (Hp & Hn & Hs & Hst). unfold Ingest. rewrite !bool_decide_false by done.
  destruct (Z.leb_spec (Sequence e) 0); [lia|]. by rewrite bool_decide_true.
Qed.

Lemma Ingest_invalid now o e s :
  ¬ valid e → ∃ err, Ingest now o e s = (s, (false, Some err)).
Proof.
  unfold valid, Ingest. intros Hv.
  destruct (bool_decide (Provider e = "") || bool_decide (NotificationID e = "") || (Sequence e <=? 0)) eqn:Hg;
    [by eexists|].
  apply orb_false_iff in Hg as [[H1 H2]%orb_false_iff H3].
  apply bool_decide_eq_false in H1, H2. apply Z.leb_gt in H3.
  destruct (bool_decide_reflect (EvStatus e ∈ supported)); [naive_solver|]. by eexists.
Qed.

(** A recorded receipt key is never forgotten. *)
Lemma receipts_kept d a key :
  Receipts d !! key = Some true → Receipts (data_op d a) !! key = Some true.
Proof.
  intros Hk. destruct a as [t1 t2 o n|t o n v|t o k ev|o x]; simpl; [by case_match| |..|done].
  - by repeat case_match.
  - case_match; [done|]. assert (Hk' : <[k := true]> (Receipts d) !! key = Some true).
    { rewrite lookup_insert. by case_decide. }
    unfold received_snapshot. simpl. by case_match.
Qed.

Lemma receipts_kept_ops d l key :
  Receipts d !! key = Some true → Receipts (foldl data_op d l) !! key = Some true.
Proof. revert d. induction l as [|a l IH]; intros d Hk; simpl; [done|]. by apply IH, receipts_kept. Qed.

Lemma received_key now key ev d : Receipts (received_snapshot now key ev d) !! key = Some true.
Proof. unfold received_snapshot. simpl. case_match; apply lookup_insert_eq. Qed.

Lemma RecordReceipt_seen now o key ev s :
  Receipts (data s) !! key = Some true → RecordReceipt now o key ev s = (s, false).
Proof. unfold RecordReceipt. by intros ->. Qed.

Lemma RecordReceipt_new now o key ev s :
  default false (Receipts (data s) !! key) = false →
  (RecordReceipt now o key ev s).2 = true ∧
  data (RecordReceipt now o key ev s).1 = received_snapshot now key ev (data s).
Proof.
  intros Hk. split.
  - unfold RecordReceipt. by rewrite Hk.
  - etrans; [apply (data_run_op s (OpReceipt now o key ev))|]. simpl. by rewrite Hk.
Qed.

Lemma Get_ops (s : Store) l id n :
  Get id s = Ok n → ∃ n', Get id (foldl run_op s l) = Ok n'.
Proof.
  unfold Get. rewrite data_run_ops. intros Hg.
  destruct (grows_ids _ _ (grows_ops (data s) l) id) as [n' Hn'].
  { destruct (Notifications (data s) !! id); [by eexists|done]. }
  exists n'. by rewrite Hn'.
Qed.
End ingest.

Lemma formatSeq_no_colon n : no_char ":" (formatSeq n).
Proof.
  intros Hin. pose proof (dec_loop_digits dec_fuel n "" eq_refl) as Hf.
  rewrite forallb_forall in Hf. apply list_elem_of_In in Hin. by apply Hf in Hin.
Qed.

Lemma formatSeq_inj n m :
  0 < n ≤ max_int64 → 0 < m ≤ max_int64 → formatSeq n = formatSeq m → n = m.
Proof.
  unfold max_int64. intros Hn Hm Heq.
  pose proof (parse_dec_fuel n ltac:(unfold max_uint64; lia)) as H1.
  pose proof (parse_dec_fuel m ltac:(unfold max_uint64; lia)) as H2.
  unfold formatSeq in Heq. rewrite Heq, H2 in H1. congruence.
Qed.

(** A text split at the last occurrence of a separator is split one way only. *)
Lemma last_sep_inj (c : ascii) a1 b1 a2 b2 :
  no_char c b1 → no_char c b2 →
  a1 +:+ String c "" +:+ b1 = a2 +:+ String c "" +:+ b2 → a1 = a2 ∧ b1 = b2.
Proof.
  unfold no_char. intros H1 H2 Heq. apply (f_equal (reverse ∘ to_bytes)) in Heq. unfold compose in Heq.
  rewrite !to_bytes_app, !reverse_app in Heq. simpl in Heq. rewrite reverse_singleton, <- !(assoc_L (++)) in Heq.
  apply app_sep_inj in Heq as [Hb Ha]; [|by rewrite elem_of_reverse..].
  apply (inj reverse) in Hb, Ha. split; by apply (inj to_bytes).
Qed.

Lemma receipt_key_inj e1 e2 :
  no_char ":" (Provider e1) → no_char ":" (Provider e2) →
  0 < Sequence e1 ≤ max_int64 → 0 < Sequence e2 ≤ max_int64 →
  receipt_key e1 = receipt_key e2 →
  Provider e1 = Provider e2 ∧ ExternalID e1 = ExternalID e2 ∧ Sequence e1 = Sequence e2.
Proof.
  unfold receipt_key. intros Hp1 Hp2 Hs1 Hs2 Heq.
  rewrite <- !(string_app_assoc (Provider _)), <- !(string_app_assoc (Provider _ +:+ _)) in Heq.
  apply last_sep_inj in Heq as [Hk Hs]; [|apply formatSeq_no_colon..].
  rewrite !string_app_assoc in Hk. apply join_key_inj in Hk as [??]; [|done..].
  split_and!; [done..|]. by apply formatSeq_inj.
Qed.

Section properties.
Context {codec : JsonCodec}.

Lemma Ingest_fresh now o e s :
  (Ingest now o e s).2.1 = true ↔
  valid e ∧ is_Some (Notifications (data s) !! NotificationID e) ∧
  default false (Receipts (data s) !! receipt_key e) = false.
Proof.
  destruct (decide (valid e)) as [Hv|Hv].
  2: { destruct (Ingest_invalid now o e s Hv) as [err ->]. simpl. naive_solver. }
  rewrite Ingest_valid by done. unfold Get.
  destruct (Notifications (data s) !! NotificationID e); simpl.
  - unfold RecordReceipt. destruct (default false (Receipts (data s) !! receipt_key e)); simpl; naive_solver.
  - split; [done|]. by intros (_ & [? ?] & _).
Qed.

(** What an accepted receipt does, stated on the data. *)
Lemma Ingest_recorded now o e s n :
  (Ingest now o e s).2.1 = true → Notifications (data s) !! NotificationID e = Some n →
  data (Ingest now o e s).1 = received_snapshot now (receipt_key e) (receipt_event e) (data s) ∧
  (Ingest now o e s).2.2 = None.
Proof.
  intros (Hv & Hn & Hk)%Ingest_fresh Hin. rewrite Ingest_valid by done. unfold Get. rewrite Hin.
  destruct (RecordReceipt_new now o (receipt_key e) (receipt_event e) s Hk) as [_ Hd].
  by destruct (RecordReceipt _ _ _ _ _).
Qed.

(** ** Properties *)

(** C22: on every reachable store, [Ingest] succeeds exactly on well-formed
    receipts for stored notifications; a failed or duplicate one changes nothing;
    a new one appends itself to the notification's timeline and sets the
    notification's status to its own, one version on, whatever the status was: the
    status machine is not consulted. *)
Theorem ingest_correct (p : string) (fs : gmap string Bytes) (l : list op) (now : time) (o : io) (e : Event) :
  let s := foldl run_op (fresh_store p fs) l in
  let id := NotificationID e in
  let '(s', (fresh, err)) := Ingest now o e s in
  (err = None ↔ valid e ∧ is_Some (Notifications (data s) !! id)) ∧
  (fresh = true ↔ err = None ∧ default false (Receipts (data s) !! receipt_key e) = false) ∧
  (fresh = false → s' = s) ∧
  (fresh = true → ∃ n,
     Notifications (data s) !! id = Some n ∧
     Notifications (data s') =
       <[id := set_status n (EvStatus e) now (wrap64 (nVersion n + 1))]> (Notifications (data s)) ∧
     Events (data s') = <[id := Timeline id s ++ [receipt_event e]]> (Events (data s)) ∧
     Receipts (data s') = <[receipt_key e := true]> (Receipts (data s))).
Proof.
  cbn zeta. set (s := foldl run_op (fresh_store p fs) l).
  assert (Hok : store_ok (data s)) by apply store_ok_reachable.
  pose proof (Ingest_fresh now o e s) as Hf. pose proof (Ingest_recorded now o e s) as Hr.
  destruct (decide (valid e)) as [Hv|Hv].
  2: { destruct (Ingest_invalid now o e s Hv) as [err ->]. naive_solver. }
  rewrite Ingest_valid in * by done. unfold Get in *.
  destruct (Notifications (data s) !! NotificationID e) as [n|] eqn:Hn; simpl in *.
  2: { split_and!; [split; [done|]; by intros [_ [? ?]]|naive_solver..]. }
  destruct (RecordReceipt now o (receipt_key e) (receipt_event e) s) as [s' fresh] eqn:Hrr. simpl in *.
  assert (Hk : fresh = true ↔ default false (Receipts (data s) !! receipt_key e) = false).
  { rewrite Hf. split; [naive_solver|]. intros; split_and!; [done|by eexists|done]. }
  split_and!; [split; [split; [done|by eexists]|done]|rewrite Hk; naive_solver| |].
  - intros ->. revert Hrr. unfold RecordReceipt. case_match; [by intros [= <-]|done].
  - intros ->. destruct (Hr n) as [-> _]; [done..|]. exists n. unfold received_snapshot. simpl. rewrite Hn.
    by rewrite (ok_ids _ Hok _ _ Hn).
Qed.

(** C23: once a receipt was recorded, after any history, a receipt with the same
    provider, external id and sequence number is a duplicate and changes nothing,
    even one for another notification; a receipt that differs in one of the three
    is not affected, for provider names without a colon. *)
Theorem ingest_once (p : string) (fs : gmap string Bytes) (l l' : list op)
    (now now' : time) (o o' : io) (e e' : Event) :
  let s := foldl run_op (fresh_store p fs) l in
  let s1 := (Ingest now o e s).1 in
  let s2 := foldl run_op s1 l' in
  (Ingest now o e s).2.1 = true →
  (Provider e' = Provider e → ExternalID e' = ExternalID e → Sequence e' = Sequence e →
   (Ingest now' o' e' s2).1 = s2 ∧ (Ingest now' o' e' s2).2.1 = false) ∧
  (no_char ":" (Provider e) → no_char ":" (Provider e') →
   Sequence e ≤ max_int64 → Sequence e' ≤ max_int64 →
   (Provider e', ExternalID e', Sequence e') ≠ (Provider e, ExternalID e, Sequence e) →
   (Ingest now' o' e' s1).2.1 = (Ingest now' o' e' s).2.1).
Proof.
  cbn zeta. set (s := foldl run_op (fresh_store p fs) l). intros Hf.
  pose proof Hf as (Hv & [n Hn] & Hk)%Ingest_fresh.
  destruct (Ingest_recorded now o e s n Hf Hn) as [Hd _].
  set (s1 := (Ingest now o e s).1) in *. split.
  - intros Hp He Hs. set (s2 := foldl run_op s1 l').
    assert (Hkey : Receipts (data s2) !! receipt_key e' = Some true).
    { unfold s2. rewrite data_run_ops. apply receipts_kept_ops. rewrite Hd.
      replace (receipt_key e') with (receipt_key e) by (unfold receipt_key; congruence).
      apply received_key. }
    destruct (decide (valid e')) as [Hv'|Hv'].
    + rewrite Ingest_valid by done. destruct (Get _ s2); [|done]. by rewrite RecordReceipt_seen.
    + by destruct (Ingest_invalid now' o' e' s2 Hv') as [err ->].
  - intros Hp Hp' Hs Hs' Hne.
    apply eq_true_iff_eq. rewrite !Ingest_fresh. split; intros (Hv' & Hin & Hk').
    + split_and!; [done| |].
      * rewrite Hd in Hin. unfold received_snapshot in Hin. simpl in Hin. rewrite Hn in Hin.
        simpl in Hin. rewrite lookup_insert in Hin. case_decide as Heq; [|done].
        assert (Hok : store_ok (data s)) by apply store_ok_reachable.
        rewrite <- Heq, (ok_ids _ Hok _ _ Hn). by eexists.
      * rewrite Hd in Hk'. unfold received_snapshot in Hk'. simpl in Hk'. rewrite Hn in Hk'. simpl in Hk'.
        rewrite lookup_insert in Hk'. by case_decide.
    + assert (Hkne : receipt_key e ≠ receipt_key e').
      { intros Heq. apply receipt_key_inj in Heq; [|done|done|unfold valid in *; lia..]. apply Hne. destruct Heq as (? & ? & ?). congruence. }
      split_and!; [done| |].
      * rewrite Hd. unfold received_snapshot. simpl. rewrite Hn. simpl. rewrite lookup_insert.
        case_decide; [by eexists|done].
      * rewrite Hd. unfold received_snapshot. simpl. rewrite Hn. simpl.
        by rewrite lookup_insert_ne.
Qed.
End properties.

Definition delivered (id ext : string) : Event := {|
  Provider := "mock"; NotificationID := id; ExternalID := ext; Sequence := 1;
  EvStatus := StatusDelivered; OccurredAt := 5 |}.

Definition two_stored : list (op (codec := memory_codec)) :=
  [OpCreate 1 2 io_fine (set_id sample_email "ntf_1");
   OpCreate 3 4 io_fine (set_key (set_id sample_email "ntf_2") "k2")].

Lemma ingest_once_witness :
  let s := foldl (run_op (codec := memory_codec)) (fresh_store "store.json" ∅) two_stored in
  let s1 := (Ingest 5 io_fine (delivered "ntf_1" "") s).1 in
  (Ingest 6 io_fine (delivered "ntf_2" "") s1).2 = (false, None) ∧
  (Ingest 6 io_fine (delivered "ntf_2" "x") s1).2.1 = (Ingest 6 io_fine (delivered "ntf_2" "x") s).2.1.
Proof.
  split; [reflexivity|].
  apply (ingest_once (codec := memory_codec) "store.json" ∅ two_stored [] 5 6 io_fine io_fine
    (delivered "ntf_1" "") (delivered "ntf_2" "x")).
  - reflexivity.
  - apply (bool_decide_unpack _). reflexivity.
  - apply (bool_decide_unpack _). reflexivity.
  - vm_compute. discriminate.
  - vm_compute. discriminate.
  - discriminate.
Defined.

End Receipt.
