(* ===== verification/Application.v ===== *)
(** * Package [application]: submission, cancellation, replay, recovery
    ([internal/application/service.go])

    The service composes the store and the priority queue.  What a call takes from
    outside ([Env]): clock readings, random bytes, the outcome of the file write. *)

From S2P Require Export Repository Security PriorityQueue.
Local Open Scope Z_scope.

Module Application.

Definition newID (prefix : string) (b : list Z) : string := prefix +:+ "_" +:+ EncodeToString b.

Section service.
Context {codec : JsonCodec} {uni : Unicode}.

(** What a worker assigns to the notification it took from the queue. *)
Record Seen := {
  sStatus : Status;
  sAttempts : Z;
  sProvider : string;
  sLastError : string;
  sUpdatedAt : time;
  sVersion : Z;
}.

(** [seen]: what a worker has made of the submitted notification by the time it is
    copied for the caller. *)
Record Env := {
  now : time;
  t_event : time;
  t_outbox : time;
  t_enqueue : time;
  id_bytes : list Z;
  replay_bytes : list Z;
  write : io;
  seen : option Seen;
}.

Record Service := { Store_ : Store; Queue_ : Queue.Queue }.

(** The fields [Submit] overwrites once the notification is valid. *)
Definition prepare (e : Env) (n : Notification) : Notification :=
  let id := if decide (nID n = "") then newID "ntf" (id_bytes e) else nID n in
  set_status (set_created (set_id n id) (now e)) StatusQueued (now e) 1.

Definition suppressed (n : Notification) (s : Store) : bool :=
  existsb (λ t, IsSuppressed (nTenantID n) (nChannel n) (HashAddress (nTenantID n) (tAddress t)) s)
    (nTargets n).

Definition due (now : time) (n : Notification) : bool :=
  match nScheduleAt n with
  | None => true
  | Some t => negb (After t now)
  end.

(** [return saved, true, nil]: the queue was given the address of [saved], so the
    copy may already hold what a worker assigned, without a lock. *)
Definition returned (o : option Seen) (n : Notification) : Notification :=
  match o with
  | None => n
  | Some x => with_state n (sStatus x) (sAttempts x) (sProvider x) (sLastError x) (sUpdatedAt x) (sVersion x)
  end.

(** [ctx] is the error of the request's context. *)
Definition Submit (e : Env) (ctx : option error) (n : Notification) (a : Service) :
    Service * (Notification * bool * option error) :=
  match ctx with
  | Some err => (a, (n, false, Some err))
  | None =>
      match Validate n with
      | (n, Some err) => (a, (n, false, Some err))
      | (n, None) =>
          let n := prepare e n in
          if suppressed n (Store_ a) then (a, (n, false, Some "target is suppressed"))
          else
            let '(s, (saved, created, err)) := Create (t_event e) (t_outbox e) (write e) n (Store_ a) in
            let a := {| Store_ := s; Queue_ := Queue_ a |} in
            match err, created with
            | Some err, _ => (a, (saved, created, Some err))
            | None, false => (a, (saved, created, None))
            | None, true =>
                if due (now e) n then
                  match Queue.Enqueue (t_enqueue e) saved (Queue_ a) with
                  | (q, Some qerr) => ({| Store_ := s; Queue_ := q |}, (saved, true, Some qerr))
                  | (q, None) => ({| Store_ := s; Queue_ := q |}, (returned (seen e) saved, true, None))
                  end
                else (a, (saved, true, None))
            end
      end
  end.

(** [transition]: the methods of the store are atomic, the sequence of them is
    not; [others] is what the other goroutines do to the store between the read
    and the write. *)
Definition transition (now t_event : time) (o : io) (others : list op) (id : string) (expected : Z)
    (next : Status) (s : Store) : Store * option error :=
  match Get id s with
  | Err err => (s, Some err)
  | Ok n =>
      if (0 <? expected) && negb (nVersion n =? expected) then (s, Some "etag version conflict")
      else
        let version := nVersion n in
        match Transition now n next with
        | (_, Some err) => (s, Some err)
        | (n, None) => Update t_event o n version (foldl run_op s others)
        end
  end.

Definition Cancel (now t_event : time) (o : io) (others : list op) (id : string) (expected : Z)
    (s : Store) : Store * option error :=
  transition now t_event o others id expected StatusCanceled s.

Definition Pause (now t_event : time) (o : io) (others : list op) (id : string) (expected : Z)
    (s : Store) : Store * option error :=
  transition now t_event o others id expected StatusPaused s.

(** What [Replay] submits. *)
Definition replayed (e : Env) (old : Notification) : Notification :=
  set_attempt (set_key (set_id old "") (nIdempotencyKey old +:+ ":" +:+ newID "replay" (replay_bytes e)))
    0 "" "".

Definition Replay (e : Env) (id : string) (a : Service) : Service * (Notification * option error) :=
  match Get id (Store_ a) with
  | Err err => (a, (zero_notification, Some err))
  | Ok old => let '(a', (n, _, err)) := Submit e None (replayed e old) a in (a', (n, err))
  end.

(** [clock i] is the reading of the clock in the [i]-th [Enqueue]. *)
Definition enqueue_all (clock : nat → time) (l : list Notification) (q : Queue.Queue) : Queue.Queue :=
  foldl (λ q x, (Queue.Enqueue (clock x.1) x.2 q).1) q (imap (λ i n, (i, n)) l).

Definition Recover `{!MapRange} (clock : nat → time) (a : Service) : Service :=
  {| Store_ := Store_ a; Queue_ := enqueue_all clock (Queued (Store_ a)) (Queue_ a) |}.

(** ** Lemmas *)

Lemma prepare_fields e n :
  nStatus (prepare e n) = StatusQueued ∧ nVersion (prepare e n) = 1 ∧
  nTenantID (prepare e n) = nTenantID n ∧ nIdempotencyKey (prepare e n) = nIdempotencyKey n ∧
  nTargets (prepare e n) = nTargets n ∧ nAttempts (prepare e n) = nAttempts n ∧
  nScheduleAt (prepare e n) = nScheduleAt n.
Proof. done. Qed.

Lemma Validate_header_fields n :
  nTenantID (Validate n).1 = nTenantID n ∧ nIdempotencyKey (Validate n).1 = nIdempotencyKey n ∧
  nID (Validate n).1 = nID n ∧ nAttempts (Validate n).1 = nAttempts n ∧
  nScheduleAt (Validate n).1 = nScheduleAt n ∧ nChannel (Validate n).1 = nChannel n.
Proof.
  unfold Validate. do 2 (case_decide; [done|]). do 3 (case_match; [done|]).
  destruct (decide (nTrigger n = "")); case_match; try done;
    by destruct (normalize_targets _ _).
Qed.

Lemma Validate_attempt n :
  nLastError (Validate n).1 = nLastError n ∧ nProvider (Validate n).1 = nProvider n.
Proof.
  unfold Validate. do 2 (case_decide; [done|]). do 3 (case_match; [done|]).
  destruct (decide (nTrigger n = "")); case_match; try done;
    by destruct (normalize_targets _ _).
Qed.

Lemma transition_cases now t o others id expected next s :
  (∃ err, transition now t o others id expected next s = (s, Some err)) ∨
  (∃ n n', Notifications (data s) !! id = Some n ∧ (0 < expected → nVersion n = expected) ∧
     Transition now n next = (n', None) ∧
     transition now t o others id expected next s = Update t o n' (nVersion n) (foldl run_op s others)).
Proof.
  unfold transition, Get. destruct (Notifications (data s) !! id) as [n|] eqn:Hn; [|left; by eexists].
  destruct ((0 <? expected) && negb (nVersion n =? expected)) eqn:He; [left; by eexists|].
  destruct (Transition now n next) as [n' [err|]] eqn:Ht; [left; by eexists|right].
  exists n, n'. split_and!; [done| |done|done].
  intros Hpos. apply andb_false_iff in He as [He|He]; [lia|].
  apply negb_false_iff in He. lia.
Qed.

Lemma Update_cases t o n v s :
  (∃ err, Update t o n v s = (s, Some err)) ∨
  (∃ old, Notifications (data s) !! nID n = Some old ∧ nVersion old = v ∧
     data (Update t o n v s).1 = updated_snapshot t n (data s)).
Proof.
  unfold Update. destruct (Notifications (data s) !! nID n) as [old|] eqn:Hn; [|left; by eexists].
  destruct (Z.eqb_spec (nVersion old) v) as [Hv|]; [|left; by eexists]. right. exists old.
  split_and!; [done..|]. simpl. by rewrite (proj1 (persist_data _ _)).
Qed.
End service.

Lemma enqueue_all_ok clock l q : Queue.queue_ok q → Queue.queue_ok (enqueue_all clock l q).
Proof.
  unfold enqueue_all. generalize (imap (λ i n, (i, n)) l). intros k. revert q.
  induction k as [|x k IH]; intros q Hq; simpl; [done|]. by apply IH, Queue.Enqueue_ok.
Qed.

Lemma imap_snd {A} (l : list A) : (imap (λ i x, (i, x)) l).*2 = l.
Proof. rewrite fmap_imap. etrans; [exact (imap_const (λ x, x) l)|apply list_fmap_id]. Qed.

(** Enqueueing a list in order: the first ones that fit, and no other. *)
Lemma enqueue_all_contents clock l q :
  let room := Z.to_nat (Queue.max q - Z.of_nat (length (Queue.contents q))) in
  (Queue.contents (enqueue_all clock l q)).*2 ≡ₚ take room l ++ (Queue.contents q).*2.
Proof.
  cbn zeta. unfold enqueue_all.
  assert (Hgen : ∀ (k : list (nat * Notification)) q,
    (Queue.contents (foldl (λ q x, (Queue.Enqueue (clock x.1) x.2 q).1) q k)).*2 ≡ₚ
    take (Z.to_nat (Queue.max q - Z.of_nat (length (Queue.contents q)))) k.*2 ++ (Queue.contents q).*2).
  { induction k as [|[i n] k IH]; intros q'; cbn [foldl fmap list_fmap fst snd]; [by rewrite take_nil|].
    rewrite IH, Queue.Enqueue_max. pose proof (Queue.Enqueue_contents (clock i) n q') as Hc.
    destruct (Z.leb_spec (Queue.max q') (Z.of_nat (length (Queue.contents q')))) as [Hle|Hlt].
    - rewrite (Permutation_length Hc), (fmap_Permutation snd _ _ Hc). by replace (Z.to_nat (Queue.max q' - Z.of_nat (length (Queue.contents q')))) with 0%nat by lia.
    - rewrite (Permutation_length Hc), (fmap_Permutation snd _ _ Hc). cbn [length fmap list_fmap snd].
      replace (Z.to_nat (Queue.max q' - Z.of_nat (length (Queue.contents q'))))
        with (S (Z.to_nat (Queue.max q' - Z.of_nat (S (length (Queue.contents q')))))) by lia.
      cbn [take app]. symmetry. apply Permutation_middle. }
  rewrite Hgen. by rewrite imap_snd.
Qed.

(** ** Properties *)

Section properties.
Context {codec : JsonCodec} {uni : Unicode}.

Lemma Submit_valid e n a :
  (Validate n).2 = None →
  let m := prepare e (Validate n).1 in
  suppressed m (Store_ a) = false →
  Submit e None n a =
    let '(s, (saved, created, err)) := Create (t_event e) (t_outbox e) (write e) m (Store_ a) in
    let a := {| Store_ := s; Queue_ := Queue_ a |} in
    match err, created with
    | Some err, _ => (a, (saved, created, Some err))
    | None, false => (a, (saved, created, None))
    | None, true =>
        if due (now e) m then
          match Queue.Enqueue (t_enqueue e) saved (Queue_ a) with
          | (q, Some qerr) => ({| Store_ := s; Queue_ := q |}, (saved, true, Some qerr))
          | (q, None) => ({| Store_ := s; Queue_ := q |}, (returned (seen e) saved, true, None))
          end
        else (a, (saved, true, None))
    end.
Proof.
  cbn zeta. unfold Submit. destruct (Validate n) as [m [err|]]; [done|]. cbn [fst snd].
  by intros _ ->.
Qed.

Lemma Submit_new e n a :
  (Validate n).2 = None →
  let m := prepare e (Validate n).1 in
  suppressed m (Store_ a) = false →
  Idempotency (data (Store_ a)) !! idempotency_key m = None →
  let '(a', (saved, created, err)) := Submit e None n a in
  data (Store_ a') = created_snapshot (t_event e) (t_outbox e) m (data (Store_ a)) ∧
  saved = (if due (now e) m && bool_decide (err = None) then returned (seen e) m else m) ∧ created = true ∧
  (due (now e) m = false ∨ err ≠ None → Queue_ a' = Queue_ a) ∧
  (due (now e) m = true → err = None → Queue_ a' = (Queue.Enqueue (t_enqueue e) m (Queue_ a)).1 ∧
     (Queue.Enqueue (t_enqueue e) m (Queue_ a)).2 = None) ∧
  ((Create (t_event e) (t_outbox e) (write e) m (Store_ a)).2.2 = None →
     err = if due (now e) m then (Queue.Enqueue (t_enqueue e) m (Queue_ a)).2 else None).
Proof.
  cbn zeta. intros Hv Hs Hk. rewrite Submit_valid by done. set (m := prepare e (Validate n).1) in *.
  destruct (Create_fresh (t_event e) (t_outbox e) (write e) m (Store_ a) Hk) as [Hc Hd].
  destruct (Create (t_event e) (t_outbox e) (write e) m (Store_ a)) as [s [[saved created] err]].
  cbn [fst snd] in *. injection Hc as -> ->. cbn zeta. destruct err as [err|].
  { rewrite bool_decide_false, andb_false_r by done. by split_and!. }
  destruct (due (now e) m) eqn:Hdue; [|by split_and!]. cbn [Queue_ andb].
  destruct (Queue.Enqueue (t_enqueue e) m (Queue_ a)) as [q [qerr|]] eqn:Hq; cbn [fst snd Queue_ Store_];
    rewrite ?bool_decide_true, ?bool_decide_false by done; split_and!; try done; [|naive_solver].
  intros _. revert Hq. unfold Queue.Enqueue. case_match; by intros [= <- <-].
Qed.

Lemma Submit_bound e n a id :
  (Validate n).2 = None →
  let m := prepare e (Validate n).1 in
  suppressed m (Store_ a) = false →
  Idempotency (data (Store_ a)) !! idempotency_key m = Some id →
  Submit e None n a =
    (a, (default zero_notification (Notifications (data (Store_ a)) !! id), false, None)).
Proof.
  cbn zeta. intros Hv Hs Hk. rewrite Submit_valid by done.
  rewrite (Create_bound _ _ _ _ _ id) by done. by destruct a.
Qed.





(** A new notification that meets a full queue, or is scheduled for
    later, is stored as queued but is in no queue, and submitting it again reports
    the stored one and does not enqueue it either. *)
Theorem submit_strands (e e' : Env) (n : Notification) (a : Service) :
  let m := prepare e (Validate n).1 in
  (Validate n).2 = None → suppressed m (Store_ a) = false →
  Idempotency (data (Store_ a)) !! idempotency_key m = None →
  Queue.max (Queue_ a) ≤ Queue.Len (Queue_ a) ∨ due (now e) m = false →
  let a' := (Submit e None n a).1 in
  Notifications (data (Store_ a')) !! nID m = Some m ∧ nStatus m = StatusQueued ∧
  Queue_ a' = Queue_ a ∧
  (suppressed (prepare e' (Validate n).1) (Store_ a') = false →
   Submit e' None n a' = (a', (m, false, None))).
Proof.
  cbn zeta. intros Hv Hs Hk Hfull. pose proof (Submit_new e n a Hv Hs Hk) as Hnew.
  destruct (Submit e None n a) as [a' [[saved created] err]]. cbn [fst].
  set (m := prepare e (Validate n).1) in *. destruct Hnew as (Hd & Hsv & -> & Hq & Hq' & _).
  split_and!.
  - by rewrite Hd, created_lookup, decide_True.
  - done.
  - destruct (due (now e) m) eqn:Hdue; [|by apply Hq; left]. destruct Hfull as [Hfull|]; [|done].
    destruct err as [err|]; [by apply Hq; right|]. destruct (Hq' eq_refl eq_refl) as [_ He].
    revert He. unfold Queue.Enqueue, Queue.Len in *. case_match; [done|lia].
  - intros Hs'. rewrite (Submit_bound e' n a' (nID m)); [|done..|].
    + by rewrite Hd, created_lookup, decide_True.
    + rewrite Hd. simpl. rewrite lookup_insert_eq. done.
Qed.

(** C24: a [Cancel] or [Pause] that other goroutines' store operations
    interrupt between its read and its write either is refused and leaves exactly
    what they left, or finds the version it read and writes the status it decided,
    over what it read, with one more event. *)
Theorem transition_interleaved (now t : time) (o : io) (others : list op) (id : string)
    (expected : Z) (next : Status) (p : string) (fs : gmap string Bytes) (l : list op) :
  let s := foldl run_op (fresh_store p fs) l in
  let s' := foldl run_op s others in
  let '(r, err) := transition now t o others id expected next s in
  (err ≠ None ∧ (r = s ∨ r = s')) ∨
  (∃ n cur, Notifications (data s) !! id = Some n ∧ Notifications (data s') !! id = Some cur ∧
     nVersion cur = nVersion n ∧ (0 < expected → nVersion n = expected) ∧
     (nStatus n = next ∨ (nStatus n, next) ∈ edges) ∧
     let n' := if decide (nStatus n = next) then n
               else set_status n next now (wrap64 (nVersion n + 1)) in
     data r = updated_snapshot t n' (data s')).
Proof.
  cbn zeta. set (s := foldl run_op (fresh_store p fs) l).
  assert (Hok : store_ok (data s)) by apply store_ok_reachable.
  destruct (transition_cases now t o others id expected next s)
    as [[err ->]|(n & n' & Hn & Hexp & Ht & ->)]; [left; by auto|].
  assert (Hid : nID n' = id ∧ (nStatus n = next ∨ (nStatus n, next) ∈ edges) ∧
    n' = if decide (nStatus n = next) then n else set_status n next now (wrap64 (nVersion n + 1))).
  { pose proof (ok_ids _ Hok _ _ Hn) as Hi.
    apply Transition_cases in Ht as [(-> & Hs & _)|[(_ & _ & _ & ? & ?)|(-> & Hs & Ha & _)]]; [|done|].
    - split_and!; [done|by left|]. by rewrite decide_True.
    - split_and!; [done|right; by apply is_allowed_edges|]. by rewrite decide_False. }
  destruct Hid as (Hid & Hedge & Hn').
  destruct (Update_cases t o n' (nVersion n) (foldl run_op s others)) as [[err ->]|(cur & Hc & Hv & Hd)].
  { left. by auto. }
  destruct (Update t o n' (nVersion n) (foldl run_op s others)) as [r err]. right. exists n, cur.
  rewrite Hid in Hc. cbn [fst] in Hd. rewrite <- Hn'. by split_and!.
Qed.

(** Undisturbed, [Cancel] cancels exactly what is queued or
    paused, and [Pause] pauses exactly what is queued or in delivery, when the
    version given is 0 or the stored one; everything else keeps its state. *)
Theorem cancel_pause_status (now t : time) (o : io) (id : string) (expected : Z)
    (p : string) (fs : gmap string Bytes) (l : list op) :
  let s := foldl run_op (fresh_store p fs) l in
  ∀ n, Notifications (data s) !! id = Some n →
  let after r := Notifications (data r) !! id in
  let moved from next :=
    if decide (nStatus n ∈ from ∧ (expected ≤ 0 ∨ nVersion n = expected))
    then set_status n next now (wrap64 (nVersion n + 1)) else n in
  after (Cancel now t o [] id expected s).1
    = Some (moved [StatusQueued; StatusPaused] StatusCanceled) ∧
  after (Pause now t o [] id expected s).1
    = Some (moved [StatusQueued; StatusProcessing] StatusPaused).
Proof.
  cbn zeta. set (s := foldl run_op (fresh_store p fs) l). intros n Hn.
  assert (Hok : store_ok (data s)) by apply store_ok_reachable.
  pose proof (ok_ids _ Hok _ _ Hn) as Hid.
  assert (Hgen : ∀ (next : Status) (froms : list Status), (∀ st, (st, next) ∈ edges ↔ st ∈ froms) → next ∉ froms →
    Notifications (data (transition now t o [] id expected next s).1) !! id =
    Some (if decide (nStatus n ∈ froms ∧ (expected ≤ 0 ∨ nVersion n = expected))
          then set_status n next now (wrap64 (nVersion n + 1)) else n)).
  { intros next froms Hfroms Hnext. unfold transition, Get. rewrite Hn.
    destruct (Z.ltb_spec 0 expected) as [Hpos|Hpos], (Z.eqb_spec (nVersion n) expected) as [Hv|Hv];
      cbn [andb negb]; try (rewrite decide_False by (intros [_ ?]; lia); done).
    all: destruct (Transition now n next) as [n' [err|]] eqn:Ht;
      apply Transition_cases in Ht as [(-> & Hs & ?)|[(-> & Hne & Ha & msg & ?)|(-> & Hne & Ha & ?)]];
      try done; cbn [fst foldl].
    all: try (rewrite decide_False; [done|]; intros [Hin%Hfroms _]; apply is_allowed_edges in Hin; congruence).
    all: try (apply is_allowed_edges, Hfroms in Ha; rewrite decide_True by (split; [done|lia])).
    all: try (rewrite decide_False by (intros [Hin _]; subst; contradiction)).
    all: unfold Update; cbn [set_status with_state nID]; rewrite Hid, Hn, Z.eqb_refl; cbn [negb];
      rewrite (proj1 (persist_data _ _)); cbn [data set_data]; rewrite updated_lookup;
      by rewrite decide_True. }
  split; apply Hgen; unfold edges; intros; rewrite ?elem_of_cons, ?elem_of_nil, ?pair_eq; naive_solver.
Qed.

(** Replaying a stored notification under an unused id and key stores a
    new one with no attempts behind it, queued under the old key extended with the
    random part, and leaves the old one as it is. *)
Theorem replay_correct (e : Env) (id : string) (old : Notification) (a : Service) :
  let m := prepare e (Validate (replayed e old)).1 in
  let ns := Notifications (data (Store_ a)) in
  Get id (Store_ a) = Ok old → (Validate (replayed e old)).2 = None →
  suppressed m (Store_ a) = false → ns !! nID m = None →
  Idempotency (data (Store_ a)) !! idempotency_key m = None →
  let '(a', (n, _)) := Replay e id a in
  (n = m ∨ n = returned (seen e) m) ∧ Notifications (data (Store_ a')) = <[nID m := m]> ns ∧ Get id (Store_ a') = Ok old ∧
  (nStatus m, nVersion m, nAttempts m, nLastError m, nProvider m) = (StatusQueued, 1, 0, "", "") ∧
  nTenantID m = nTenantID old ∧
  nIdempotencyKey m = nIdempotencyKey old +:+ ":" +:+ newID "replay" (replay_bytes e).
Proof.
  cbn zeta. intros Hg Hv Hs Hid Hk. unfold Replay. rewrite Hg.
  pose proof (Submit_new e (replayed e old) a Hv Hs Hk) as Hnew.
  pose proof (Validate_header_fields (replayed e old)) as (Ht & Hkey & _ & Hatt & _ & _).
  pose proof (Validate_attempt (replayed e old)) as [Herr Hprov].
  set (m := prepare e (Validate (replayed e old)).1) in *.
  destruct (Submit e None (replayed e old) a) as [a' [[saved created] err]].
  destruct Hnew as (Hd & -> & _).
  split_and!; [case_match; auto|by rewrite Hd| | |done..].
  - unfold Get in *. rewrite Hd, created_lookup. case_decide as Heq; [|done].
    rewrite <- Heq, Hid in Hg. done.
  - unfold m. cbn [prepare set_status set_created set_id with_state with_request
      nStatus nVersion nAttempts nLastError nProvider]. by rewrite Hatt, Herr, Hprov.
Qed.

(** At startup the queue receives the stored notifications whose status
    is queued, as many as fit, and nothing else; the store is not touched. *)
Theorem recover_complete `{!MapRange, !MapRangeOk} (clock : nat → time) (s : Store) (cap : Z) :
  let a := Recover clock {| Store_ := s; Queue_ := Queue.New cap |} in
  Store_ a = s ∧
  (∃ l, l ≡ₚ base.filter (λ n, nStatus n = StatusQueued) (map_to_list (Notifications (data s))).*2 ∧
     (Queue.contents (Queue_ a)).*2 ≡ₚ take (Z.to_nat cap) l) ∧
  Queue.queue_ok (Queue_ a).
Proof.
  cbn zeta. unfold Recover. cbn [Store_ Queue_]. split_and!; [done| |].
  - exists (Queued s). split.
    + unfold Queued, range_values. by rewrite map_range_perm.
    + rewrite enqueue_all_contents. cbn. by rewrite app_nil_r, Z.sub_0_r.
  - apply enqueue_all_ok, Queue.New_ok.
Qed.
End properties.

#[local] Existing Instance memory_codec.
#[local] Instance ascii_only : Unicode := {| to_lower_table := λ r, r |}.

Definition env0 : Env := {|
  now := 100; t_event := 101; t_outbox := 102; t_enqueue := 103;
  id_bytes := [1; 2; 3; 4; 5; 6; 7; 8; 9; 10; 11; 12];
  replay_bytes := [12; 11; 10; 9; 8; 7; 6; 5; 4; 3; 2; 1]; write := io_fine;
  seen := None |}.

Definition fresh (cap : Z) : Service := {|
  Store_ := fresh_store "store.json" ∅; Queue_ := Queue.New cap |}.

Lemma submit_strands_witness :
  let a' := (Submit env0 None sample_email (fresh 0)).1 in
  let m := prepare env0 (Validate sample_email).1 in
  Notifications (data (Store_ a')) !! nID m = Some m ∧ nStatus m = StatusQueued ∧
  Queue_ a' = Queue_ (fresh 0) ∧
  (suppressed (prepare env0 (Validate sample_email).1) (Store_ a') = false →
   Submit env0 None sample_email a' = (a', (m, false, None))).
Proof.
  apply (submit_strands env0 env0 sample_email (fresh 0)); [vm_compute; reflexivity..|].
  left. vm_compute. discriminate.
Defined.

Lemma cancel_pause_status_witness :
  let s := foldl run_op (fresh_store "store.json" ∅) [OpCreate 1 2 io_fine stored] in
  Notifications (data (Cancel 5 6 io_fine [] "ntf_1" 1 s).1) !! "ntf_1"
    = Some (set_status stored StatusCanceled 5 2) ∧
  Notifications (data (Pause 5 6 io_fine [] "ntf_1" 2 s).1) !! "ntf_1" = Some stored.
Proof.
  split.
  - apply (cancel_pause_status 5 6 io_fine "ntf_1" 1 "store.json" ∅ [OpCreate 1 2 io_fine stored] stored).
    reflexivity.
  - apply (cancel_pause_status 5 6 io_fine "ntf_1" 2 "store.json" ∅ [OpCreate 1 2 io_fine stored] stored).
    reflexivity.
Defined.

Definition one_stored : Service := (Submit env0 None sample_email (fresh 5)).1.

Definition env1 : Env := {|
  now := 200; t_event := 201; t_outbox := 202; t_enqueue := 203; id_bytes := [20; 21];
  replay_bytes := [22; 23]; write := io_fine; seen := None |}.

Lemma replay_correct_witness :
  let old := prepare env0 (Validate sample_email).1 in
  let m := prepare env1 (Validate (replayed env1 old)).1 in
  let '(a', (n, _)) := Replay env1 (nID old) one_stored in
  (n = m ∨ n = returned (seen env1) m) ∧
  Notifications (data (Store_ a')) = <[nID m := m]> (Notifications (data (Store_ one_stored))) ∧
  Get (nID old) (Store_ a') = Ok old ∧
  (nStatus m, nVersion m, nAttempts m, nLastError m, nProvider m) = (StatusQueued, 1, 0, "", "") ∧
  nTenantID m = nTenantID old ∧ nIdempotencyKey m = "invoice-1:replay_1617".
Proof.
  apply (replay_correct env1 (nID (prepare env0 (Validate sample_email).1))
    (prepare env0 (Validate sample_email).1) one_stored); vm_compute; reflexivity.
Defined.

Lemma recover_complete_witness :
  let a := @Recover memory_codec map_to_list_range (λ _, 9)
             {| Store_ := Store_ one_stored; Queue_ := Queue.New 3 |} in
  Store_ a = Store_ one_stored ∧
  (∃ l, l ≡ₚ base.filter (λ n, nStatus n = StatusQueued)
            (map_to_list (Notifications (data (Store_ one_stored)))).*2 ∧
     (Queue.contents (Queue_ a)).*2 ≡ₚ take (Z.to_nat 3) l) ∧
  Queue.queue_ok (Queue_ a).
Proof.
  exact (@recover_complete memory_codec map_to_list_range map_to_list_range_ok (λ _, 9)
    (Store_ one_stored) 3).
Defined.

End Application.
