(* ===== verification/Provider.v ===== *)
(** * Package [provider]: the interface and its two implementations
    ([internal/provider/provider.go])

    [Provider] is the Go interface.  What a call meets outside the program (a timer
    against a context, an HTTP exchange) is its [Answer].  [ProviderOk] states what
    the dispatcher and the router rely on. *)

From S2P Require Export Domain.
Local Open Scope Z_scope.

(** ** Data *)

Record Request := { rNotification : Notification; rBody : string; rSubject : string }.

Record Result := {
  ExternalID : string;
  ResStatus : Status;
  Retryable : bool;
  ErrorClass : string;
  Message : string;
}.

Definition zero_result : Result :=
  {| ExternalID := ""; ResStatus := ""; Retryable := false; ErrorClass := ""; Message := "" |}.

Definition failed_result (retryable : bool) (class msg : string) : Result :=
  {| ExternalID := ""; ResStatus := ""; Retryable := retryable; ErrorClass := class; Message := msg |}.

Definition accepted_result (id : string) : Result :=
  {| ExternalID := id; ResStatus := StatusAccepted; Retryable := false; ErrorClass := ""; Message := "" |}.

(** ** The interface *)

Class Provider (P : Type) := {
  Answer : Type;
  Name : P → string;
  ChannelOf : P → Channel;
  Send : Answer → Request → P → P * (Result * option error);
  Health : Answer → P → option error;
}.

Definition error_classes : list string := ["timeout"; "temporary"; "network"; "server"; "rejected"; ""].

Class ProviderOk (P : Type) `{Provider P} : Prop := {
  send_name : ∀ a r p, Name (Send a r p).1 = Name p ∧ ChannelOf (Send a r p).1 = ChannelOf p;
  send_ok : ∀ a r p, (Send a r p).2.2 = None →
    ResStatus (Send a r p).2.1 = StatusAccepted ∧ Retryable (Send a r p).2.1 = false;
  send_failed : ∀ a r p, (Send a r p).2.2 ≠ None →
    ResStatus (Send a r p).2.1 = "" ∧ ErrorClass (Send a r p).2.1 ∈ error_classes ∧
    ExternalID (Send a r p).2.1 = "";
}.

(** ** The mock *)

Record Mock := {
  ProviderName : string;
  ProviderChannel : Channel;
  Calls : Z;
  Failures : Z;
  Delay : Duration;
}.

Definition with_calls (m : Mock) (calls : Z) : Mock := {|
  ProviderName := ProviderName m; ProviderChannel := ProviderChannel m; Calls := calls;
  Failures := Failures m; Delay := Delay m |}.

(** [done] is the error of the context when it ends before the delay. *)
Definition mock_send (done : option error) (m : Mock) : Mock * (Result * option error) :=
  let m := with_calls m (wrap64 (Calls m + 1)) in
  let call := Calls m in
  match (if 0 <? Delay m then done else None) with
  | Some err => (m, (failed_result true "timeout" "", Some err))
  | None =>
      if call <=? Failures m
      then (m, (failed_result true "temporary" "injected failure", Some "provider temporary failure"))
      else (m, (accepted_result (ProviderName m +:+ "-" +:+ FormatInt call), None))
  end.

#[export] Instance mock_provider : Provider Mock := {|
  Answer := option error; Name := ProviderName; ChannelOf := ProviderChannel;
  Send done _ m := mock_send done m; Health _ _ := None |}.

(** ** The HTTP provider *)

Record HTTP := { hName : string; hChannel : Channel; hURL : string }.

Record Response := { StatusCode : Z; StatusText : string; MessageID : string }.

(** What [http.NewRequestWithContext] and [Client.Do] return. *)
Record http_answer := { new_request : option error; do : result Response }.

Definition status_error (code : Z) : error := "provider status " +:+ FormatInt code.

Definition http_send (a : http_answer) (h : HTTP) : Result * option error :=
  if decide (hURL h = "") then (zero_result, Some "provider URL is empty")
  else match new_request a with
       | Some err => (zero_result, Some err)
       | None =>
           match do a with
           | Err err => (failed_result true "network" "", Some err)
           | Ok resp =>
               if 500 <=? StatusCode resp
               then (failed_result true "server" "", Some (status_error (StatusCode resp)))
               else if 400 <=? StatusCode resp
               then (failed_result false "rejected" "", Some (status_error (StatusCode resp)))
               else (accepted_result (MessageID resp), None)
           end
       end.

Definition http_health (a : http_answer) (h : HTTP) : option error :=
  match new_request a with
  | Some err => Some err
  | None =>
      match do a with
      | Err err => Some err
      | Ok resp => if 500 <=? StatusCode resp then Some ("unhealthy: " +:+ StatusText resp) else None
      end
  end.

#[export] Instance http_provider : Provider HTTP := {|
  Answer := http_answer; Name := hName; ChannelOf := hChannel;
  Send a _ h := (h, http_send a h); Health := http_health |}.

(** ** The implementations keep the interface's promises *)

#[export] Instance mock_provider_ok : ProviderOk Mock.
Proof.
  split; simpl; intros a _ m; unfold mock_send; cbn zeta; [by repeat case_match|..];
    repeat case_match; simpl; intros; try done; unfold error_classes; set_solver.
Qed.

#[export] Instance http_provider_ok : ProviderOk HTTP.
Proof.
  split; simpl; intros a _ h; unfold http_send; [done|..];
    repeat case_match; simpl; intros; try done; unfold error_classes; set_solver.
Qed.

(** ** Lemmas *)

Definition mock_run (m : Mock) (l : list (option error)) : Mock * list (Result * option error) :=
  foldl (λ s done, let '(m, out) := mock_send done s.1 in (m, s.2 ++ [out])) (m, []) l.

Lemma mock_run_snoc m l done :
  mock_run m (l ++ [done]) =
    let '(m', out) := mock_send done (mock_run m l).1 in (m', (mock_run m l).2 ++ [out]).
Proof. unfold mock_run. by rewrite foldl_app. Qed.

Lemma mock_send_fields done m :
  (mock_send done m).1 = with_calls m (wrap64 (Calls m + 1)).
Proof. unfold mock_send. cbn zeta. by repeat case_match. Qed.

Lemma mock_run_state m l :
  Calls m = 0 → Z.of_nat (length l) ≤ max_int64 →
  (mock_run m l).1 = with_calls m (Z.of_nat (length l)).
Proof.
  intros H0. induction l as [|x l IH] using rev_ind; intros Hl.
  { destruct m; simpl in *. by subst. }
  rewrite length_app in *. simpl in Hl. rewrite mock_run_snoc.
  pose proof (mock_send_fields x (mock_run m l).1) as Hf.
  destruct (mock_send x (mock_run m l).1) as [m' out]. simpl in *. rewrite Hf, IH by lia.
  unfold with_calls. simpl. f_equal. rewrite wrap64_small; [lia|].
  unfold in_int64, min_int64, max_int64 in *. lia.
Qed.

(** ** Properties *)

(** A mock without delay fails its first [Failures] calls with a temporary
    error and accepts every later one, and no two accepted messages share an
    external id. *)
Theorem mock_schedule (m : Mock) (k : nat) :
  let l := replicate k None in
  Calls m = 0 → Delay m = 0 → Z.of_nat k ≤ max_int64 →
  length (mock_run m l).2 = k ∧
  (∀ i res err, (mock_run m l).2 !! i = Some (res, err) →
     (err = None ↔ Failures m < Z.of_nat i + 1) ∧
     (err = None → res = accepted_result (ProviderName m +:+ "-" +:+ FormatInt (Z.of_nat i + 1)))) ∧
  (∀ i j res res', (mock_run m l).2 !! i = Some (res, None) →
     (mock_run m l).2 !! j = Some (res', None) → ExternalID res = ExternalID res' → i = j).
Proof.
  cbn zeta. intros H0 Hd Hk.
  assert (Hout : (mock_run m (replicate k None)).2 = (λ i,
    if Z.of_nat i + 1 <=? Failures m
    then (failed_result true "temporary" "injected failure", Some "provider temporary failure")
    else (accepted_result (ProviderName m +:+ "-" +:+ FormatInt (Z.of_nat i + 1)), None)) <$> seq 0 k).
  { induction k as [|k IH]; [done|]. rewrite replicate_S_end, seq_S, fmap_app, mock_run_snoc.
    rewrite mock_run_state by (first [done|rewrite length_replicate; lia]). rewrite length_replicate.
    unfold mock_send. cbn [with_calls Calls Delay Failures ProviderName]. rewrite Hd.
    rewrite wrap64_small by (unfold in_int64, min_int64, max_int64 in *; lia).
    cbn [Z.ltb Z.compare]. rewrite IH by lia.
    by destruct (Z.of_nat k + 1 <=? Failures m) eqn:He; cbn [fst snd fmap list_fmap Nat.add]; rewrite He. }
  rewrite Hout. split_and!.
  - by rewrite length_fmap, length_seq.
  - intros i res err (x & Hx & Hi)%list_lookup_fmap_Some. apply lookup_seq in Hi as [-> _].
    simpl in Hx. revert Hx. destruct (Z.leb_spec (Z.of_nat i + 1) (Failures m)); intros [= -> ->];
      split; try done; split; intros; try done; lia.
  - intros i j res res' (x & Hx & Hi)%list_lookup_fmap_Some (y & Hy & Hj)%list_lookup_fmap_Some.
    apply lookup_seq in Hi as [-> Hi], Hj as [-> Hj]. simpl in Hx, Hy.
    revert Hx Hy. do 2 case_match; try done. intros [= ->] [= ->] Hid. simpl in Hid.
    apply (f_equal to_bytes) in Hid. rewrite !to_bytes_app in Hid.
    apply (inj (app _)), (inj (app _)), (inj to_bytes) in Hid.
    apply FormatInt_inj in Hid; [lia|unfold in_int64, min_int64, max_int64 in *; lia..].
Qed.

Lemma mock_schedule_witness :
  let m := {| ProviderName := "mock-sms"; ProviderChannel := ChannelSMS; Calls := 0; Failures := 1;
              Delay := 0 |} in
  length (mock_run m (replicate 2 None)).2 = 2%nat ∧
  (∀ i res err, (mock_run m (replicate 2 None)).2 !! i = Some (res, err) →
     (err = None ↔ Failures m < Z.of_nat i + 1) ∧
     (err = None → res = accepted_result (ProviderName m +:+ "-" +:+ FormatInt (Z.of_nat i + 1)))) ∧
  (∀ i j res res', (mock_run m (replicate 2 None)).2 !! i = Some (res, None) →
     (mock_run m (replicate 2 None)).2 !! j = Some (res', None) → ExternalID res = ExternalID res' → i = j).
Proof. apply (mock_schedule _ 2); [reflexivity|reflexivity|vm_compute; discriminate]. Defined.
