(* ===== verification/Router.v ===== *)
(** * Package [routing]: provider choice and circuit breakers
    ([internal/routing/router.go])

    The router is generic in the provider type; it uses the interface only.  A
    method that reads the clock at several candidates takes a family of readings,
    indexed by the candidate's position. *)

From S2P Require Export Provider GoSort.
Local Open Scope Z_scope.

Module Router.

Inductive CircuitState := StateClosed | StateOpen | StateHalfOpen.

#[export] Instance circuit_state_eq_dec : EqDecision CircuitState.
Proof. solve_decision. Defined.

Definition state_string (s : CircuitState) : string :=
  match s with
  | StateClosed => "closed"
  | StateOpen => "open"
  | StateHalfOpen => "half_open"
  end.

Section router.
Context {P : Type} `{!Provider P}.

Record candidate := { cp : P; failures : Z; opened : time; state : CircuitState }.

Record Router := {
  providers : gmap Channel (list candidate);
  threshold : Z;
  cooldown : Duration;
}.

Definition New : Router := {| providers := ∅; threshold := 3; cooldown := 10 * Second |}.

Definition set_providers (r : Router) (m : gmap Channel (list candidate)) : Router :=
  {| providers := m; threshold := threshold r; cooldown := cooldown r |}.

Definition candidates (r : Router) (ch : Channel) : list candidate := default [] (providers r !! ch).

Definition Add (p : P) (r : Router) : Router :=
  let c := {| cp := p; failures := 0; opened := time_zero; state := StateClosed |} in
  set_providers r (<[ChannelOf p := candidates r (ChannelOf p) ++ [c]]> (providers r)).

Definition set_state (c : candidate) (s : CircuitState) : candidate :=
  {| cp := cp c; failures := failures c; opened := opened c; state := s |}.

(** ** [Choose] *)

(** One candidate of the loop: as it is left, and whether it is returned. *)
Definition visit (cool : Duration) (now : time) (a : Answer (P := P)) (c : candidate) : candidate * bool :=
  if decide (state c = StateOpen) then
    if Since now (opened c) <? cool then (c, false)
    else (set_state c StateHalfOpen, bool_decide (Health a (cp c) = None))
  else if decide (state c = StateHalfOpen) then (c, bool_decide (Health a (cp c) = None))
  else (c, true).

Fixpoint choose_list (cool : Duration) (clock : nat → time) (answers : nat → Answer (P := P))
    (i : nat) (l : list candidate) : list candidate * option P :=
  match l with
  | [] => ([], None)
  | c :: rest =>
      let '(c, ok) := visit cool (clock i) (answers i) c in
      if ok then (c :: rest, Some (cp c))
      else let '(rest, p) := choose_list cool clock answers (S i) rest in (c :: rest, p)
  end.

Definition Choose (clock : nat → time) (answers : nat → Answer (P := P)) (ch : Channel) (r : Router) :
    Router * result P :=
  let '(l, p) := choose_list (cooldown r) clock answers 0 (candidates r ch) in
  (match providers r !! ch with
   | Some _ => set_providers r (<[ch := l]> (providers r))
   | None => r
   end,
   match p with
   | Some p => Ok p
   | None => Err "no healthy provider"
   end).

(** ** [Record] *)

Definition reset (c : candidate) : candidate :=
  {| cp := cp c; failures := 0; opened := opened c; state := StateClosed |}.

Definition fail (thr : Z) (now : time) (c : candidate) : candidate :=
  let f := wrap64 (failures c + 1) in
  if thr <=? f then {| cp := cp c; failures := f; opened := now; state := StateOpen |}
  else {| cp := cp c; failures := f; opened := opened c; state := state c |}.

(** The inner loop; the flag says that the method returned. *)
Fixpoint record_list (thr : Z) (clock : nat → time) (name : string) (ok : bool) (i : nat)
    (l : list candidate) : list candidate * bool :=
  match l with
  | [] => ([], false)
  | c :: rest =>
      if decide (Name (cp c) = name) then
        if ok then (reset c :: rest, true)
        else let '(rest, b) := record_list thr clock name ok (S i) rest in
             (fail thr (clock i) c :: rest, b)
      else let '(rest, b) := record_list thr clock name ok (S i) rest in (c :: rest, b)
  end.

Definition record_step (thr : Z) (clock : Channel → nat → time) (name : string) (ok : bool)
    (s : gmap Channel (list candidate) * bool) (x : Channel * list candidate) :
    gmap Channel (list candidate) * bool :=
  if s.2 then s
  else let '(l, b) := record_list thr (clock x.1) name ok 0 x.2 in (<[x.1 := l]> s.1, b).

Definition Record_ `{!MapRange} (clock : Channel → nat → time) (p : P) (err : option error)
    (r : Router) : Router :=
  set_providers r
    (foldl (record_step (threshold r) clock (Name p) (bool_decide (err = None)))
       (providers r, false) (map_range (providers r))).1.

Definition Snapshot `{!MapRange} (r : Router) : gmap string string :=
  foldl (λ out x, foldl (λ out c, <[x.1 +:+ ":" +:+ Name (cp c) := state_string (state c)]> out) out x.2)
    ∅ (map_range (providers r)).

(** ** Specification *)

(** A candidate [Choose] may return: closed, or probed and healthy once its
    cooldown is over. *)
Definition available (cool : Duration) (now : time) (a : Answer (P := P)) (c : candidate) : Prop :=
  state c = StateClosed ∨
  ((state c = StateHalfOpen ∨ cool ≤ Since now (opened c)) ∧ Health a (cp c) = None).

#[export] Instance available_dec cool now a c : Decision (available cool now a c).
Proof. unfold available. apply _. Defined.

(** The history of a router: what was recorded, and the choices made. *)
Inductive event :=
| EvRecord (now : time) (p : P) (err : option error)
| EvChoose (now : time) (answers : nat → Answer (P := P)) (ch : Channel).

Definition event_time (ev : event) : time :=
  match ev with EvRecord t _ _ => t | EvChoose t _ _ => t end.

Definition run_event `{!MapRange} (r : Router) (ev : event) : Router :=
  match ev with
  | EvRecord t p err => Record_ (λ _ _, t) p err r
  | EvChoose t answers ch => (Choose (λ _, t) answers ch r).1
  end.

Definition add_all (ps : list P) : Router := foldl (λ r p, Add p r) New ps.

(** The abstract breaker of one name: consecutive failures and the last one. *)
Definition streak (name : string) (h : list event) : Z :=
  foldl (λ k ev, match ev with
                 | EvRecord _ p err =>
                     if decide (Name p = name) then if decide (err = None) then 0 else k + 1 else k
                 | EvChoose _ _ _ => k
                 end) 0 h.

Definition last_failure (name : string) (h : list event) : time :=
  foldl (λ t ev, match ev with
                 | EvRecord now p err =>
                     if decide (Name p = name) then if decide (err = None) then t else now else t
                 | EvChoose _ _ _ => t
                 end) time_zero h.

(** ** Lemmas: [Choose] *)

Lemma visit_spec cool now a c :
  ((visit cool now a c).2 = true ↔ available cool now a c) ∧
  ((visit cool now a c).1 = c ∨
   (state c = StateOpen ∧ cool ≤ Since now (opened c) ∧
    (visit cool now a c).1 = set_state c StateHalfOpen)).
Proof.
  unfold visit, available. destruct (state c) eqn:Hs; simpl.
  - split; [|by left]. naive_solver.
  - destruct (Z.ltb_spec (Since now (opened c)) cool); simpl.
    + split; [|by left]. split; [done|]. intros [?|[[?|?] _]]; [done..|lia].
    + split; [|by right]. rewrite bool_decide_eq_true. naive_solver.
  - split; [|by left]. rewrite bool_decide_eq_true. naive_solver.
Qed.

Lemma visit_cp cool now a c : cp (visit cool now a c).1 = cp c.
Proof. by destruct (visit_spec cool now a c) as [_ [->|(_ & _ & ->)]]. Qed.

(** Every candidate is left as [Choose] found it, or moved to half-open. *)
Definition probed (cool : Duration) (clock : nat → time) (i : nat) (c c' : candidate) : Prop :=
  c' = c ∨ (state c = StateOpen ∧ cool ≤ Since (clock i) (opened c) ∧ c' = set_state c StateHalfOpen).

Lemma choose_list_spec cool clock answers i l :
  let '(l', p) := choose_list cool clock answers i l in
  length l' = length l ∧
  (∀ j c c', l !! j = Some c → l' !! j = Some c' → probed cool clock (i + j) c c') ∧
  match p with
  | Some p => ∃ j c, l !! j = Some c ∧ cp c = p ∧
      available cool (clock (i + j)%nat) (answers (i + j)%nat) c ∧
      ∀ k ck, (k < j)%nat → l !! k = Some ck →
        ¬ available cool (clock (i + k)%nat) (answers (i + k)%nat) ck
  | None => ∀ j c, l !! j = Some c → ¬ available cool (clock (i + j)%nat) (answers (i + j)%nat) c
  end.
Proof.
  revert i. induction l as [|c l IH]; intros i; cbn [choose_list]; [done|].
  destruct (visit_spec cool (clock i) (answers i) c) as [Hok Hst].
  pose proof (visit_cp cool (clock i) (answers i) c) as Hcp.
  destruct (visit cool (clock i) (answers i) c) as [c1 ok]. cbn [fst snd] in *.
  assert (H0 : probed cool clock (i + 0) c c1) by (unfold probed; rewrite Nat.add_0_r; naive_solver).
  destruct ok.
  - pose proof (proj1 Hok eq_refl) as Hav. split_and!; [done| |].
    + intros [|j] d d' Hd Hd'; simplify_eq/=; [done|by left].
    + exists 0%nat, c. rewrite Nat.add_0_r. split_and!; [done..|]. intros; lia.
  - assert (Hna : ¬ available cool (clock i) (answers i) c) by (intros Hv; by apply Hok in Hv).
    specialize (IH (S i)). destruct (choose_list cool clock answers (S i) l) as [l' p].
    destruct IH as (Hlen & Hpr & Hp). split_and!; [simpl; congruence| |].
    + intros [|j] d d' Hd Hd'; simplify_eq/=; [done|]. rewrite Nat.add_succ_r. by apply Hpr.
    + destruct p as [p|].
      * destruct Hp as (j & d & Hd & Hdp & Hav & Hmin). exists (S j), d.
        rewrite Nat.add_succ_r. split_and!; [done..|].
        intros [|k] dk Hk Hdk; simplify_eq/=; [by rewrite Nat.add_0_r|].
        rewrite Nat.add_succ_r. apply Hmin; [lia|done].
      * intros [|j] d Hd; simplify_eq/=; [by rewrite Nat.add_0_r|].
        rewrite Nat.add_succ_r. by apply Hp.
Qed.

(** ** Lemmas: [Record] with distinct names *)

Definition record_one (thr : Z) (now : time) (name : string) (ok : bool) (c : candidate) : candidate :=
  if decide (Name (cp c) = name) then if ok then reset c else fail thr now c else c.

Definition distinct_names (m : gmap Channel (list candidate)) : Prop :=
  ∀ ch1 l1 i1 c1 ch2 l2 i2 c2,
    m !! ch1 = Some l1 → l1 !! i1 = Some c1 → m !! ch2 = Some l2 → l2 !! i2 = Some c2 →
    Name (cp c1) = Name (cp c2) → ch1 = ch2 ∧ i1 = i2.

Lemma record_list_absent thr t name ok i l :
  (∀ c, c ∈ l → Name (cp c) ≠ name) →
  record_list thr (λ _, t) name ok i l = (l, false) ∧ record_one thr t name ok <$> l = l.
Proof.
  revert i. induction l as [|c l IH]; intros i Hl; cbn [record_list]; [done|].
  destruct (IH (S i)) as [-> Hm]; [intros; apply Hl; by right|].
  assert (Name (cp c) ≠ name) by (apply Hl; left).
  rewrite fmap_cons, Hm. unfold record_one. by rewrite !decide_False.
Qed.

Lemma record_list_spec thr t name ok i l :
  (∀ j k c d, l !! j = Some c → l !! k = Some d → Name (cp c) = Name (cp d) → j = k) →
  (record_list thr (λ _, t) name ok i l).1 = record_one thr t name ok <$> l ∧
  ((record_list thr (λ _, t) name ok i l).2 = true → ∃ c, c ∈ l ∧ Name (cp c) = name).
Proof.
  revert i. induction l as [|c l IH]; intros i Hd; cbn [record_list]; [done|].
  assert (Hd' : ∀ j k c d, l !! j = Some c → l !! k = Some d → Name (cp c) = Name (cp d) → j = k).
  { intros j k x y Hx Hy Hn. pose proof (Hd (S j) (S k) x y Hx Hy Hn). lia. }
  destruct (IH (S i) Hd') as [Hl Hb]. rewrite fmap_cons. unfold record_one at 1.
  destruct (decide (Name (cp c) = name)) as [Hn|Hn].
  - destruct (record_list_absent thr t name ok (S i) l) as [Hr Hm].
    { intros x (j & Hj)%list_elem_of_lookup Hx.
      pose proof (Hd 0%nat (S j) c x eq_refl Hj ltac:(congruence)). lia. }
    rewrite Hr, Hm. destruct ok; simpl; (split; [done|]); intros; [|done].
    exists c. split; [left|done].
  - destruct (record_list thr (λ _, t) name ok (S i) l) as [l' b]. simpl in *. subst l'. split; [done|].
    intros Hbt. destruct (Hb Hbt) as (x & Hx & Hxn). exists x. split; [by right|done].
Qed.

Lemma record_fold thr t name ok ks m done :
  NoDup ks.*1 → (∀ ch l, (ch, l) ∈ ks → m !! ch = Some l) → distinct_names (list_to_map ks) →
  (done = true → ∀ ch l c, (ch, l) ∈ ks → c ∈ l → Name (cp c) ≠ name) →
  let m' := (foldl (record_step thr (λ _ _, t) name ok) (m, done) ks).1 in
  (∀ ch l, (ch, l) ∈ ks → m' !! ch = Some (record_one thr t name ok <$> l)) ∧
  (∀ ch, ch ∉ ks.*1 → m' !! ch = m !! ch).
Proof.
  cbn zeta. revert m done. induction ks as [|[ch l] ks IH]; intros m done Hnd Hm Hdist Hdone.
  { split; [intros ?? []%elem_of_nil|done]. }
  cbn [foldl fmap list_fmap fst] in *. apply NoDup_cons in Hnd as [Hch Hnd].
  assert (Hlook : ∀ ch' l', (ch', l') ∈ ks → (list_to_map ((ch, l) :: ks) : gmap _ _) !! ch' = Some l').
  { intros ch' l' Hin. simpl. rewrite lookup_insert_ne; [by apply elem_of_list_to_map_1|].
    intros ->. apply Hch, list_elem_of_fmap. by eexists (_, _). }
  assert (Hdist' : distinct_names (list_to_map ks)).
  { intros ch1 l1 i1 c1 ch2 l2 i2 c2 H1 H1' H2 H2' Hn.
    eapply (Hdist ch1 l1 i1 c1 ch2 l2 i2 c2); [|done| |done..];
      apply Hlook; by apply elem_of_list_to_map_2. }
  assert (Hhead : (list_to_map ((ch, l) :: ks) : gmap _ _) !! ch = Some l)
    by (simpl; apply lookup_insert_eq).
  unfold record_step at 2 4. cbn [snd fst]. destruct done.
  - destruct (IH m true) as [IH1 IH2]; [done|intros; apply Hm; by right|done| |].
    { intros _ ch' l' c Hin Hc. eapply (Hdone eq_refl); [by right|done]. }
    split.
    + intros ch' l' [[= -> ->]|Hin]%elem_of_cons; [|by apply IH1].
      rewrite IH2, (Hm ch l) by (done || left).
      destruct (record_list_absent thr t name ok 0 l) as [_ ->]; [|done].
      intros c Hc. eapply (Hdone eq_refl); [left|done].
    + intros ch' [_ Hn]%not_elem_of_cons. by apply IH2.
  - destruct (record_list_spec thr t name ok 0 l) as [Hl Hb].
    { intros j k c d Hc Hd Hn. by destruct (Hdist ch l j c ch l k d Hhead Hc Hhead Hd Hn). }
    destruct (record_list thr (λ _, t) name ok 0 l) as [l' b]. cbn [fst snd] in *. subst l'.
    destruct (IH (<[ch := record_one thr t name ok <$> l]> m) b) as [IH1 IH2]; [done| |done| |].
    { intros ch' l' Hin. rewrite lookup_insert_ne; [apply Hm; by right|].
      intros ->. apply Hch, list_elem_of_fmap. by eexists (_, _). }
    { intros Hbt ch' l' c Hin (k & Hk)%list_elem_of_lookup Hn.
      destruct (Hb Hbt) as (d & (j & Hj)%list_elem_of_lookup & Hdn).
      destruct (Hdist ch l j d ch' l' k c Hhead Hj (Hlook _ _ Hin) Hk ltac:(congruence)) as [-> _].
      apply Hch, list_elem_of_fmap. by eexists (_, _). }
    split.
    + intros ch' l' [[= -> ->]|Hin]%elem_of_cons; [|by apply IH1].
      rewrite IH2 by done. apply lookup_insert_eq.
    + intros ch' [Hne Hn]%not_elem_of_cons. rewrite IH2 by done. by apply lookup_insert_ne.
Qed.

(** With distinct names, [Record] updates each candidate on its own, whatever the
    order of the map. *)
Lemma Record_lookup `{!MapRange, !MapRangeOk} t p err r ch :
  distinct_names (providers r) →
  providers (Record_ (λ _ _, t) p err r) !! ch =
    fmap (record_one (threshold r) t (Name p) (bool_decide (err = None))) <$> providers r !! ch.
Proof.
  intros Hd. unfold Record_. cbn [providers set_providers].
  assert (Heq : list_to_map (map_range (providers r)) = providers r).
  { rewrite <- (list_to_map_to_list (providers r)) at 2. apply list_to_map_proper; [apply range_keys_nodup|apply map_range_perm]. }
  destruct (record_fold (threshold r) t (Name p) (bool_decide (err = None)) (map_range (providers r))
    (providers r) false) as [H1 H2]; [apply range_keys_nodup| |by rewrite Heq|done|].
  { intros ch' l Hin. by apply elem_of_range in Hin. }
  destruct (providers r !! ch) as [l|] eqn:Hl; simpl.
  - apply H1. by apply elem_of_range.
  - rewrite H2; [done|]. intros ([ch' l] & Heq' & Hin)%list_elem_of_fmap. simpl in Heq'. subst ch'.
    apply elem_of_range in Hin. congruence.
Qed.

(** ** Lemmas: the router as a set of breakers *)

(** A property of every candidate, kept by what a call does to one. *)
Lemma Choose_candidates clock answers ch0 r ch :
  ∀ j c, candidates (Choose clock answers ch0 r).1 ch !! j = Some c →
  ∃ c0, candidates r ch !! j = Some c0 ∧ probed (cooldown r) clock j c0 c.
Proof.
  intros j c Hj. unfold Choose in Hj.
  pose proof (choose_list_spec (cooldown r) clock answers 0 (candidates r ch0)) as Hspec.
  destruct (choose_list (cooldown r) clock answers 0 (candidates r ch0)) as [l p].
  destruct Hspec as (Hlen & Hpr & _). cbn [fst] in Hj.
  destruct (providers r !! ch0) as [l0|] eqn:Hl0; [|exists c; split; [done|by left]].
  unfold candidates in Hj |- *. cbn [providers set_providers] in Hj. rewrite lookup_insert in Hj.
  destruct (decide (ch0 = ch)) as [->|]; [|exists c; split; [done|by left]]. simpl in Hj.
  unfold candidates in Hlen, Hpr.
  destruct (lookup_lt_is_Some_2 (default [] (providers r !! ch)) j) as [c0 Hc0].
  { rewrite <- Hlen. by eapply lookup_lt_Some. }
  exists c0. split; [done|]. by apply (Hpr j c0 c).
Qed.

Lemma Choose_keeps clock answers ch0 r :
  threshold (Choose clock answers ch0 r).1 = threshold r ∧
  cooldown (Choose clock answers ch0 r).1 = cooldown r.
Proof. unfold Choose. destruct (choose_list _ _ _ _ _). by destruct (providers r !! ch0). Qed.

Lemma distinct_candidates m :
  distinct_names m ↔ ∀ ch1 i1 c1 ch2 i2 c2,
    default [] (m !! ch1) !! i1 = Some c1 → default [] (m !! ch2) !! i2 = Some c2 →
    Name (cp c1) = Name (cp c2) → ch1 = ch2 ∧ i1 = i2.
Proof.
  split.
  - intros Hd ch1 i1 c1 ch2 i2 c2. destruct (m !! ch1) eqn:H1, (m !! ch2) eqn:H2; simpl; try done.
    intros. by eapply Hd.
  - intros Hd ch1 l1 i1 c1 ch2 l2 i2 c2 H1 ? H2 ? Hn. apply (Hd ch1 i1 c1 ch2 i2 c2).
    + by rewrite H1.
    + by rewrite H2.
    + done.
Qed.

Lemma Choose_distinct clock answers ch r :
  distinct_names (providers r) → distinct_names (providers (Choose clock answers ch r).1).
Proof.
  rewrite !distinct_candidates. intros Hd ch1 i1 c1 ch2 i2 c2 H1 H2 Hn.
  destruct (Choose_candidates _ _ _ _ _ _ _ H1) as (d1 & Hd1 & Hp1).
  destruct (Choose_candidates _ _ _ _ _ _ _ H2) as (d2 & Hd2 & Hp2).
  apply (Hd ch1 i1 d1 ch2 i2 d2); [done..|].
  unfold probed in Hp1, Hp2. destruct Hp1 as [->|(_ & _ & ->)], Hp2 as [->|(_ & _ & ->)]; done.
Qed.

Lemma record_one_cp thr t name ok c : cp (record_one thr t name ok c) = cp c.
Proof. unfold record_one, fail. by repeat case_match. Qed.

Lemma Record_candidates `{!MapRange, !MapRangeOk} t p err r ch :
  distinct_names (providers r) →
  candidates (Record_ (λ _ _, t) p err r) ch =
    record_one (threshold r) t (Name p) (bool_decide (err = None)) <$> candidates r ch.
Proof. intros Hd. unfold candidates. rewrite Record_lookup by done. by destruct (providers r !! ch). Qed.

Lemma Record_distinct `{!MapRange, !MapRangeOk} t p err r :
  distinct_names (providers r) → distinct_names (providers (Record_ (λ _ _, t) p err r)).
Proof.
  intros Hd. pose proof (Record_candidates t p err r) as Hc. rewrite distinct_candidates in Hd |- *.
  unfold candidates in Hc. intros ch1 i1 c1 ch2 i2 c2. rewrite !Hc by (by apply distinct_candidates).
  intros (d1 & -> & H1)%list_lookup_fmap_Some (d2 & -> & H2)%list_lookup_fmap_Some.
  rewrite !record_one_cp. by apply Hd.
Qed.

Lemma candidates_Add p r ch :
  candidates (Add p r) ch = candidates r ch ++
    if decide (ChannelOf p = ch)
    then [{| cp := p; failures := 0; opened := time_zero; state := StateClosed |}] else [].
Proof.
  unfold candidates, Add. cbn [providers set_providers]. rewrite lookup_insert.
  case_decide as Heq; simpl; [by rewrite Heq|by rewrite app_nil_r].
Qed.

(** A new router: closed candidates with distinct names, and the constants of [New]. *)
Lemma add_all_ok ps :
  NoDup (Name <$> ps) →
  let r := add_all ps in
  threshold r = 3 ∧ cooldown r = 10 * Second ∧ distinct_names (providers r) ∧
  ∀ ch c, c ∈ candidates r ch → cp c ∈ ps ∧ failures c = 0 ∧ state c = StateClosed.
Proof.
  cbn zeta. induction ps as [|p ps IH] using rev_ind; intros Hnd.
  { split_and!; [done..| |].
    - intros ch1 l1 ?????? H1. cbn in H1. by rewrite lookup_empty in H1.
    - intros ch c. unfold candidates. cbn. rewrite lookup_empty. by intros []%elem_of_nil. }
  rewrite fmap_app in Hnd. apply NoDup_app in Hnd as (Hps & Hp & _).
  destruct (IH Hps) as (Ht & Hc & Hd & Hin). unfold add_all in *. rewrite foldl_app. cbn [foldl].
  set (r := foldl (λ r p, Add p r) New ps) in *.
  assert (Hfresh : ∀ ch c, c ∈ candidates r ch → Name (cp c) ≠ Name p).
  { intros ch c Hcin Heq. destruct (Hin _ _ Hcin) as (Hcp & _).
    apply (Hp (Name (cp c))); [by apply list_elem_of_fmap_2|rewrite Heq; left]. }
  split_and!; [done..| |].
  - rewrite distinct_candidates in Hd |- *. intros ch1 i1 c1 ch2 i2 c2.
    fold (candidates (Add p r) ch1) (candidates (Add p r) ch2). rewrite !candidates_Add.
    assert (Hlast : ∀ ch i c, (if decide (ChannelOf p = ch) then
        [{| cp := p; failures := 0; opened := time_zero; state := StateClosed |}] else []) !! i = Some c →
        cp c = p ∧ ch = ChannelOf p ∧ i = 0%nat).
    { intros ch i c. case_decide; [|done]. destruct i; [|done]. by intros [= <-]. }
    intros [H1|[Hl1 H1]]%lookup_app_Some [H2|[Hl2 H2]]%lookup_app_Some Hn.
    + by apply (Hd ch1 i1 c1 ch2 i2 c2).
    + apply Hlast in H2 as (Hcp & _). apply list_elem_of_lookup_2, Hfresh in H1. congruence.
    + apply Hlast in H1 as (Hcp & _). apply list_elem_of_lookup_2, Hfresh in H2. congruence.
    + apply Hlast in H1 as (_ & -> & ?), H2 as (_ & -> & ?). split; [done|lia].
  - intros ch c. rewrite candidates_Add, elem_of_app. intros [Hcin|Hcin].
    + destruct (Hin _ _ Hcin) as (? & ? & ?). split_and!; [|done..]. apply elem_of_app. by left.
    + case_decide; [|by apply elem_of_nil in Hcin]. apply list_elem_of_singleton in Hcin as ->.
      split_and!; [|done..]. apply elem_of_app. right. left.
Qed.

(** ** Lemmas: histories *)

Lemma streak_snoc name h ev :
  streak name (h ++ [ev]) =
    match ev with
    | EvRecord _ p err =>
        if decide (Name p = name) then if decide (err = None) then 0 else streak name h + 1
        else streak name h
    | EvChoose _ _ _ => streak name h
    end.
Proof. unfold streak. by rewrite foldl_app. Qed.

Lemma last_failure_snoc name h ev :
  last_failure name (h ++ [ev]) =
    match ev with
    | EvRecord now p err =>
        if decide (Name p = name) then if decide (err = None) then last_failure name h else now
        else last_failure name h
    | EvChoose _ _ _ => last_failure name h
    end.
Proof. unfold last_failure. by rewrite foldl_app. Qed.

Lemma streak_bound name h : 0 ≤ streak name h ≤ Z.of_nat (length h).
Proof.
  induction h as [|ev h IH] using rev_ind; [done|]. rewrite streak_snoc, length_app. simpl.
  destruct ev; repeat case_decide; lia.
Qed.

(** What a candidate is after a history that ended by [now]. *)
Record cand_ok (h : list event) (now : time) (c : candidate) : Prop := {
  cand_failures : failures c = streak (Name (cp c)) h;
  cand_closed : state c = StateClosed ↔ streak (Name (cp c)) h < 3;
  cand_opened : state c ≠ StateClosed → opened c = last_failure (Name (cp c)) h;
  cand_half : state c = StateHalfOpen → 10 * Second ≤ now - opened c;
}.

Lemma Since_cooldown now t : 10 * Second ≤ Since now t ↔ 10 * Second ≤ now - t.
Proof. unfold Since, Sub, sat64, min_int64, max_int64, Second. lia. Qed.

Lemma cand_ok_later h now now' c : now ≤ now' → cand_ok h now c → cand_ok h now' c.
Proof. intros Hle [? ? ? Hh]. split; [done..|]. intros Hs. specialize (Hh Hs). lia. Qed.

Lemma cand_ok_choose h now t answers ch c c' :
  cand_ok h now c → now ≤ t → probed (10 * Second) (λ _, t) 0 c c' →
  cand_ok (h ++ [EvChoose t answers ch]) t c'.
Proof.
  intros Hc Hle [->|(Hs & Hcool & ->)]; pose proof (cand_ok_later _ _ t _ Hle Hc) as [H1 H2 H3 H4].
  - split; rewrite ?streak_snoc, ?last_failure_snoc; done.
  - split; rewrite ?streak_snoc, ?last_failure_snoc; simpl; [done| |..].
    + rewrite Hs in H2. rewrite <- H2. done.
    + intros _. apply H3. congruence.
    + intros _. by apply Since_cooldown.
Qed.

Lemma cand_ok_record h now t p err c :
  cand_ok h now c → now ≤ t → Z.of_nat (length h) < max_int64 →
  cand_ok (h ++ [EvRecord t p err]) t (record_one 3 t (Name p) (bool_decide (err = None)) c).
Proof.
  intros Hc Hle Hlen. pose proof (cand_ok_later _ _ t _ Hle Hc) as [H1 H2 H3 H4].
  pose proof (streak_bound (Name (cp c)) h) as Hb.
  unfold record_one. destruct (decide (Name (cp c) = Name p)) as [Hn|Hn].
  2: { split; rewrite ?streak_snoc, ?last_failure_snoc, ?decide_False by congruence; done. }
  destruct (decide (err = None)) as [He|He].
  - rewrite bool_decide_true by done.
    split; simpl; rewrite ?streak_snoc, ?decide_True by congruence; done.
  - rewrite bool_decide_false by done. unfold fail.
    rewrite wrap64_small by (unfold in_int64, min_int64, max_int64 in *; lia). rewrite H1.
    assert (Hs : streak (Name (cp c)) (h ++ [EvRecord t p err]) = streak (Name (cp c)) h + 1).
    { by rewrite streak_snoc, decide_True, decide_False by congruence. }
    assert (Hl : last_failure (Name (cp c)) (h ++ [EvRecord t p err]) = t).
    { by rewrite last_failure_snoc, decide_True, decide_False by congruence. }
    destruct (Z.leb_spec 3 (streak (Name (cp c)) h + 1)); split; simpl; rewrite ?Hs, ?Hl; try done.
    + split; [done|lia].
    + rewrite H2. lia.
    + intros Hne. exfalso. apply Hne, H2. lia.
Qed.

Lemma probed_const cool t j (c c' : candidate) : probed cool (λ _, t) j c c' ↔ probed cool (λ _, t) 0 c c'.
Proof. done. Qed.

(** The invariant of a router after a history. *)
Definition router_ok (r : Router) (h : list event) (now : time) : Prop :=
  threshold r = 3 ∧ cooldown r = 10 * Second ∧ distinct_names (providers r) ∧
  ∀ ch c, c ∈ candidates r ch → cand_ok h now c.

Lemma run_event_ok `{!MapRange, !MapRangeOk} r h now ev :
  router_ok r h now → now ≤ event_time ev → Z.of_nat (length h) < max_int64 →
  router_ok (run_event r ev) (h ++ [ev]) (event_time ev).
Proof.
  intros (Ht & Hc & Hd & Hok) Hle Hlen. destruct ev as [t p err|t answers ch0]; simpl in *.
  - split_and!; [done..|by apply Record_distinct|]. intros ch c. rewrite Record_candidates, Ht by done.
    intros (c0 & -> & Hc0)%list_elem_of_fmap. apply (cand_ok_record h now); [by eapply Hok|done..].
  - destruct (Choose_keeps (λ _, t) answers ch0 r) as [Ht' Hc'].
    split_and!; [by rewrite Ht'|by rewrite Hc'|by apply Choose_distinct|].
    intros ch c (j & Hj)%list_elem_of_lookup.
    destruct (Choose_candidates _ _ _ _ _ _ _ Hj) as (c0 & Hc0 & Hp). rewrite Hc in Hp.
    apply (cand_ok_choose h now t answers ch0 c0); [|done|by apply probed_const in Hp].
    by eapply Hok, list_elem_of_lookup_2.
Qed.

Lemma add_all_router_ok ps now : NoDup (Name <$> ps) → router_ok (add_all ps) [] now.
Proof.
  intros Hnd. destruct (add_all_ok ps Hnd) as (? & ? & ? & Hin). split_and!; [done..|].
  intros ch c Hc. destruct (Hin ch c Hc) as (_ & Hf & Hs).
  split; rewrite ?Hf, ?Hs; done.
Qed.

(** Histories in the order of the clock, ending by [now]. *)
Definition timed (h : list event) (now : time) : Prop :=
  StronglySorted Z.le (event_time <$> h) ∧ Forall (λ ev, event_time ev ≤ now) h.

Lemma timed_snoc h ev now :
  timed (h ++ [ev]) now → timed h (event_time ev) ∧ event_time ev ≤ now.
Proof.
  intros [Hs Hf]. apply Forall_app in Hf as [_ Hf]. inversion_clear Hf as [|? ? Hev _]. split; [|done].
  rewrite fmap_app in Hs. apply StronglySorted_app in Hs as (Hle & Hs & _). split; [done|].
  apply Forall_forall. intros e He. apply Hle; [by apply list_elem_of_fmap_2|left].
Qed.

Lemma router_ok_later r h now now' : now ≤ now' → router_ok r h now → router_ok r h now'.
Proof.
  intros Hle (? & ? & ? & Hok). split_and!; [done..|]. intros ch c Hc.
  eapply cand_ok_later; [done|by eapply Hok].
Qed.

Lemma router_history_ok `{!MapRange, !MapRangeOk} ps h now :
  NoDup (Name <$> ps) → timed h now → Z.of_nat (length h) ≤ max_int64 →
  router_ok (foldl run_event (add_all ps) h) h now.
Proof.
  intros Hnd. revert now. induction h as [|ev h IH] using rev_ind; intros now Ht Hlen.
  { by apply add_all_router_ok. }
  apply timed_snoc in Ht as [Ht Hle]. rewrite length_app in Hlen. simpl in Hlen.
  rewrite foldl_app. simpl. apply (router_ok_later _ _ (event_time ev)); [done|].
  apply (run_event_ok _ _ (event_time ev)); [by apply IH; [|lia]|done|lia].
Qed.

(** ** Properties *)

(** [Choose] returns the first available candidate of the channel, and
    an error exactly when there is none; nothing else about the router changes than
    open candidates of the channel turning half-open after their cooldown. *)
Theorem choose_correct (clock : nat → time) (answers : nat → Answer (P := P)) (ch : Channel) (r : Router) :
  let l := candidates r ch in
  let ok j c := available (cooldown r) (clock j) (answers j) c in
  match (Choose clock answers ch r).2 with
  | Ok p => ∃ j c, l !! j = Some c ∧ cp c = p ∧ ok j c ∧ ∀ k ck, (k < j)%nat → l !! k = Some ck → ¬ ok k ck
  | Err _ => ∀ j c, l !! j = Some c → ¬ ok j c
  end ∧
  ∀ ch' j c, candidates (Choose clock answers ch r).1 ch' !! j = Some c →
    ∃ c0, candidates r ch' !! j = Some c0 ∧ probed (cooldown r) clock j c0 c.
Proof.
  cbn zeta. split; [|intros ch' j c; apply Choose_candidates]. unfold Choose.
  pose proof (choose_list_spec (cooldown r) clock answers 0 (candidates r ch)) as Hspec.
  destruct (choose_list (cooldown r) clock answers 0 (candidates r ch)) as [l [p|]];
    destruct Hspec as (_ & _ & Hp); exact Hp.
Qed.

(** C27: after any history of choices and recorded results, in the order of
    the clock, each candidate of a router of providers with distinct names counts
    its consecutive failures, is closed exactly below three of them, and
    otherwise remembers the last one; a provider with three or more is chosen only
    ten seconds after its last failure. *)
Theorem breaker_refines `{!MapRange, !MapRangeOk} (ps : list P) (h : list event) (now : time) :
  NoDup (Name <$> ps) → timed h now → Z.of_nat (length h) ≤ max_int64 →
  let r := foldl run_event (add_all ps) h in
  (∀ ch c, c ∈ candidates r ch →
     let k := streak (Name (cp c)) h in
     failures c = k ∧ (state c = StateClosed ↔ k < 3) ∧
     (state c ≠ StateClosed → opened c = last_failure (Name (cp c)) h)) ∧
  (∀ answers ch p, (Choose (λ _, now) answers ch r).2 = Ok p →
     streak (Name p) h < 3 ∨ 10 * Second ≤ now - last_failure (Name p) h).
Proof.
  cbn zeta. intros Hnd Ht Hlen. destruct (router_history_ok ps h now Hnd Ht Hlen) as (_ & Hc & _ & Hok). split.
  - intros ch c Hin. by destruct (Hok ch c Hin).
  - intros answers ch p. set (r := foldl run_event (add_all ps) h) in *. unfold Choose.
    pose proof (choose_list_spec (cooldown r) (λ _, now) answers 0 (candidates r ch)) as Hspec.
    destruct (choose_list _ _ _ _ _) as [l [q|]]; [|done]. intros [= ->].
    destruct Hspec as (_ & _ & j & c & Hj & <- & Hav & _). rewrite Hc in Hav.
    destruct (Hok ch c (list_elem_of_lookup_2 _ _ _ Hj)) as [_ Hcl Ho Hh].
    destruct (state c) eqn:Hs; [left; by apply Hcl|right..]; rewrite <- Ho by done; [|by apply Hh].
    unfold available in Hav. rewrite Hs in Hav.
    destruct Hav as [?|[[?|Hcool] _]]; [done..|]. by apply Since_cooldown.
Qed.
End router.

#[local] Instance sorted_range : MapRange := map_to_list_range.
#[local] Instance sorted_range_ok : MapRangeOk := map_to_list_range_ok.

Definition mock (name : string) : Mock := {|
  ProviderName := name; ProviderChannel := ChannelEmail; Calls := 0; Failures := 0; Delay := 0 |}.

Definition healthy : nat → Answer (P := Mock) := λ _, (None : option error).

Definition three_failures : list (event (P := Mock)) :=
  [EvRecord 1 (mock "a") (Some "x"); EvRecord 2 (mock "a") (Some "x");
   EvChoose 3 healthy ChannelEmail; EvRecord 4 (mock "a") (Some "x")].

Lemma breaker_refines_witness :
  let r := foldl run_event (add_all [mock "a"; mock "b"]) three_failures in
  (∀ ch c, c ∈ candidates r ch →
     let k := streak (Name (cp c)) three_failures in
     failures c = k ∧ (state c = StateClosed ↔ k < 3) ∧
     (state c ≠ StateClosed → opened c = last_failure (Name (cp c)) three_failures)) ∧
  (∀ answers ch p, (Choose (λ _, 5) answers ch r).2 = Ok p →
     streak (Name p) three_failures < 3 ∨ 10 * Second ≤ 5 - last_failure (Name p) three_failures).
Proof.
  apply (breaker_refines [mock "a"; mock "b"] three_failures 5).
  - apply (bool_decide_unpack _). reflexivity.
  - split; [|repeat constructor; discriminate].
    repeat constructor; discriminate.
  - vm_compute. discriminate.
Defined.

Example breaker_ex :
  let r := foldl run_event (add_all [mock "a"; mock "b"]) three_failures in
  (Choose (λ _, 5) healthy ChannelEmail r).2 = Ok (mock "b") ∧
  Snapshot r = {["email:a" := "open"; "email:b" := "closed"]}.
Proof. by vm_compute. Qed.

End Router.
