(* ===== verification/GoFloat.v ===== *)
(** * Go's [float64]

    IEEE 754 binary64 with rounding to nearest even, by the executable
    specification of the Standard Library ([SpecFloat]): 53 bits of mantissa,
    exponents below 1024. *)

From Stdlib Require Import SpecFloat.
From S2P Require Export GoTime.
Local Open Scope Z_scope.

Abbreviation float64 := spec_float.

Definition fadd : float64 → float64 → float64 := SFadd 53 1024.
Definition fsub : float64 → float64 → float64 := SFsub 53 1024.
Definition fmul : float64 → float64 → float64 := SFmul 53 1024.
Definition fdiv : float64 → float64 → float64 := SFdiv 53 1024.
Definition flt : float64 → float64 → bool := SFltb.
Definition fle : float64 → float64 → bool := SFleb.

(** [float64(n)] *)
Definition float_of (n : Z) : float64 := binary_normalize 53 1024 n 0 false.

(** What the conversion of a [float64] outside the range of [int64] gives depends
    on the machine. *)
Class Arch := { float_overflow : Z }.

(** [int64(f)]: towards zero. *)
Definition int64_of `{Arch} (f : float64) : Z :=
  match f with
  | S754_zero _ => 0
  | S754_finite s m e =>
      let v := if 0 <=? e then Z.pos m * 2 ^ e else Z.pos m / 2 ^ (- e) in
      let v := if s then - v else v in
      if (min_int64 <=? v) && (v <=? max_int64) then v else float_overflow
  | _ => float_overflow
  end.

(** [math.Pow(2, float64(k))]: exact, down to the underflow. *)
Definition pow2 (k : Z) : float64 :=
  if 1024 <=? k then S754_infinity false else binary_normalize 53 1024 1 k false.

(** [Duration.Seconds]: the quotient is towards zero. *)
Definition Seconds (d : Duration) : float64 :=
  fadd (float_of (Z.quot d Second)) (fdiv (float_of (Z.rem d Second)) (float_of 1000000000)).

Example float_ex :
  fdiv (float_of 1) (float_of 3) = S754_finite false 6004799503160661 (-54) ∧
  fadd (fdiv (float_of 1) (float_of 10)) (fdiv (float_of 2) (float_of 10))
    = S754_finite false 5404319552844596 (-54) ∧
  Seconds 10000000 = S754_finite false 5764607523034235 (-59) ∧
  flt (Seconds (-1)) (float_of 0) = true.
Proof. by vm_compute. Qed.
