(* ===== verification/FloatError.v ===== *)
(** * The rounding error of Go's [float64]

    The operations of [GoFloat] on floats that are not negative, against exact
    arithmetic on rationals: each result is within a relative error of [eps] of the
    exact one, and comparisons are those of the values. *)

From Stdlib Require Import SpecFloat QArith Qpower Qabs Lqa.
From S2P Require Export GoFloat.
Local Open Scope Z_scope.

(** ** Powers of two and digits *)

Abbreviation digits m := (Z.pos (digits2_pos m)).

Lemma digits_bounds m : 2 ^ (digits m - 1) ≤ Z.pos m < 2 ^ digits m.
Proof.
  assert (Hs : ∀ p, digits p = digits p - 1 + 1) by lia.
  induction m as [m IH|m IH|]; cbn [digits2_pos]; [..|done]; rewrite Pos2Z.inj_succ;
    replace (Z.succ (digits m) - 1) with (digits m) by lia; rewrite Z.pow_succ_r by lia;
    rewrite (Hs m) at 1; rewrite Z.pow_add_r by lia; change (2 ^ 1) with 2; lia.
Qed.

Lemma digits_unique m d : 0 < d → 2 ^ (d - 1) ≤ Z.pos m < 2 ^ d → digits m = d.
Proof.
  intros Hd Hm. pose proof (digits_bounds m) as Hb.
  assert (Hlt : ∀ a b, 2 ^ (a - 1) < 2 ^ b → 0 ≤ b → a ≤ b).
  { intros a b Hab Hb'. destruct (Z.le_gt_cases a b) as [?|Hgt]; [done|].
    pose proof (Z.pow_le_mono_r 2 b (a - 1) ltac:(lia) ltac:(lia)). lia. }
  assert (digits m ≤ d) by (apply Hlt; lia). assert (d ≤ digits m) by (apply Hlt; lia). lia.
Qed.

(** Dropping the low bits. *)
Lemma shr_1_m mrs : 0 ≤ shr_m mrs → shr_m (shr_1 mrs) = shr_m mrs / 2.
Proof.
  destruct mrs as [m r s]. destruct m as [|[p|p|]|p]; cbn [shr_1 shr_m]; intros Hm; try done.
  - change (Z.pos p~1) with (2 * Z.pos p + 1). rewrite Z.mul_comm, Z.add_comm, Z.div_add by lia. done.
  - change (Z.pos p~0) with (2 * Z.pos p). rewrite Z.mul_comm, Z.div_mul by lia. done.
Qed.

Lemma shr_iter_m p mrs : 0 ≤ shr_m mrs → shr_m (SpecFloat.iter_pos shr_1 p mrs) = shr_m mrs / 2 ^ Z.pos p.
Proof.
  revert mrs. induction p as [p IH|p IH|]; intros mrs Hm; cbn [SpecFloat.iter_pos].
  - pose proof (shr_1_m mrs Hm) as H1. pose proof (Z.div_pos (shr_m mrs) 2 Hm ltac:(lia)).
    rewrite <- H1 in *. pose proof (IH (shr_1 mrs) ltac:(lia)) as H2.
    rewrite IH, H2, H1, !Z.div_div by (rewrite ?H2; try apply Z.div_pos; lia). f_equal.
    rewrite (Pos2Z.inj_xI p). replace (2 * Z.pos p + 1) with (Z.pos p + Z.pos p + 1) by lia.
    rewrite !Z.pow_add_r by lia. change (2 ^ 1) with 2. lia.
  - pose proof (IH mrs Hm) as H2. rewrite IH, H2, Z.div_div by (rewrite ?H2; try apply Z.div_pos; lia). f_equal.
    rewrite (Pos2Z.inj_xO p). replace (2 * Z.pos p) with (Z.pos p + Z.pos p) by lia. by rewrite Z.pow_add_r by lia.
  - rewrite shr_1_m by done. by change (2 ^ 1) with 2.
Qed.

(** ** Rounding *)

(** A mantissa and an exponent as the operations leave them. *)
Definition canonical (m : positive) (e : Z) : Prop := fexp 53 1024 (digits m + e) = e.

Lemma fexp_eq e : fexp 53 1024 e = Z.max (e - 53) (-1074).
Proof. done. Qed.

Lemma shr_fexp_spec m e l :
  -1074 ≤ e → 53 ≤ digits m ∨ e = -1074 →
  let n := Z.max 0 (digits m - 53) in
  shr_m (shr_fexp 53 1024 (Z.pos m) e l).1 = Z.pos m / 2 ^ n ∧ (shr_fexp 53 1024 (Z.pos m) e l).2 = e + n ∧
  (n = 0 → (shr_fexp 53 1024 (Z.pos m) e l).1 = shr_record_of_loc (Z.pos m) l).
Proof.
  intros He Hd n. unfold shr_fexp. cbn [Zdigits2]. rewrite fexp_eq.
  replace (Z.max (digits m + e - 53) (-1074) - e) with n by lia.
  assert (Hm : shr_m (shr_record_of_loc (Z.pos m) l) = Z.pos m) by (by destruct l as [|[]]).
  assert (Hn : 0 ≤ n) by lia. clearbody n. destruct n as [|p|p]; cbn [shr fst snd]; [|split_and!; [|done..]|lia].
  - rewrite Hm, Z.div_1_r. split_and!; [done|lia|done].
  - rewrite shr_iter_m; rewrite Hm; done.
Qed.

Lemma round_even_cases m l :
  round_nearest_even m l = m ∨ round_nearest_even m l = m + 1.
Proof. destruct l as [|[]]; cbn [round_nearest_even]; try case_match; auto. Qed.

(** A number of 53 digits, or one more, in canonical form. *)
Lemma finish_round m e :
  -1074 ≤ e → digits m = 53 ∨ Z.pos m = 2 ^ 53 ∨ e = -1074 ∧ digits m < 53 → digits m + e ≤ 1002 →
  ∃ m' e', (let '(mrs, e'') := shr_fexp 53 1024 (Z.pos m) e loc_Exact in
     match shr_m mrs with
     | Z0 => S754_zero false
     | Zpos k => if e'' <=? 1024 - 53 then S754_finite false k e'' else S754_infinity false
     | _ => S754_nan
     end) = S754_finite false m' e' ∧ canonical m' e' ∧
    (m' = m ∧ e' = e ∨ Z.pos m = 2 * Z.pos m' ∧ e' = e + 1).
Proof.
  intros He Hcase Hmax. assert (Hd : 53 ≤ digits m ∨ e = -1074).
  { destruct Hcase as [->|[Hm|[-> _]]]; [by left| |by right]. left.
    rewrite (digits_unique m 54); [done|lia|]. rewrite Hm. done. }
  pose proof (shr_fexp_spec m e loc_Exact He Hd) as (Hs & Hexp & _).
  destruct (shr_fexp 53 1024 (Z.pos m) e loc_Exact) as [mrs e'']. cbn [fst snd] in *. rewrite Hs, Hexp. clear Hs Hexp.
  destruct Hcase as [Hm|[Hm|[-> Hm]]].
  - rewrite Hm. change (Z.max 0 (53 - 53)) with 0. rewrite Z.div_1_r, Z.add_0_r.
    destruct (Z.leb_spec e (1024 - 53)); [|lia]. exists m, e. split_and!; [done| |by left].
    unfold canonical. rewrite fexp_eq. lia.
  - rewrite (digits_unique m 54) in Hmax |- * by (rewrite ?Hm; done).
    change (Z.max 0 (54 - 53)) with 1. rewrite Hm. change (2 ^ 53 / 2 ^ 1) with (Z.pos (2 ^ 52)).
    destruct (Z.leb_spec (e + 1) (1024 - 53)); [|lia].
    exists (2 ^ 52)%positive, (e + 1). split_and!; [done| |by right].
    unfold canonical. rewrite (digits_unique (2 ^ 52) 53) by done. rewrite fexp_eq. lia.
  - replace (Z.max 0 (digits m - 53)) with 0 by lia. rewrite Z.div_1_r. exists m, (-1074).
    split_and!; [done| |by left]. unfold canonical. rewrite fexp_eq. lia.
Qed.

Lemma round_aux_spec m e l :
  -1074 ≤ e → 53 ≤ digits m ∨ e = -1074 ∧ l = loc_Exact → digits m + e ≤ 1000 →
  let n := Z.max 0 (digits m - 53) in
  ∃ m' e' k, binary_round_aux 53 1024 false (Z.pos m) e l = S754_finite false m' e' ∧ canonical m' e' ∧
    (k = Z.pos m / 2 ^ n ∨ k = Z.pos m / 2 ^ n + 1) ∧ (n = 0 → l = loc_Exact → k = Z.pos m) ∧ 0 < k ∧
    (k = Z.pos m' ∧ e' = e + n ∨ k = 2 * Z.pos m' ∧ e' = e + n + 1).
Proof.
  intros He Hd Hmax n. unfold binary_round_aux.
  pose proof (shr_fexp_spec m e l He) as (Hs & Hexp & Hrec); [naive_solver|]. fold n in Hs, Hexp, Hrec.
  destruct (shr_fexp 53 1024 (Z.pos m) e l) as [mrs e1]. cbn [fst snd] in *. subst e1.
  set (k := round_nearest_even (shr_m mrs) (loc_of_shr_record mrs)).
  assert (Hk : k = Z.pos m / 2 ^ n ∨ k = Z.pos m / 2 ^ n + 1) by (rewrite <- Hs; apply round_even_cases).
  assert (Hex : n = 0 → l = loc_Exact → k = Z.pos m).
  { intros Hn ->. specialize (Hrec Hn). subst mrs. unfold k. by cbn. }
  pose proof (digits_bounds m) as Hb. pose proof (Z.pow_pos_nonneg 2 n ltac:(lia) ltac:(lia)) as Hp.
  assert (Hsplit : Z.pos m < 2 ^ 53 ∧ n = 0 ∧ digits m < 53 ∨ 53 ≤ digits m ∧ 2 ^ 52 ≤ Z.pos m / 2 ^ n < 2 ^ 53).
  { destruct (Z.le_gt_cases 53 (digits m)) as [H53|H53].
    - right. replace (digits m - 1) with (52 + n) in Hb by lia. replace (digits m) with (53 + n) in Hb by lia.
      rewrite !Z.pow_add_r in Hb by lia. split; [done|]. split; [by apply Z.div_le_lower_bound; lia|].
      apply Z.div_lt_upper_bound; lia.
    - left. pose proof (Z.pow_le_mono_r 2 (digits m) 53 ltac:(lia) ltac:(lia)). split_and!; lia. }
  assert (Hpos : 0 < k) by (destruct Hsplit as [(_ & -> & _)|[_ ?]]; [rewrite Z.div_1_r in Hk|]; lia).
  destruct k as [|p|p] eqn:Hkp; [lia| |lia]. rewrite <- Hkp in *.
  destruct (finish_round p (e + n)) as (m' & e' & Hf & Hc & Hm').
  - lia.
  - destruct Hsplit as [(Hlt & Hn & Hd53)|[H53 Hm1]].
    + destruct Hd as [?|[-> ->]]; [lia|]. rewrite (Hex Hn eq_refl) in Hkp. injection Hkp as <-.
      right; right. rewrite Hn. split; [done|lia].
    + rewrite Hkp in Hk. destruct (decide (Z.pos p = 2 ^ 53)) as [->|Hne]; [by right; left|left].
      apply digits_unique; [lia|]. change (53 - 1) with 52. lia.
  - assert (Hdp : digits p ≤ digits m - n + 1); [|lia].
    destruct Hsplit as [(Hlt & Hn & Hd53)|[H53 Hm1]].
    + destruct Hd as [?|[-> ->]]; [lia|]. rewrite (Hex Hn eq_refl) in Hkp. injection Hkp as <-. lia.
    + assert (digits p ≤ 54); [|lia]. destruct (decide (Z.pos p = 2 ^ 53)) as [Hp53|Hne].
      * rewrite (digits_unique p 54); [done|lia|]. by rewrite Hp53.
      * rewrite (digits_unique p 53); [lia|lia|]. change (53 - 1) with 52. rewrite Hkp in Hk. lia.
  - rewrite Hkp. exists m', e', (Z.pos p). split; [exact Hf|]. split; [done|]. rewrite <- Hkp.
    split_and!; [done..|]. rewrite Hkp. destruct Hm' as [[-> ->]|[? ->]]; [by left|by right].
Qed.

(** ** Values *)

Definition eps : Q := 1 # 4503599627370496.

(** [w] is [v] up to a rounding. *)
Definition near (v w : Q) : Prop := (v * (1 - eps) <= w /\ w <= v * (1 + eps))%Q.

(** The float is not negative and stands for the rational. *)
Inductive is_val : float64 → Q → Prop :=
| val_zero s (q : Q) : (q == 0)%Q → is_val (S754_zero s) q
| val_pos m e (q : Q) : canonical m e → (q == inject_Z (Z.pos m) * 2 ^ e)%Q → is_val (S754_finite false m e) q.

#[export] Instance is_val_proper : Proper (eq ==> Qeq ==> iff) is_val.
Proof.
  intros x ? <- p q Hpq. split; inversion 1; subst; constructor; try done; by rewrite <- ?Hpq || rewrite ?Hpq.
Qed.

Lemma pow2_pos e : (0 < 2 ^ e)%Q.
Proof. by apply Qpower_0_lt. Qed.

Lemma pow2_add a b : (2 ^ (a + b) == 2 ^ a * 2 ^ b)%Q.
Proof. by apply Qpower_plus. Qed.

Lemma pow2_Z n : 0 ≤ n → (inject_Z (2 ^ n) == 2 ^ n)%Q.
Proof. intros Hn. by rewrite Zpower_Qpower. Qed.

Lemma pow2_le a b : a ≤ b → (2 ^ a <= 2 ^ b)%Q.
Proof. intros. by apply Qpower_le_compat_l. Qed.

Lemma pow2_lt_inv a b : (2 ^ a < 2 ^ b)%Q → a < b.
Proof. intros. by eapply Qpower_lt_compat_l_inv. Qed.

Lemma inject_pos m : (1 <= inject_Z (Z.pos m))%Q.
Proof. change 1%Q with (inject_Z 1). rewrite <- Zle_Qle. lia. Qed.

(** A mantissa and an exponent, between the powers of two of its digits. *)
Lemma value_digits m e :
  (2 ^ (digits m + e - 1) <= inject_Z (Z.pos m) * 2 ^ e /\ inject_Z (Z.pos m) * 2 ^ e < 2 ^ (digits m + e))%Q.
Proof.
  pose proof (digits_bounds m) as [Hl Hu]. pose proof (pow2_pos e).
  rewrite Zle_Qle, pow2_Z in Hl by lia. rewrite Zlt_Qlt, pow2_Z in Hu by lia.
  replace (digits m + e - 1) with (digits m - 1 + e) by lia. rewrite !pow2_add.
  split; [by apply Qmult_le_compat_r; [|lra]|by apply Qmult_lt_r].
Qed.

Lemma canonical_min m e : canonical m e → -1074 ≤ e ∧ (53 ≤ digits m ∨ e = -1074) ∧ digits m ≤ 53.
Proof. unfold canonical. rewrite fexp_eq. lia. Qed.

Lemma is_val_nonneg x v : is_val x v → (0 <= v)%Q.
Proof.
  destruct 1 as [s q ->|m e q _ ->]; [lra|]. pose proof (inject_pos m). pose proof (pow2_pos e). nra.
Qed.

#[export] Instance near_proper : Proper (Qeq ==> Qeq ==> iff) near.
Proof. intros p p' Hp q q' Hq. unfold near. by rewrite Hp, Hq. Qed.

Lemma near_refl v : (0 <= v)%Q → near v v.
Proof. unfold near, eps. lra. Qed.

(** The value is between two neighbours, of which one is taken. *)
Lemma near_neighbour (f t v w : Q) :
  (0 < t → inject_Z (2 ^ 52) <= f → f * t <= v → v <= (f + 1) * t → w == f * t \/ w == (f + 1) * t → near v w)%Q.
Proof.
  intros Ht Hf Hl Hu Hw. change (inject_Z (2 ^ 52)) with (4503599627370496 # 1) in Hf.
  assert (Hft : ((4503599627370496 # 1) * t <= f * t)%Q) by (apply Qmult_le_compat_r; lra).
  unfold near, eps. destruct Hw as [-> | ->]; split; lra.
Qed.

Lemma round_aux_val m e l (v : Q) :
  -1074 ≤ e → 53 ≤ digits m ∨ e = -1074 ∧ l = loc_Exact → digits m + e ≤ 1000 →
  (inject_Z (Z.pos m) * 2 ^ e <= v)%Q → (v <= inject_Z (Z.pos m + 1) * 2 ^ e)%Q →
  (l = loc_Exact → v == inject_Z (Z.pos m) * 2 ^ e)%Q →
  ∃ w, is_val (binary_round_aux 53 1024 false (Z.pos m) e l) w ∧ near v w.
Proof.
  intros He Hd Hmax Hlo Hhi Hex.
  destruct (round_aux_spec m e l He Hd Hmax) as (m' & e' & k & -> & Hc & Hk & Hkex & Hpos & Hm').
  set (n := Z.max 0 (digits m - 53)) in *. assert (Hn : 0 ≤ n) by lia.
  exists (inject_Z k * 2 ^ (e + n))%Q. pose proof (pow2_pos e) as HP. split.
  - constructor; [done|]. destruct Hm' as [[-> ->]|[-> ->]]; [done|].
    rewrite inject_Z_mult, (pow2_add (e + n) 1), Qpower_1_r. change (inject_Z 2) with 2%Q. lra.
  - destruct (Z.le_gt_cases 53 (digits m)) as [H53|H53].
    + set (f := Z.pos m / 2 ^ n) in *. pose proof (Z.pow_pos_nonneg 2 n ltac:(lia) Hn) as Hp.
      assert (Hf : 2 ^ 52 ≤ f).
      { apply Z.div_le_lower_bound; [done|]. pose proof (digits_bounds m) as [Hb _].
        replace (digits m - 1) with (n + 52) in Hb by lia. by rewrite Z.pow_add_r in Hb by lia. }
      pose proof (Z.mul_div_le (Z.pos m) (2 ^ n) Hp) as H1.
      pose proof (Z.mul_succ_div_gt (Z.pos m) (2 ^ n) Hp) as H2. fold f in H1, H2.
      assert (H3 : 2 ^ n * f ≤ Z.pos m) by done. assert (H4 : Z.pos m + 1 ≤ 2 ^ n * (f + 1)) by lia.
      rewrite Zle_Qle, inject_Z_mult, pow2_Z in H3, H4 by done. rewrite Zle_Qle in Hf.
      apply (Qmult_le_compat_r _ _ (2 ^ e)) in H3, H4; [|lra..].
      apply (near_neighbour (inject_Z f) (2 ^ (e + n))).
      * apply pow2_pos.
      * done.
      * rewrite pow2_add. lra.
      * rewrite pow2_add. change 1%Q with (inject_Z 1). rewrite <- inject_Z_plus. lra.
      * change 1%Q with (inject_Z 1). rewrite <- inject_Z_plus. destruct Hk as [-> | ->]; [by left|by right].
    + destruct Hd as [?|[_ ->]]; [lia|]. rewrite Hkex by (done || lia). replace (e + n) with e by lia.
      specialize (Hex eq_refl). setoid_rewrite Hex. apply near_refl. pose proof (inject_pos m). nra.
Qed.

(** Shifting to the left keeps the value. *)
Lemma shl_align_spec m e x :
  let '(m', e') := shl_align m e x in
  e' = Z.min e x ∧ Z.pos m' = Z.pos m * 2 ^ (e - e') ∧ digits m' + e' = digits m + e.
Proof.
  unfold shl_align. destruct (x - e) as [|p|p] eqn:Hx;
    [rewrite Z.sub_diag, Z.mul_1_r; lia|rewrite Z.sub_diag, Z.mul_1_r; lia|].
  replace (e - x) with (Z.pos p) by lia. replace x with (e - Z.pos p) by lia. clear Hx.
  enough (Z.pos (Pos.iter xO m p) = Z.pos m * 2 ^ Z.pos p ∧ digits (Pos.iter xO m p) = digits m + Z.pos p) by lia.
  induction p as [|p [IH1 IH2]] using Pos.peano_ind; [split; [cbn; lia|cbn; lia]|].
  rewrite Pos.iter_succ. split.
  - rewrite Pos2Z.inj_succ, Z.pow_succ_r by lia. rewrite (Pos2Z.inj_xO (Pos.iter xO m p)), IH1. lia.
  - cbn [digits2_pos]. rewrite !Pos2Z.inj_succ, IH2. lia.
Qed.

Lemma aligned_value m e x :
  (inject_Z (Z.pos (shl_align m e x).1) * 2 ^ Z.min e x == inject_Z (Z.pos m) * 2 ^ e)%Q.
Proof.
  pose proof (shl_align_spec m e x) as Hs. destruct (shl_align m e x) as [m' e']. destruct Hs as (-> & Hm & _).
  cbn [fst]. rewrite Hm, inject_Z_mult, pow2_Z by lia. rewrite <- (Qmult_assoc _ _ (2 ^ Z.min e x)), <- pow2_add.
  by replace (e - Z.min e x + Z.min e x) with e by lia.
Qed.

Lemma binary_round_val m e :
  -1074 ≤ e → digits m + e ≤ 1000 →
  ∃ w, is_val (binary_round 53 1024 false m e) w ∧ near (inject_Z (Z.pos m) * 2 ^ e) w.
Proof.
  intros He Hmax. unfold binary_round. set (x := fexp 53 1024 (digits m + e)).
  pose proof (shl_align_spec m e x) as Hs. pose proof (aligned_value m e x) as Hv.
  destruct (shl_align m e x) as [m' e']. cbn [fst] in Hv. destruct Hs as (-> & Hm & Hd).
  unfold x in *. rewrite fexp_eq in *. remember (Z.min e (Z.max (digits m + e - 53) (-1074))) as e' eqn:He'.
  pose proof (pow2_pos e') as HP. destruct (round_aux_val m' e' loc_Exact (inject_Z (Z.pos m') * 2 ^ e')) as (w & Hw & Hn).
  - lia.
  - destruct (Z.le_gt_cases 53 (digits m')); [by left|right; split; [lia|done]].
  - lia.
  - lra.
  - rewrite inject_Z_plus. change (inject_Z 1) with 1%Q. lra.
  - done.
  - exists w. split; [done|]. by rewrite <- Hv.
Qed.

Lemma digits_limit m e : (inject_Z (Z.pos m) * 2 ^ e <= 2 ^ 900)%Q → digits m + e ≤ 1000.
Proof.
  intros Hv. destruct (value_digits m e) as [Hl _]. assert (H : (2 ^ (digits m + e - 1) < 2 ^ 901)%Q).
  { apply (Qle_lt_trans _ _ _ Hl). apply (Qle_lt_trans _ _ _ Hv). by apply Qpower_lt_compat_l. }
  apply pow2_lt_inv in H. lia.
Qed.

Lemma normalize_val z e :
  0 ≤ z → -1074 ≤ e → (inject_Z z * 2 ^ e <= 2 ^ 900)%Q →
  ∃ w, is_val (binary_normalize 53 1024 z e false) w ∧ near (inject_Z z * 2 ^ e) w.
Proof.
  intros Hz He Hv. destruct z as [|m|m]; [|apply binary_round_val; [done|by apply digits_limit]|lia].
  exists 0%Q. split; [by constructor|]. assert (H0 : (inject_Z 0 * 2 ^ e == 0)%Q) by (change (inject_Z 0) with 0%Q; lra).
  rewrite H0. by apply near_refl.
Qed.

(** ** The operations *)

Lemma fadd_val x y (a b : Q) :
  is_val x a → is_val y b → (a + b <= 2 ^ 900)%Q → ∃ w, is_val (fadd x y) w ∧ near (a + b) w.
Proof.
  intros Hx Hy Hab. pose proof (is_val_nonneg _ _ Hx). pose proof (is_val_nonneg _ _ Hy).
  assert (Hid : ∀ z q, is_val z q → (q == a + b)%Q → ∃ w, is_val z w ∧ near (a + b) w).
  { intros z q Hz Hq. exists q. split; [done|]. rewrite Hq. apply near_refl. lra. }
  unfold fadd, SFadd. destruct Hx as [s1 a Ha|m1 e1 a Hc1 Ha], Hy as [s2 b Hb|m2 e2 b Hc2 Hb].
  - destruct s1, s2; (eapply Hid; [by constructor|lra]).
  - eapply Hid; [by apply val_pos|lra].
  - eapply Hid; [by apply val_pos|lra].
  - cbn [cond_Zopp]. apply canonical_min in Hc1 as (He1 & _), Hc2 as (He2 & _).
    pose proof (aligned_value m1 e1 (Z.min e1 e2)) as H1. pose proof (aligned_value m2 e2 (Z.min e1 e2)) as H2.
    replace (Z.min e1 (Z.min e1 e2)) with (Z.min e1 e2) in H1 by lia.
    replace (Z.min e2 (Z.min e1 e2)) with (Z.min e1 e2) in H2 by lia.
    set (k1 := Z.pos (shl_align m1 e1 (Z.min e1 e2)).1) in *. set (k2 := Z.pos (shl_align m2 e2 (Z.min e1 e2)).1) in *.
    assert (Hsum : (inject_Z (k1 + k2) * 2 ^ Z.min e1 e2 == a + b)%Q) by (rewrite inject_Z_plus; lra).
    destruct (normalize_val (k1 + k2) (Z.min e1 e2)) as (w & Hw & Hn); [lia|lia|by rewrite Hsum|].
    exists w. split; [done|]. by rewrite <- Hsum.
Qed.

Lemma fsub_val x y (a b : Q) :
  is_val x a → is_val y b → (b <= a)%Q → (a <= 2 ^ 900)%Q → ∃ w, is_val (fsub x y) w ∧ near (a - b) w.
Proof.
  intros Hx Hy Hba Hab. pose proof (is_val_nonneg _ _ Hx). pose proof (is_val_nonneg _ _ Hy).
  assert (Hid : ∀ z q, is_val z q → (q == a - b)%Q → ∃ w, is_val z w ∧ near (a - b) w).
  { intros z q Hz Hq. exists q. split; [done|]. rewrite Hq. apply near_refl. lra. }
  unfold fsub, SFsub. destruct Hx as [s1 a Ha|m1 e1 a Hc1 Ha], Hy as [s2 b Hb|m2 e2 b Hc2 Hb].
  - destruct s1, s2; (eapply Hid; [by constructor|lra]).
  - pose proof (inject_pos m2). pose proof (pow2_pos e2). nra.
  - eapply Hid; [by apply val_pos|lra].
  - cbn [cond_Zopp]. apply canonical_min in Hc1 as (He1 & _), Hc2 as (He2 & _).
    pose proof (aligned_value m1 e1 (Z.min e1 e2)) as H1. pose proof (aligned_value m2 e2 (Z.min e1 e2)) as H2.
    replace (Z.min e1 (Z.min e1 e2)) with (Z.min e1 e2) in H1 by lia.
    replace (Z.min e2 (Z.min e1 e2)) with (Z.min e1 e2) in H2 by lia.
    set (k1 := Z.pos (shl_align m1 e1 (Z.min e1 e2)).1) in *. set (k2 := Z.pos (shl_align m2 e2 (Z.min e1 e2)).1) in *.
    assert (Hsum : (inject_Z (k1 - k2) * 2 ^ Z.min e1 e2 == a - b)%Q).
    { unfold Z.sub. rewrite inject_Z_plus, inject_Z_opp. lra. }
    pose proof (pow2_pos (Z.min e1 e2)) as HP. assert (Hk : 0 ≤ k1 - k2).
    { rewrite Zle_Qle. change (inject_Z 0) with 0%Q. apply (Qmult_le_r _ _ _ HP). rewrite Hsum. lra. }
    destruct (normalize_val (k1 - k2) (Z.min e1 e2)) as (w & Hw & Hn); [lia|lia|rewrite Hsum; lra|].
    exists w. split; [done|]. by rewrite <- Hsum.
Qed.

(** A value that is neither tiny nor huge. *)
Definition middling (a : Q) : Prop := (2 ^ (-400) <= a /\ a <= 2 ^ 400)%Q.

#[export] Instance middling_proper : Proper (Qeq ==> iff) middling.
Proof. intros p q Hpq. unfold middling. by rewrite Hpq. Qed.

Lemma middling_canonical m e :
  canonical m e → middling (inject_Z (Z.pos m) * 2 ^ e) → digits m = 53 ∧ -453 < e ≤ 348.
Proof.
  intros Hc [Hl Hu]. apply canonical_min in Hc as (_ & Hd & Hd53). destruct (value_digits m e) as [Hv1 Hv2].
  assert (H1 : (2 ^ (-400) < 2 ^ (digits m + e))%Q) by lra. apply pow2_lt_inv in H1.
  assert (H2 : (2 ^ (digits m + e - 1) < 2 ^ 401)%Q).
  { apply (Qle_lt_trans _ (2 ^ 400)); [lra|by apply Qpower_lt_compat_l]. }
  apply pow2_lt_inv in H2. lia.
Qed.

Lemma is_val_middling x (a : Q) :
  is_val x a → middling a → ∃ m e, x = S754_finite false m e ∧ (a == inject_Z (Z.pos m) * 2 ^ e)%Q ∧
    digits m = 53 ∧ -453 < e ≤ 348.
Proof.
  intros Hx Hm. destruct Hx as [s a Ha|m e a Hc Ha].
  - destruct Hm as [Hm _]. rewrite Ha in Hm. by apply Qle_not_lt in Hm; destruct Hm.
  - exists m, e. split; [done|]. split; [done|]. apply middling_canonical; [done|by rewrite <- Ha].
Qed.

Lemma fmul_val x y (a b : Q) :
  is_val x a → is_val y b → (a == 0 \/ middling a)%Q → middling b →
  ∃ w, is_val (fmul x y) w ∧ near (a * b) w.
Proof.
  intros Hx Hy Ha Hb. destruct (is_val_middling y b Hy Hb) as (m2 & e2 & -> & Hb' & Hd2 & He2).
  destruct Ha as [Ha|Ha].
  - destruct Hx as [s1 a _|m1 e1 a Hc1 Ha'].
    + exists (a * b)%Q. split; [constructor; nra|apply near_refl; nra].
    + pose proof (inject_pos m1). pose proof (pow2_pos e1). nra.
  - destruct (is_val_middling x a Hx Ha) as (m1 & e1 & -> & Ha' & Hd1 & He1). unfold fmul, SFmul. cbn [xorb].
    assert (Hv : (inject_Z (Z.pos (m1 * m2)) * 2 ^ (e1 + e2) == a * b)%Q).
    { rewrite Pos2Z.inj_mul, inject_Z_mult, pow2_add. rewrite Ha', Hb'. lra. }
    assert (Hd : 105 ≤ digits (m1 * m2) ≤ 106).
    { pose proof (digits_bounds m1) as H1. pose proof (digits_bounds m2) as H2.
      pose proof (digits_bounds (m1 * m2)) as [H3 H4]. rewrite Hd1 in H1. rewrite Hd2 in H2.
      rewrite Pos2Z.inj_mul in H3, H4.
      assert (Hp : 2 ^ 104 < 2 ^ digits (m1 * m2)).
      { eapply Z.le_lt_trans; [|exact H4]. change (2 ^ 104) with (2 ^ (53 - 1) * 2 ^ (53 - 1)).
        apply Z.mul_le_mono_nonneg; lia. }
      assert (Hq : 2 ^ (digits (m1 * m2) - 1) < 2 ^ 106).
      { eapply Z.le_lt_trans; [exact H3|]. change (2 ^ 106) with (2 ^ 53 * 2 ^ 53).
        apply Z.mul_lt_mono_nonneg; lia. }
      apply Z.pow_lt_mono_r_iff in Hp, Hq; lia. }
    destruct (round_aux_val (m1 * m2) (e1 + e2) loc_Exact (a * b)) as (w & Hw & Hn).
    + lia.
    + left. lia.
    + lia.
    + by rewrite Hv; apply Qle_refl.
    + rewrite inject_Z_plus. change (inject_Z 1) with 1%Q. pose proof (pow2_pos (e1 + e2)). lra.
    + intros _. by rewrite Hv.
    + by exists w.
Qed.

(** Comparing values is comparing floats. *)
Lemma canonical_lt m1 e1 m2 e2 :
  canonical m1 e1 → canonical m2 e2 → e1 < e2 → (inject_Z (Z.pos m1) * 2 ^ e1 < inject_Z (Z.pos m2) * 2 ^ e2)%Q.
Proof.
  intros (H1 & _ & Hd1)%canonical_min (H2 & [Hd2| ->] & _)%canonical_min He; [|lia].
  destruct (value_digits m1 e1) as [_ Hv1]. destruct (value_digits m2 e2) as [Hv2 _].
  eapply Qlt_le_trans; [exact Hv1|]. eapply Qle_trans; [|exact Hv2]. apply pow2_le. lia.
Qed.

Lemma flt_val x y (a b : Q) : is_val x a → is_val y b → flt x y = true ↔ (a < b)%Q.
Proof.
  unfold flt, SFltb. intros Hx Hy. destruct Hx as [s1 a Ha|m1 e1 a Hc1 Ha], Hy as [s2 b Hb|m2 e2 b Hc2 Hb]; cbn [SFcompare].
  - rewrite Ha, Hb. split; [done|lra].
  - pose proof (inject_pos m2). pose proof (pow2_pos e2). split; [intros _; nra|done].
  - pose proof (inject_pos m1). pose proof (pow2_pos e1). split; [done|nra].
  - rewrite Ha, Hb. destruct (Z.compare_spec e1 e2) as [<-|Hlt|Hgt].
    + pose proof (pow2_pos e1). rewrite Qmult_lt_r, <- Zlt_Qlt by done.
      change (Pos.compare_cont Eq m1 m2) with (Pos.compare m1 m2). destruct (Pos.compare_spec m1 m2); split; (done || lia).
    + split; [intros _; by apply canonical_lt|done].
    + pose proof (canonical_lt m2 e2 m1 e1 Hc2 Hc1 Hgt). split; [done|lra].
Qed.

Lemma new_location_exact k r : 0 ≤ r < k → new_location k r = loc_Exact → r = 0.
Proof. unfold new_location, new_location_even, new_location_odd. repeat case_match; (done || lia). Qed.

(** The quotient of two mantissas of 53 digits, one step of the division. *)
Lemma div_core m1 m2 :
  digits m1 = 53 → digits m2 = 53 →
  let q := Z.pos m1 * 2 ^ 53 / Z.pos m2 in
  2 ^ 52 ≤ q < 2 ^ 54.
Proof.
  intros H1 H2 q. pose proof (digits_bounds m1) as Hb1. pose proof (digits_bounds m2) as Hb2.
  rewrite H1 in Hb1. rewrite H2 in Hb2. split.
  - apply Z.div_le_lower_bound; [lia|]. lia.
  - apply Z.div_lt_upper_bound; [lia|]. change (53 - 1) with 52 in *. lia.
Qed.

Lemma fdiv_val x y (a b : Q) :
  is_val x a → is_val y b → (a == 0 \/ middling a)%Q → middling b →
  ∃ w, is_val (fdiv x y) w ∧ near (a / b) w.
Proof.
  intros Hx Hy Ha Hb. destruct (is_val_middling y b Hy Hb) as (m2 & e2 & -> & Hb' & Hd2 & He2).
  pose proof (inject_pos m2) as Hp2. pose proof (pow2_pos e2) as HP2.
  assert (Hbpos : (0 < b)%Q) by nra. destruct Ha as [Ha|Ha].
  - destruct Hx as [s1 a _|m1 e1 a Hc1 Ha'].
    + assert (H0 : (a / b == 0)%Q) by (rewrite Ha; unfold Qdiv; lra).
      exists 0%Q. split; [by constructor|]. rewrite H0. by apply near_refl.
    + pose proof (inject_pos m1). pose proof (pow2_pos e1). nra.
  - destruct (is_val_middling x a Hx Ha) as (m1 & e1 & -> & Ha' & Hd1 & He1). unfold fdiv, SFdiv, SFdiv_core_binary.
    cbn [Zdigits2 xorb]. rewrite Hd1, Hd2, fexp_eq.
    replace (Z.min (Z.max (53 + e1 - (53 + e2) - 53) (-1074)) (e1 - e2)) with (e1 - e2 - 53) by lia.
    replace (e1 - e2 - (e1 - e2 - 53)) with 53 by lia. rewrite Z.shiftl_mul_pow2 by lia.
    pose proof (div_core m1 m2 Hd1 Hd2) as Hq. cbn zeta in Hq.
    pose proof (Z_div_mod (Z.pos m1 * 2 ^ 53) (Z.pos m2) ltac:(lia)) as Hdm.
    unfold Z.div in Hq. destruct (Z.div_eucl (Z.pos m1 * 2 ^ 53) (Z.pos m2)) as [q r]. destruct Hdm as [Hdm Hr].
    destruct q as [|q|q]; [lia| |lia]. set (e' := e1 - e2 - 53).
    assert (Hd : 53 ≤ digits q ≤ 54).
    { pose proof (digits_bounds q) as [H3 H4]. assert (Hl : 2 ^ 52 < 2 ^ digits q) by lia.
      assert (Hu : 2 ^ (digits q - 1) < 2 ^ 54) by lia. apply Z.pow_lt_mono_r_iff in Hl, Hu; lia. }
    (* a / b = (q + r / m2) * 2 ^ e' *)
    assert (Hv : (a / b * inject_Z (Z.pos m2) == (inject_Z (Z.pos q) * inject_Z (Z.pos m2) + inject_Z r) * 2 ^ e')%Q).
    { assert (Hdm' : (inject_Z (Z.pos q) * inject_Z (Z.pos m2) + inject_Z r == inject_Z (Z.pos m1) * inject_Z (2 ^ 53))%Q).
      { rewrite <- !inject_Z_mult, <- inject_Z_plus, Hdm. by rewrite (Z.mul_comm (Z.pos q)). }
      rewrite Hdm'.
      unfold e'. replace (e1 - e2 - 53) with (e1 + - e2 + - 53) by lia. rewrite !pow2_add, Qpower_opp, pow2_Z by lia.
      rewrite Ha', Hb'. clear -Hp2 HP2. revert Hp2 HP2. generalize (2 ^ e1)%Q (2 ^ e2)%Q (inject_Z (Z.pos m1)) (inject_Z (Z.pos m2)).
      intros P1 P2 M1 M2 HM HP. assert (Hc : (2 ^ (-53) == / 2 ^ 53)%Q) by reflexivity. rewrite Hc.
      field. split; lra. }
    pose proof (pow2_pos e') as HP. assert (Hr' : (0 <= inject_Z r /\ inject_Z r <= inject_Z (Z.pos m2))%Q).
    { change 0%Q with (inject_Z 0). rewrite <- !Zle_Qle. lia. }
    destruct (round_aux_val q e' (new_location (Z.pos m2) r) (a / b)) as (w & Hw & Hn).
    + lia.
    + left. lia.
    + lia.
    + apply (Qmult_le_r _ _ (inject_Z (Z.pos m2))); [lra|]. rewrite Hv. nra.
    + apply (Qmult_le_r _ _ (inject_Z (Z.pos m2))); [lra|]. rewrite Hv, inject_Z_plus. change (inject_Z 1) with 1%Q. nra.
    + intros ->%new_location_exact; [|done]. apply (Qmult_inj_r _ _ (inject_Z (Z.pos m2))); [lra|].
      rewrite Hv. change (inject_Z 0) with 0%Q. lra.
    + by exists w.
Qed.

Lemma fle_val x y (a b : Q) : is_val x a → is_val y b → fle x y = true ↔ (a <= b)%Q.
Proof.
  intros Hx Hy. assert (Hn : fle x y = negb (flt y x)).
  { unfold fle, flt, SFleb, SFltb, SFcompare.
    destruct Hx as [s1 a _|m1 e1 a _ _], Hy as [s2 b _|m2 e2 b _ _]; [done..|].
    rewrite (Z.compare_antisym e2 e1). destruct (e2 ?= e1) eqn:He; cbn [CompOpp]; try done.
    rewrite !Pos.compare_cont_spec, (Pos.compare_antisym m2 m1). by destruct (m2 ?= m1)%positive. }
  rewrite Hn, negb_true_iff, <- not_true_iff_false, (flt_val y x b a Hy Hx). split; [apply Qnot_lt_le|apply Qle_not_lt].
Qed.

(** ** The conversion to an integer *)

Lemma int64_of_val `{Arch} x (a : Q) :
  is_val x a → (a <= 2 ^ 62)%Q →
  0 ≤ int64_of x ∧ (inject_Z (int64_of x) <= a)%Q ∧ (a < inject_Z (int64_of x) + 1)%Q.
Proof.
  intros Hx Ha. destruct Hx as [s a H0|m e a _ Hv]; cbn [int64_of].
  { change (inject_Z 0) with 0%Q. rewrite H0. split_and!; [done|lra..]. }
  set (v := if 0 <=? e then Z.pos m * 2 ^ e else Z.pos m / 2 ^ (- e)).
  assert (Hf : 0 ≤ v ∧ (inject_Z v <= a)%Q ∧ (a < inject_Z v + 1)%Q).
  { unfold v. rewrite Hv. destruct (Z.leb_spec 0 e) as [He|He].
    - rewrite inject_Z_mult, pow2_Z by done. split_and!; [lia|lra..].
    - assert (HP : 0 < 2 ^ (- e)) by (apply Z.pow_pos_nonneg; lia).
      pose proof (Z.div_mod (Z.pos m) (2 ^ (- e)) ltac:(lia)) as Hdm.
      pose proof (Z.mod_pos_bound (Z.pos m) (2 ^ (- e)) HP) as Hr.
      split; [by apply Z.div_pos|]. set (k := Z.pos m / 2 ^ (- e)) in *. set (r := Z.pos m mod 2 ^ (- e)) in *.
      assert (Hpe : (inject_Z (2 ^ (- e)) * 2 ^ e == 1)%Q).
      { rewrite pow2_Z, <- pow2_add by lia. by replace (- e + e) with 0 by lia. }
      pose proof (pow2_pos e) as Hpos.
      rewrite Hdm, inject_Z_plus, inject_Z_mult.
      assert (Hr1 : (0 <= inject_Z r * 2 ^ e)%Q).
      { apply Qmult_le_0_compat; [|lra]. change 0%Q with (inject_Z 0). rewrite <- Zle_Qle. lia. }
      assert (Hr2 : (inject_Z r * 2 ^ e < 1)%Q).
      { rewrite <- Hpe. apply Qmult_lt_r; [done|]. rewrite <- Zlt_Qlt. lia. }
      assert (Heq : ((inject_Z (2 ^ (- e)) * inject_Z k + inject_Z r) * 2 ^ e
        == inject_Z k * (inject_Z (2 ^ (- e)) * 2 ^ e) + inject_Z r * 2 ^ e)%Q) by ring.
      rewrite Heq, Hpe. split; lra. }
  assert (Hmax : v ≤ 2 ^ 62).
  { rewrite Zle_Qle, pow2_Z by done. destruct Hf as (_ & ? & _). lra. }
  unfold min_int64, max_int64. destruct (Z.leb_spec (- 2 ^ 63) v), (Z.leb_spec v (2 ^ 63 - 1)); cbn [andb]; try lia; done.
Qed.
