(* ===== verification/Bucket.v ===== *)
(** * Package [rate]: the token bucket ([internal/rate/limiter.go])

    The tokens are a float, refilled by the time since the last call.  The rate that
    the bucket enforces is stated on the sequence of calls, with the rounding errors
    of all its steps ([FloatError]) accounted for. *)

From Stdlib Require Import SpecFloat QArith Qpower Lqa Sorted.
From S2P Require Export FloatError.
Local Open Scope Z_scope.

Module Rate.

Record Bucket := { tokens : float64; capacity : float64; refill : float64; last : time }.

Definition New (now : time) (capacity perSecond : float64) : Bucket :=
  {| tokens := capacity; capacity := capacity; refill := perSecond; last := now |}.

(** The tokens after the refill at [now], cut at the capacity. *)
Definition refilled (now : time) (b : Bucket) : float64 :=
  let t := fadd (tokens b) (fmul (Seconds (Sub now (last b))) (refill b)) in
  if flt (capacity b) t then capacity b else t.

Definition with_tokens (b : Bucket) (t : float64) (now : time) : Bucket :=
  {| tokens := t; capacity := capacity b; refill := refill b; last := now |}.

Definition Allow (now : time) (n : float64) (b : Bucket) : Bucket * bool :=
  let t := refilled now b in
  if flt t n then (with_tokens b t now, false) else (with_tokens b (fsub t n) now, true).

Definition Wait `{Arch} (n : float64) (b : Bucket) : Duration :=
  if fle n (tokens b) then 0
  else int64_of (fmul (fdiv (fsub n (tokens b)) (refill b)) (float_of Second)).

(** ** Specification *)

(** The dispatcher's bucket: [rate.New(100, 100)]. *)
Definition hundred (now : time) : Bucket := New now (float_of 100) (float_of 100).

(** The calls of [Allow(1)] at the given times: the bucket, and which are granted. *)
Fixpoint calls (ts : list time) (b : Bucket) : Bucket * list bool :=
  match ts with
  | [] => (b, [])
  | now :: ts =>
      let '(b, ok) := Allow now (float_of 1) b in
      let '(b, oks) := calls ts b in (b, ok :: oks)
  end.

Definition granted (oks : list bool) : Z := Z.of_nat (length (base.filter (λ ok, ok = true) oks)).

(** ** Lemmas *)

Lemma Sub_same now : Sub now now = 0.
Proof. unfold Sub. by rewrite Z.sub_diag. Qed.

Lemma Sub_after now d : in_int64 d → Sub (now + d) now = d.
Proof. intros Hd. unfold Sub. rewrite sat64_id; [lia|by replace (now + d - now) with d by lia]. Qed.

Definition level (now : time) (t : float64) : Bucket :=
  {| tokens := t; capacity := float_of 100; refill := float_of 100; last := now |}.

Lemma allow_level now k : (0 < k ≤ 100)%nat →
  Allow now (float_of 1) (level now (float_of (Z.of_nat k))) =
    (level now (float_of (Z.of_nat (k - 1))), true).
Proof.
  intros Hk. unfold Allow, refilled, with_tokens, level. cbn [tokens capacity refill last].
  rewrite Sub_same.
  assert (Hall : forallb (λ k,
      let t := fadd (float_of (Z.of_nat k)) (fmul (Seconds 0) (float_of 100)) in
      let t := if flt (float_of 100) t then float_of 100 else t in
      negb (flt t (float_of 1)) &&
      match fsub t (float_of 1), float_of (Z.of_nat (k - 1)) with
      | SpecFloat.S754_zero false, SpecFloat.S754_zero false => true
      | SpecFloat.S754_finite false m e, SpecFloat.S754_finite false m' e' => Pos.eqb m m' && Z.eqb e e'
      | _, _ => false
      end) (seq 1 100) = true) by (vm_compute; reflexivity).
  rewrite forallb_forall in Hall. specialize (Hall k). rewrite in_seq in Hall.
  specialize (Hall ltac:(lia)). cbn zeta in Hall. apply andb_prop in Hall as [Hge Heq].
  apply negb_true_iff in Hge. rewrite Hge. do 2 f_equal.
  set (x := fsub _ _) in *. set (y := float_of (Z.of_nat (k - 1))) in *.
  destruct x as [[]|[]| |[] m e], y as [[]|[]| |[] m' e']; try done.
  apply andb_prop in Heq as [->%Pos.eqb_eq ->%Z.eqb_eq]. done.
Qed.

Lemma allow_empty now : Allow now (float_of 1) (level now (float_of 0)) = (level now (float_of 0), false).
Proof.
  unfold Allow, refilled, with_tokens, level. cbn [tokens capacity refill last]. rewrite Sub_same.
  vm_compute. reflexivity.
Qed.

Lemma granted_cons ok oks : granted (ok :: oks) = (if ok then 1 else 0) + granted oks.
Proof. unfold granted. rewrite filter_cons. destruct ok; simpl; lia. Qed.

Lemma calls_level now j k :
  (j ≤ 100)%nat → granted (calls (replicate k now) (level now (float_of (Z.of_nat j)))).2 = Z.of_nat (k `min` j).
Proof.
  revert j. induction k as [|k IH]; intros j Hj; [done|]. cbn [replicate calls].
  destruct j as [|j].
  - change (Z.of_nat 0) with 0. rewrite allow_empty. specialize (IH 0%nat ltac:(lia)).
    change (Z.of_nat 0) with 0 in IH. destruct (calls _ _) as [b oks]. cbn [snd] in *. rewrite granted_cons. lia.
  - rewrite allow_level by lia. replace (S j - 1)%nat with j by lia. specialize (IH j ltac:(lia)).
    destruct (calls _ _) as [b oks]. cbn [snd] in *. rewrite granted_cons. lia.
Qed.

(** ** Lemmas: the value of the tokens *)

(** A bucket of the dispatcher that holds [v] tokens. *)
Record holds (b : Bucket) (v : Q) : Prop := {
  ho_capacity : capacity b = float_of 100;
  ho_refill : refill b = float_of 100;
  ho_tokens : is_val (tokens b) v;
  ho_full : (v <= 100)%Q;
}.

Lemma small_pow (q : Q) : (q <= 100000000000000000000 → q <= 2 ^ 900)%Q.
Proof.
  intros Hq. apply (Qle_trans _ (2 ^ 67)); [|by apply pow2_le]. apply (Qle_trans _ _ _ Hq). by vm_compute.
Qed.

Lemma middling_range (q : Q) : ((1 # 100000000000000000000) <= q /\ q <= 100000000000000000000)%Q → middling q.
Proof.
  intros [Hl Hu]. split.
  - apply (Qle_trans _ (2 ^ (-67))); [by apply pow2_le|]. apply (Qle_trans _ (1 # 100000000000000000000)); [by vm_compute|done].
  - apply (Qle_trans _ (2 ^ 67)); [|by apply pow2_le]. apply (Qle_trans _ _ _ Hu). by vm_compute.
Qed.

Lemma float_of_val n : 0 ≤ n ≤ 2 ^ 63 → ∃ w, is_val (float_of n) w ∧ near (inject_Z n) w.
Proof.
  intros Hn. destruct (normalize_val n 0) as (w & Hw & Hnear); [lia..| |].
  - apply small_pow. change (2 ^ 0)%Q with 1%Q. rewrite Qmult_1_r. change 100000000000000000000%Q with (inject_Z 100000000000000000000).
    rewrite <- Zle_Qle. lia.
  - exists w. split; [done|]. by rewrite Qmult_1_r in Hnear.
Qed.

Lemma val_hundred : is_val (float_of 100) 100.
Proof. apply val_pos; by vm_compute. Qed.

Lemma val_one : is_val (float_of 1) 1.
Proof. apply val_pos; by vm_compute. Qed.

Lemma val_billion : is_val (float_of 1000000000) 1000000000.
Proof. apply val_pos; by vm_compute. Qed.

(** What an idle time of [d] nanoseconds adds: a hundred tokens a second. *)
Lemma seconds_val d :
  0 ≤ d ≤ max_int64 →
  ∃ w, is_val (fmul (Seconds d) (float_of 100)) w ∧
    (inject_Z d * (1 # 10000000) * (1 - 8 * eps) <= w /\ w <= inject_Z d * (1 # 10000000) * (1 + 8 * eps))%Q.
Proof.
  intros Hd. unfold max_int64 in Hd. unfold Seconds, Second.
  pose proof (Z.quot_rem' d 1000000000) as Hqr. pose proof (Z.rem_bound_pos d 1000000000 ltac:(lia) ltac:(lia)) as Hr.
  pose proof (Z.quot_pos d 1000000000 ltac:(lia) ltac:(lia)) as Hq0.
  set (q := Z.quot d 1000000000) in *. set (r := Z.rem d 1000000000) in *.
  destruct (float_of_val q) as (wq & Hwq & Hnq); [lia|]. destruct (float_of_val r) as (wr & Hwr & Hnr); [lia|].
  assert (HQ : (inject_Z d == 1000000000 * inject_Z q + inject_Z r)%Q).
  { rewrite Hqr, inject_Z_plus, inject_Z_mult. by change (inject_Z 1000000000) with 1000000000%Q. }
  assert (Hq : (0 <= inject_Z q /\ inject_Z q <= 10000000000)%Q).
  { change 0%Q with (inject_Z 0). change 10000000000%Q with (inject_Z 10000000000). rewrite <- !Zle_Qle. lia. }
  assert (HrQ : ((inject_Z r == 0 \/ 1 <= inject_Z r) /\ inject_Z r <= 1000000000)%Q).
  { change 0%Q with (inject_Z 0). change 1%Q with (inject_Z 1). change 1000000000%Q with (inject_Z 1000000000).
    rewrite <- !Zle_Qle, inject_Z_injective. lia. }
  unfold near, eps in *. destruct (fdiv_val _ _ wr _ Hwr val_billion) as (wd & Hwd & Hnd).
  { destruct HrQ as [[Hr0|Hr1] Hru]; [left; lra|right; apply middling_range; lra]. }
  { by apply middling_range. }
  assert (Hdiv : (wr / 1000000000 == wr * (1 # 1000000000))%Q) by done. unfold near, eps in Hnd. rewrite Hdiv in Hnd.
  destruct (fadd_val _ _ wq wd Hwq Hwd) as (ws & Hws & Hns).
  { apply small_pow. lra. }
  unfold near, eps in Hns. destruct (fmul_val _ _ ws _ Hws val_hundred) as (w & Hw & Hn).
  { assert (Hz : (inject_Z q == 0 \/ 1 <= inject_Z q)%Q).
    { change 0%Q with (inject_Z 0). change 1%Q with (inject_Z 1). rewrite <- !Zle_Qle, inject_Z_injective. lia. }
    destruct HrQ as [[Hr0|Hr1] Hru], Hz as [Hz|Hz]; [left; lra|right; apply middling_range; lra..]. }
  { by apply middling_range. }
  exists w. split; [done|]. unfold near, eps in Hn. rewrite HQ. split; lra.
Qed.

(** The tokens that the idle time before [now] is worth: a hundred a second. *)
Definition earned (now : time) (b : Bucket) : Q := inject_Z (Sub now (last b)) * (1 # 10000000).

Lemma earned_range now b :
  last b ≤ now → (0 <= earned now b /\ earned now b <= inject_Z (now - last b) * (1 # 10000000) /\ earned now b <= 1000000000000)%Q.
Proof.
  intros Hle. assert (Hd : 0 ≤ Sub now (last b) ≤ max_int64 ∧ Sub now (last b) ≤ now - last b).
  { unfold Sub, sat64, max_int64, min_int64. repeat case_match; lia. }
  unfold max_int64, earned in *. set (d := Sub _ _) in *. assert (HQ : (0 <= inject_Z d /\ inject_Z d <= inject_Z (now - last b)
    /\ inject_Z d <= 10000000000000000000)%Q).
  { change 0%Q with (inject_Z 0). change 10000000000000000000%Q with (inject_Z 10000000000000000000).
    rewrite <- !Zle_Qle. lia. }
  split_and!; lra.
Qed.

(** The refill, up to the rounding errors; it is exactly the capacity when the cut is taken. *)
Lemma refilled_val now b (v : Q) :
  holds b v → last b ≤ now →
  ∃ r, is_val (refilled now b) r ∧
    (r <= 100 /\ r <= v + earned now b * (1 + 10 * eps) + 100 * eps /\
      (r < 100 → (v + earned now b * (1 - 8 * eps)) * (1 - eps) <= r))%Q ∧
    ((100 < (v + earned now b * (1 - 8 * eps)) * (1 - eps))%Q → refilled now b = float_of 100).
Proof.
  intros [Hc Hr Ht Hf] Hle. destruct (earned_range now b Hle) as (He0 & _ & He1). pose proof (is_val_nonneg _ _ Ht) as Hv.
  assert (Hd : 0 ≤ Sub now (last b) ≤ max_int64) by (unfold Sub, sat64, max_int64, min_int64; repeat case_match; lia).
  destruct (seconds_val _ Hd) as (w & Hw & Hwl & Hwu). fold (earned now b) in Hwl, Hwu. set (i := earned now b) in *.
  destruct (fadd_val _ _ v w Ht Hw) as (t & Hvt & Htn). { apply small_pow. unfold eps in *. lra. }
  unfold refilled. rewrite Hc, Hr. set (x := fadd _ _) in *.
  pose proof (flt_val _ _ _ _ val_hundred Hvt) as Hlt. unfold near, eps in *. destruct (flt (float_of 100) x).
  - exists 100%Q. split; [apply val_hundred|]. split; [|done]. assert (100 < t)%Q by by apply Hlt. split_and!; lra.
  - assert (t <= 100)%Q. { apply Qnot_lt_le. intros H. apply Hlt in H. done. }
    exists t. split; [done|]. split; [split_and!; lra|]. intros. exfalso. lra.
Qed.

Definition taken (ok : bool) : Q := if ok then 1%Q else 0%Q.

(** One call: what it grants and leaves is at most what was there and what was
    earned, and never more than the capacity. *)
Lemma allow_val now b (v : Q) :
  holds b v → last b ≤ now →
  ∃ v', holds (Allow now (float_of 1) b).1 v' ∧ last (Allow now (float_of 1) b).1 = now ∧
    (taken (Allow now (float_of 1) b).2 + v' <= v + earned now b * (1 + 10 * eps) + 200 * eps /\
     taken (Allow now (float_of 1) b).2 + v' <= 100 + 100 * eps)%Q ∧
    ((Allow now (float_of 1) b).2 = false → (v' < 1 /\ (v + earned now b * (1 - 8 * eps)) * (1 - eps) < 1)%Q).
Proof.
  intros Hh Hle. destruct (refilled_val now b v Hh Hle) as (r & Hr & (Hr1 & Hr2 & Hr3) & _). destruct Hh as [Hc Hrf _ _].
  unfold Allow. pose proof (flt_val _ _ _ _ Hr val_one) as Hlt. destruct (flt (refilled now b) (float_of 1)).
  - assert (r < 1)%Q by by apply Hlt. exists r. cbn [fst snd taken]. split; [by split|]. split; [done|]. unfold eps in *.
    specialize (Hr3 ltac:(lra)). split_and!; [lra..|]. intros _. lra.
  - assert (1 <= r)%Q. { apply Qnot_lt_le. intros H. apply Hlt in H. done. }
    destruct (fsub_val _ _ _ _ Hr val_one) as (w & Hw & Hn); [done|apply small_pow; lra|]. unfold near, eps in *.
    exists w. cbn [fst snd taken]. split; [split; [done..|lra]|]. split; [done|]. split; [lra|done].
Qed.

Lemma hundred_holds t : holds (hundred t) 100.
Proof. split; [done..|apply val_hundred|lra]. Qed.

Lemma last_cons_default (x : Z) l d : List.last (x :: l) d = List.last l x.
Proof. revert x d. induction l as [|y l IH]; intros x d; [done|]. cbn [List.last] in *. destruct l; [done|]. by rewrite (IH y d), (IH y x). Qed.

Lemma last_above (l : list time) t : Sorted Z.le (t :: l) → t ≤ List.last l t.
Proof.
  revert t. induction l as [|x l IH]; intros t Hs; [cbn; lia|]. apply Sorted_inv in Hs as [Hs Hle%HdRel_inv].
  rewrite last_cons_default. specialize (IH x Hs). lia.
Qed.

(** The state that a sequence of calls leaves. *)
Lemma calls_holds ts b (v : Q) :
  holds b v → Sorted Z.le (last b :: ts) →
  (∃ v', holds (calls ts b).1 v') ∧ last (calls ts b).1 = List.last ts (last b).
Proof.
  revert b v. induction ts as [|now ts IH]; intros b v Hb Hs; [by eauto|]. cbn [calls].
  apply Sorted_inv in Hs as [Hs Hle]. apply HdRel_inv in Hle.
  destruct (allow_val now b v Hb Hle) as (v' & Hb' & Hl & _). destruct (Allow now (float_of 1) b) as [b' ok]. cbn [fst snd] in *.
  rewrite <- Hl in Hs. specialize (IH b' v' Hb' Hs). destruct (calls ts b') as [b'' oks]. cbn [fst snd] in *.
  split; [apply IH|]. destruct IH as [_ ->]. by rewrite Hl, last_cons_default.
Qed.

(** What a sequence of calls grants is paid by what was there and what it earned. *)
Lemma calls_bound ts b (v : Q) :
  holds b v → Sorted Z.le (last b :: ts) →
  (inject_Z (granted (calls ts b).2) <= v + inject_Z (List.last ts (last b) - last b) * (1 # 10000000) * (1 + 10 * eps)
    + inject_Z (Z.of_nat (length ts)) * (200 * eps))%Q.
Proof.
  revert b v. induction ts as [|now ts IH]; intros b v Hb Hs; cbn [calls].
  - pose proof (is_val_nonneg _ _ (ho_tokens _ _ Hb)). cbn [List.last length]. rewrite Z.sub_diag.
    change (inject_Z (Z.of_nat 0)) with 0%Q.
    change (inject_Z 0) with 0%Q. unfold eps. cbn [snd]. change (inject_Z (granted [])) with 0%Q. lra.
  - apply Sorted_inv in Hs as [Hs Hle%HdRel_inv].
    destruct (earned_range now b Hle) as (He0 & He & _).
    destruct (allow_val now b v Hb Hle) as (v' & Hb' & Hl & (Hv & _) & _). destruct (Allow now (float_of 1) b) as [b' ok]. cbn [fst snd] in *.
    rewrite <- Hl in Hs. specialize (IH b' v' Hb' Hs). destruct (calls ts b') as [b'' oks]. cbn [fst snd] in *.
    rewrite granted_cons, last_cons_default. rewrite Hl in *. set (e := List.last ts now) in *.
    assert (HL : (inject_Z (Z.of_nat (length (now :: ts))) == 1 + inject_Z (Z.of_nat (length ts)))%Q).
    { cbn [length]. rewrite Nat2Z.inj_succ. unfold Z.succ. rewrite inject_Z_plus. change (inject_Z 1) with 1%Q. lra. }
    assert (HD : (inject_Z (e - last b) == inject_Z (e - now) + inject_Z (now - last b))%Q).
    { rewrite <- inject_Z_plus. replace (e - last b) with (e - now + (now - last b)) by lia. done. }
    assert (HG : (inject_Z ((if ok then 1 else 0) + granted oks) == taken ok + inject_Z (granted oks))%Q).
    { rewrite inject_Z_plus. by destruct ok. }
    rewrite HL, HD, HG. unfold eps in *. lra.
Qed.

(** A float below one is at least an ulp below. *)
Lemma below_one x (v : Q) : is_val x v → (v < 1)%Q → ((1 # 9007199254740992) <= 1 - v)%Q.
Proof.
  intros Hx Hv. destruct Hx as [s v H0|m e v Hc Hm]; [lra|]. destruct (value_digits m e) as [Hl Hu].
  rewrite <- Hm in Hl, Hu. destruct (Z.le_gt_cases (digits m + e) (-1)) as [Hle|Hgt].
  - assert (Hp : (2 ^ (digits m + e) <= 1 # 2)%Q) by (change (1 # 2)%Q with (2 ^ (-1))%Q; by apply pow2_le). lra.
  - assert (Hd : (2 ^ (digits m + e - 1) < 2 ^ 0)%Q) by (change (2 ^ 0)%Q with 1%Q; lra). apply pow2_lt_inv in Hd.
    unfold canonical in Hc. rewrite fexp_eq in Hc. assert (He : e = -53) by lia. subst e.
    change (2 ^ (-53))%Q with (1 # 9007199254740992)%Q in Hm.
    assert (Hz : (inject_Z (Z.pos m) < inject_Z 9007199254740992)%Q) by (change (inject_Z 9007199254740992) with 9007199254740992%Q; lra).
    rewrite <- Zlt_Qlt in Hz. assert (Hz' : (inject_Z (Z.pos m) <= inject_Z 9007199254740991)%Q) by (rewrite <- Zle_Qle; lia).
    change (inject_Z 9007199254740991) with 9007199254740991%Q in Hz'. lra.
Qed.

(** What [Wait] answers: the time in which the missing part is earned, cut to nanoseconds. *)
Lemma wait_val `{Arch} b (v : Q) :
  holds b v → (v < 1)%Q →
  0 ≤ Wait (float_of 1) b ≤ 10000000 ∧ ((1 - v) * 10000000 * (1 - 4 * eps) < inject_Z (Wait (float_of 1) b) + 1)%Q.
Proof.
  intros [Hc Hr Ht _] Hv. pose proof (is_val_nonneg _ _ Ht) as H0. pose proof (below_one _ _ Ht Hv) as Hgap.
  unfold Wait. destruct (fle (float_of 1) (tokens b)) eqn:Hfle.
  { apply (fle_val _ _ _ _ val_one Ht) in Hfle. exfalso. lra. }
  rewrite Hr. destruct (fsub_val _ _ _ _ val_one Ht) as (x & Hx & Hnx); [lra|apply small_pow; lra|].
  unfold near in Hnx. assert (Hxr : ((1 # 10000000000000000) <= x /\ x <= 2)%Q) by (unfold eps in *; lra).
  destruct (fdiv_val _ _ _ _ Hx val_hundred) as (y & Hy & Hny); [right; apply middling_range; lra|by apply middling_range|].
  assert (Hdiv : (x / 100 == x * (1 # 100))%Q) by done. unfold near in Hny. rewrite Hdiv in Hny.
  assert (Hyr : ((1 # 10000000000000000000) <= y /\ y <= 1)%Q) by (unfold eps in *; lra).
  destruct (fmul_val _ _ _ _ Hy val_billion) as (z & Hz & Hnz); [right; apply middling_range; lra|by apply middling_range|].
  unfold near in Hnz. assert (Hzr : ((1 - v) * 10000000 * (1 - 4 * eps) <= z /\ z < 10000001)%Q) by (unfold eps in *; lra).
  destruct (int64_of_val _ _ Hz) as (Hw0 & Hw1 & Hw2).
  { apply (Qle_trans _ 10000001); [lra|]. by apply (Qle_trans _ (2 ^ 24)); [vm_compute|apply pow2_le]. }
  change Second with 1000000000. set (w := int64_of _) in *. split; [|lra]. split; [done|].
  assert (Hlt : (inject_Z w < inject_Z 10000001)%Q) by (change (inject_Z 10000001) with 10000001%Q; lra).
  rewrite <- Zlt_Qlt in Hlt. lia.
Qed.

Lemma reach_holds t0 before : Sorted Z.le (t0 :: before) →
  (∃ v, holds (calls before (hundred t0)).1 v) ∧ last (calls before (hundred t0)).1 = List.last before t0.
Proof. intros Hs. by apply (calls_holds before (hundred t0) 100); [apply hundred_holds|]. Qed.

Lemma sorted_app_l (l1 l2 : list time) : Sorted Z.le (l1 ++ l2) → Sorted Z.le l1.
Proof.
  induction l1 as [|x l1 IH]; intros Hs; [constructor|]. apply Sorted_inv in Hs as [Hs Hle]. constructor; [by apply IH|].
  destruct l1; constructor. by apply HdRel_inv in Hle.
Qed.

Lemma sorted_from (l1 l2 : list time) t : Sorted Z.le (t :: l1 ++ l2) → Sorted Z.le (List.last l1 t :: l2).
Proof.
  revert t. induction l1 as [|x l1 IH]; intros t Hs; [done|]. rewrite last_cons_default. apply IH.
  by apply Sorted_inv in Hs as [Hs _].
Qed.

(** Enough idle time pays a token. *)
Lemma idle_token now b (v : Q) :
  holds b v → last b ≤ now → (1 + (1 # 20000000) <= v + earned now b)%Q → (Allow now (float_of 1) b).2 = true.
Proof.
  intros Hb Hle Hv. destruct (allow_val now b v Hb Hle) as (v' & _ & _ & _ & Hno). destruct (Allow now (float_of 1) b).2; [done|].
  destruct (Hno eq_refl) as [_ Hlt]. destruct (earned_range now b Hle) as (He0 & _ & He1). pose proof (ho_full _ _ Hb).
  pose proof (is_val_nonneg _ _ (ho_tokens _ _ Hb)). set (e := earned now b) in *. exfalso.
  assert (Hsplit : (e <= 2 \/ 2 < e)%Q) by (destruct (Qlt_le_dec 2 e); [by right|by left]). unfold eps in *. destruct Hsplit; lra.
Qed.

Lemma earned_at_least now b d :
  last b + d ≤ now → 0 ≤ d ≤ max_int64 → (inject_Z d * (1 # 10000000) <= earned now b)%Q.
Proof.
  intros Hd Hr. unfold earned. assert (Hs : d ≤ Sub now (last b)).
  { unfold Sub, sat64, max_int64, min_int64 in *. repeat case_match; lia. }
  rewrite Zle_Qle in Hs. lra.
Qed.

(** After more than a second without calls the bucket is full. *)
Lemma idle_full now b (v : Q) :
  holds b v → last b + 1000000000 < now → Allow now (float_of 1) b = Allow now (float_of 1) (level now (float_of 100)).
Proof.
  intros Hb Hlt. destruct (refilled_val now b v Hb ltac:(lia)) as (_ & _ & _ & Hfull).
  pose proof (earned_at_least now b 1000000001 ltac:(lia) ltac:(by vm_compute)) as He.
  change (inject_Z 1000000001) with 1000000001%Q in He. pose proof (is_val_nonneg _ _ (ho_tokens _ _ Hb)).
  assert (Hr : refilled now b = float_of 100) by (apply Hfull; unfold eps in *; lra).
  assert (Hl : refilled now (level now (float_of 100)) = float_of 100).
  { unfold refilled, level. cbn [tokens capacity refill last]. rewrite Sub_same. vm_compute. reflexivity. }
  unfold Allow. rewrite Hr, Hl. unfold with_tokens, level. cbn [capacity refill].
  by rewrite (ho_capacity _ _ Hb), (ho_refill _ _ Hb).
Qed.

Lemma burst_full now b k : Allow now (float_of 1) b = Allow now (float_of 1) (level now (float_of 100)) →
  granted (calls (replicate k now) b).2 = Z.of_nat (k `min` 100).
Proof.
  intros Heq. rewrite <- (calls_level now 100 k) by lia. change (float_of (Z.of_nat 100)) with (float_of 100).
  destruct k as [|k]; [done|]. cbn [replicate calls]. by rewrite Heq.
Qed.

(** ** Theorems *)

(** C36: the rate limit.  Whatever calls of [Allow(1)] were made on the dispatcher's
    bucket (capacity 100, 100 a second) before, any window of calls at times that do
    not decrease grants at most 101 and one for each full 10 ms between its first and
    its last call, rounding of floats included, if it has less than 2^40 calls and
    spans at most 2^60 ns (36 years). *)
Theorem rate_bounded t0 before t window :
  Sorted Z.le (t0 :: before ++ t :: window) →
  Z.of_nat (length window) < 2 ^ 40 → List.last window t - t ≤ 2 ^ 60 →
  granted (calls (t :: window) (calls before (hundred t0)).1).2 ≤ 101 + (List.last window t - t) / 10000000.
Proof.
  intros Hs Hlen Hspan. pose proof (sorted_from _ _ _ Hs) as Hfrom.
  destruct (reach_holds t0 before) as ((v & Hb) & Hl); [by apply (sorted_app_l (t0 :: before) (t :: window))|].
  set (b := (calls before (hundred t0)).1) in *. rewrite <- Hl in Hfrom. apply Sorted_inv in Hfrom as [Hw Hle%HdRel_inv].
  pose proof (last_above _ _ Hw) as Hspan0. destruct (allow_val t b v Hb Hle) as (v' & Hb' & Hl' & (_ & Hcap) & _). cbn [calls].
  destruct (Allow t (float_of 1) b) as [b' ok]. cbn [fst snd] in *. rewrite <- Hl' in Hw.
  pose proof (calls_bound window b' v' Hb' Hw) as Hbound. rewrite Hl' in *. destruct (calls window b') as [b'' oks]. cbn [snd] in *.
  rewrite granted_cons. set (D := List.last window t - t) in *. set (g := (if ok then 1 else 0) + granted oks).
  assert (HG : (inject_Z g == taken ok + inject_Z (granted oks))%Q) by (unfold g; rewrite inject_Z_plus; by destruct ok).
  pose proof (Z.div_mod D 10000000 ltac:(lia)) as Hdm. pose proof (Z.mod_pos_bound D 10000000 ltac:(lia)) as Hr.
  assert (HD : (inject_Z D * (1 # 10000000) < inject_Z (D / 10000000 + 1))%Q).
  { assert (Hlt : (inject_Z D < inject_Z (10000000 * (D / 10000000 + 1)))%Q) by (rewrite <- Zlt_Qlt; lia).
    rewrite inject_Z_mult in Hlt. change (inject_Z 10000000) with 10000000%Q in Hlt. lra. }
  assert (HDu : (inject_Z D <= 1152921504606846976)%Q).
  { change 1152921504606846976%Q with (inject_Z 1152921504606846976). rewrite <- Zle_Qle. lia. }
  assert (Hn : (inject_Z (Z.of_nat (length window)) <= 1099511627776)%Q).
  { change 1099511627776%Q with (inject_Z 1099511627776). rewrite <- Zle_Qle. lia. }
  assert (Hg : (inject_Z g < inject_Z (102 + D / 10000000))%Q).
  { rewrite HG. replace (102 + D / 10000000) with (101 + (D / 10000000 + 1)) by lia. rewrite inject_Z_plus.
    change (inject_Z 101) with 101%Q. unfold eps in *. lra. }
  rewrite <- Zlt_Qlt in Hg. lia.
Qed.

(** C37: the bucket refuses only what it must.  After any calls of [Allow(1)] at
    times that do not decrease, a call more than 10 ms after the last one is granted;
    more than a second after it the bucket is full, so that of [k] calls at one
    instant exactly the first 100 are granted; and after a refusal [Wait] answers a
    time between 0 and 10 ms such that the next call, if it comes at least 2 ns
    later than that, is granted. *)
Theorem never_starved `{Arch} t0 before now :
  Sorted Z.le (t0 :: before ++ [now]) →
  let b := (calls before (hundred t0)).1 in
  (List.last before t0 + 10000000 < now → (Allow now (float_of 1) b).2 = true) ∧
  (List.last before t0 + 1000000000 < now → ∀ k, granted (calls (replicate k now) b).2 = Z.of_nat (k `min` 100)) ∧
  ((Allow now (float_of 1) b).2 = false →
    let b' := (Allow now (float_of 1) b).1 in
    let w := Wait (float_of 1) b' in
    0 ≤ w ≤ 10000000 ∧ ∀ later, now + w + 1 < later → (Allow later (float_of 1) b').2 = true).
Proof.
  intros Hs b. pose proof (sorted_from _ _ _ Hs) as Hfrom.
  destruct (reach_holds t0 before) as ((v & Hb) & Hl); [by apply (sorted_app_l (t0 :: before) [now])|]. fold b in Hb, Hl.
  rewrite <- Hl in *. apply Sorted_inv in Hfrom as [_ Hle%HdRel_inv].
  pose proof (allow_val now b v Hb Hle) as (v' & Hb' & Hl' & _ & Hno).
  pose proof (idle_token now b v Hb Hle) as Hidle. set (b' := (Allow now (float_of 1) b).1) in *. split_and!.
  - intros Hlt. apply Hidle. pose proof (earned_at_least now b 10000001 ltac:(lia) ltac:(by vm_compute)) as He.
    change (inject_Z 10000001) with 10000001%Q in He. pose proof (is_val_nonneg _ _ (ho_tokens _ _ Hb)). lra.
  - intros Hlt k. apply burst_full. by eapply idle_full.
  - intros Hok. destruct (Hno Hok) as [Hv' _]. destruct (wait_val b' v' Hb' Hv') as [Hw Hw']. set (w := Wait _ _) in *.
    split; [done|]. intros later Hlt. apply (idle_token later b' v' Hb'); [lia|].
    pose proof (earned_at_least later b' (w + 2) ltac:(lia) ltac:(unfold max_int64; lia)) as He.
    rewrite inject_Z_plus in He. change (inject_Z 2) with 2%Q in He. pose proof (is_val_nonneg _ _ (ho_tokens _ _ Hb')).
    unfold eps in *. lra.
Qed.

(** Fifty calls, then three in each of a hundred milliseconds. *)
Definition busy : list time := flat_map (λ i, replicate 3 (1000000 * Z.of_nat i)) (seq 10 100).

Lemma sorted_check (l : list time) :
  (fix go x l := match l with [] => true | y :: l => (x <=? y) && go y l end) 0 l = true → Sorted Z.le (0 :: l).
Proof.
  generalize 0. induction l as [|y l IH]; intros x H; [by repeat constructor|].
  apply andb_prop in H as [Hle%Z.leb_le H]. constructor; [by apply IH|by constructor].
Qed.

Lemma rate_bounded_witness :
  granted (calls (5000000 :: busy) (calls (replicate 50 0) (hundred 0)).1).2 ≤ 101 + (List.last busy 5000000 - 5000000) / 10000000.
Proof.
  apply (rate_bounded 0 (replicate 50 0) 5000000 busy); [apply sorted_check; vm_compute; reflexivity|vm_compute; reflexivity|].
  apply Z.leb_le. vm_compute. reflexivity.
Defined.

Local Instance amd64 : Arch := {| float_overflow := min_int64 |}.

Lemma never_starved_witness :
  let b := (calls (replicate 101 0) (hundred 0)).1 in
  ((0 + 10000000 < 5000000 → (Allow 5000000 (float_of 1) b).2 = true) ∧
   (0 + 1000000000 < 5000000 → ∀ k, granted (calls (replicate k 5000000) b).2 = Z.of_nat (k `min` 100)) ∧
   ((Allow 5000000 (float_of 1) b).2 = false →
     let b' := (Allow 5000000 (float_of 1) b).1 in
     let w := Wait (float_of 1) b' in
     0 ≤ w ≤ 10000000 ∧ ∀ later, 5000000 + w + 1 < later → (Allow later (float_of 1) b').2 = true)) ∧
  (Allow 5000000 (float_of 1) b).2 = false ∧ Wait (float_of 1) (Allow 5000000 (float_of 1) b).1 = 5000000.
Proof.
  split; [|by vm_compute]. apply (never_starved 0 (replicate 101 0) 5000000). apply sorted_check. vm_compute. reflexivity.
Defined.

(** What the burst and the window really grant. *)
Example busy_ex : granted (calls (5000000 :: busy) (calls (replicate 50 0) (hundred 0)).1).2 = 60.
Proof. vm_compute. reflexivity. Qed.

End Rate.
