(* ===== verification/Worker.v ===== *)
(** * Package [worker]: the dispatcher ([internal/worker/dispatcher.go])

    [deliver] is cut where other goroutines can run on the store: up to the update
    that marks the notification as processing ([begin]), and what follows the call
    of the provider ([finish]).  The method is their composition, with whatever the
    others do to the store in between ([others]).  Clock readings, health answers
    and the provider's reply are the fields of [Env]. *)

From S2P Require Export Repository Router Bucket.
Local Open Scope Z_scope.

Module Worker.

(** [time.Duration(math.Pow(2, float64(attempts))) * 100 * time.Millisecond] *)
Definition backoff `{Arch} (attempts : Z) : Duration :=
  wrap64 (wrap64 (int64_of (pow2 attempts) * 100) * Millisecond).

Section worker.
Context {codec : JsonCodec} {arch : Arch} {P : Type} {prov : Provider P}.

(** What a goroutine reads of the clock and of the file system in one update. *)
Record Stamp := { t_transition : time; t_event : time; write : io }.

Inductive begun :=
| Dropped
| Delayed (n : Notification)
| Started (n : Notification).

(** [n.Transition(next)], then [Store.Update] when it succeeded. *)
Definition move (st : Stamp) (n : Notification) (next : Status) (s : Store) :
    Store * (Notification * option error) :=
  match Transition (t_transition st) n next with
  | (n', Some err) => (s, (n', Some err))
  | (n', None) =>
      let '(s', err) := Update (t_event st) (write st) n' (nVersion n) s in (s', (n', err))
  end.

(** The dispatcher's shared objects that one delivery changes. *)
Record State := { d_store : Store; d_router : Router.Router (P := P); d_limiter : Rate.Bucket }.

Definition on_store (st : State) (s : Store) : State :=
  {| d_store := s; d_router := d_router st; d_limiter := d_limiter st |}.

Record Env := {
  now : time;
  t_allow : time;
  first : Stamp;
  second : Stamp;
  choose_clock : nat → time;
  health : nat → Answer (P := P);
  record_clock : Channel → nat → time;
  reply : P → Request → Result * option error;
  others : list op;
}.

(** The notification has an expiry time and it is past. *)
Definition expired (now : time) (n : Notification) : bool :=
  match nExpiresAt n with
  | Some t => After now t
  | None => false
  end.

(** Up to the update that marks the notification as processing. *)
Definition begin (e : Env) (n : Notification) (st : State) : State * begun :=
  if expired (now e) n then
    let '(n', _) := Transition (t_transition (first e)) n StatusExpired in
    (on_store st (Update (t_event (first e)) (write (first e)) n' (nVersion n) (d_store st)).1, Dropped)
  else
    let '(lim, ok) := Rate.Allow (t_allow e) (float_of 1) (d_limiter st) in
    let st := {| d_store := d_store st; d_router := d_router st; d_limiter := lim |} in
    if negb ok then (st, Delayed n)
    else match move (first e) n StatusProcessing (d_store st) with
         | (s, (_, Some _)) => (on_store st s, Dropped)
         | (s, (n', None)) => (on_store st s, Started n')
         end.

(** [n.Provider = p.Name(); n.Attempts++]. *)
Definition attempt (name : string) (n : Notification) : Notification :=
  set_attempt n (wrap64 (nAttempts n + 1)) name (nLastError n).

(** The notification to enqueue again and the delay, if any. *)
Definition retry (maxAttempts : Z) (st : Stamp) (n : Notification) (err : error) (s : Store) :
    Store * option (Notification * Duration) :=
  let n := set_attempt n (nAttempts n) (nProvider n) err in
  if maxAttempts <=? nAttempts n then ((move st n StatusFailed s).1, None)
  else match Transition (t_transition st) n StatusQueued with
       | (_, Some _) => (s, None)
       | (n', None) =>
           ((Update (t_event st) (write st) n' (nVersion n) s).1, Some (n', backoff (nAttempts n')))
       end.

(** What follows [p.Send]. *)
Definition finish (maxAttempts : Z) (st : Stamp) (n : Notification) (res : Result) (sendErr : option error)
    (s : Store) : Store * option (Notification * Duration) :=
  match sendErr with
  | Some err =>
      let n := set_attempt n (nAttempts n) (nProvider n) (ErrorClass res) in
      retry maxAttempts st n err s
  | None =>
      let next := if decide (ResStatus res = "") then StatusAccepted else ResStatus res in
      ((move st n next s).1, None)
  end.

(** How [deliver] ends: nothing left to do, or a timer that enqueues again. *)
Inductive ended :=
| Finished
| Again (n : Notification) (delay : Duration).

Definition ended_of (o : option (Notification * Duration)) : ended :=
  match o with
  | Some (n, d) => Again n d
  | None => Finished
  end.

Definition request_of (n : Notification) : Request :=
  {| rNotification := n; rBody := nBody n; rSubject := nSubject n |}.

(** The whole method. *)
Definition deliver `{!MapRange} (maxAttempts : Z) (e : Env) (n : Notification) (st : State) : State * ended :=
  match begin e n st with
  | (st, Dropped) => (st, Finished)
  | (st, Delayed n) => (st, Again n (Rate.Wait (float_of 1) (d_limiter st)))
  | (st, Started n) =>
      let s := foldl run_op (d_store st) (others e) in
      let '(router, choice) := Router.Choose (choose_clock e) (health e) (nChannel n) (d_router st) in
      match choice with
      | Err err =>
          let '(s, o) := retry maxAttempts (second e) n err s in
          ({| d_store := s; d_router := router; d_limiter := d_limiter st |}, ended_of o)
      | Ok p =>
          let n := attempt (Name p) n in
          let '(res, sendErr) := reply e p (request_of n) in
          let router := Router.Record_ (record_clock e) p sendErr router in
          let '(s, o) := finish maxAttempts (second e) n res sendErr s in
          ({| d_store := s; d_router := router; d_limiter := d_limiter st |}, ended_of o)
      end
  end.

(** The test of [loop] before [deliver]: a scheduled notification waits. *)
Definition early (now : time) (n : Notification) : bool :=
  match nScheduleAt n with
  | Some t => Before now t
  | None => false
  end.

(** ** Lemmas *)

Lemma wrap64_succ2 z : wrap64 (wrap64 (z + 1) + 1) = wrap64 (z + 2).
Proof.
  unfold wrap64, two64. f_equal.
  replace ((z + 1 + 2 ^ 63) `mod` 2 ^ 64 - 2 ^ 63 + 1 + 2 ^ 63) with ((z + 1 + 2 ^ 63) `mod` 2 ^ 64 + 1) by lia.
  rewrite Zplus_mod_idemp_l. f_equal. lia.
Qed.

(** Every write succeeds. *)
Definition codec_total : Prop := ∀ d, is_ok (marshal_indent d) = true.

Lemma Update_stored t n old s :
  Notifications (data s) !! nID n = Some old →
  data (Update t io_fine n (nVersion old) s).1 = updated_snapshot t n (data s) ∧
  (codec_total → (Update t io_fine n (nVersion old) s).2 = None).
Proof.
  intros Hn. unfold Update. rewrite Hn, Z.eqb_refl. simpl. rewrite (proj1 (persist_data _ _)). split; [done|].
  intros Hok. specialize (Hok (updated_snapshot t n (data s))). unfold persistLocked. simpl.
  by destruct (marshal_indent _).
Qed.

(** An edge of the machine, taken by a notification whose version is the stored
    one. *)
Lemma move_edge st n old next s :
  Notifications (data s) !! nID n = Some old → nVersion old = nVersion n → write st = io_fine →
  is_allowed (nStatus n) next = true → nStatus n ≠ next → codec_total →
  let n' := set_status n next (t_transition st) (wrap64 (nVersion n + 1)) in
  (move st n next s).2 = (n', None) ∧ Notifications (data (move st n next s).1) !! nID n = Some n'.
Proof.
  intros Hn Hv Hw Ha Hne Hok. cbn zeta. unfold move, Transition. rewrite decide_False by done. rewrite Ha. cbn [negb].
  set (n' := set_status n next (t_transition st) (wrap64 (nVersion n + 1))). rewrite Hw, <- Hv.
  destruct (Update_stored (t_event st) n' old s Hn) as [Hd He]. specialize (He Hok).
  destruct (Update _ _ _ _ _) as [s' e]. cbn [fst snd] in *. subst e. split; [done|].
  rewrite Hd. simpl. apply lookup_insert_eq.
Qed.

Lemma backoff_exact a : 0 ≤ a ≤ 36 → backoff a = 2 ^ a * (100 * Millisecond).
Proof.
  intros Ha. assert (Hall : forallb (λ k, let a := Z.of_nat k in backoff a =? 2 ^ a * (100 * Millisecond))
    (seq 0 37) = true) by (vm_compute; reflexivity).
  rewrite forallb_forall in Hall. specialize (Hall (Z.to_nat a)). rewrite in_seq in Hall.
  specialize (Hall ltac:(lia)). cbn zeta in Hall. rewrite Z2Nat.id in Hall by lia. by apply Z.eqb_eq.
Qed.

(** ** Specification *)

(** A delivery that meets no obstacle before the provider: the notification is
    stored as queued, has not expired, gets a token, and writes succeed. *)
Record ready (e : Env) (n : Notification) (st : State) : Prop := {
  rd_stored : Notifications (data (d_store st)) !! nID n = Some n;
  rd_status : nStatus n = StatusQueued;
  rd_live : expired (now e) n = false;
  rd_token : (Rate.Allow (t_allow e) (float_of 1) (d_limiter st)).2 = true;
  rd_attempts : 0 ≤ nAttempts n < max_int64;
  rd_first : write (first e) = io_fine;
  rd_second : write (second e) = io_fine;
  rd_codec : codec_total;
}.

(** The notification as it is handed to the provider. *)
Definition processing (e : Env) (n : Notification) : Notification :=
  set_status n StatusProcessing (t_transition (first e)) (wrap64 (nVersion n + 1)).

(** What a failed delivery leaves: failed for good, or queued again. *)
Definition settled (maxAttempts attempts : Z) (err : error) (n' : Notification) (o : ended) : Prop :=
  nAttempts n' = attempts ∧ nLastError n' = err ∧
  if maxAttempts <=? attempts then nStatus n' = StatusFailed ∧ o = Finished
  else nStatus n' = StatusQueued ∧ o = Again n' (backoff attempts).

Lemma begin_ready e n st :
  ready e n st →
  let '(st', out) := begin e n st in
  out = Started (processing e n) ∧ d_router st' = d_router st ∧
  data (d_store st') = updated_snapshot (t_event (first e)) (processing e n) (data (d_store st)).
Proof.
  intros [Hs Hq Hl Ht _ Hw _ Hok]. unfold begin. rewrite Hl.
  destruct (Rate.Allow _ _ _) as [lim ok]. simpl in Ht. subst ok. cbn [negb d_store].
  unfold move, Transition. rewrite Hq. rewrite decide_False by done.
  replace (is_allowed StatusQueued StatusProcessing) with true by (by vm_compute). cbn [negb].
  fold (processing e n). rewrite Hw.
  destruct (Update_stored (t_event (first e)) (processing e n) n (d_store st) Hs) as [Hd He].
  specialize (He Hok). destruct (Update _ _ _ _ _) as [s' err]. cbn [fst snd] in *. by subst err.
Qed.

Lemma processing_allowed next :
  next ∈ [StatusAccepted; StatusSent; StatusFailed; StatusQueued; StatusPaused] →
  is_allowed StatusProcessing next = true ∧ StatusProcessing ≠ next.
Proof.
  rewrite !elem_of_cons, elem_of_nil. intros [->|[->|[->|[->|[->|[]]]]]]; (split; [by vm_compute|done]).
Qed.

Lemma retry_stored maxA st n old err s :
  Notifications (data s) !! nID n = Some old → nVersion old = nVersion n →
  nStatus n = StatusProcessing → write st = io_fine → codec_total →
  let '(s', o) := retry maxA st n err s in
  ∃ n', Notifications (data s') !! nID n = Some n' ∧ nVersion n' = wrap64 (nVersion n + 1) ∧
    nProvider n' = nProvider n ∧ settled maxA (nAttempts n) err n' (ended_of o).
Proof.
  intros Hs Hv Hst Hw Hok. unfold retry. set (m := set_attempt n (nAttempts n) (nProvider n) err).
  assert (Hm : nID m = nID n ∧ nStatus m = StatusProcessing) by done. destruct Hm as [Hid Hms].
  unfold settled. change (nAttempts m) with (nAttempts n).
  destruct (maxA <=? nAttempts n) eqn:Hmax.
  - destruct (processing_allowed StatusFailed) as [Ha Hne]; [set_solver|].
    destruct (move_edge st m old StatusFailed s) as [_ Hm]; [by rewrite Hid|done..| | |done|].
    + by rewrite Hms.
    + by rewrite Hms.
    + eexists. split_and!; [exact Hm|done..].
  - unfold Transition. rewrite Hms. destruct (processing_allowed StatusQueued) as [Ha Hne]; [set_solver|].
    rewrite decide_False, Ha by done. cbn [negb].
    set (m' := set_status m StatusQueued (t_transition st) (wrap64 (nVersion m + 1))).
    rewrite Hw. change (nVersion m) with (nVersion n).
    destruct (Update_stored (t_event st) m' old s Hs) as [Hd _]. rewrite Hv in Hd.
    destruct (Update (t_event st) io_fine m' (nVersion n) s) as [s' e']. cbn [fst] in *. exists m'.
    rewrite Hd. split_and!; [apply lookup_insert_eq|done..].
Qed.

Lemma attempts_succ n : 0 ≤ nAttempts n < max_int64 → wrap64 (nAttempts n + 1) = nAttempts n + 1.
Proof. intros. apply wrap64_small. unfold in_int64, min_int64, max_int64 in *. lia. Qed.

(** ** Properties *)

(** C8: an undisturbed delivery ends in one of the states the dispatcher
    promises, two versions on: accepted with one more attempt when the provider
    takes the message, which needs only what [ProviderOk] says of it; on an error
    queued again with a timer, or failed once the attempts are used up; the same,
    without counting an attempt, when no provider is available. *)
Theorem deliver_correct `{!MapRange, !ProviderOk P} (maxAttempts : Z) (e : Env) (n : Notification) (st : State) :
  ready e n st → others e = [] →
  (∀ p r, ∃ a, reply e p r = (Send a r p).2) →
  let '(st', o) := deliver maxAttempts e n st in
  ∃ n', Notifications (data (d_store st')) !! nID n = Some n' ∧ nVersion n' = wrap64 (nVersion n + 2) ∧
  match (Router.Choose (choose_clock e) (health e) (nChannel n) (d_router st)).2 with
  | Err err => settled maxAttempts (nAttempts n) err n' o
  | Ok p =>
      nProvider n' = Name p ∧
      match (reply e p (request_of (attempt (Name p) (processing e n)))).2 with
      | None => nStatus n' = StatusAccepted ∧ nAttempts n' = nAttempts n + 1 ∧ o = Finished
      | Some err => settled maxAttempts (nAttempts n + 1) err n' o
      end
  end.
Proof.
  intros Hr Hoth Hrep. pose proof (begin_ready e n st Hr) as Hb. unfold deliver.
  destruct (begin e n st) as [st1 out]. destruct Hb as (-> & Hrt & Hd). rewrite Hoth, Hrt. cbn [foldl].
  set (n1 := processing e n) in *.
  assert (Hs1 : Notifications (data (d_store st1)) !! nID n = Some n1) by (rewrite Hd; apply lookup_insert_eq).
  assert (Hv2 : wrap64 (nVersion n1 + 1) = wrap64 (nVersion n + 2)) by apply wrap64_succ2.
  change (nChannel n1) with (nChannel n).
  destruct (Router.Choose (choose_clock e) (health e) (nChannel n) (d_router st)) as [rt [p|err]]; cbn [snd].
  - destruct (Hrep p (request_of (attempt (Name p) n1))) as [a Ha].
    destruct (reply e p (request_of (attempt (Name p) n1))) as [res sendErr] eqn:Hreply. cbn [snd].
    set (n2 := attempt (Name p) n1) in *.
    assert (Hatt : nAttempts n2 = nAttempts n + 1) by (apply (attempts_succ n), (rd_attempts _ _ _ Hr)).
    unfold finish. destruct sendErr as [err|].
    + set (n3 := set_attempt n2 (nAttempts n2) (nProvider n2) (ErrorClass res)).
      pose proof (retry_stored maxAttempts (second e) n3 n1 err (d_store st1) Hs1 eq_refl eq_refl
        (rd_second _ _ _ Hr) (rd_codec _ _ _ Hr)) as Hret.
      destruct (retry maxAttempts (second e) n3 err (d_store st1)) as [s' o].
      destruct Hret as (n' & Hn' & Hv' & Hpr & Hset). exists n'. rewrite <- Hv2, <- Hatt. by split_and!.
    + assert (Hres : ResStatus res = StatusAccepted).
      { pose proof (send_ok a (request_of n2) p) as Hok. rewrite <- Ha in Hok. by apply Hok. }
      rewrite Hres, decide_False by done. destruct (processing_allowed StatusAccepted) as [Hal Hne]; [set_solver|].
      destruct (move_edge (second e) n2 n1 StatusAccepted (d_store st1) Hs1 eq_refl (rd_second _ _ _ Hr)
        Hal Hne (rd_codec _ _ _ Hr)) as [_ Hm].
      eexists. split_and!; [exact Hm|exact Hv2|done..].
  - pose proof (retry_stored maxAttempts (second e) n1 n1 err (d_store st1) Hs1 eq_refl eq_refl
      (rd_second _ _ _ Hr) (rd_codec _ _ _ Hr)) as Hret.
    destruct (retry maxAttempts (second e) n1 err (d_store st1)) as [s' o].
    destruct Hret as (n' & Hn' & Hv' & _ & Hset). exists n'. rewrite <- Hv2. by split_and!.
Qed.

Lemma wrap64_succ_ne z : wrap64 (z + 1) ≠ wrap64 z.
Proof.
  unfold wrap64, two64. intros Heq.
  assert (Hm : (z + 1 + 2 ^ 63) `mod` 2 ^ 64 = (z + 2 ^ 63) `mod` 2 ^ 64) by lia.
  replace (z + 1 + 2 ^ 63) with (z + 2 ^ 63 + 1) in Hm by lia.
  rewrite <- Zplus_mod_idemp_l in Hm. pose proof (Z.mod_pos_bound (z + 2 ^ 63) (2 ^ 64) ltac:(lia)).
  set (r := (z + 2 ^ 63) `mod` 2 ^ 64) in *.
  destruct (decide (r = 2 ^ 64 - 1)) as [->|]; [by vm_compute in Hm|].
  rewrite Z.mod_small in Hm; lia.
Qed.

Lemma received_lookup t key ev n d :
  Notifications d !! eNotificationID ev = Some n → nID n = eNotificationID ev →
  Notifications (received_snapshot t key ev d) !! nID n =
    Some (set_status n (eStatus ev) t (wrap64 (nVersion n + 1))).
Proof.
  intros Hn Hid. unfold received_snapshot. simpl. rewrite Hn. simpl. apply lookup_insert_eq.
Qed.

(** A delivery on a copy whose version is the stored one goes through to the
    provider, whatever else the stored notification says. *)
Lemma deliver_accepts `{!MapRange} maxA e n old st p res :
  Notifications (data (d_store st)) !! nID n = Some old → nVersion old = nVersion n →
  nStatus n = StatusQueued → 0 ≤ nAttempts n < max_int64 → codec_total → others e = [] →
  expired (now e) n = false → (Rate.Allow (t_allow e) (float_of 1) (d_limiter st)).2 = true →
  write (first e) = io_fine → write (second e) = io_fine →
  (Router.Choose (choose_clock e) (health e) (nChannel n) (d_router st)).2 = Ok p →
  reply e p (request_of (attempt (Name p) (processing e n))) = (res, None) → ResStatus res = StatusAccepted →
  let '(st', o) := deliver maxA e n st in
  o = Finished ∧ ∃ n', Notifications (data (d_store st')) !! nID n = Some n' ∧
    nStatus n' = StatusAccepted ∧ nProvider n' = Name p ∧ nAttempts n' = nAttempts n + 1.
Proof.
  intros Hs Hv Hst Ha Hok Hoth Hexp Htok Hw1 Hw2 Hch Hrep Hres. unfold deliver, begin. rewrite Hexp.
  destruct (Rate.Allow _ _ _) as [lim ok]. cbn [snd] in Htok. subst ok. cbn [negb d_store].
  destruct (move_edge (first e) n old StatusProcessing (d_store st)) as [Hm1 Hm2];
    [done..|by rewrite Hst; vm_compute|by rewrite Hst|done|].
  destruct (move (first e) n StatusProcessing (d_store st)) as [s1 [n1 err]]. cbn [fst snd] in *.
  injection Hm1 as -> ->. fold (processing e n) in *. rewrite Hoth. cbn [foldl on_store d_store d_router d_limiter].
  change (nChannel (processing e n)) with (nChannel n).
  destruct (Router.Choose (choose_clock e) (health e) (nChannel n) (d_router st)) as [rt ch].
  cbn [snd] in Hch. subst ch. rewrite Hrep. unfold finish. rewrite Hres, decide_False by done.
  destruct (processing_allowed StatusAccepted) as [Hal Hne]; [set_solver|].
  destruct (move_edge (second e) (attempt (Name p) (processing e n)) (processing e n) StatusAccepted s1
    Hm2 eq_refl Hw2 Hal Hne Hok) as [_ Hm].
  split; [done|]. eexists. split; [exact Hm|]. split_and!; [done..|]. by apply (attempts_succ n).
Qed.

(** A receipt during a provider call that fails: the store keeps the receipt, and
    the copy that is enqueued again has the version of what is stored. *)
Lemma retry_ignores_conflict `{!MapRange} maxAttempts e n st p err t key ev :
  ready e n st → others e = [OpReceipt t io_fine key ev] →
  eNotificationID ev = nID n → default false (Receipts (data (d_store st)) !! key) = false →
  (Router.Choose (choose_clock e) (health e) (nChannel n) (d_router st)).2 = Ok p →
  (∀ r, (reply e p r).2 = Some err) → nAttempts n + 1 < maxAttempts →
  let '(st', o) := deliver maxAttempts e n st in
  ∃ cur n' delay, Notifications (data (d_store st')) !! nID n = Some cur ∧ nStatus cur = eStatus ev ∧
    o = Again n' delay ∧ nVersion cur = nVersion n' ∧ nID n' = nID n ∧ nStatus n' = StatusQueued ∧
    nAttempts n' = nAttempts n + 1.
Proof.
  intros Hr Hoth Hev Hfresh Hch Hrep Hmax. pose proof (begin_ready e n st Hr) as Hb. unfold deliver.
  destruct (begin e n st) as [st1 out]. destruct Hb as (-> & Hrt & Hd). rewrite Hoth, Hrt. cbn [foldl].
  set (n1 := processing e n) in *.
  set (s2 := run_op (d_store st1) (OpReceipt t io_fine key ev)).
  set (cur := set_status n1 (eStatus ev) t (wrap64 (nVersion n1 + 1))).
  assert (Hs2 : Notifications (data s2) !! nID n = Some cur).
  { unfold s2. rewrite data_run_op. simpl. rewrite Hd. simpl. rewrite Hfresh. rewrite <- Hd.
    apply (received_lookup t key ev n1); [rewrite Hev, Hd; apply lookup_insert_eq|done]. }
  change (nChannel n1) with (nChannel n).
  destruct (Router.Choose (choose_clock e) (health e) (nChannel n) (d_router st)) as [rt choice].
  cbn [snd] in Hch. subst choice. set (n2 := attempt (Name p) n1).
  specialize (Hrep (request_of n2)). destruct (reply e p (request_of n2)) as [res sendErr].
  cbn [snd] in Hrep. subst sendErr. unfold finish, retry. cbn [nAttempts set_attempt with_state].
  assert (Hatt : nAttempts n2 = nAttempts n + 1) by (apply (attempts_succ n), (rd_attempts _ _ _ Hr)).
  rewrite Hatt. destruct (Z.leb_spec maxAttempts (nAttempts n + 1)); [lia|].
  unfold Transition. destruct (processing_allowed StatusQueued) as [Ha Hne]; [set_solver|].
  cbn [nStatus set_attempt with_state n2 attempt n1 processing set_status] in Ha |- *.
  rewrite decide_False, Ha by done. cbn [negb].
  set (n' := set_status _ StatusQueued _ _).
  unfold Update. change (nID n') with (nID n). rewrite Hs2.
  match goal with |- context [nVersion cur =? ?v] => change v with (wrap64 (nVersion n + 1)) end.
  change (nVersion cur) with (wrap64 (wrap64 (nVersion n + 1) + 1)).
  assert (Hneq : (wrap64 (wrap64 (nVersion n + 1) + 1) =? wrap64 (nVersion n + 1)) = false).
  { apply Z.eqb_neq. rewrite <- (wrap64_small (wrap64 (nVersion n + 1))) at 2 by apply wrap64_range.
    apply wrap64_succ_ne. }
  rewrite Hneq. cbn [negb fst ended_of d_store]. by exists cur, n', (backoff (nAttempts n')).
Qed.

(** C39: the requeue ignores a version conflict.  In a delivery that is not expired,
    gets its token and whose writes succeed, when a receipt arrives while the provider
    call fails, attempts being left, the store keeps the receipt's status, and the
    notification is enqueued again all the same with the version of what is stored.
    So its next delivery, undisturbed, is not refused, even after a delivered receipt:
    if it has not expired, gets a token, finds a provider and its writes succeed, that
    provider is called, and if it accepts the message the stored status becomes
    accepted, with two attempts more than at first. *)
Theorem retry_overrides_receipt `{!MapRange} (maxAttempts : Z) (e : Env) (n : Notification) (st : State)
    (p : P) (err : error) (t : time) (key : string) (ev : TimelineEvent) :
  ready e n st → others e = [OpReceipt t io_fine key ev] →
  eNotificationID ev = nID n → default false (Receipts (data (d_store st)) !! key) = false →
  (Router.Choose (choose_clock e) (health e) (nChannel n) (d_router st)).2 = Ok p →
  (∀ r, (reply e p r).2 = Some err) → nAttempts n + 1 < maxAttempts ≤ max_int64 →
  let '(st', o) := deliver maxAttempts e n st in
  (∃ cur, Notifications (data (d_store st')) !! nID n = Some cur ∧ nStatus cur = eStatus ev) ∧
  ∃ n' delay, o = Again n' delay ∧
    ∀ e' p' res, expired (now e') n' = false → (Rate.Allow (t_allow e') (float_of 1) (d_limiter st')).2 = true →
      write (first e') = io_fine → write (second e') = io_fine → others e' = [] →
      (Router.Choose (choose_clock e') (health e') (nChannel n') (d_router st')).2 = Ok p' →
      reply e' p' (request_of (attempt (Name p') (processing e' n'))) = (res, None) →
      ResStatus res = StatusAccepted →
      let '(st'', o') := deliver maxAttempts e' n' st' in
      o' = Finished ∧ ∃ n'', Notifications (data (d_store st'')) !! nID n = Some n'' ∧
        nStatus n'' = StatusAccepted ∧ nProvider n'' = Name p' ∧ nAttempts n'' = nAttempts n + 2.
Proof.
  intros Hr Hoth Hev Hfresh Hch Hrep [Hmax Hint].
  pose proof (retry_ignores_conflict maxAttempts e n st p err t key ev Hr Hoth Hev Hfresh Hch Hrep Hmax) as Hfirst.
  destruct (deliver maxAttempts e n st) as [st' o].
  destruct Hfirst as (cur & n' & delay & Hcur & Hst & -> & Hv & Hid & Hq & Ha).
  split; [by exists cur|]. exists n', delay. split; [done|]. intros e' p' res Hexp Htok Hw1 Hw2 Ho Hch' Hrep' Hres.
  rewrite <- Hid in Hcur |- *. pose proof (rd_attempts _ _ _ Hr).
  pose proof (deliver_accepts maxAttempts e' n' cur st' p' res Hcur Hv Hq ltac:(lia) (rd_codec _ _ _ Hr) Ho Hexp
    Htok Hw1 Hw2 Hch' Hrep' Hres) as Hacc.
  destruct (deliver maxAttempts e' n' st') as [st'' o']. destruct Hacc as (-> & n'' & ? & ? & ? & ?).
  split; [done|]. exists n''. split_and!; [done..|lia].
Qed.

(** The delay before attempt [a + 1] is 100 ms doubled [a] times, up to
    36; after the 37th the multiplication overflows and the delay is negative, so
    the timer fires at once. *)
Theorem backoff_bounds (a : Z) :
  (0 ≤ a ≤ 36 → backoff a = 2 ^ a * (100 * Millisecond) ∧ 0 < backoff a ≤ max_int64) ∧
  backoff 37 < 0.
Proof.
  split; [|vm_compute; reflexivity]. intros Ha. rewrite backoff_exact by done. split; [done|].
  pose proof (Z.pow_le_mono_r 2 a 36 ltac:(lia) ltac:(lia)).
  pose proof (Z.pow_pos_nonneg 2 a ltac:(lia) ltac:(lia)). unfold Millisecond, max_int64.
  change (2 ^ 36) with 68719476736 in *. lia.
Qed.
End worker.

(** ** Witnesses *)

#[local] Existing Instance memory_codec.
#[local] Instance amd64 : Arch := {| float_overflow := min_int64 |}.
#[local] Existing Instance map_to_list_range.

Definition queued1 : Notification := set_status (set_id sample_email "ntf_1") StatusQueued 0 1.

Definition mock1 (failures : Z) : Mock := {|
  ProviderName := "mock-email"; ProviderChannel := ChannelEmail; Calls := 0; Failures := failures; Delay := 0 |}.

Definition state1 (m : Mock) : State (P := Mock) := {|
  d_store := (Create 1 2 io_fine queued1 (fresh_store "store.json" ∅)).1;
  d_router := Router.Add m Router.New; d_limiter := Rate.hundred 0 |}.

Definition receipt1 : TimelineEvent := {|
  eID := "mock-email:x:1"; eNotificationID := "ntf_1"; eStatus := StatusDelivered; eProvider := "mock-email";
  eSequence := 1; eOccurredAt := 7; eMetadata := ∅ |}.

Definition env1 (others : list op) : Env (P := Mock) := {|
  now := 5; t_allow := 5; first := {| t_transition := 6; t_event := 6; write := io_fine |};
  second := {| t_transition := 9; t_event := 9; write := io_fine |};
  choose_clock := λ _, 6; health := Router.healthy; record_clock := λ _ _, 8;
  reply := λ p r, (Send (Router.healthy 0) r p).2; others := others |}.

Lemma ready1 m others : ready (env1 others) queued1 (state1 m).
Proof. split; try reflexivity; [vm_compute; split; [discriminate|reflexivity]|by intros d]. Qed.

Lemma deliver_correct_witness :
  let '(st', o) := deliver 5 (env1 []) queued1 (state1 (mock1 0)) in
  ∃ n', Notifications (data (d_store st')) !! "ntf_1" = Some n' ∧ nVersion n' = 3 ∧
    nProvider n' = "mock-email" ∧ nStatus n' = StatusAccepted ∧ nAttempts n' = 1 ∧ o = Finished.
Proof.
  apply (deliver_correct 5 (env1 []) queued1 (state1 (mock1 0))).
  - apply ready1.
  - reflexivity.
  - intros p r. by exists (Router.healthy 0).
Defined.

Lemma retry_overrides_receipt_witness :
  let '(st', o) := deliver 5 (env1 [OpReceipt 7 io_fine "mock-email:x:1" receipt1]) queued1 (state1 (mock1 1)) in
  (∃ cur, Notifications (data (d_store st')) !! "ntf_1" = Some cur ∧ nStatus cur = StatusDelivered) ∧
  ∃ n' delay, o = Again n' delay ∧
    ∀ e' p' res, expired (now e') n' = false → (Rate.Allow (t_allow e') (float_of 1) (d_limiter st')).2 = true →
      write (first e') = io_fine → write (second e') = io_fine → others e' = [] →
      (Router.Choose (choose_clock e') (health e') (nChannel n') (d_router st')).2 = Ok p' →
      reply e' p' (request_of (attempt (Name p') (processing e' n'))) = (res, None) →
      ResStatus res = StatusAccepted →
      let '(st'', o') := deliver 5 e' n' st' in
      o' = Finished ∧ ∃ n'', Notifications (data (d_store st'')) !! "ntf_1" = Some n'' ∧
        nStatus n'' = StatusAccepted ∧ nProvider n'' = Name p' ∧ nAttempts n'' = 2.
Proof.
  apply (retry_overrides_receipt 5 (env1 [OpReceipt 7 io_fine "mock-email:x:1" receipt1]) queued1
    (state1 (mock1 1)) (mock1 1) "provider temporary failure" 7 "mock-email:x:1" receipt1);
    [apply ready1|reflexivity..| |split; vm_compute; congruence].
  intros r. reflexivity.
Defined.

(** The second delivery, after the delivered receipt: the mock takes the message. *)
Example delivered_again :
  let '(st', o) := deliver 5 (env1 [OpReceipt 7 io_fine "mock-email:x:1" receipt1]) queued1 (state1 (mock1 1)) in
  match o with
  | Again n' _ =>
      nStatus <$> Notifications (data (d_store (deliver 5 {| now := 20; t_allow := 20; first := first (env1 []);
        second := second (env1 []); choose_clock := λ _, 20; health := Router.healthy; record_clock := λ _ _, 20;
        reply := λ p r, (Send (Router.healthy 0) r (mock1 0)).2; others := [] |} n' st').1)) !! "ntf_1"
        = Some StatusAccepted
  | Finished => False
  end.
Proof. by vm_compute. Qed.

End Worker.
