(* ===== verification/System.v ===== *)
(** * The running program: submissions, queue, timers and workers interleaved

    The two binaries of [cmd/] wire the same parts: a store, a priority queue, and
    the dispatcher's goroutines.  A state of the program is those parts and the
    notifications that goroutines and timers hold ([job]).  A label is one atomic
    step of one goroutine, made of the definitions of the components; a run is any
    sequence of labels, so every interleaving is one. *)

From S2P Require Export Application Worker.
Local Open Scope Z_scope.

Module System.

Section system.
Context {codec : JsonCodec} {uni : Unicode} {arch : Arch} {P : Type} {prov : Provider P} `{!MapRange}.

(** Where a goroutine that holds a notification is. *)
Inductive job :=
| JTimer (n : Notification)          (** about to call [Queue.Enqueue] *)
| JStart (n : Notification)          (** dequeued, before [deliver] *)
| JChoose (n : Notification)         (** marked as processing *)
| JSending (n : Notification) (p : P). (** in [p.Send] *)

Definition job_n (j : job) : Notification :=
  match j with JTimer n => n | JStart n => n | JChoose n => n | JSending n _ => n end.

(** [sent] records the key of every call of a provider. *)
Record System := {
  shared : Worker.State (P := P);
  queue : Queue.Queue;
  jobs : list job;
  sent : list string;
}.

Inductive label :=
| LSubmit (e : Application.Env) (n : Notification)
| LReplay (e : Application.Env) (id : string)
| LStore (a : op)                   (** cancel, pause, receipt, suppression *)
| LEnqueue (i : nat) (now : time)
| LDequeue (now : time)
| LWake                             (** the [select] of a loop receives the token *)
| LBegin (i : nat) (e : Worker.Env (P := P))
| LChoose (i : nat) (e : Worker.Env (P := P))
| LFinish (i : nat) (e : Worker.Env (P := P)).

Definition store (s : System) : Store := Worker.d_store (shared s).

Definition with_store (s : System) (st : Store) : System :=
  {| shared := Worker.on_store (shared s) st; queue := queue s; jobs := jobs s; sent := sent s |}.

Definition add_jobs (s : System) (l : list job) : System :=
  {| shared := shared s; queue := queue s; jobs := jobs s ++ l; sent := sent s |}.

(** [Submit] up to its [Enqueue], which is a step of its own. *)
Definition submit (e : Application.Env) (n : Notification) (s : System) : System :=
  match Validate n with
  | (_, Some _) => s
  | (n, None) =>
      let n := Application.prepare e n in
      if Application.suppressed n (store s) then s
      else
        let '(st, (saved, created, err)) :=
          Create (Application.t_event e) (Application.t_outbox e) (Application.write e) n (store s) in
        let s := with_store s st in
        if created && bool_decide (err = None) && Application.due (Application.now e) n
        then add_jobs s [JTimer saved] else s
  end.

(** The timer of [retry], or nothing. *)
Definition timer (o : option (Notification * Duration)) : list job :=
  match o with
  | Some (n, _) => [JTimer n]
  | None => []
  end.

(** The next steps of the holder of a notification, once it is taken off [jobs]. *)
Definition begin_step (e : Worker.Env) (n : Notification) (s : System) : System :=
  let '(sh, out) := Worker.begin e n (shared s) in
  {| shared := sh; queue := queue s;
     jobs := jobs s ++ match out with
                       | Worker.Dropped => []
                       | Worker.Delayed n => [JTimer n]
                       | Worker.Started n => [JChoose n]
                       end;
     sent := sent s |}.

Definition choose_step (maxAttempts : Z) (e : Worker.Env) (n : Notification) (s : System) : System :=
  let sh := shared s in
  let '(router, choice) :=
    Router.Choose (Worker.choose_clock e) (Worker.health e) (nChannel n) (Worker.d_router sh) in
  match choice with
  | Err err =>
      let '(st, o) := Worker.retry maxAttempts (Worker.second e) n err (Worker.d_store sh) in
      {| shared := {| Worker.d_store := st; Worker.d_router := router;
                      Worker.d_limiter := Worker.d_limiter sh |};
         queue := queue s; jobs := jobs s ++ timer o; sent := sent s |}
  | Ok p =>
      {| shared := {| Worker.d_store := Worker.d_store sh; Worker.d_router := router;
                      Worker.d_limiter := Worker.d_limiter sh |};
         queue := queue s; jobs := jobs s ++ [JSending (Worker.attempt (Name p) n) p];
         sent := sent s ++ [idempotency_key n] |}
  end.

Definition finish_step (maxAttempts : Z) (e : Worker.Env) (n : Notification) (p : P) (s : System) : System :=
  let sh := shared s in
  let '(res, sendErr) := Worker.reply e p (Worker.request_of n) in
  let router := Router.Record_ (Worker.record_clock e) p sendErr (Worker.d_router sh) in
  let '(st, o) := Worker.finish maxAttempts (Worker.second e) n res sendErr (Worker.d_store sh) in
  {| shared := {| Worker.d_store := st; Worker.d_router := router; Worker.d_limiter := Worker.d_limiter sh |};
     queue := queue s; jobs := jobs s ++ timer o; sent := sent s |}.

Definition without (i : nat) (s : System) : System :=
  {| shared := shared s; queue := queue s; jobs := delete i (jobs s); sent := sent s |}.

(** A label whose goroutine is not at that point does nothing. *)
Definition step (maxAttempts : Z) (s : System) (l : label) : System :=
  match l with
  | LSubmit e n => submit e n s
  | LReplay e id =>
      match Get id (store s) with
      | Ok old => submit e (Application.replayed e old) s
      | Err _ => s
      end
  | LStore (OpCreate _ _ _ _) => s
  | LStore a => with_store s (run_op (store s) a)
  | LEnqueue i now =>
      match jobs s !! i with
      | Some (JTimer n) =>
          {| shared := shared s; queue := (Queue.Enqueue now n (queue s)).1;
             jobs := delete i (jobs s); sent := sent s |}
      | _ => s
      end
  | LDequeue now =>
      match Queue.Dequeue (queue s) with
      | (q, Some n) =>
          {| shared := shared s; queue := q;
             jobs := jobs s ++ [if Worker.early now n then JTimer n else JStart n]; sent := sent s |}
      | (_, None) => s
      end
  | LWake =>
      {| shared := shared s; queue := Queue.recv_wake (queue s); jobs := jobs s; sent := sent s |}
  | LBegin i e => match jobs s !! i with Some (JStart n) => begin_step e n (without i s) | _ => s end
  | LChoose i e =>
      match jobs s !! i with Some (JChoose n) => choose_step maxAttempts e n (without i s) | _ => s end
  | LFinish i e =>
      match jobs s !! i with Some (JSending n p) => finish_step maxAttempts e n p (without i s) | _ => s end
  end.

Definition run (maxAttempts : Z) (s : System) (ls : list label) : System := foldl (step maxAttempts) s ls.

(** At startup: a fresh store, an empty queue, no goroutine at work. *)
Definition init (p : string) (fs : gmap string Bytes) (cap : Z) (router : Router.Router)
    (lim : Rate.Bucket) : System := {|
  shared := {| Worker.d_store := fresh_store p fs; Worker.d_router := router; Worker.d_limiter := lim |};
  queue := Queue.New cap; jobs := []; sent := [] |}.

(** ** Specification *)

(** Every notification some part of the program holds. *)
Definition live (s : System) : list Notification := (Queue.contents (queue s)).*2 ++ (job_n <$> jobs s).

Definition keys (s : System) : list string := idempotency_key <$> live s.

Definition bound (s : System) (k : string) : Prop := is_Some (Idempotency (data (store s)) !! k).

Record unique (s : System) : Prop := {
  un_queue : Queue.queue_ok (queue s);
  un_keys : NoDup (keys s);
  un_bound : ∀ k, k ∈ keys s → bound s k;
  un_sent : ∀ k, k ∈ sent s → bound s k;
}.

(** ** Lemmas: what identifies a notification is kept *)

Definition tag (n : Notification) : string * string := (idempotency_key n, nID n).

(** What no step of a delivery changes: everything but status, attempts, provider,
    error, time of change and version. *)
Definition ident (n : Notification) : Notification := with_state n "" 0 "" "" time_zero 0.

(** The same notification, its status moved along edges of the machine. *)
Definition evolves (n m : Notification) : Prop :=
  ident m = ident n ∧ rtc (λ s t, is_allowed s t = true) (nStatus n) (nStatus m).

#[export] Instance evolves_pre : PreOrder evolves.
Proof.
  split; [by split|]. intros n m k [Hi Hr] [Hi' Hr']. split; [by rewrite Hi'|by etrans].
Qed.

Lemma evolves_tag n m : evolves n m → tag m = tag n.
Proof. intros [Hi _]. change (tag (ident m) = tag (ident n)). by rewrite Hi. Qed.

Lemma evolves_attempt n a p err : evolves n (set_attempt n a p err).
Proof. by split. Qed.

Lemma attempt_evolves n m a p err : evolves (set_attempt n a p err) m ↔ evolves n m.
Proof. done. Qed.

Lemma Transition_evolves now n next n' e :
  Transition now n next = (n', e) → evolves n n' ∧ nAttempts n' = nAttempts n.
Proof.
  intros [(-> & _)|[(-> & _)|(-> & _ & Ha & _)]]%Transition_cases; [done..|].
  split; [|done]. split; [done|by apply rtc_once].
Qed.

Lemma Transition_tag now n next n' e :
  Transition now n next = (n', e) → tag n' = tag n ∧ nAttempts n' = nAttempts n.
Proof. intros [?%evolves_tag ?]%Transition_evolves. done. Qed.

(** What the holder of [n] can do to the store: keys stay as they are, only the
    entry of [n] is written, and the file keeps its text or takes the new one. *)
Record wrote (n : Notification) (s s' : Store) : Prop := {
  wr_keys : Idempotency (data s') = Idempotency (data s);
  wr_entries : ∀ id m, Notifications (data s') !! id = Some m →
    Notifications (data s) !! id = Some m ∨ (id = nID n ∧ evolves n m);
  wr_file : written s s';
}.

Lemma wrote_refl n s : wrote n s s.
Proof. split; [done|by left|apply written_refl]. Qed.

Lemma Update_wrote t o n m v s : evolves n m → wrote n s (Update t o m v s).1.
Proof.
  intros Hm. destruct (Application.Update_cases t o m v s) as [[err He]|(old & _ & _ & Hd)].
  { rewrite He. apply wrote_refl. }
  split; [by rewrite Hd| |apply (run_op_written s (OpUpdate t o m v))].
  intros id x. rewrite Hd, updated_lookup. case_decide as Hid; [|by left].
  intros [= <-]. right. split; [|done]. apply evolves_tag in Hm as [= _ Hn]. by rewrite <- Hid, Hn.
Qed.

Lemma move_keys st n next s :
  wrote n s (Worker.move st n next s).1 ∧ evolves n (Worker.move st n next s).2.1 ∧
  nAttempts (Worker.move st n next s).2.1 = nAttempts n.
Proof.
  unfold Worker.move. destruct (Transition _ n next) as [n' e] eqn:Ht.
  apply Transition_evolves in Ht as [Hk Ha]. destruct e; [split_and!; [apply wrote_refl|done..]|].
  pose proof (Update_wrote (Worker.t_event st) (Worker.write st) n n' (nVersion n) s Hk) as Hu.
  by destruct (Update _ _ _ _ _).
Qed.

Lemma retry_keys maxA st n err s :
  wrote n s (Worker.retry maxA st n err s).1 ∧
  ∀ n' d, (Worker.retry maxA st n err s).2 = Some (n', d) →
    evolves n n' ∧ nAttempts n' = nAttempts n ∧ nAttempts n < maxA.
Proof.
  unfold Worker.retry. set (m := set_attempt n (nAttempts n) (nProvider n) err).
  change (nAttempts m) with (nAttempts n). destruct (Z.leb_spec maxA (nAttempts n)).
  { split; [|done]. pose proof (move_keys st m StatusFailed s) as ([H1 H2 H3] & _). by split. }
  destruct (Transition _ m StatusQueued) as [m' [e|]] eqn:Ht; [split; [apply wrote_refl|done]|].
  apply Transition_evolves in Ht as [Hk Ha]. split; [by apply Update_wrote|]. by intros n' d [= <- _].
Qed.

Lemma finish_keys maxA st n res e s :
  wrote n s (Worker.finish maxA st n res e s).1 ∧
  ∀ n' d, (Worker.finish maxA st n res e s).2 = Some (n', d) →
    evolves n n' ∧ nAttempts n' = nAttempts n ∧ nAttempts n < maxA.
Proof.
  unfold Worker.finish. destruct e as [err|]; [|split; [apply move_keys|done]].
  destruct (retry_keys maxA st (set_attempt n (nAttempts n) (nProvider n) (ErrorClass res)) err s)
    as [[H1 H2 H3] Hk]. by split.
Qed.

Lemma begin_keys e n sh :
  wrote n (Worker.d_store sh) (Worker.d_store (Worker.begin e n sh).1) ∧
  ∀ n', (Worker.begin e n sh).2 = Worker.Delayed n' ∨ (Worker.begin e n sh).2 = Worker.Started n' →
    evolves n n' ∧ nAttempts n' = nAttempts n.
Proof.
  unfold Worker.begin. destruct (Worker.expired (Worker.now e) n).
  - destruct (Transition _ n StatusExpired) as [n' err] eqn:Ht. apply Transition_evolves in Ht as [Hk _].
    simpl. split; [by apply Update_wrote|]. by intros ? [?|?].
  - destruct (Rate.Allow _ _ _) as [lim ok]. destruct ok; cbn [negb Worker.d_store].
    2: { split; [apply wrote_refl|]. by intros n' [[= <-]|?]. }
    pose proof (move_keys (Worker.first e) n StatusProcessing (Worker.d_store sh)) as (Hs & Hk & Ha).
    destruct (Worker.move _ n StatusProcessing _) as [s' [n' [err|]]]; cbn [fst snd] in *.
    + split; [done|]. by intros ? [?|?].
    + split; [done|]. by intros ? [?|[= <-]].
Qed.

Lemma run_op_bound s a k :
  is_Some (Idempotency (data s) !! k) → is_Some (Idempotency (data (run_op s a)) !! k).
Proof.
  rewrite data_run_op. intros [id Hid]. exists id.
  eapply lookup_weaken; [done|]. apply (grows_keys _ _ (grows_data_op (data s) a)).
Qed.

(** ** Lemmas: no step duplicates a key *)

Lemma keys_take s i j : jobs s !! i = Some j → keys s ≡ₚ idempotency_key (job_n j) :: keys (without i s).
Proof.
  intros Hj. unfold keys, live. cbn [queue jobs without]. rewrite (delete_Permutation _ _ _ Hj) at 1.
  rewrite !fmap_app, !fmap_cons. symmetry. apply Permutation_middle.
Qed.

(** What a step leaves, when it works on a state from which the job was taken. *)
Record left_by (s s' : System) (n : Notification) (l : list job) : Prop := {
  lb_queue : queue s' = queue s;
  lb_jobs : jobs s' = jobs s ++ l;
  lb_store : wrote n (store s) (store s');
  lb_one : (length l ≤ 1)%nat;
  lb_evolves : Forall (λ j, evolves n (job_n j)) l;
}.

Lemma left_by_tags s s' n l : left_by s s' n l → (tag ∘ job_n) <$> l ⊆+ [tag n].
Proof.
  intros [_ _ _ Hone Hev]. destruct l as [|j [|]]; simpl in Hone |- *; [apply submseteq_nil_l| |lia].
  apply Forall_cons in Hev as [Hev%evolves_tag _]. cbn. by rewrite Hev.
Qed.

Lemma tag_key n m : tag n = tag m → idempotency_key n = idempotency_key m.
Proof. by intros [= ? _]. Qed.

Lemma left_by_keys s s' n l :
  left_by s s' n l → (idempotency_key ∘ job_n) <$> l ⊆+ [idempotency_key n].
Proof.
  intros Hone%left_by_tags. apply (fmap_submseteq fst) in Hone. by rewrite <- list_fmap_compose in Hone.
Qed.

Lemma timer_one (n : Notification) (o : option (Notification * Duration)) :
  (∀ n' d, o = Some (n', d) → evolves n n') →
  (length (timer o) ≤ 1)%nat ∧ Forall (λ j, evolves n (job_n j)) (timer o).
Proof.
  intros Hk. destruct o as [[n' d]|]; (split; [simpl; lia|]); [|constructor].
  apply Forall_singleton, (Hk n' d eq_refl).
Qed.

Lemma begin_step_left e n s : ∃ l,
  left_by s (begin_step e n s) n l ∧ sent (begin_step e n s) = sent s.
Proof.
  unfold begin_step. pose proof (begin_keys e n (shared s)) as [Hs Hk].
  destruct (Worker.begin e n (shared s)) as [sh out]. cbn [fst snd] in *. eexists. split; [|done].
  split; [done|done|exact Hs|destruct out; simpl; lia|].
  destruct out as [|n'|n']; [constructor|..]; apply Forall_singleton; apply Hk; auto.
Qed.

Lemma choose_step_left maxA e n s : ∃ l,
  left_by s (choose_step maxA e n s) n l ∧
  (sent (choose_step maxA e n s) = sent s ∨
   sent (choose_step maxA e n s) = sent s ++ [idempotency_key n]).
Proof.
  unfold choose_step. destruct (Router.Choose _ _ _ _) as [router [p|err]].
  - eexists. split; [|by right]. split; [done..|apply wrote_refl|simpl; lia|by apply Forall_singleton].
  - pose proof (retry_keys maxA (Worker.second e) n err (Worker.d_store (shared s))) as [Hs Hk].
    destruct (Worker.retry _ _ _ _ _) as [st o]. eexists. split; [|by left].
    split; [done|done|exact Hs|eapply (timer_one n)..]; intros n' d Ho; by apply (Hk n' d).
Qed.

Lemma finish_step_left maxA e n p s : ∃ l,
  left_by s (finish_step maxA e n p s) n l ∧ sent (finish_step maxA e n p s) = sent s.
Proof.
  unfold finish_step. destruct (Worker.reply e p (Worker.request_of n)) as [res sendErr].
  pose proof (finish_keys maxA (Worker.second e) n res sendErr (Worker.d_store (shared s))) as [Hs Hk].
  destruct (Worker.finish _ _ _ _ _ _) as [st o]. eexists. split; [|done].
  split; [done|done|exact Hs|eapply (timer_one n)..]; intros n' d Ho; by apply (Hk n' d).
Qed.

Lemma NoDup_sub {A} (l k : list A) : l ⊆+ k → NoDup k → NoDup l.
Proof. intros [k' ->]%submseteq_Permutation Hnd. by apply NoDup_app in Hnd as [? _]. Qed.

Lemma unique_sub s s' :
  unique s → Queue.queue_ok (queue s') → keys s' ⊆+ keys s →
  (∀ k, bound s k → bound s' k) → (∀ k, k ∈ sent s' → k ∈ sent s ∨ k ∈ keys s) → unique s'.
Proof.
  intros [Hq Hnd Hb Hse] Hq' Hsub Hmono Hsent. split; [done|by eapply NoDup_sub| |].
  - intros k Hk. apply Hmono, Hb. by eapply elem_of_submseteq.
  - intros k [Hk|Hk]%Hsent; apply Hmono; auto.
Qed.

Lemma unique_left s i j s' l :
  unique s → jobs s !! i = Some j → left_by (without i s) s' (job_n j) l →
  (sent s' = sent s ∨ sent s' = sent s ++ [idempotency_key (job_n j)]) → unique s'.
Proof.
  intros Hu Hj Hl Hsent. pose proof (left_by_keys _ _ _ _ Hl) as Hone.
  destruct Hl as [Hq Hjobs [Hst _ _] _ _]. pose proof (keys_take s i j Hj) as Hk.
  apply (unique_sub s); [done| | | |].
  - rewrite Hq. apply (un_queue _ Hu).
  - rewrite Hk. unfold keys, live in *. rewrite Hq, Hjobs, !fmap_app, (assoc_L (++)), <- fmap_app.
    rewrite <- list_fmap_compose. rewrite (Permutation_cons_append _ (idempotency_key (job_n j))).
    by apply submseteq_app.
  - intros k. unfold bound. rewrite Hst. done.
  - intros k. destruct Hsent as [->| ->]; [by left|]. rewrite elem_of_app, list_elem_of_singleton.
    intros [?| ->]; [by left|right]. rewrite Hk. left.
Qed.

Lemma unique_submit e n s : unique s → unique (submit e n s).
Proof.
  intros Hu. unfold submit. destruct (Validate n) as [m [err|]]; [done|]. set (m' := Application.prepare e m).
  destruct (Application.suppressed m' (store s)); [done|].
  destruct (Idempotency (data (store s)) !! idempotency_key m') as [id|] eqn:Hfree.
  { rewrite (Create_bound _ _ _ _ _ id) by done. cbn [andb]. by destruct s as [[]]. }
  destruct (Create_fresh (Application.t_event e) (Application.t_outbox e) (Application.write e) m' (store s) Hfree)
    as [Hc Hd].
  destruct (Create _ _ _ m' (store s)) as [st [[saved created] err]]. cbn [fst snd] in *.
  injection Hc as -> ->.
  assert (Hmono : ∀ k, bound s k → is_Some (Idempotency (data st) !! k)).
  { intros k. unfold bound. rewrite Hd. simpl. rewrite lookup_insert. by case_decide. }
  assert (Hu1 : unique (with_store s st)).
  { apply (unique_sub s); [done|apply (un_queue _ Hu)|done|exact Hmono|by left]. }
  destruct (_ && _); [|done]. destruct Hu1 as [Hq Hnd Hb Hse].
  assert (Hkeys : keys (add_jobs (with_store s st) [JTimer m']) = keys s ++ [idempotency_key m']).
  { unfold keys, live. cbn [queue jobs add_jobs with_store]. by rewrite !fmap_app, (assoc_L (++)). }
  split; [done| | |done].
  - rewrite Hkeys. apply NoDup_app. split_and!; [apply (un_keys _ Hu)| |apply NoDup_singleton].
    intros k Hk ->%list_elem_of_singleton. apply (un_bound _ Hu) in Hk. unfold bound in Hk.
    rewrite Hfree in Hk. by destruct Hk.
  - rewrite Hkeys. intros k [Hk|Hk]%elem_of_app; [by apply Hb|].
    apply list_elem_of_singleton in Hk as ->. unfold bound, store. cbn. rewrite Hd. simpl.
    rewrite lookup_insert_eq. by eexists.
Qed.

Lemma unique_step maxA s l : unique s → unique (step maxA s l).
Proof.
  intros Hu. destruct l as [e n|e id|a|i now|now| |i e|i e|i e]; cbn [step].
  - by apply unique_submit.
  - destruct (Get id (store s)); [by apply unique_submit|done].
  - assert (Hgen : unique (with_store s (run_op (store s) a))).
    { apply (unique_sub s); [done|apply (un_queue _ Hu)|done| |by left]. intros k. apply run_op_bound. }
    by destruct a.
  - destruct (jobs s !! i) as [[n| | |]|] eqn:Hj; try done.
    apply (unique_sub s); [done|by apply Queue.Enqueue_ok, (un_queue _ Hu)| |done|by left].
    rewrite (keys_take s i _ Hj). unfold keys, live. cbn [queue jobs without].
    rewrite (fmap_Permutation snd _ _ (Queue.Enqueue_contents now n (queue s))).
    case_match; [by apply submseteq_cons|done].
  - pose proof (Queue.Dequeue_deq (queue s) (proj1 (un_queue _ Hu))) as Hdq.
    pose proof (Queue.Dequeue_ok (queue s) (un_queue _ Hu)) as Hq.
    destruct (Queue.Dequeue (queue s)) as [q [n|]]; [|done]. cbn [fst snd] in *.
    inversion Hdq as [|en l' Hp _ Hl' Hn]; subst.
    apply (unique_sub s); [done|done| |done|by left]. unfold keys, live. cbn [queue jobs].
    rewrite (fmap_Permutation snd _ _ Hp). rewrite !fmap_app.
    replace (job_n <$> [if Worker.early now en.2 then JTimer en.2 else JStart en.2]) with [en.2]
      by (by destruct (Worker.early now en.2)).
    rewrite !fmap_cons. cbn [app]. rewrite (assoc_L (++)). simpl. by rewrite <- Permutation_cons_append.
  - apply (unique_sub s); [done|apply (un_queue _ Hu)|done..|by left].
  - destruct (jobs s !! i) as [[|n| |]|] eqn:Hj; try done.
    destruct (begin_step_left e n (without i s)) as (l & Hl & Hs).
    eapply unique_left; [done|done|exact Hl|]. by left.
  - destruct (jobs s !! i) as [[| |n|]|] eqn:Hj; try done.
    destruct (choose_step_left maxA e n (without i s)) as (l & Hl & Hs).
    eapply unique_left; [done|done|exact Hl|exact Hs].
  - destruct (jobs s !! i) as [[| | |n p]|] eqn:Hj; try done.
    destruct (finish_step_left maxA e n p (without i s)) as (l & Hl & Hs).
    eapply unique_left; [done|done|exact Hl|]. by left.
Qed.

Lemma unique_init p fs cap router lim : unique (init p fs cap router lim).
Proof. split; [apply Queue.New_ok|constructor| |]; intros k Hk; by apply elem_of_nil in Hk. Qed.

Lemma unique_run maxA s ls : unique s → unique (run maxA s ls).
Proof. revert s. induction ls as [|l ls IH]; intros s Hu; simpl; [done|]. by apply IH, unique_step. Qed.

(** ** The number of calls of a provider *)

Definition count (k : string) (l : list string) : Z := Z.of_nat (length (base.filter (λ x, x = k) l)).

(** Attempts count the calls made, and whoever may call again is below the limit. *)
Definition waiting (maxA : Z) (l : list string) (n : Notification) : Prop :=
  0 ≤ nAttempts n < max_int64 ∧ count (idempotency_key n) l ≤ nAttempts n ∧
  (count (idempotency_key n) l = 0 ∨ nAttempts n < maxA).

Definition job_ok (maxA : Z) (l : list string) (j : job) : Prop :=
  match j with
  | JSending n _ => 0 ≤ nAttempts n ≤ max_int64 ∧ count (idempotency_key n) l ≤ nAttempts n
  | _ => waiting maxA l (job_n j)
  end.

Record bounded (maxA : Z) (s : System) : Prop := {
  bd_all : ∀ k, count k (sent s) ≤ Z.max 1 maxA;
  bd_queue : ∀ n, n ∈ (Queue.contents (queue s)).*2 → waiting maxA (sent s) n;
  bd_jobs : ∀ j, j ∈ jobs s → job_ok maxA (sent s) j;
}.

(** A submission whose attempt counter a call can still increment. *)
Definition label_ok (l : label) : Prop :=
  match l with
  | LSubmit _ n => 0 ≤ nAttempts n < max_int64
  | _ => True
  end.

Lemma count_snoc k x l : count k (l ++ [x]) = count k l + (if decide (x = k) then 1 else 0).
Proof.
  unfold count. rewrite filter_app, length_app, filter_cons. case_decide; simpl; lia.
Qed.

Lemma count_0 k l : k ∉ l → count k l = 0.
Proof.
  intros Hk. unfold count. replace (base.filter (λ x, x = k) l) with (@nil string); [done|].
  symmetry. destruct (base.filter (λ x, x = k) l) as [|x r] eqn:Hf; [done|].
  assert (Hx : x ∈ base.filter (λ x, x = k) l) by (rewrite Hf; left).
  apply list_elem_of_filter in Hx as [-> ?]. done.
Qed.

Lemma job_ok_other maxA l k j : idempotency_key (job_n j) ≠ k → job_ok maxA l j → job_ok maxA (l ++ [k]) j.
Proof.
  intros Hne. destruct j; unfold job_ok, waiting; cbn [job_n] in *;
    rewrite count_snoc, decide_False by congruence; by rewrite Z.add_0_r.
Qed.

Lemma bounded_left maxA s i j s' l :
  bounded maxA s → jobs s !! i = Some j → left_by (without i s) s' (job_n j) l →
  sent s' = sent s → Forall (job_ok maxA (sent s)) l → bounded maxA s'.
Proof.
  intros [Ha Hq Hjs] Hj [Hqs Hjobs _ _ _] Hsent Hl. split; rewrite ?Hsent, ?Hqs; [done..|].
  rewrite Hjobs. intros x [Hx|Hx]%elem_of_app; [|by rewrite Forall_forall in Hl; apply Hl].
  apply Hjs. cbn [jobs without] in Hx. rewrite (delete_Permutation _ _ _ Hj). by right.
Qed.

(** Jobs of a retried notification. *)
Lemma timer_ok maxA l (n : Notification) (o : option (Notification * Duration)) :
  (∀ n' d, o = Some (n', d) →
     evolves n n' ∧ nAttempts n' = nAttempts n ∧ nAttempts n < maxA) →
  maxA ≤ max_int64 → 0 ≤ nAttempts n → count (idempotency_key n) l ≤ nAttempts n →
  Forall (job_ok maxA l) (timer o).
Proof.
  intros Ho Hm Hn Hc. destruct o as [[n' d]|]; simpl; [|constructor]. constructor; [|constructor].
  destruct (Ho n' d eq_refl) as (Hk & Ha & Hlt). unfold job_ok, waiting. cbn [job_n].
  rewrite (tag_key _ _ (evolves_tag _ _ Hk)), Ha. lia.
Qed.

Lemma bounded_begin maxA s i n e :
  bounded maxA s → jobs s !! i = Some (JStart n) → bounded maxA (begin_step e n (without i s)).
Proof.
  intros Hb Hj. destruct (begin_step_left e n (without i s)) as (l & Hl & Hs).
  eapply bounded_left; [done|done|exact Hl|exact Hs|].
  pose proof (lb_jobs _ _ _ _ Hl) as Hjobs. revert Hjobs. unfold begin_step.
  pose proof (begin_keys e n (shared (without i s))) as [_ Hk].
  destruct (Worker.begin e n (shared (without i s))) as [sh out]. cbn [fst snd jobs] in *.
  intros <-%(inj (app _)). pose proof (bd_jobs _ _ Hb _ (list_elem_of_lookup_2 _ _ _ Hj)) as Hw.
  cbn [job_ok job_n] in Hw.
  destruct out as [|n'|n']; [constructor|..]; apply Forall_singleton;
    destruct (Hk n' ltac:(auto)) as [Hkey%evolves_tag%tag_key Hatt]; unfold job_ok, waiting in *; cbn [job_n];
    by rewrite Hkey, Hatt.
Qed.

Lemma bounded_choose maxA s i n e :
  unique s → bounded maxA s → maxA ≤ max_int64 → jobs s !! i = Some (JChoose n) →
  bounded maxA (choose_step maxA e n (without i s)).
Proof.
  intros Hu Hb Hm Hj. pose proof (bd_jobs _ _ Hb _ (list_elem_of_lookup_2 _ _ _ Hj)) as Hw.
  cbn [job_ok job_n] in Hw. destruct Hw as (Hr & Hc & Hlim).
  pose proof (keys_take s i _ Hj) as Hkeys. pose proof (un_keys _ Hu) as Hnd. rewrite Hkeys in Hnd.
  apply NoDup_cons in Hnd as [Hother _]. cbn [job_n] in Hother.
  unfold choose_step. destruct (Router.Choose _ _ _ _) as [router [p|err]].
  - split; cbn [sent queue jobs without].
    + intros k. rewrite count_snoc. pose proof (bd_all _ _ Hb k). case_decide; [subst k|]; lia.
    + intros m Hmin. apply (job_ok_other maxA (sent s) (idempotency_key n) (JTimer m)); [|by apply (bd_queue _ _ Hb)].
      intros Heq. apply Hother. rewrite <- Heq. unfold keys, live. rewrite fmap_app, elem_of_app. left.
      by apply list_elem_of_fmap_2.
    + intros j [Hin|Hin]%elem_of_app.
      * apply job_ok_other.
        { intros Heq. apply Hother. rewrite <- Heq. unfold keys, live. rewrite fmap_app, elem_of_app. right.
          by do 2 apply list_elem_of_fmap_2. }
        apply (bd_jobs _ _ Hb). rewrite (delete_Permutation _ _ _ Hj). by right.
      * apply list_elem_of_singleton in Hin as ->. cbn [job_ok].
        change (idempotency_key (Worker.attempt (Name p) n)) with (idempotency_key n).
        rewrite count_snoc, decide_True by done.
        change (nAttempts (Worker.attempt (Name p) n)) with (wrap64 (nAttempts n + 1)).
        rewrite wrap64_small by (unfold in_int64, min_int64, max_int64 in *; lia). lia.
  - pose proof (retry_keys maxA (Worker.second e) n err (Worker.d_store (shared (without i s)))) as [_ Hk].
    destruct (Worker.retry _ _ _ _ _) as [st o]. cbn [fst snd] in Hk.
    pose proof (timer_ok maxA (sent s) n o Hk Hm ltac:(lia) Hc) as Ht.
    split; cbn [sent queue jobs without]; [apply (bd_all _ _ Hb)|apply (bd_queue _ _ Hb)|].
    intros j [Hin|Hin]%elem_of_app; [|by rewrite Forall_forall in Ht; apply Ht].
    apply (bd_jobs _ _ Hb). rewrite (delete_Permutation _ _ _ Hj). by right.
Qed.

Lemma bounded_finish maxA s i n p e :
  bounded maxA s → maxA ≤ max_int64 → jobs s !! i = Some (JSending n p) →
  bounded maxA (finish_step maxA e n p (without i s)).
Proof.
  intros Hb Hm Hj. destruct (finish_step_left maxA e n p (without i s)) as (l & Hl & Hs).
  eapply bounded_left; [done|done|exact Hl|exact Hs|].
  pose proof (lb_jobs _ _ _ _ Hl) as Hjobs. revert Hjobs. unfold finish_step.
  destruct (Worker.reply e p (Worker.request_of n)) as [res sendErr].
  pose proof (finish_keys maxA (Worker.second e) n res sendErr (Worker.d_store (shared (without i s)))) as [_ Hk].
  destruct (Worker.finish _ _ _ _ _ _) as [st o]. cbn [fst snd jobs] in *. intros <-%(inj (app _)).
  pose proof (bd_jobs _ _ Hb _ (list_elem_of_lookup_2 _ _ _ Hj)) as Hw. cbn [job_ok] in Hw.
  apply (timer_ok maxA (sent s) n); [done|done|lia|lia].
Qed.

Lemma bounded_submit maxA e n s :
  unique s → bounded maxA s → 0 ≤ nAttempts n < max_int64 → bounded maxA (submit e n s).
Proof.
  intros Hu Hb Hn. unfold submit. pose proof (Application.Validate_header_fields n) as (_ & _ & _ & Hatt & _ & _).
  destruct (Validate n) as [m [err|]]; [done|]. cbn [fst] in Hatt. set (m' := Application.prepare e m).
  destruct (Application.suppressed m' (store s)); [done|].
  destruct (Idempotency (data (store s)) !! idempotency_key m') as [id|] eqn:Hfree.
  { rewrite (Create_bound _ _ _ _ _ id) by done. cbn [andb]. by destruct s as [[]]. }
  destruct (Create_fresh (Application.t_event e) (Application.t_outbox e) (Application.write e) m' (store s) Hfree)
    as [Hc _].
  destruct (Create _ _ _ m' (store s)) as [st [[saved created] err]]. cbn [fst snd] in *. injection Hc as -> ->.
  destruct Hb as [Ha Hq Hj]. destruct (_ && _); [|done]. split; cbn [sent queue jobs add_jobs with_store]; [done..|].
  intros j [Hin|Hin]%elem_of_app; [by apply Hj|]. apply list_elem_of_singleton in Hin as ->.
  unfold job_ok, waiting. cbn [job_n].
  rewrite count_0; [change (nAttempts m') with (nAttempts m); rewrite Hatt; lia|].
  intros Hin. apply (un_sent _ Hu) in Hin. unfold bound in Hin. rewrite Hfree in Hin. by destruct Hin.
Qed.

Lemma bounded_step maxA s l :
  unique s → bounded maxA s → maxA ≤ max_int64 → label_ok l → bounded maxA (step maxA s l).
Proof.
  intros Hu Hb Hm Hl. destruct l as [e n|e id|a|i now|now| |i e|i e|i e]; cbn [step].
  - by apply bounded_submit.
  - destruct (Get id (store s)); [|done]. by apply bounded_submit.
  - destruct Hb. by destruct a.
  - destruct (jobs s !! i) as [[n| | |]|] eqn:Hj; try done.
    pose proof (bd_jobs _ _ Hb _ (list_elem_of_lookup_2 _ _ _ Hj)) as Hw. cbn [job_ok job_n] in Hw.
    split; cbn [sent queue jobs]; [apply (bd_all _ _ Hb)| |].
    + intros m. rewrite (fmap_Permutation snd _ _ (Queue.Enqueue_contents now n (queue s))).
      case_match; [apply (bd_queue _ _ Hb)|]. rewrite fmap_cons. intros [->|Hin]%elem_of_cons; [done|].
      by apply (bd_queue _ _ Hb).
    + intros j Hin. apply (bd_jobs _ _ Hb). rewrite (delete_Permutation _ _ _ Hj). by right.
  - pose proof (Queue.Dequeue_deq (queue s) (proj1 (un_queue _ Hu))) as Hdq.
    destruct (Queue.Dequeue (queue s)) as [q [n|]]; [|done]. cbn [fst snd] in *.
    inversion Hdq as [|en l' Hp _ Hl' Hn]; subst.
    assert (Hin : ∀ m, m ∈ en.2 :: (Queue.contents q).*2 → waiting maxA (sent s) m).
    { intros m Hm'. apply (bd_queue _ _ Hb). rewrite (fmap_Permutation snd _ _ Hp). done. }
    split; cbn [sent queue jobs]; [apply (bd_all _ _ Hb)|intros m ?; apply Hin; by right|].
    intros j [Hj|Hj]%elem_of_app; [by apply (bd_jobs _ _ Hb)|].
    apply list_elem_of_singleton in Hj as ->. destruct (Worker.early now en.2); apply Hin; left.
  - by destruct Hb.
  - destruct (jobs s !! i) as [[|n| |]|] eqn:Hj; try done. by apply bounded_begin.
  - destruct (jobs s !! i) as [[| |n|]|] eqn:Hj; try done. by apply bounded_choose.
  - destruct (jobs s !! i) as [[| | |n p]|] eqn:Hj; try done. by apply bounded_finish.
Qed.

Lemma bounded_run maxA s ls :
  unique s → bounded maxA s → maxA ≤ max_int64 → Forall label_ok ls → bounded maxA (run maxA s ls).
Proof.
  intros Hu Hb Hm. revert s Hu Hb. induction ls as [|l ls IH]; intros s Hu Hb Hls; simpl; [done|].
  inversion_clear Hls. apply IH; [by apply unique_step|by apply bounded_step|done].
Qed.

Lemma bounded_init maxA p fs cap router lim : bounded maxA (init p fs cap router lim).
Proof.
  split; cbn; [intros k; unfold count; simpl; lia|..]; intros x Hx; by apply elem_of_nil in Hx.
Qed.

(** ** Properties *)

(** C4: under every interleaving of submissions, replays, cancellations,
    receipts, timers and workers, the queue and the goroutines together never hold
    two notifications with the same tenant and key: no notification is queued
    twice, or delivered by two workers at once. *)
Theorem one_copy (maxAttempts cap : Z) (p : string) (fs : gmap string Bytes) (router : Router.Router)
    (lim : Rate.Bucket) (ls : list label) :
  let s := run maxAttempts (init p fs cap router lim) ls in
  NoDup (keys s) ∧ Queue.queue_ok (queue s) ∧
  ∀ i j n p n' p', jobs s !! i = Some (JSending n p) → jobs s !! j = Some (JSending n' p') →
    idempotency_key n = idempotency_key n' → i = j.
Proof.
  cbn zeta. set (s := run _ _ _). assert (Hu : unique s) by apply unique_run, unique_init.
  split_and!; [apply (un_keys _ Hu)|apply (un_queue _ Hu)|].
  intros i j n p1 n' p2 Hi Hj Hk. pose proof (un_keys _ Hu) as Hnd. unfold keys, live in Hnd.
  rewrite fmap_app in Hnd. apply NoDup_app in Hnd as (_ & _ & Hnd).
  apply (NoDup_lookup _ i j (idempotency_key n) Hnd); rewrite !list_lookup_fmap; [by rewrite Hi|].
  rewrite Hj. simpl. by rewrite Hk.
Qed.

(** Under every interleaving a notification is handed to a provider at
    most [MaxAttempts] times between two starts of the program (once if that is
    not positive), whatever fails, provided the submitted attempt counters are not
    negative and not the largest integer. *)
Theorem sends_bounded (maxAttempts cap : Z) (p : string) (fs : gmap string Bytes) (router : Router.Router)
    (lim : Rate.Bucket) (ls : list label) :
  maxAttempts ≤ max_int64 → Forall label_ok ls →
  ∀ k, count k (sent (run maxAttempts (init p fs cap router lim) ls)) ≤ Z.max 1 maxAttempts.
Proof.
  intros Hm Hls k. apply bd_all.
  apply bounded_run; [apply unique_init|apply bounded_init|done..].
Qed.

(** The sequential methods of the components are runs of these steps: an
    undisturbed [deliver] is its three steps, and [Submit] is its store step
    followed by its [Enqueue]. *)
Lemma steps_refine (maxAttempts : Z) (s : System) :
  (∀ e n, jobs s = [JStart n] → Worker.others e = [] →
     let s' := run maxAttempts s [LBegin 0 e; LChoose 0 e; LFinish 0 e] in
     let '(sh, o) := Worker.deliver maxAttempts e n (shared s) in
     shared s' = sh ∧ queue s' = queue s ∧
     jobs s' = match o with Worker.Finished => [] | Worker.Again m _ => [JTimer m] end) ∧
  (∀ e n, jobs s = [] →
     let s' := run maxAttempts s [LSubmit e n; LEnqueue 0 (Application.t_enqueue e)] in
     let '(a, _) := Application.Submit e None n
       {| Application.Store_ := store s; Application.Queue_ := queue s |} in
     store s' = Application.Store_ a ∧ queue s' = Application.Queue_ a ∧ jobs s' = []).
Proof.
  split.
  - intros e n Hj Hoth. unfold run. cbn [foldl step]. rewrite Hj. cbn [lookup list_lookup].
    unfold begin_step, Worker.deliver. cbn [shared queue jobs sent without].
    rewrite Hj. cbn [delete list_delete app].
    destruct (Worker.begin e n (shared s)) as [sh [|m|m]]; cbn [jobs lookup list_lookup foldl]; [done..|].
    unfold choose_step. cbn [shared queue jobs sent without delete list_delete app]. rewrite Hoth. cbn [foldl].
    destruct (Router.Choose _ _ _ _) as [router [p|err]]; cbn [jobs lookup list_lookup].
    + unfold finish_step. cbn [shared queue jobs sent without delete list_delete app
        Worker.d_store Worker.d_router Worker.d_limiter].
      destruct (Worker.reply e p _) as [res sendErr].
      destruct (Worker.finish _ _ _ _ _ _) as [st [[m' d]|]]; done.
    + destruct (Worker.retry _ _ _ _ _) as [st [[m' d]|]]; done.
  - intros e n Hj. unfold run. cbn [foldl step]. unfold submit, Application.Submit.
    destruct (Validate n) as [m [err|]]; [by rewrite Hj|]. set (m' := Application.prepare e m).
    cbn [Application.Store_]. destruct (Application.suppressed m' (store s)); [by rewrite Hj|].
    destruct (Create _ _ _ m' (store s)) as [st [[saved created] err]].
    destruct err as [err|].
    { rewrite bool_decide_false, andb_false_r by done. cbn [andb jobs with_store]. by rewrite Hj. }
    rewrite bool_decide_true, andb_true_r by done.
    destruct created; [|cbn [andb jobs with_store]; by rewrite Hj]. cbn [andb].
    destruct (Application.due _ _); [|cbn [jobs with_store]; by rewrite Hj].
    cbn [jobs add_jobs with_store]. rewrite Hj. cbn [app lookup list_lookup queue add_jobs with_store].
    cbn [Application.Queue_]. by destruct (Queue.Enqueue _ _ _) as [q [qerr|]].
Qed.
End system.

(** ** Witnesses *)

#[local] Existing Instance memory_codec.
#[local] Instance ascii_only : Unicode := {| to_lower_table := λ r, r |}.
#[local] Instance amd64 : Arch := {| float_overflow := min_int64 |}.
#[local] Existing Instance map_to_list_range.

Definition wenv : Worker.Env (P := Mock) := Worker.env1 [].

Definition one_failure : list (label (P := Mock)) := [
  LSubmit Application.env0 sample_email; LSubmit Application.env1 sample_email; LEnqueue 0 10;
  LDequeue 11; LBegin 0 wenv; LChoose 0 wenv; LFinish 0 wenv].

Definition start : System (P := Mock) :=
  init "store.json" ∅ 10 (Router.Add (Worker.mock1 1) Router.New) (Rate.hundred 0).

Lemma sends_bounded_witness :
  count "acme:invoice-1" (sent (run 5 start one_failure)) ≤ Z.max 1 5.
Proof.
  apply (sends_bounded 5 10 "store.json" ∅ (Router.Add (Worker.mock1 1) Router.New) (Rate.hundred 0)
    one_failure).
  - vm_compute. discriminate.
  - repeat constructor; vm_compute; discriminate.
Defined.

Example run_ex :
  sent (run 5 start one_failure) = ["acme:invoice-1"] ∧
  length (jobs (run 5 start one_failure)) = 1%nat ∧ Queue.Len (queue (run 5 start one_failure)) = 0.
Proof. by vm_compute. Qed.

(** The attempts of a request are not reset: one that says -1 is handed to the
    provider once more than the limit. *)
Example negative_attempts :
  let again := [LEnqueue 0 10; LDequeue 11; LBegin 0 wenv; LChoose 0 wenv; LFinish 0 wenv] in
  let ls := LSubmit Application.env0 (set_attempt sample_email (-1) "" "") :: again ++ again in
  sent (run 1 start ls) = ["acme:invoice-1"; "acme:invoice-1"].
Proof. by vm_compute. Qed.

End System.
