(* ===== verification/Registry.v ===== *)
(** * Package [provider]: the configuration registry
    ([internal/provider/registry.go]) *)

From S2P Require Export Domain GoSort.
Local Open Scope Z_scope.

Module Registry.

Record CredentialReference := { SecretName : string; SecretKey : string; CredVersion : string }.

Definition validate_credentials (r : CredentialReference) : option error :=
  if decide (TrimSpace (SecretName r) = "") then Some "secret name is required"
  else if decide (TrimSpace (SecretKey r) = "") then Some "secret key is required"
  else if Contains (SecretName r) ".." || Contains (SecretKey r) ".."
  then Some "secret reference contains invalid path component"
  else None.

Record Configuration := {
  ID : string;
  TenantID : string;
  Name : string;
  Channel_ : Channel;
  Region : string;
  Priority : Z;
  Enabled : bool;
  Credentials : CredentialReference;
  RatePerSec : Z;
  Concurrency : Z;
  CreatedAt : time;
  UpdatedAt : time;
  Version : Z;
}.

Definition Validate (c : Configuration) : option error :=
  if decide (TrimSpace (ID c) = "") then Some "provider id and tenant are required"
  else if decide (TrimSpace (TenantID c) = "") then Some "provider id and tenant are required"
  else if bool_decide (Channel_ c ∉ [ChannelEmail; ChannelSMS; ChannelWebhook; ChannelPush])
  then Some "unsupported provider channel"
  else if decide (TrimSpace (Region c) = "") then Some "provider region is required"
  else if (Priority c <? 0) || (1000 <? Priority c) then Some "provider priority must be between 0 and 1000"
  else if (RatePerSec c <? 1) || (Concurrency c <? 1) then Some "provider capacity must be positive"
  else validate_credentials (Credentials c).

Record Registry := { configs : gmap string Configuration }.

Definition NewRegistry : Registry := {| configs := ∅ |}.

(** The fields the registry sets itself. *)
Definition stamp (c : Configuration) (enabled : bool) (created updated : time) (version : Z) : Configuration := {|
  ID := ID c; TenantID := TenantID c; Name := Name c; Channel_ := Channel_ c; Region := Region c;
  Priority := Priority c; Enabled := enabled; Credentials := Credentials c;
  RatePerSec := RatePerSec c; Concurrency := Concurrency c;
  CreatedAt := created; UpdatedAt := updated; Version := version |}.

Definition put (r : Registry) (id : string) (c : Configuration) : Registry :=
  {| configs := <[id := c]> (configs r) |}.

Definition Register (now : time) (c : Configuration) (r : Registry) : Registry * option error :=
  match Validate c with
  | Some e => (r, Some e)
  | None =>
      match configs r !! ID c with
      | Some _ => (r, Some "provider configuration already exists")
      | None => (put r (ID c) (stamp c (Enabled c) now now 1), None)
      end
  end.

Definition Update (now : time) (c : Configuration) (expectedVersion : Z) (r : Registry) :
    Registry * option error :=
  match Validate c with
  | Some e => (r, Some e)
  | None =>
      match configs r !! ID c with
      | None => (r, Some "provider configuration not found")
      | Some previous =>
          if negb (Version previous =? expectedVersion)
          then (r, Some "provider configuration version conflict")
          else (put r (ID c) (stamp c (Enabled c) (CreatedAt previous) now (wrap64 (Version previous + 1))), None)
      end
  end.

Definition SetEnabled (now : time) (id : string) (enabled : bool) (expectedVersion : Z) (r : Registry) :
    Registry * option error :=
  match configs r !! id with
  | None => (r, Some "provider configuration not found")
  | Some c =>
      if negb (Version c =? expectedVersion) then (r, Some "provider configuration version conflict")
      else (put r id (stamp c enabled (CreatedAt c) now (wrap64 (Version c + 1))), None)
  end.

Definition Get (id : string) (r : Registry) : result Configuration :=
  match configs r !! id with
  | None => Err "provider configuration not found"
  | Some c => Ok c
  end.

(** [sort.Slice] by priority, then by id. *)
Definition config_less : Configuration → Configuration → bool := less_prio_name Priority ID.

Definition List `{!MapRange, !SortSlice} (tenant : string) (channel : Channel) (r : Registry) :
    list Configuration :=
  sort_slice config_less
    (base.filter (λ c, (tenant = "" ∨ TenantID c = tenant) ∧ (channel = "" ∨ Channel_ c = channel))
       (range_values (configs r))).

(** ** Specification *)

Inductive call :=
| CallRegister (now : time) (c : Configuration)
| CallUpdate (now : time) (c : Configuration) (expected : Z)
| CallSetEnabled (now : time) (id : string) (enabled : bool) (expected : Z).

Definition run_call (r : Registry) (a : call) : Registry :=
  match a with
  | CallRegister now c => (Register now c r).1
  | CallUpdate now c v => (Update now c v r).1
  | CallSetEnabled now id b v => (SetEnabled now id b v r).1
  end.

Definition call_time (a : call) : time :=
  match a with CallRegister t _ => t | CallUpdate t _ _ => t | CallSetEnabled t _ _ _ => t end.

(** Every configuration is valid, filed under its id, and its version counts the
    changes made to it. *)
Record registry_ok (n : Z) (r : Registry) : Prop := {
  reg_id : ∀ id c, configs r !! id = Some c → ID c = id;
  reg_valid : ∀ id c, configs r !! id = Some c → Validate c = None;
  reg_version : ∀ id c, configs r !! id = Some c → 1 ≤ Version c ≤ n;
}.

(** ** Lemmas *)

Lemma registry_ok_mono n m r : registry_ok n r → n ≤ m → registry_ok m r.
Proof.
  intros [Hi Hv Hn] Hle. split; [done..|]. intros id c Hc. specialize (Hn id c Hc). lia.
Qed.

Lemma registry_ok_put n r id c :
  registry_ok n r → ID c = id → Validate c = None → 1 ≤ Version c ≤ n → registry_ok n (put r id c).
Proof.
  intros [Hi Hv Hn] Hid Hval Hver. split; cbn [configs put]; intros id' c'; rewrite lookup_insert;
    (destruct (decide (id = id')) as [->|]; [intros [= <-]; done|]); eauto.
Qed.

Lemma wrap64_succ n v : 1 ≤ v ≤ n → n < max_int64 → wrap64 (v + 1) = v + 1.
Proof. intros. apply wrap64_small. unfold in_int64, min_int64, max_int64 in *. lia. Qed.

Lemma registry_call_ok n r a : registry_ok n r → 0 ≤ n < max_int64 → registry_ok (n + 1) (run_call r a).
Proof.
  intros Hr Hn. pose proof (registry_ok_mono n (n + 1) r Hr ltac:(lia)) as Hr'.
  destruct a as [now c|now c v|now id b v]; cbn [run_call].
  - unfold Register. destruct (Validate c) eqn:Hv; [done|]. destruct (configs r !! ID c); [done|].
    apply registry_ok_put; [done|done|exact Hv|]. cbn. lia.
  - unfold Update. destruct (Validate c) eqn:Hv; [done|]. destruct (configs r !! ID c) as [old|] eqn:Ho; [|done].
    destruct (negb _); [done|]. pose proof (reg_version _ _ Hr _ _ Ho) as Hver.
    apply registry_ok_put; [done|done|exact Hv|]. cbn. rewrite (wrap64_succ n) by lia. lia.
  - unfold SetEnabled. destruct (configs r !! id) as [c|] eqn:Hc; [|done].
    destruct (negb _); [done|]. pose proof (reg_version _ _ Hr _ _ Hc) as Hver.
    apply registry_ok_put; [done|exact (reg_id _ _ Hr _ _ Hc)|exact (reg_valid _ _ Hr _ _ Hc)|].
    cbn. rewrite (wrap64_succ n) by lia. lia.
Qed.

Lemma registry_history_ok l :
  Z.of_nat (length l) ≤ max_int64 → registry_ok (Z.of_nat (length l)) (foldl run_call NewRegistry l).
Proof.
  induction l as [|a l IH] using rev_ind; intros Hlen.
  { split; intros id c Hc; cbn in Hc; by rewrite lookup_empty in Hc. }
  rewrite length_app in *. simpl in *. rewrite foldl_app. simpl.
  replace (Z.of_nat (length l + 1)) with (Z.of_nat (length l) + 1) by lia.
  apply registry_call_ok; [apply IH; lia|lia].
Qed.

Section list.
Context `{!MapRange, !MapRangeOk, !SortSlice, !SortSliceOk}.

Definition selected (tenant : string) (channel : Channel) (c : Configuration) : Prop :=
  (tenant = "" ∨ TenantID c = tenant) ∧ (channel = "" ∨ Channel_ c = channel).

Lemma elem_of_List tenant channel r c :
  c ∈ List tenant channel r ↔ selected tenant channel c ∧ ∃ id, configs r !! id = Some c.
Proof.
  unfold List. rewrite sort_slice_perm, list_elem_of_filter, elem_of_range_values. done.
Qed.

Lemma List_sorted tenant channel r : StronglySorted (le_of config_less) (List tenant channel r).
Proof. apply sort_slice_sorted. apply _. Qed.

Lemma List_perm tenant channel r :
  List tenant channel r ≡ₚ base.filter (selected tenant channel) (map_to_list (configs r)).*2.
Proof. unfold List, range_values. by rewrite sort_slice_perm, map_range_perm. Qed.
End list.

(** ** Properties *)

(** C34: after any history of calls, every configuration in the registry is
    valid and filed under its id; [Update] takes effect exactly on a valid
    configuration whose stored version is the expected one, keeps the creation time
    and advances the version, and changes nothing otherwise; [List] returns the
    selected configurations by priority and id, the same list for every order of
    map iteration and every sorting algorithm. *)
Theorem registry_correct (l : list call) :
  Z.of_nat (length l) < max_int64 →
  let r := foldl run_call NewRegistry l in
  registry_ok (Z.of_nat (length l)) r ∧
  (∀ now c v,
     match configs r !! ID c with
     | Some old =>
         if decide (Validate c = None ∧ Version old = v)
         then Update now c v r = (put r (ID c) (stamp c (Enabled c) (CreatedAt old) now (v + 1)), None)
         else (Update now c v r).1 = r ∧ (Update now c v r).2 ≠ None
     | None => (Update now c v r).1 = r ∧ (Update now c v r).2 ≠ None
     end) ∧
  (∀ (m1 m2 : MapRange) (s1 s2 : SortSlice),
     @MapRangeOk m1 → @MapRangeOk m2 → @SortSliceOk s1 → @SortSliceOk s2 → ∀ tenant channel,
     @List m1 s1 tenant channel r = @List m2 s2 tenant channel r ∧
     StronglySorted (le_of config_less) (@List m1 s1 tenant channel r) ∧
     ∀ c, c ∈ @List m1 s1 tenant channel r ↔ selected tenant channel c ∧ configs r !! ID c = Some c).
Proof.
  intros Hlen. cbn zeta. set (r := foldl run_call NewRegistry l).
  assert (Hok : registry_ok (Z.of_nat (length l)) r) by (apply registry_history_ok; lia). split_and!; [done| |].
  - intros now c v. unfold Update. destruct (configs r !! ID c) as [old|] eqn:Ho.
    + pose proof (reg_version _ _ Hok _ _ Ho) as Hver. destruct (Validate c) eqn:Hv.
      { rewrite decide_False by (by intros [? _]). done. }
      destruct (Z.eqb_spec (Version old) v) as [Heq|Hne]; cbn [negb].
      * rewrite decide_True by done. rewrite (wrap64_succ (Z.of_nat (length l))) by lia. by rewrite Heq.
      * rewrite decide_False by (by intros [_ ?]). done.
    + by destruct (Validate c).
  - intros m1 m2 s1 s2 Hm1 Hm2 Hs1 Hs2 tenant channel.
    assert (Hin : ∀ c, c ∈ @List m1 s1 tenant channel r ↔
      selected tenant channel c ∧ configs r !! ID c = Some c).
    { intros c. rewrite elem_of_List. split; intros [? Hc]; (split; [done|]); [|by eexists].
      destruct Hc as [id Hid]. by rewrite (reg_id _ _ Hok _ _ Hid). }
    split_and!; [|apply List_sorted|exact Hin].
    apply (sorted_prio_name_unique Priority ID); [|apply List_sorted..|by rewrite !List_perm].
    intros x y [_ Hx]%Hin [_ Hy]%Hin Heq. rewrite Heq in Hx. congruence.
Qed.

Definition mail_config : Configuration := {|
  ID := "p1"; TenantID := "acme"; Name := "primary"; Channel_ := ChannelEmail; Region := "eu";
  Priority := 10; Enabled := true;
  Credentials := {| SecretName := "mail"; SecretKey := "token"; CredVersion := "" |};
  RatePerSec := 5; Concurrency := 2; CreatedAt := 0; UpdatedAt := 0; Version := 0 |}.

Lemma registry_correct_witness :
  let r := foldl run_call NewRegistry [CallRegister 7 mail_config] in
  registry_ok 1 r ∧
  Update 9 mail_config 1 r = (put r "p1" (stamp mail_config true 7 9 2), None) ∧
  ID <$> @List map_to_list_range merge_sort_slice "acme" "" r = ["p1"].
Proof.
  destruct (registry_correct [CallRegister 7 mail_config]) as (Hok & Hup & _); [vm_compute; reflexivity|].
  split_and!; [exact Hok|exact (Hup 9 mail_config 1)|vm_compute; reflexivity].
Defined.

End Registry.
