(* ===== verification/Policy.v ===== *)
(** * Package [routing]: routing policies ([internal/routing/policy.go])

    Regular expressions are package [regexp]'s ([Regexp]): what a pattern compiles
    to, and what that matches. *)

From S2P Require Export Domain GoSort.
Local Open Scope Z_scope.

Module Policy.

Class Regexp := {
  regex : Type;
  compile : string → result regex;
  match_string : regex → string → bool;
}.

Section policy.
Context {re : Regexp}.

Record Match := { Subject : string; Pattern : string; compiled : option regex }.

Definition Compile (m : Match) : Match * option error :=
  if bool_decide (Subject m ∉ ["tenant"; "business_id"; "target"])
  then (m, Some "unsupported match subject")
  else if 256 <? len (Pattern m) then (m, Some "match pattern too long")
  else match compile (Pattern m) with
       | Err e => (m, Some e)
       | Ok r => ({| Subject := Subject m; Pattern := Pattern m; compiled := Some r |}, None)
       end.

Definition Matches (m : Match) (value : string) : bool :=
  match compiled m with
  | Some r => match_string r value
  | None => false
  end.

Record Rule := {
  ID : string;
  TenantID : string;
  Channel_ : Channel;
  Priority : Z;
  RuleMatches : list Match;
  ProviderNames : list string;
  Weight : Z;
  Region : string;
  Enabled : bool;
  Version : Z;
  UpdatedAt : time;
}.

(** [for i := range r.Matches]: each match is compiled in place. *)
Fixpoint compile_all (ms : list Match) : list Match * option error :=
  match ms with
  | [] => ([], None)
  | m :: rest =>
      match Compile m with
      | (m', Some e) => (m' :: rest, Some e)
      | (m', None) => let '(rest', e) := compile_all rest in (m' :: rest', e)
      end
  end.

Definition set_matches (r : Rule) (ms : list Match) (version : Z) (updated : time) : Rule := {|
  ID := ID r; TenantID := TenantID r; Channel_ := Channel_ r; Priority := Priority r;
  RuleMatches := ms; ProviderNames := ProviderNames r; Weight := Weight r; Region := Region r;
  Enabled := Enabled r; Version := version; UpdatedAt := updated |}.

Definition Validate (r : Rule) : Rule * option error :=
  if decide (ID r = "") then (r, Some "rule id and tenant required")
  else if decide (TenantID r = "") then (r, Some "rule id and tenant required")
  else if decide (ProviderNames r = []) then (r, Some "at least one provider required")
  else if (Weight r <? 1) || (1000 <? Weight r) then (r, Some "weight must be positive")
  else let '(ms, e) := compile_all (RuleMatches r) in (set_matches r ms (Version r) (UpdatedAt r), e).

Record PolicySet := { rules : gmap string Rule }.

Definition NewPolicySet : PolicySet := {| rules := ∅ |}.

Definition Put (now : time) (r : Rule) (p : PolicySet) : PolicySet * option error :=
  match Validate r with
  | (_, Some e) => (p, Some e)
  | (r, None) =>
      let store v := ({| rules := <[ID r := set_matches r (RuleMatches r) v now]> (rules p) |}, None) in
      match rules p !! ID r with
      | Some old =>
          if negb (Version old =? Version r) then (p, Some "policy version conflict")
          else store (wrap64 (Version r + 1))
      | None => store 1
      end
  end.

Definition Delete (id : string) (version : Z) (p : PolicySet) : PolicySet * option error :=
  match rules p !! id with
  | None => (p, Some "policy not found")
  | Some r =>
      if negb (Version r =? version) then (p, Some "policy version conflict")
      else ({| rules := delete id (rules p) |}, None)
  end.

Definition rule_less : Rule → Rule → bool := less_prio_name Priority ID.

Definition List `{!MapRange, !SortSlice} (tenant : string) (p : PolicySet) : list Rule :=
  sort_slice rule_less (base.filter (λ r, tenant = "" ∨ TenantID r = tenant) (range_values (rules p))).

(** The loop over the matches stops at the first that fails. *)
Definition rule_matches (attributes : gmap string string) (r : Rule) : bool :=
  forallb (λ m, Matches m (TrimSpace (default "" (attributes !! Subject m)))) (RuleMatches r).

Definition Select `{!MapRange, !SortSlice} (tenant : string) (ch : Channel)
    (attributes : gmap string string) (p : PolicySet) : list Rule :=
  base.filter (λ r, Is_true (Enabled r && bool_decide (Channel_ r = ch) && rule_matches attributes r))
    (List tenant p).

Record Decision := {
  PolicyID : string;
  PolicyVersion : Z;
  DecisionProvider : string;
  Reason : string;
  EvaluatedAt : time;
}.

Definition Explain (now : time) (l : list Rule) (provider : string) : Decision :=
  match l with
  | [] => {| PolicyID := ""; PolicyVersion := 0; DecisionProvider := provider;
             Reason := "no matching policy"; EvaluatedAt := now |}
  | r :: _ => {| PolicyID := ID r; PolicyVersion := Version r; DecisionProvider := provider;
                 Reason := "highest priority matching policy"; EvaluatedAt := now |}
  end.

(** ** Specification *)

Inductive call :=
| CallPut (now : time) (r : Rule)
| CallDelete (id : string) (version : Z).

Definition run_call (p : PolicySet) (a : call) : PolicySet :=
  match a with
  | CallPut now r => (Put now r p).1
  | CallDelete id v => (Delete id v p).1
  end.

(** The pattern of a match, not its cached compilation, decides. *)
Definition pattern_matches (attributes : gmap string string) (m : Match) : Prop :=
  ∃ r, compile (Pattern m) = Ok r ∧
    match_string r (TrimSpace (default "" (attributes !! Subject m))) = true.

Definition applies (tenant : string) (ch : Channel) (attributes : gmap string string) (r : Rule) : Prop :=
  Enabled r = true ∧ Channel_ r = ch ∧ (tenant = "" ∨ TenantID r = tenant) ∧
  Forall (pattern_matches attributes) (RuleMatches r).

Definition match_ok (m : Match) : Prop :=
  Subject m ∈ ["tenant"; "business_id"; "target"] ∧ len (Pattern m) ≤ 256 ∧
  ∃ r, compiled m = Some r ∧ compile (Pattern m) = Ok r.

Record rule_ok (r : Rule) : Prop := {
  rule_named : ID r ≠ "" ∧ TenantID r ≠ "";
  rule_providers : ProviderNames r ≠ [];
  rule_weight : 1 ≤ Weight r ≤ 1000;
  rule_compiled : Forall match_ok (RuleMatches r);
}.

Definition policy_ok (p : PolicySet) : Prop :=
  ∀ id r, rules p !! id = Some r → ID r = id ∧ rule_ok r.

(** ** Lemmas *)

Lemma Compile_ok m m' : Compile m = (m', None) → match_ok m'.
Proof.
  unfold Compile. destruct (bool_decide_reflect (Subject m ∉ ["tenant"; "business_id"; "target"])) as [|Hs]; [done|].
  destruct (Z.ltb_spec 256 (len (Pattern m))); [done|]. destruct (compile (Pattern m)) as [r|] eqn:Hc; [|done].
  intros [= <-]. split_and!; simpl; [by apply dec_stable|lia|by exists r].
Qed.

Lemma compile_all_ok ms ms' : compile_all ms = (ms', None) → Forall match_ok ms'.
Proof.
  revert ms'. induction ms as [|m ms IH]; intros ms'; simpl; [by intros [= <-]|].
  destruct (Compile m) as [m' [e|]] eqn:Hm; [done|]. destruct (compile_all ms) as [rest e].
  intros [= <- ->]. constructor; [by eapply Compile_ok|by apply IH].
Qed.

Lemma Validate_ok r r' : Validate r = (r', None) → rule_ok r' ∧ ID r' = ID r ∧ Version r' = Version r.
Proof.
  unfold Validate. do 3 (case_decide; [done|]).
  destruct ((Weight r <? 1) || (1000 <? Weight r)) eqn:Hw; [done|]. apply orb_false_iff in Hw as [??].
  destruct (compile_all (RuleMatches r)) as [ms e] eqn:Hc. intros [= <- ->].
  split; [|done]. split; simpl; [done|done|lia|by eapply compile_all_ok].
Qed.

Lemma rule_ok_version r v t : rule_ok r → rule_ok (set_matches r (RuleMatches r) v t).
Proof. by intros []. Qed.

Lemma policy_ok_insert p id r : policy_ok p → ID r = id → rule_ok r → policy_ok {| rules := <[id := r]> (rules p) |}.
Proof.
  intros Hp Hid Hr id' r'. cbn [rules]. rewrite lookup_insert.
  destruct (decide (id = id')) as [->|]; [by intros [= <-]|apply Hp].
Qed.

Lemma policy_call_ok p a : policy_ok p → policy_ok (run_call p a).
Proof.
  intros Hp. destruct a as [now r|id v]; simpl.
  - unfold Put. destruct (Validate r) as [r' [e|]] eqn:Hv; [done|]. apply Validate_ok in Hv as (Hr & _ & _).
    destruct (rules p !! ID r') as [old|]; [destruct (negb _); [done|]|];
      (apply policy_ok_insert; [done|done|by apply rule_ok_version]).
  - unfold Delete. destruct (rules p !! id); [|done]. destruct (negb _); [done|].
    intros id' r'. cbn. intros [_ Hr]%lookup_delete_Some. by apply Hp.
Qed.

Lemma policy_reachable l : policy_ok (foldl run_call NewPolicySet l).
Proof.
  assert (Hn : policy_ok NewPolicySet) by (intros id r Hr; cbn in Hr; by rewrite lookup_empty in Hr).
  revert Hn. generalize NewPolicySet. induction l as [|a l IH]; intros p Hp; simpl; [done|].
  by apply IH, policy_call_ok.
Qed.

Lemma rule_matches_spec attributes r :
  rule_ok r → rule_matches attributes r = true ↔ Forall (pattern_matches attributes) (RuleMatches r).
Proof.
  intros [_ _ _ Hc]. unfold rule_matches. induction Hc as [|m ms (_ & _ & x & Hx & Hp) _ IH]; simpl; [done|].
  rewrite andb_true_iff, Forall_cons, IH. unfold Matches at 1. rewrite Hx. unfold pattern_matches at 2.
  rewrite Hp. naive_solver.
Qed.

Section select.
Context `{!MapRange, !MapRangeOk, !SortSlice, !SortSliceOk}.

Lemma elem_of_Select tenant ch attributes p r :
  policy_ok p →
  r ∈ Select tenant ch attributes p ↔ applies tenant ch attributes r ∧ rules p !! ID r = Some r.
Proof.
  intros Hp. unfold Select, List. rewrite list_elem_of_filter, sort_slice_perm, list_elem_of_filter, elem_of_range_values.
  rewrite Is_true_true, !andb_true_iff, bool_decide_eq_true. unfold applies. split.
  - intros (((He & Hc) & Hm) & Ht & id & Hid). destruct (Hp id r Hid) as [Hi Hr]. rewrite Hi.
    apply rule_matches_spec in Hm; [|done]. done.
  - intros ((He & Hc & Ht & Hm) & Hid). destruct (Hp _ r Hid) as [_ Hr].
    apply (rule_matches_spec attributes r Hr) in Hm. split_and!; [done..|by eexists].
Qed.

Lemma Select_sorted tenant ch attributes p : StronglySorted (le_of rule_less) (Select tenant ch attributes p).
Proof. unfold Select, List. apply StronglySorted_filter, sort_slice_sorted. apply _. Qed.

Lemma Select_perm tenant ch attributes p :
  Select tenant ch attributes p ≡ₚ
    base.filter (λ r, Is_true (Enabled r && bool_decide (Channel_ r = ch) && rule_matches attributes r))
      (base.filter (λ r, tenant = "" ∨ TenantID r = tenant) (map_to_list (rules p)).*2).
Proof. unfold Select, List, range_values. by rewrite sort_slice_perm, map_range_perm. Qed.
End select.

(** ** Properties *)

(** C31: after any history of [Put] and [Delete], every stored rule is well
    formed and compiled from its own patterns, and [Select] returns exactly the
    enabled rules of the tenant and channel all of whose patterns match, by
    priority and id, the same for every map order and sorting algorithm; [Explain]
    names a rule that no selected one precedes. *)
Theorem select_correct (l : list call) (tenant : string) (ch : Channel) (attributes : gmap string string) :
  let p := foldl run_call NewPolicySet l in
  policy_ok p ∧
  ∀ (m1 m2 : MapRange) (s1 s2 : SortSlice),
    @MapRangeOk m1 → @MapRangeOk m2 → @SortSliceOk s1 → @SortSliceOk s2 →
    let out := @Select m1 s1 tenant ch attributes p in
    (∀ r, r ∈ out ↔ applies tenant ch attributes r ∧ rules p !! ID r = Some r) ∧
    StronglySorted (le_of rule_less) out ∧
    @Select m2 s2 tenant ch attributes p = out ∧
    ∀ now provider, match out with
      | [] => Reason (Explain now out provider) = "no matching policy"
      | r :: rest => PolicyID (Explain now out provider) = ID r ∧ Forall (le_of rule_less r) rest
      end.
Proof.
  cbn zeta. assert (Hp : policy_ok (foldl run_call NewPolicySet l)) by apply policy_reachable.
  set (p := foldl run_call NewPolicySet l) in *. split; [done|]. intros m1 m2 s1 s2 Hm1 Hm2 Hs1 Hs2.
  split_and!.
  - intros r. by apply elem_of_Select.
  - apply Select_sorted.
  - apply (sorted_prio_name_unique Priority ID); [|apply Select_sorted..|by rewrite !Select_perm].
    intros x y [_ Hx]%elem_of_Select [_ Hy]%elem_of_Select Heq; [|done..]. rewrite Heq in Hx. congruence.
  - intros now provider. pose proof (@Select_sorted m1 s1 Hs1 tenant ch attributes p) as Hsort.
    destruct (@Select m1 s1 tenant ch attributes p) as [|r rest]; [done|]. by inversion Hsort.
Qed.

(** [Put] stores exactly the well-formed rules whose id is new, at
    version 1, or whose version is the stored one, at the next; every other call
    changes nothing and reports an error. *)
Theorem put_correct (now : time) (r : Rule) (p : PolicySet) :
  let '(r', e) := Validate r in
  let stored v := {| rules := <[ID r := set_matches r' (RuleMatches r') v now]> (rules p) |} in
  match e, rules p !! ID r with
  | Some _, _ => Put now r p = (p, e)
  | None, None => Put now r p = (stored 1, None)
  | None, Some old =>
      if decide (Version old = Version r) then Put now r p = (stored (wrap64 (Version r + 1)), None)
      else (Put now r p).1 = p ∧ (Put now r p).2 ≠ None
  end.
Proof.
  destruct (Validate r) as [r' [e|]] eqn:Hv; unfold Put; rewrite Hv; [done|].
  apply Validate_ok in Hv as (_ & Hid & Hver). rewrite Hid, Hver.
  destruct (rules p !! ID r) as [old|]; [|done].
  destruct (decide (Version old = Version r)) as [->|Hne]; [by rewrite Z.eqb_refl|].
  destruct (Z.eqb_spec (Version old) (Version r)); done.
Qed.
End policy.

End Policy.
