(* ===== verification/Template.v ===== *)
(** * Package [template]: versioned templates ([internal/template/service.go])

    Package [text/template] and [fmt.Sprint] are abstract ([Engine]): [execute] is
    parsing a source under a name and executing it on the variables, given the
    function bound to [safe]. *)

From Stdlib Require Import Ascii.
From S2P Require Export Domain GoSort.
Local Open Scope Z_scope.

Module Template.

Class Engine := {
  execute : (any → string) → string → string → gmap string any → result string;
  sprint : any → string;
}.

(** ** Text helpers *)

(** [strings.ReplaceAll(s, "\n", " ")] *)
Definition newline : ascii := Ascii.ascii_of_nat 10.

Definition replace_newlines (s : string) : string :=
  of_bytes ((λ c, if Ascii.eqb c newline then " "%char else c) <$> to_bytes s).

(** [html.EscapeString] *)
Definition escape_char (c : ascii) : string :=
  match N_of_ascii c with
  | 38%N => "&amp;"
  | 39%N => "&#39;"
  | 60%N => "&lt;"
  | 62%N => "&gt;"
  | 34%N => "&#34;"
  | _ => String c ""
  end.

Fixpoint EscapeString (s : string) : string :=
  match s with
  | EmptyString => EmptyString
  | String c s => escape_char c +:+ EscapeString s
  end.

(** The regular expression of [validateVersion]: a letter, then at most 63 letters,
    digits or underscores. *)
Definition is_letter (c : ascii) : bool :=
  in_range 97 (byte_val c) 122 || in_range 65 (byte_val c) 90.

Definition is_word_char (c : ascii) : bool :=
  is_letter c || in_range 48 (byte_val c) 57 || (byte_val c =? 95).

Definition valid_name (s : string) : bool :=
  match to_bytes s with
  | [] => false
  | c :: rest => is_letter c && forallb is_word_char rest && (Z.of_nat (length rest) <=? 63)
  end.

(** ** Data *)

Record Variable_ := { vName : string; vType : string; vRequired : bool; vSensitive : bool }.

Record Version := {
  Number : Z;
  Locale : string;
  Subject : string;
  TextBody : string;
  HTMLBody : string;
  Variables : list Variable_;
  Published : bool;
}.

Record Definition_ := { ID : string; TenantID : string; Name : string; Versions : list Version }.

Record Service := { defs : gmap string Definition_ }.

Definition NewService : Service := {| defs := ∅ |}.

Definition zero_version : Version := {|
  Number := 0; Locale := ""; Subject := ""; TextBody := ""; HTMLBody := ""; Variables := [];
  Published := false |}.

Definition set_versions (d : Definition_) (vs : list Version) : Definition_ :=
  {| ID := ID d; TenantID := TenantID d; Name := Name d; Versions := vs |}.

Definition numbered (v : Version) (n : Z) (published : bool) : Version := {|
  Number := n; Locale := Locale v; Subject := Subject v; TextBody := TextBody v; HTMLBody := HTMLBody v;
  Variables := Variables v; Published := published |}.

(** ** Methods *)

Definition Create (d : Definition_) (s : Service) : Service * option error :=
  if decide (ID d = "") then (s, Some "template id and tenant required")
  else if decide (TenantID d = "") then (s, Some "template id and tenant required")
  else match defs s !! ID d with
       | Some _ => (s, Some "template already exists")
       | None => ({| defs := <[ID d := d]> (defs s) |}, None)
       end.

Definition validateVersion (v : Version) : option error :=
  if bool_decide (TrimSpace (TextBody v) = "") && bool_decide (TrimSpace (HTMLBody v) = "")
  then Some "template body required"
  else if 1048576 <? len (TextBody v) + len (HTMLBody v) then Some "template too large"
  else if forallb (λ x, valid_name (vName x)) (Variables v) then None
  else Some "invalid variable name".

Definition AddVersion (id : string) (v : Version) (s : Service) : Service * option error :=
  match validateVersion v with
  | Some e => (s, Some e)
  | None =>
      match defs s !! id with
      | None => (s, Some "template not found")
      | Some d =>
          let v := numbered v (Z.of_nat (length (Versions d)) + 1) (Published v) in
          ({| defs := <[id := set_versions d (Versions d ++ [v])]> (defs s) |}, None)
      end
  end.

(** The loop writes to the slice the stored definition shares, so its effect stays
    when no version is found. *)
Definition publish_all (version : Z) (vs : list Version) : list Version :=
  (λ v, numbered v (Number v) (Number v =? version)) <$> vs.

Definition Publish (id : string) (version : Z) (s : Service) : Service * option error :=
  match defs s !! id with
  | None => (s, Some "template not found")
  | Some d =>
      let vs := publish_all version (Versions d) in
      let s := {| defs := <[id := set_versions d vs]> (defs s) |} in
      if existsb Published vs then (s, None) else (s, Some "version not found")
  end.

Definition Get (id : string) (version : Z) (s : Service) : result Definition_ :=
  match defs s !! id with
  | None => Err "template not found"
  | Some d =>
      let version :=
        if version =? 0 then
          match base.filter (λ v, Is_true (Published v)) (reverse (Versions d)) with
          | v :: _ => Number v
          | [] => version
          end
        else version in
      match base.filter (λ v, Number v = version) (Versions d) with
      | v :: _ => Ok {| ID := ID d; TenantID := TenantID d; Name := Name d; Versions := [v] |}
      | [] => Err "version not found"
      end
  end.

Fixpoint validateVars (spec : list Variable_) (vars : gmap string any) : option error :=
  match spec with
  | [] => None
  | v :: rest =>
      if vRequired v && bool_decide (vars !! vName v = None) then Some ("missing variable: " +:+ vName v)
      else validateVars rest vars
  end.

Section render.
Context {engine : Engine}.

Definition toString (v : any) : string :=
  match v with
  | AnyString s => s
  | AnyBytes s => s
  | _ => TrimSpace (replace_newlines (TrimSpace (sprint v)))
  end.

Definition safe (v : any) : string := EscapeString (toString v).

Definition redact_one (vars : gmap string any) (out : gmap string string) (v : Variable_) :
    gmap string string :=
  match vars !! vName v with
  | Some val => <[vName v := if vSensitive v then "[REDACTED]" else toString val]> out
  | None => out
  end.

Definition redact (vars : gmap string any) (spec : list Variable_) : gmap string string :=
  foldl (redact_one vars) ∅ spec.

Definition Render (id : string) (version : Z) (vars : gmap string any) (s : Service) :
    result (Version * gmap string string) :=
  match Get id version s with
  | Err e => Err e
  | Ok d =>
      let v := match Versions d with v :: _ => v | [] => zero_version end in
      match validateVars (Variables v) vars with
      | Some e => Err e
      | None =>
          result_bind (execute safe "subject" (Subject v) vars) (λ sub,
          result_bind (execute safe "text" (TextBody v) vars) (λ txt,
          result_bind (execute safe "html" (HTMLBody v) vars) (λ htm,
          Ok ({| Number := Number v; Locale := Locale v; Subject := sub; TextBody := txt; HTMLBody := htm;
                 Variables := Variables v; Published := Published v |},
              redact vars (Variables v)))))
      end
  end.
End render.

Definition SortedVariables `{!SortSlice} (v : list Variable_) : list Variable_ :=
  sort_slice (λ x y, String.ltb (vName x) (vName y)) v.

Example escape_ex : EscapeString "a<b>&c" = "a&lt;b&gt;&amp;c" ∧ valid_name "user_1" = true
  ∧ valid_name "1a" = false ∧ valid_name "" = false.
Proof. by vm_compute. Qed.

(** ** Specification *)

(** The history of a service whose definitions are created empty, as the numbering
    assumes. *)
Inductive call :=
| CallCreate (id tenant name : string)
| CallAdd (id : string) (v : Version)
| CallPublish (id : string) (version : Z).

Definition run_call (s : Service) (c : call) : Service :=
  match c with
  | CallCreate id tenant name =>
      (Create {| ID := id; TenantID := tenant; Name := name; Versions := [] |} s).1
  | CallAdd id v => (AddVersion id v s).1
  | CallPublish id v => (Publish id v s).1
  end.

(** Versions are numbered from 1 in the order they were added. *)
Definition numbers_ok (d : Definition_) : Prop :=
  ∀ i v, Versions d !! i = Some v → Number v = Z.of_nat i + 1.

(** ** Lemmas *)

Lemma numbers_reachable l id d :
  defs (foldl run_call NewService l) !! id = Some d → numbers_ok d ∧ ID d = id.
Proof.
  revert id d. assert (Hn : ∀ id d, defs NewService !! id = Some d → numbers_ok d ∧ ID d = id).
  { intros id d Hd. cbn in Hd. by rewrite lookup_empty in Hd. }
  revert Hn. generalize NewService. induction l as [|c l IH]; intros s Hs id d; simpl; [apply Hs|].
  apply IH. clear id d. intros id d. destruct c as [id' t n|id' v|id' v]; cbn [run_call].
  - unfold Create. do 2 (case_decide; [apply Hs|]). cbn [ID]. destruct (defs s !! id') eqn:Hd'; [apply Hs|].
    cbn [fst defs]. rewrite lookup_insert. destruct (decide (id' = id)) as [->|]; [|apply Hs].
    intros [= <-]. split; [|done]. intros i v Hi. done.
  - unfold AddVersion. destruct (validateVersion v); [apply Hs|].
    destruct (defs s !! id') as [d'|] eqn:Hd'; [|apply Hs]. cbn [fst defs].
    rewrite lookup_insert. destruct (decide (id' = id)) as [->|]; [|apply Hs]. intros [= <-].
    destruct (Hs _ _ Hd') as [Hnum Hid]. split; [|done]. intros i w. cbn [Versions set_versions].
    intros [Hi|[Hlen Hi]]%lookup_app_Some; [by apply Hnum|].
    destruct (i - length (Versions d'))%nat eqn:Hdiff; [|done]. injection Hi as <-. simpl. lia.
  - unfold Publish. destruct (defs s !! id') as [d'|] eqn:Hd'; [|apply Hs].
    assert (Hgoal : ∀ e : option error, defs ({| defs := <[id' := set_versions d' (publish_all v (Versions d'))]> (defs s) |}, e).1 !! id
      = Some d → numbers_ok d ∧ ID d = id).
    { intros e. cbn [fst defs]. rewrite lookup_insert. destruct (decide (id' = id)) as [->|]; [|apply Hs].
      intros [= <-]. destruct (Hs _ _ Hd') as [Hnum Hid]. split; [|done].
      intros i w (w0 & -> & Hw)%list_lookup_fmap_Some. simpl. by apply Hnum. }
    destruct (existsb _ _); [apply (Hgoal None)|by apply (Hgoal (Some "version not found"))].
Qed.

Lemma filter_number (vs : list Version) (k : nat) (v : Version) :
  (∀ i v, vs !! i = Some v → Number v = Z.of_nat i + 1) → vs !! k = Some v →
  ∃ rest, base.filter (λ w, Number w = Z.of_nat k + 1) vs = v :: rest.
Proof.
  intros Hnum Hk. assert (Hv : v ∈ base.filter (λ w, Number w = Z.of_nat k + 1) vs).
  { apply list_elem_of_filter. split; [by apply Hnum|by eapply list_elem_of_lookup_2]. }
  destruct (base.filter _ vs) as [|w rest] eqn:Hf; [by apply elem_of_nil in Hv|]. exists rest. f_equal.
  assert (Hw : w ∈ base.filter (λ w, Number w = Z.of_nat k + 1) vs) by (rewrite Hf; left).
  apply list_elem_of_filter in Hw as [Hn (j & Hj)%list_elem_of_lookup].
  rewrite (Hnum j w Hj) in Hn. assert (j = k) by lia. congruence.
Qed.

Lemma publish_existsb version vs : existsb Published (publish_all version vs) = existsb (λ v, Number v =? version) vs.
Proof. induction vs as [|v vs IH]; [done|]. unfold publish_all in *. rewrite fmap_cons. simpl. by f_equal. Qed.

Lemma existsb_number vs version :
  (∀ i v, vs !! i = Some v → Number v = Z.of_nat i + 1) →
  existsb (λ v, Number v =? version) vs = bool_decide (1 ≤ version ≤ Z.of_nat (length vs)).
Proof.
  intros Hnum. apply eq_true_iff_eq. rewrite existsb_exists, bool_decide_eq_true. split.
  - intros (v & (i & Hi)%list_elem_of_In%list_elem_of_lookup & Hv). apply lookup_lt_Some in Hi as Hlt.
    rewrite (Hnum i v Hi) in Hv. apply Z.eqb_eq in Hv. lia.
  - intros Hr. destruct (lookup_lt_is_Some_2 vs (Z.to_nat (version - 1))) as [v Hv]; [lia|].
    exists v. split; [by eapply list_elem_of_In, list_elem_of_lookup_2|]. rewrite (Hnum _ v Hv). apply Z.eqb_eq. lia.
Qed.

Lemma filter_in {A} (Q : A → Prop) `{!∀ x, Decision (Q x)} (l : list A) (x : A) (rest : list A) :
  base.filter Q l = x :: rest → Q x ∧ x ∈ l.
Proof. intros Hf. apply (proj1 (list_elem_of_filter Q l x)). rewrite Hf. left. Qed.

Lemma filter_none {A} (Q : A → Prop) `{!∀ x, Decision (Q x)} (l : list A) :
  (∀ x, x ∈ l → ¬ Q x) → base.filter Q l = [].
Proof.
  intros HQ. destruct (base.filter Q l) as [|x rest] eqn:Hf; [done|].
  apply filter_in in Hf as [Hx Hin]. by destruct (HQ x Hin).
Qed.

(** [Get] with version 0 on versions of which exactly [version] is published. *)
Section published.
Context (version : Z) (vs : list Version).
Context (Hnum : ∀ i v, vs !! i = Some v → Number v = Z.of_nat i + 1).
Context (Hpub : ∀ v, v ∈ vs → (Published v = true ↔ Number v = version)).

Lemma Get_known id d (m : gmap string Definition_) :
  1 ≤ version ≤ Z.of_nat (length vs) →
  ∃ v, Get id 0 {| defs := <[id := set_versions d vs]> m |} = Ok (set_versions d [v]) ∧
    Number v = version ∧ Published v = true.
Proof using Hnum Hpub.
  intros Hk. destruct (lookup_lt_is_Some_2 vs (Z.to_nat (version - 1))) as [v Hv]; [lia|].
  pose proof (Hnum _ v Hv) as Hn. pose proof (list_elem_of_lookup_2 _ _ _ Hv) as Hin.
  assert (Hp : Published v = true) by (apply Hpub; [done|lia]).
  exists v. split_and!; [|lia|done]. unfold Get. cbn [defs].
  rewrite lookup_insert_eq. cbn [Versions set_versions]. simpl (0 =? 0).
  destruct (base.filter (λ v, Is_true (Published v)) (reverse vs)) as [|w rest] eqn:Hf.
  { exfalso. assert (Hv' : v ∈ base.filter (λ v, Is_true (Published v)) (reverse vs)).
    { apply list_elem_of_filter. split; [by apply Is_true_true|by apply elem_of_reverse]. }
    rewrite Hf in Hv'. by apply elem_of_nil in Hv'. }
  apply filter_in in Hf as [Hw%Is_true_true Hwin]. rewrite elem_of_reverse in Hwin. rewrite (proj1 (Hpub w Hwin) Hw).
  destruct (filter_number vs (Z.to_nat (version - 1)) v Hnum Hv) as [rest' Hf'].
  replace (Z.of_nat (Z.to_nat (version - 1)) + 1) with version in Hf' by lia. by rewrite Hf'.
Qed.

Lemma Get_unknown id d (m : gmap string Definition_) :
  ¬ 1 ≤ version ≤ Z.of_nat (length vs) →
  Get id 0 {| defs := <[id := set_versions d vs]> m |} = Err "version not found".
Proof using Hnum Hpub.
  intros Hk. unfold Get. cbn [defs]. rewrite lookup_insert_eq. cbn [Versions set_versions]. simpl (0 =? 0).
  rewrite (filter_none (λ v, Is_true (Published v))).
  - rewrite filter_none; [done|]. intros w (i & Hi)%list_elem_of_lookup. rewrite (Hnum i w Hi). lia.
  - intros w Hin Hw%Is_true_true. rewrite elem_of_reverse in Hin. apply (Hpub w Hin) in Hw.
    apply list_elem_of_lookup in Hin as [i Hi]. apply lookup_lt_Some in Hi as Hlt.
    rewrite (Hnum i w Hi) in Hw. lia.
Qed.
End published.

Section redact.
Context {engine : Engine}.

Lemma redact_snoc vars spec x : redact vars (spec ++ [x]) = redact_one vars (redact vars spec) x.
Proof. unfold redact. by rewrite foldl_app. Qed.

Lemma redact_absent vars spec k : k ∉ vName <$> spec → redact vars spec !! k = None.
Proof.
  induction spec as [|x spec IH] using rev_ind; [done|]. rewrite fmap_app, redact_snoc. intros Hk.
  apply not_elem_of_app in Hk as [Hk Hx]. unfold redact_one. destruct (vars !! vName x); [|by apply IH].
  rewrite lookup_insert_ne; [by apply IH|]. intros Heq. apply Hx. rewrite <- Heq. left.
Qed.

Lemma redact_lookup vars spec x :
  NoDup (vName <$> spec) → x ∈ spec →
  redact vars spec !! vName x =
    (λ val, if vSensitive x then "[REDACTED]" else toString val) <$> vars !! vName x.
Proof.
  induction spec as [|y spec IH] using rev_ind; [by intros _ ?%elem_of_nil|].
  rewrite fmap_app, redact_snoc. intros (Hnd & Hy & _)%NoDup_app Hx. unfold redact_one.
  apply elem_of_app in Hx as [Hx|Hx].
  - destruct (vars !! vName y); [|by apply IH]. rewrite lookup_insert_ne; [by apply IH|].
    intros Heq. apply (Hy (vName x)); [by apply list_elem_of_fmap_2|simpl; rewrite Heq; left].
  - apply list_elem_of_singleton in Hx as ->. destruct (vars !! vName y) as [val|] eqn:Hv; simpl.
    + apply lookup_insert_eq.
    + apply redact_absent. intros Hin. apply (Hy (vName y)); [done|left].
Qed.

Lemma validateVars_None spec vars :
  validateVars spec vars = None ↔ ∀ x, x ∈ spec → vRequired x = true → is_Some (vars !! vName x).
Proof.
  induction spec as [|y spec IH]; simpl; [split; [by intros _ x ?%elem_of_nil|done]|].
  destruct (vRequired y) eqn:Hr; simpl.
  - destruct (vars !! vName y) eqn:Hv; simpl.
    + rewrite IH. split; [|intros H x Hx; apply H; by right].
      intros H x [->|Hx]%elem_of_cons; [by rewrite Hv|by apply H].
    + split; [done|]. intros H. specialize (H y ltac:(left) Hr). rewrite Hv in H. by destruct H.
  - rewrite IH. split; [|intros H x Hx; apply H; by right].
    intros H x [->|Hx]%elem_of_cons; [congruence|by apply H].
Qed.

Lemma no_char_escape c s :
  c ∈ ["<"%char; ">"%char; "034"%char; "'"%char] → no_char c (EscapeString s).
Proof.
  intros Hc. induction s as [|d s IH]; [by intros ?%elem_of_nil|]. cbn [EscapeString].
  apply no_char_app. split; [|done]. clear IH.
  assert (Hall : forallb (λ n, forallb (λ c, negb (existsb (Ascii.eqb c) (to_bytes (escape_char (ascii_of_nat n)))))
    ["<"%char; ">"%char; "034"%char; "'"%char]) (seq 0 256) = true) by (vm_compute; reflexivity).
  rewrite forallb_forall in Hall. specialize (Hall (nat_of_ascii d)). rewrite in_seq, ascii_nat_embedding in Hall.
  pose proof (nat_ascii_bounded d) as Hd. specialize (Hall ltac:(lia)). rewrite forallb_forall in Hall.
  apply list_elem_of_In in Hc. specialize (Hall c Hc). apply negb_true_iff in Hall. intros Hin.
  apply list_elem_of_In in Hin. enough (existsb (Ascii.eqb c) (to_bytes (escape_char d)) = true) by congruence.
  apply existsb_exists. exists c. split; [done|]. apply Ascii.eqb_refl.
Qed.
End redact.

(** ** Properties *)

(** C32: in a service whose templates were created empty, [Publish] makes the
    given version the only published one, and [Get] with version 0 then returns it;
    on an unknown version it reports an error, but all the same unpublishes what
    was published, so that [Get] finds no version any more. *)
Theorem publish_correct (l : list call) (id : string) (d : Definition_) (version : Z) :
  let s := foldl run_call NewService l in
  defs s !! id = Some d →
  let s' := (Publish id version s).1 in
  let e := (Publish id version s).2 in
  let known := 1 ≤ version ≤ Z.of_nat (length (Versions d)) in
  (e = None ↔ known) ∧
  (∃ d', defs s' = <[id := d']> (defs s) ∧ length (Versions d') = length (Versions d) ∧ numbers_ok d' ∧
     ∀ v, v ∈ Versions d' → (Published v = true ↔ Number v = version)) ∧
  (known → ∃ v, Get id 0 s' = Ok (set_versions d [v]) ∧ Number v = version ∧ Published v = true) ∧
  (¬ known → Get id 0 s' = Err "version not found").
Proof.
  cbn zeta. intros Hd. destruct (numbers_reachable l id d Hd) as [Hnum Hid].
  set (s := foldl run_call NewService l) in *. set (vs := publish_all version (Versions d)).
  assert (Hvs : ∀ i v, vs !! i = Some v → Number v = Z.of_nat i + 1 ∧ Published v = (Number v =? version)).
  { intros i v (w & -> & Hw)%list_lookup_fmap_Some. split; [exact (Hnum i w Hw)|done]. }
  assert (Hlen : length vs = length (Versions d)) by apply length_fmap.
  assert (Hnum' : ∀ i v, vs !! i = Some v → Number v = Z.of_nat i + 1) by (intros i v Hi; by apply Hvs).
  assert (Hpub : ∀ v, v ∈ vs → (Published v = true ↔ Number v = version)).
  { intros v (i & Hi)%list_elem_of_lookup. destruct (Hvs i v Hi) as [_ ->]. apply Z.eqb_eq. }
  assert (Hex : existsb Published vs = bool_decide (1 ≤ version ≤ Z.of_nat (length (Versions d)))).
  { unfold vs. rewrite publish_existsb. by apply existsb_number. }
  assert (Hd' : ∃ d', <[id := set_versions d vs]> (defs s) = <[id := d']> (defs s) ∧
    length (Versions d') = length (Versions d) ∧ numbers_ok d' ∧
    ∀ v, v ∈ Versions d' → (Published v = true ↔ Number v = version)) by by exists (set_versions d vs).
  pose proof (Get_known version vs Hnum' Hpub id d (defs s)) as Hk1.
  pose proof (Get_unknown version vs Hnum' Hpub id d (defs s)) as Hk2. rewrite Hlen in Hk1, Hk2.
  unfold Publish. rewrite Hd. fold vs. rewrite Hex. case_bool_decide as Hk;
    (split_and!; [by split|exact Hd'| |]); intros ?; [auto|done|done|auto].
Qed.

(** C33: a successful [Render] had every required variable, gives the three
    texts of one version that the engine produced with the escaping function, and
    records exactly the declared variables that were given, a sensitive one as
    [REDACTED], when the declared names are distinct. *)
Theorem render_correct {engine : Engine} (id : string) (version : Z) (vars : gmap string any) (s : Service) :
  match Render id version vars s with
  | Ok (v, red) =>
      ∃ d v0, Get id version s = Ok d ∧ Versions d = [v0] ∧
      (∀ x, x ∈ Variables v0 → vRequired x = true → is_Some (vars !! vName x)) ∧
      execute safe "subject" (Subject v0) vars = Ok (Subject v) ∧
      execute safe "text" (TextBody v0) vars = Ok (TextBody v) ∧
      execute safe "html" (HTMLBody v0) vars = Ok (HTMLBody v) ∧
      (Number v, Locale v, Variables v, Published v) = (Number v0, Locale v0, Variables v0, Published v0) ∧
      (∀ k, k ∉ vName <$> Variables v0 → red !! k = None) ∧
      (NoDup (vName <$> Variables v0) → ∀ x, x ∈ Variables v0 →
         red !! vName x = (λ val, if vSensitive x then "[REDACTED]" else toString val) <$> vars !! vName x)
  | Err _ => True
  end ∧
  (∀ c a, c ∈ ["<"%char; ">"%char; "034"%char; "'"%char] → no_char c (safe a)).
Proof.
  split; [|intros c a Hc; by apply no_char_escape]. unfold Render.
  destruct (Get id version s) as [d|e] eqn:Hg; [|done].
  assert (Hone : ∃ v0, Versions d = [v0]).
  { revert Hg. unfold Get. destruct (defs s !! id); [|done].
    destruct (base.filter _ _) as [|w rest]; [done|]. intros [= <-]. by exists w. }
  destruct Hone as [v0 Hv0]. rewrite Hv0. destruct (validateVars (Variables v0) vars) eqn:Hval; [done|].
  destruct (execute safe "subject" (Subject v0) vars) as [sub|] eqn:Hs; [|done]. cbn [result_bind].
  destruct (execute safe "text" (TextBody v0) vars) as [txt|] eqn:Ht; [|done]. cbn [result_bind].
  destruct (execute safe "html" (HTMLBody v0) vars) as [htm|] eqn:Hh; [|done]. cbn [result_bind].
  exists d, v0. split_and!; try done.
  - by apply validateVars_None.
  - intros k. apply redact_absent.
  - intros Hnd x. by apply redact_lookup.
Qed.

Definition body (text : string) : Version := {|
  Number := 0; Locale := "en"; Subject := "s"; TextBody := text; HTMLBody := ""; Variables := [];
  Published := false |}.

Definition two_versions : list call :=
  [CallCreate "welcome" "acme" "Welcome"; CallAdd "welcome" (body "v1"); CallAdd "welcome" (body "v2");
   CallPublish "welcome" 1].

Definition welcome : Definition_ := {|
  ID := "welcome"; TenantID := "acme"; Name := "Welcome";
  Versions := [numbered (body "v1") 1 true; numbered (body "v2") 2 false] |}.

Lemma publish_correct_witness :
  let s := foldl run_call NewService two_versions in
  (∃ v, Get "welcome" 0 (Publish "welcome" 2 s).1 = Ok (set_versions welcome [v]) ∧
     Number v = 2 ∧ Published v = true) ∧
  Get "welcome" 0 (Publish "welcome" 7 s).1 = Err "version not found".
Proof.
  assert (Hd : defs (foldl run_call NewService two_versions) !! "welcome" = Some welcome)
    by (vm_compute; reflexivity).
  split.
  - destruct (publish_correct two_versions "welcome" welcome 2 Hd) as (_ & _ & Hk & _).
    apply Hk. vm_compute. split; discriminate.
  - destruct (publish_correct two_versions "welcome" welcome 7 Hd) as (_ & _ & _ & Hu).
    apply Hu. vm_compute. intros [_ H]. by apply H.
Defined.

End Template.
