(* ===== verification/Quota.v ===== *)
(** * Package [rate]: the quota ledger ([internal/rate/quota.go])

    Amounts are [int64]: every sum wraps around.  Each method reads the clock at
    most once; the reading is its argument. *)

From S2P Require Export GoTime GoSort.
Local Open Scope Z_scope.

Module Quota.

Record Quota := {
  qTenantID : string;
  DailyLimit : Z;
  MonthlyLimit : Z;
  BurstLimit : Z;
  qUpdatedAt : time;
}.

Record Usage := {
  uTenantID : string;
  Day : string;
  Month : string;
  DailyUsed : Z;
  MonthlyUsed : Z;
  Reserved : Z;
  Committed : Z;
  LastModified : time;
}.

Record Reservation := {
  rID : string;
  rTenantID : string;
  Amount : Z;
  rCreatedAt : time;
  ExpiresAt : time;
  rCommitted : bool;
}.

Record Ledger := {
  quotas : gmap string Quota;
  usage : gmap string Usage;
  reservations : gmap string Reservation;
}.

Definition NewLedger : Ledger := {| quotas := ∅; usage := ∅; reservations := ∅ |}.

Definition zero_usage : Usage := {|
  uTenantID := ""; Day := ""; Month := ""; DailyUsed := 0; MonthlyUsed := 0; Reserved := 0;
  Committed := 0; LastModified := time_zero |}.

Definition zero_reservation : Reservation := {|
  rID := ""; rTenantID := ""; Amount := 0; rCreatedAt := time_zero; ExpiresAt := time_zero;
  rCommitted := false |}.

Definition Configure (now : time) (q : Quota) (l : Ledger) : Ledger * option error :=
  if decide (qTenantID q = "") then (l, Some "tenant is required")
  else if (DailyLimit q <? 1) || (MonthlyLimit q <? DailyLimit q) || (BurstLimit q <? 1)
  then (l, Some "invalid quota limits")
  else
    let q := {| qTenantID := qTenantID q; DailyLimit := DailyLimit q; MonthlyLimit := MonthlyLimit q;
                BurstLimit := BurstLimit q; qUpdatedAt := now |} in
    ({| quotas := <[qTenantID q := q]> (quotas l); usage := usage l; reservations := reservations l |}, None).

(** The usage of a tenant with the counters of a past day or month cleared. *)
Definition currentUsageLocked (tenant : string) (now : time) (l : Ledger) : Usage :=
  let u := default zero_usage (usage l !! tenant) in
  let day := format_day now in
  let month := format_month now in
  {| uTenantID := tenant; Day := day; Month := month;
     DailyUsed := if decide (Day u = day) then DailyUsed u else 0;
     MonthlyUsed := if decide (Month u = month) then MonthlyUsed u else 0;
     Reserved := Reserved u; Committed := Committed u; LastModified := LastModified u |}.

Definition put_usage (l : Ledger) (tenant : string) (u : Usage) : Ledger :=
  {| quotas := quotas l; usage := <[tenant := u]> (usage l); reservations := reservations l |}.

Definition set_reserved (u : Usage) (reserved : Z) (now : time) : Usage := {|
  uTenantID := uTenantID u; Day := Day u; Month := Month u; DailyUsed := DailyUsed u;
  MonthlyUsed := MonthlyUsed u; Reserved := reserved; Committed := Committed u; LastModified := now |}.

Definition releaseLocked (r : Reservation) (now : time) (l : Ledger) : Ledger :=
  let u := currentUsageLocked (rTenantID r) now l in
  let reserved := wrap64 (Reserved u - Amount r) in
  let reserved := if reserved <? 0 then 0 else reserved in
  let l := put_usage l (rTenantID r) (set_reserved u reserved now) in
  {| quotas := quotas l; usage := usage l; reservations := delete (rID r) (reservations l) |}.

(** The body of the loop of [expireLocked]. *)
Definition expire_one (now : time) (l : Ledger) (r : Reservation) : Ledger :=
  if negb (rCommitted r) && After now (ExpiresAt r) then releaseLocked r now l else l.

Definition expireLocked `{!MapRange} (now : time) (l : Ledger) : Ledger :=
  foldl (expire_one now) l (range_values (reservations l)).

Definition Reserve `{!MapRange} (now : time) (id tenant : string) (amount : Z) (ttl : Duration) (l : Ledger) :
    Ledger * (Reservation * option error) :=
  if bool_decide (id = "") || bool_decide (tenant = "") || (amount <? 1)
  then (l, (zero_reservation, Some "reservation id, tenant and positive amount required"))
  else match reservations l !! id with
  | Some existing => (l, (existing, None))
  | None =>
      match quotas l !! tenant with
      | None => (l, (zero_reservation, Some "quota not configured"))
      | Some q =>
          let l := expireLocked now l in
          let u := currentUsageLocked tenant now l in
          if DailyLimit q <? wrap64 (wrap64 (DailyUsed u + Reserved u) + amount)
          then (l, (zero_reservation, Some "daily quota exceeded"))
          else if MonthlyLimit q <? wrap64 (wrap64 (MonthlyUsed u + Reserved u) + amount)
          then (l, (zero_reservation, Some "monthly quota exceeded"))
          else if BurstLimit q <? wrap64 (Reserved u + amount)
          then (l, (zero_reservation, Some "burst quota exceeded"))
          else
            let r := {| rID := id; rTenantID := tenant; Amount := amount; rCreatedAt := now;
                        ExpiresAt := now + ttl; rCommitted := false |} in
            let l := put_usage l tenant (set_reserved u (wrap64 (Reserved u + amount)) now) in
            ({| quotas := quotas l; usage := usage l; reservations := <[id := r]> (reservations l) |},
             (r, None))
      end
  end.

Definition committed_usage (u : Usage) (amount : Z) (now : time) : Usage := {|
  uTenantID := uTenantID u; Day := Day u; Month := Month u;
  DailyUsed := wrap64 (DailyUsed u + amount); MonthlyUsed := wrap64 (MonthlyUsed u + amount);
  Reserved := wrap64 (Reserved u - amount); Committed := wrap64 (Committed u + amount);
  LastModified := now |}.

Definition set_committed (r : Reservation) : Reservation := {|
  rID := rID r; rTenantID := rTenantID r; Amount := Amount r; rCreatedAt := rCreatedAt r;
  ExpiresAt := ExpiresAt r; rCommitted := true |}.

Definition Commit (now : time) (id : string) (l : Ledger) : Ledger * option error :=
  match reservations l !! id with
  | None => (l, Some "reservation not found")
  | Some r =>
      if rCommitted r then (l, None)
      else if After now (ExpiresAt r) then (releaseLocked r now l, Some "reservation expired")
      else
        let u := currentUsageLocked (rTenantID r) now l in
        let l := put_usage l (rTenantID r) (committed_usage u (Amount r) now) in
        ({| quotas := quotas l; usage := usage l;
            reservations := <[id := set_committed r]> (reservations l) |}, None)
  end.

Definition Rollback (now : time) (id : string) (l : Ledger) : Ledger * option error :=
  match reservations l !! id with
  | None => (l, Some "reservation not found")
  | Some r =>
      if rCommitted r then (l, Some "committed reservation cannot be rolled back")
      else (releaseLocked r now l, None)
  end.

Definition Usage_ `{!MapRange} (now : time) (tenant : string) (l : Ledger) : Ledger * Usage :=
  let l := expireLocked now l in (l, currentUsageLocked tenant now l).

(** ** Specification *)

Inductive call :=
| CallConfigure (now : time) (q : Quota)
| CallReserve (now : time) (id tenant : string) (amount : Z) (ttl : Duration)
| CallCommit (now : time) (id : string)
| CallRollback (now : time) (id : string)
| CallUsage (now : time) (tenant : string).

Definition run_call `{!MapRange} (l : Ledger) (c : call) : Ledger :=
  match c with
  | CallConfigure now q => (Configure now q l).1
  | CallReserve now id tenant amount ttl => (Reserve now id tenant amount ttl l).1
  | CallCommit now id => (Commit now id l).1
  | CallRollback now id => (Rollback now id l).1
  | CallUsage now tenant => (Usage_ now tenant l).1
  end.

(** The largest limit and amount for which no sum of [Reserve] can overflow. *)
Definition cap : Z := 2 ^ 61.

Definition call_ok (daily monthly burst : Z) (c : call) : Prop :=
  match c with
  | CallConfigure _ q => DailyLimit q ≤ daily ∧ MonthlyLimit q ≤ monthly ∧ BurstLimit q ≤ burst
  | CallReserve _ _ _ amount _ => amount ≤ cap
  | _ => True
  end.

(** What the open reservations of a tenant add up to. *)
Definition open_amount (tenant : string) (r : Reservation) : Z :=
  if decide (rTenantID r = tenant ∧ rCommitted r = false) then Amount r else 0.

Definition held (tenant : string) (m : gmap string Reservation) : Z :=
  map_fold (λ _ r z, open_amount tenant r + z) 0 m.

Definition usage_of (l : Ledger) (tenant : string) : Usage := default zero_usage (usage l !! tenant).

Record ledger_ok (daily monthly burst : Z) (l : Ledger) : Prop := {
  lg_limits : ∀ t q, quotas l !! t = Some q →
    1 ≤ DailyLimit q ≤ daily ∧ DailyLimit q ≤ MonthlyLimit q ≤ monthly ∧ 1 ≤ BurstLimit q ≤ burst;
  lg_ids : ∀ id r, reservations l !! id = Some r → rID r = id ∧ 1 ≤ Amount r;
  lg_held : ∀ t, Reserved (usage_of l t) = held t (reservations l);
  lg_daily : ∀ t, 0 ≤ DailyUsed (usage_of l t) ∧
    DailyUsed (usage_of l t) + Reserved (usage_of l t) ≤ daily;
  lg_monthly : ∀ t, 0 ≤ MonthlyUsed (usage_of l t) ∧
    MonthlyUsed (usage_of l t) + Reserved (usage_of l t) ≤ monthly;
  lg_burst : ∀ t, Reserved (usage_of l t) ≤ burst;
}.

(** ** Lemmas: what reservations hold *)

Lemma held_insert t m id r :
  m !! id = None → held t (<[id := r]> m) = open_amount t r + held t m.
Proof. intros Hm. unfold held. rewrite map_fold_insert_L; [done| |done]. intros. lia. Qed.

Lemma held_delete t m id r :
  m !! id = Some r → held t m = open_amount t r + held t (delete id m).
Proof. intros Hm. unfold held. rewrite (map_fold_delete_L _ _ id r); [done| |done]. intros. lia. Qed.

Lemma held_replace t m id r r' :
  m !! id = Some r → held t (<[id := r']> m) = open_amount t r' - open_amount t r + held t m.
Proof.
  intros Hm. rewrite <- insert_delete_eq, held_insert by apply lookup_delete_eq.
  rewrite (held_delete t m id r Hm). lia.
Qed.

Definition amounts_ok (m : gmap string Reservation) : Prop :=
  ∀ id r, m !! id = Some r → rID r = id ∧ 1 ≤ Amount r.

Lemma open_amount_nonneg t r : 1 ≤ Amount r → 0 ≤ open_amount t r.
Proof. unfold open_amount. case_decide; lia. Qed.

Lemma held_nonneg t m : amounts_ok m → 0 ≤ held t m.
Proof.
  induction m as [|id r m Hid IH] using map_ind; intros Ha; [done|].
  rewrite held_insert by done. destruct (Ha id r) as [_ Hr]; [apply lookup_insert_eq|].
  pose proof (open_amount_nonneg t r Hr). assert (0 ≤ held t m); [|lia].
  apply IH. intros id' r' Hr'. apply Ha. rewrite lookup_insert_ne; [done|congruence].
Qed.

(** An open reservation is part of what its tenant holds. *)
Lemma held_open m id r :
  amounts_ok m → m !! id = Some r → rCommitted r = false →
  Amount r ≤ held (rTenantID r) m.
Proof.
  intros Ha Hr Hc. rewrite (held_delete _ m id r Hr). unfold open_amount. rewrite decide_True by done.
  assert (0 ≤ held (rTenantID r) (delete id m)); [|lia].
  apply held_nonneg. intros id' r' [_ Hr']%lookup_delete_Some. by apply Ha.
Qed.

Lemma usage_put l t u t' :
  usage_of (put_usage l t u) t' = if decide (t = t') then u else usage_of l t'.
Proof. unfold usage_of, put_usage. cbn [usage]. rewrite lookup_insert. by case_decide. Qed.

Section ledger.
Context (daily monthly burst : Z).
Context (Hdaily : 0 ≤ daily ≤ cap) (Hmonthly : 0 ≤ monthly ≤ cap) (Hburst : 0 ≤ burst ≤ cap).
Local Abbreviation ok := (ledger_ok daily monthly burst).

(** The usage of a tenant is within the bounds. *)
Record usage_ok (u : Usage) : Prop := {
  us_reserved : 0 ≤ Reserved u ≤ burst;
  us_daily : 0 ≤ DailyUsed u ∧ DailyUsed u + Reserved u ≤ daily;
  us_monthly : 0 ≤ MonthlyUsed u ∧ MonthlyUsed u + Reserved u ≤ monthly;
}.

Lemma ledger_usage_ok l t : ok l → usage_ok (usage_of l t).
Proof.
  intros [_ Hids Hh Hd Hm Hb]. specialize (Hh t). specialize (Hd t). specialize (Hm t). specialize (Hb t).
  pose proof (held_nonneg t (reservations l) Hids). split; lia.
Qed.

Lemma current_usage_ok l t now :
  ok l → usage_ok (currentUsageLocked t now l) ∧
    Reserved (currentUsageLocked t now l) = held t (reservations l).
Proof.
  intros Hok. pose proof (ledger_usage_ok l t Hok) as [Hr Hd Hm].
  split; [|apply (lg_held _ _ _ _ Hok)]. unfold currentUsageLocked. fold (usage_of l t).
  split; cbn [DailyUsed MonthlyUsed Reserved]; [done|case_decide; lia..].
Qed.

(** A step that changes the usage of one tenant and the reservations. *)
Lemma ledger_step l t u m :
  ok l → amounts_ok m → usage_ok u → Reserved u = held t m →
  (∀ t', t' ≠ t → held t' m = held t' (reservations l)) →
  ok {| quotas := quotas l; usage := <[t := u]> (usage l); reservations := m |}.
Proof.
  intros [Hl _ Hh Hd Hm Hb] Hids [Hr Hud Hum] Hres Hoth.
  set (l' := {| quotas := quotas l; usage := <[t := u]> (usage l); reservations := m |}).
  assert (Hu : ∀ t', usage_of l' t' = if decide (t = t') then u else usage_of l t')
    by (intros t'; apply (usage_put l t u t')).
  split; cbn [quotas reservations l']; try done; intros t'; rewrite Hu;
    (destruct (decide (t = t')) as [->|Hne]; [lia|]); [|apply Hd|apply Hm|apply Hb].
  rewrite Hoth by congruence. apply Hh.
Qed.

Lemma small_wrap z : - (4 * cap) < z < 4 * cap → wrap64 z = z.
Proof. unfold cap. intros. apply wrap64_small. unfold in_int64, min_int64, max_int64. lia. Qed.

Lemma open_other t t' r : rTenantID r = t → t' ≠ t → open_amount t' r = 0.
Proof. intros <- Hne. unfold open_amount. rewrite decide_False; [done|]. intros [? _]. congruence. Qed.

Lemma open_self r : rCommitted r = false → open_amount (rTenantID r) r = Amount r.
Proof. intros Hc. unfold open_amount. by rewrite decide_True. Qed.

Lemma release_ok l r now :
  ok l → reservations l !! rID r = Some r → rCommitted r = false → ok (releaseLocked r now l).
Proof using Hdaily Hmonthly Hburst.
  intros Hok Hr Hc. destruct (current_usage_ok l (rTenantID r) now Hok) as [[Hres Hd Hm] Hheld].
  pose proof (held_open _ _ _ (lg_ids _ _ _ _ Hok) Hr Hc) as Hle.
  destruct (lg_ids _ _ _ _ Hok _ _ Hr) as [_ Hamt].
  pose proof (held_delete (rTenantID r) _ _ _ Hr) as Hdel. rewrite open_self in Hdel by done.
  unfold releaseLocked, put_usage. cbn [quotas usage reservations].
  set (u := currentUsageLocked (rTenantID r) now l) in *. rewrite small_wrap by lia.
  destruct (Z.ltb_spec (Reserved u - Amount r) 0); [lia|].
  apply ledger_step; [done| | | |].
  - intros id' r' [_ Hr']%lookup_delete_Some. by apply (lg_ids _ _ _ _ Hok).
  - split; cbn [set_reserved DailyUsed MonthlyUsed Reserved]; lia.
  - cbn [set_reserved Reserved]. lia.
  - intros t' Hne. rewrite (held_delete t' _ _ _ Hr), (open_other (rTenantID r)); done.
Qed.

Lemma reservations_release l r now : reservations (releaseLocked r now l) = delete (rID r) (reservations l).
Proof. done. Qed.

Definition expires (now : time) (r : Reservation) : bool := negb (rCommitted r) && After now (ExpiresAt r).

Lemma expire_fold now rs l :
  ok l → NoDup (rID <$> rs) → (∀ r, r ∈ rs → reservations l !! rID r = Some r) →
  let l' := foldl (expire_one now) l rs in
  ok l' ∧ quotas l' = quotas l ∧
  ∀ id, reservations l' !! id =
    match reservations l !! id with
    | Some r => if bool_decide (id ∈ rID <$> rs) && expires now r then None else Some r
    | None => None
    end.
Proof using Hdaily Hmonthly Hburst.
  cbn zeta. revert l. induction rs as [|r rs IH]; intros l Hok Hnd Hin; cbn [foldl fmap list_fmap].
  { split_and!; [done..|]. intros id. by destruct (reservations l !! id). }
  apply NoDup_cons in Hnd as [Hr Hnd]. pose proof (Hin r ltac:(left)) as Hlr.
  unfold expire_one at 2 4 6. fold (expires now r). destruct (expires now r) eqn:He.
  - assert (Hc : rCommitted r = false).
    { unfold expires in He. by apply andb_prop in He as [?%negb_true_iff _]. }
    destruct (IH (releaseLocked r now l)) as (Hok' & Hq & Hres); [by apply release_ok|done| |].
    { intros r' Hr'. rewrite reservations_release, lookup_delete_ne; [apply Hin; by right|].
      intros Heq. apply Hr. rewrite Heq. by apply list_elem_of_fmap_2. }
    split_and!; [done|done|]. intros id. rewrite Hres, reservations_release.
    destruct (decide (rID r = id)) as [<-|Hne].
    + rewrite lookup_delete_eq, Hlr. rewrite bool_decide_true by left. by rewrite He.
    + rewrite lookup_delete_ne by done. destruct (reservations l !! id); [|done].
      replace (bool_decide (id ∈ rID r :: (rID <$> rs))) with (bool_decide (id ∈ rID <$> rs)); [done|].
      apply bool_decide_ext. rewrite elem_of_cons. naive_solver.
  - destruct (IH l) as (Hok' & Hq & Hres); [done|done|intros; apply Hin; by right|].
    split_and!; [done..|]. intros id. rewrite Hres. destruct (reservations l !! id) as [r'|] eqn:Hr'; [|done].
    destruct (decide (id = rID r)) as [->|Hne].
    + rewrite Hlr in Hr'. injection Hr' as <-. by rewrite He, !andb_false_r.
    + replace (bool_decide (id ∈ rID r :: (rID <$> rs))) with (bool_decide (id ∈ rID <$> rs)); [done|].
      apply bool_decide_ext. rewrite elem_of_cons. naive_solver.
Qed.

Section range.
Context {mr : MapRange} {mrok : @MapRangeOk mr}.

(** Expiring releases exactly the open reservations that are past, whatever the
    order of the map. *)
Lemma expire_spec now l :
  ok l →
  let l' := expireLocked now l in
  ok l' ∧ quotas l' = quotas l ∧
  ∀ id, reservations l' !! id =
    match reservations l !! id with
    | Some r => if expires now r then None else Some r
    | None => None
    end.
Proof using Hdaily Hmonthly Hburst mrok.
  intros Hok. cbn zeta. unfold expireLocked.
  assert (Hids : ∀ r, r ∈ range_values (reservations l) ↔ reservations l !! rID r = Some r).
  { intros r. rewrite elem_of_range_values. split; [|by eexists]. intros [id Hr].
    by destruct (lg_ids _ _ _ _ Hok id r Hr) as [-> _]. }
  destruct (expire_fold now (range_values (reservations l)) l Hok) as (Hok' & Hq & Hres).
  - unfold range_values. rewrite <- list_fmap_compose.
    assert (Heq : (rID ∘ snd) <$> map_range (reservations l) = (map_range (reservations l)).*1).
    { apply list_fmap_ext. intros i [id r] Hi. cbn.
      apply list_elem_of_lookup_2, elem_of_range in Hi. by destruct (lg_ids _ _ _ _ Hok id r Hi). }
    rewrite Heq. apply range_keys_nodup.
  - intros r. apply Hids.
  - split_and!; [done..|]. intros id. rewrite Hres. destruct (reservations l !! id) as [r|] eqn:Hr; [|done].
    destruct (lg_ids _ _ _ _ Hok id r Hr) as [Hid _]. rewrite bool_decide_true; [done|].
    rewrite <- Hid. apply list_elem_of_fmap_2, Hids. by rewrite Hid.
Qed.

(** The checks of [Reserve], without overflow. *)
Definition fits (u : Usage) (q : Quota) (amount : Z) : Prop :=
  DailyUsed u + Reserved u + amount ≤ DailyLimit q ∧
  MonthlyUsed u + Reserved u + amount ≤ MonthlyLimit q ∧
  Reserved u + amount ≤ BurstLimit q.

Lemma Reserve_cases now id tenant amount ttl l :
  ok l → amount ≤ cap →
  let '(l', (r, e)) := Reserve now id tenant amount ttl l in
  (l' = l ∧ (id = "" ∨ tenant = "" ∨ amount < 1 ∨ reservations l !! id ≠ None ∨ quotas l !! tenant = None)) ∨
  (id ≠ "" ∧ tenant ≠ "" ∧ 1 ≤ amount ∧ reservations l !! id = None ∧
   ∃ q, quotas l !! tenant = Some q ∧
   let le := expireLocked now l in
   let u := currentUsageLocked tenant now le in
   let r0 := {| rID := id; rTenantID := tenant; Amount := amount; rCreatedAt := now;
                ExpiresAt := now + ttl; rCommitted := false |} in
   (fits u q amount ∧ r = r0 ∧ e = None ∧
    l' = {| quotas := quotas l; usage := <[tenant := set_reserved u (Reserved u + amount) now]> (usage le);
            reservations := <[id := r0]> (reservations le) |}) ∨
   (¬ fits u q amount ∧ e ≠ None ∧ l' = le)).
Proof using Hdaily Hmonthly Hburst mrok.
  intros Hok Hamt. unfold Reserve.
  destruct (bool_decide (id = "") || bool_decide (tenant = "") || (amount <? 1)) eqn:Hg.
  { left. split; [done|]. apply orb_true_iff in Hg as [[Hid|Ht]%orb_true_iff|Ha].
    - apply bool_decide_eq_true in Hid. by left.
    - apply bool_decide_eq_true in Ht. by right; left.
    - apply Z.ltb_lt in Ha. by right; right; left. }
  apply orb_false_iff in Hg as [[Hid Ht]%orb_false_iff Ha]. apply bool_decide_eq_false in Hid, Ht.
  apply Z.ltb_ge in Ha. destruct (reservations l !! id) as [r|] eqn:Hr; [left; by auto 7|].
  destruct (quotas l !! tenant) as [q|] eqn:Hq; [|left; by auto 7].
  destruct (expire_spec now l Hok) as (Hoke & Hqe & Hres). set (le := expireLocked now l) in *.
  destruct (current_usage_ok le tenant now Hoke) as [[Hur Hud Hum] _].
  set (u := currentUsageLocked tenant now le) in *.
  rewrite (small_wrap (DailyUsed u + Reserved u)), (small_wrap (DailyUsed u + Reserved u + amount)),
    (small_wrap (MonthlyUsed u + Reserved u)), (small_wrap (MonthlyUsed u + Reserved u + amount)),
    (small_wrap (Reserved u + amount)) by lia.
  unfold fits.
  destruct (Z.ltb_spec (DailyLimit q) (DailyUsed u + Reserved u + amount)),
    (Z.ltb_spec (MonthlyLimit q) (MonthlyUsed u + Reserved u + amount)),
    (Z.ltb_spec (BurstLimit q) (Reserved u + amount)); right; split_and!; try done; exists q; (split; [done|]);
    try (right; split_and!; [lia|done|done]).
  left. cbn zeta. split_and!; [lia..|done|done|]. unfold put_usage. cbn [quotas usage reservations]. by rewrite Hqe.
Qed.

Lemma Reserve_ok now id tenant amount ttl l :
  ok l → amount ≤ cap → ok (Reserve now id tenant amount ttl l).1.
Proof using Hdaily Hmonthly Hburst mrok.
  intros Hok Hamt. pose proof (Reserve_cases now id tenant amount ttl l Hok Hamt) as Hc.
  destruct (Reserve now id tenant amount ttl l) as [l' [r e]]. cbn [fst].
  destruct Hc as [[-> _]|(_ & _ & Ha & Hr & q & Hq & [(Hf & -> & _ & ->)|(_ & _ & ->)])]; [done| |by apply expire_spec].
  destruct (expire_spec now l Hok) as (Hoke & Hqe & Hres). set (le := expireLocked now l) in *.
  destruct (current_usage_ok le tenant now Hoke) as [[Hur Hud Hum] Hheld].
  set (u := currentUsageLocked tenant now le) in *. destruct (lg_limits _ _ _ _ Hok tenant q Hq) as (Hd & Hm & Hb).
  specialize (Hres id). rewrite Hr in Hres. rewrite <- Hqe. unfold fits in Hf. apply ledger_step.
  - done.
  - intros id' r'. rewrite lookup_insert. destruct (decide (id = id')) as [->|]; [intros [= <-]; done|].
    apply (lg_ids _ _ _ _ Hoke).
  - split; cbn [set_reserved DailyUsed MonthlyUsed Reserved]; lia.
  - rewrite held_insert by done. cbn [set_reserved Reserved]. unfold open_amount. cbn [rTenantID rCommitted Amount].
    rewrite decide_True by done. lia.
  - intros t' Hne. rewrite held_insert by done. by rewrite (open_other tenant).
Qed.

Lemma Commit_ok now id l : ok l → ok (Commit now id l).1.
Proof using Hdaily Hmonthly Hburst.
  intros Hok. unfold Commit. destruct (reservations l !! id) as [r|] eqn:Hr; [|done].
  destruct (rCommitted r) eqn:Hc; [done|]. destruct (lg_ids _ _ _ _ Hok _ _ Hr) as [Hid Ha].
  destruct (After now (ExpiresAt r)); [apply release_ok; [done|by rewrite Hid|done]|]. cbn [fst].
  destruct (current_usage_ok l (rTenantID r) now Hok) as [[Hur Hud Hum] Hheld].
  pose proof (held_open _ _ _ (lg_ids _ _ _ _ Hok) Hr Hc) as Hle.
  set (u := currentUsageLocked (rTenantID r) now l) in *. unfold put_usage. cbn [quotas usage reservations].
  apply ledger_step.
  - done.
  - intros id' r'. rewrite lookup_insert. destruct (decide (id = id')) as [->|]; [by intros [= <-]|].
    apply (lg_ids _ _ _ _ Hok).
  - split; cbn [committed_usage DailyUsed MonthlyUsed Reserved]; rewrite !small_wrap by lia; lia.
  - rewrite (held_replace _ _ _ r) by done. rewrite open_self by done.
    unfold open_amount. cbn [set_committed rCommitted]. rewrite decide_False by (by intros [_ ?]).
    cbn [committed_usage Reserved]. rewrite small_wrap by lia. lia.
  - intros t' Hne. rewrite (held_replace _ _ _ r) by done. by rewrite !(open_other (rTenantID r)).
Qed.

Lemma ledger_call_ok l c : ok l → call_ok daily monthly burst c → ok (run_call l c).
Proof using Hdaily Hmonthly Hburst mrok.
  intros Hok Hc. destruct c as [now q|now id t a ttl|now id|now id|now t]; cbn [run_call].
  - unfold Configure. case_decide; [done|]. destruct (_ || _ || _) eqn:Hg; [done|].
    apply orb_false_iff in Hg as [[??]%orb_false_iff ?]. destruct Hok as [Hl Hi Hh Hd Hm Hb].
    split; cbn [fst quotas usage reservations]; try done.
    intros t' q'. rewrite lookup_insert. case_decide; [|apply Hl]. intros [= <-]. cbn in *. lia.
  - by apply Reserve_ok.
  - by apply Commit_ok.
  - unfold Rollback. destruct (reservations l !! id) as [r|] eqn:Hr; [|done].
    destruct (rCommitted r) eqn:Hcm; [done|]. destruct (lg_ids _ _ _ _ Hok _ _ Hr) as [Hid _].
    apply release_ok; [done|by rewrite Hid|done].
  - by apply expire_spec.
Qed.

Lemma ledger_reachable cs : Forall (call_ok daily monthly burst) cs → ok (foldl run_call NewLedger cs).
Proof using Hdaily Hmonthly Hburst mrok.
  assert (Hn : ok NewLedger).
  { split; cbn [NewLedger quotas usage reservations]; intros t; try (intros ?; by rewrite lookup_empty);
      unfold usage_of; cbn [NewLedger usage]; rewrite lookup_empty; cbn; lia || done. }
  revert Hn. generalize NewLedger. induction cs as [|c cs IH]; intros l Hok Hcs; [done|].
  inversion_clear Hcs. cbn [foldl]. apply IH; [by apply ledger_call_ok|done].
Qed.
End range.
End ledger.

(** ** Properties *)

(** C28: as long as limits and amounts stay below 2^61, after any history of
    calls with any clock, what a tenant has reserved is the sum of its open
    reservations, no tenant's use of the day or month, with what it has reserved,
    passes the largest limit configured, and a new [Reserve] succeeds exactly when
    the amount fits the three limits once expired reservations are released. *)
Theorem ledger_safe {mr : MapRange} {mrok : @MapRangeOk mr} (daily monthly burst : Z) (cs : list call) :
  0 ≤ daily ≤ cap → 0 ≤ monthly ≤ cap → 0 ≤ burst ≤ cap →
  Forall (call_ok daily monthly burst) cs →
  let l := foldl run_call NewLedger cs in
  ledger_ok daily monthly burst l ∧
  ∀ now id tenant amount ttl q, id ≠ "" → tenant ≠ "" → 1 ≤ amount ≤ cap →
    reservations l !! id = None → quotas l !! tenant = Some q →
    ((Reserve now id tenant amount ttl l).2.2 = None ↔ fits (Usage_ now tenant l).2 q amount).
Proof.
  intros Hd Hm Hb Hcs. cbn zeta. set (l := foldl run_call NewLedger cs).
  assert (Hok : ledger_ok daily monthly burst l) by by apply ledger_reachable. split; [done|].
  intros now id tenant amount ttl q Hid Ht Ha Hr Hq.
  pose proof (Reserve_cases daily monthly burst Hd Hm Hb now id tenant amount ttl l Hok ltac:(lia)) as Hc.
  destruct (Reserve now id tenant amount ttl l) as [l' [r e]]. cbn [fst snd Usage_].
  destruct Hc as [[_ Hn]|(_ & _ & _ & _ & q' & Hq' & Hc)].
  - exfalso. destruct Hn as [?|[?|[?|[?|?]]]]; [done|done|lia|done|congruence].
  - assert (q' = q) as -> by congruence. cbn zeta in Hc.
    destruct Hc as [(Hf & _ & -> & _)|(Hf & He & _)]; [done|]. split; [done|intros ?; by destruct Hf].
Qed.

(** The checks of [Reserve] are on wrapped sums.  Once a tenant has
    something reserved, an amount of 2^63 - 1 passes all three limits, whatever
    they are, and leaves the reserved total negative. *)
Theorem reserve_overflow `{!MapRange} (now : time) (id tenant : string) (ttl : Duration) (l : Ledger) (q : Quota) :
  id ≠ "" → tenant ≠ "" → reservations l !! id = None → quotas l !! tenant = Some q →
  0 ≤ DailyLimit q → 0 ≤ MonthlyLimit q → 0 ≤ BurstLimit q →
  let u := (Usage_ now tenant l).2 in
  1 ≤ Reserved u ≤ cap → 0 ≤ DailyUsed u ≤ cap → 0 ≤ MonthlyUsed u ≤ cap →
  (Reserve now id tenant max_int64 ttl l).2.2 = None ∧
  Reserved (usage_of (Reserve now id tenant max_int64 ttl l).1 tenant) < 0.
Proof.
  intros Hid Ht Hr Hq Hd Hm Hb. cbn zeta. unfold Usage_, Reserve. cbn [snd].
  rewrite !bool_decide_false, Hr, Hq by done. cbn [orb]. change (max_int64 <? 1) with false. cbn iota.
  set (le := expireLocked now l). set (u := currentUsageLocked tenant now le). intros Hur Hud Hum.
  assert (Hwrap : ∀ z, 1 ≤ z ≤ 2 * cap → wrap64 (z + max_int64) = z + max_int64 - two64).
  { unfold cap, wrap64, two64, max_int64. intros z Hz.
    rewrite <- (Z.mod_unique (z + (2 ^ 63 - 1) + 2 ^ 63) (2 ^ 64) 1 (z - 1)); lia. }
  assert (Hcap : 0 < cap) by done.
  rewrite (small_wrap (DailyUsed u + Reserved u)), (small_wrap (MonthlyUsed u + Reserved u)) by lia.
  rewrite !Hwrap by lia. unfold max_int64, two64, cap in *.
  destruct (Z.ltb_spec (DailyLimit q) (DailyUsed u + Reserved u + (2 ^ 63 - 1) - 2 ^ 64)); [lia|].
  destruct (Z.ltb_spec (MonthlyLimit q) (MonthlyUsed u + Reserved u + (2 ^ 63 - 1) - 2 ^ 64)); [lia|].
  destruct (Z.ltb_spec (BurstLimit q) (Reserved u + (2 ^ 63 - 1) - 2 ^ 64)); [lia|].
  cbn [fst snd]. split; [done|]. unfold usage_of, put_usage. cbn [usage].
  rewrite lookup_insert_eq. change (Reserved u + (2 ^ 63 - 1) - 2 ^ 64 < 0). lia.
Qed.

(** ** Witnesses *)

#[local] Existing Instance map_to_list_range.
#[local] Existing Instance map_to_list_range_ok.

Definition small_quota : Quota :=
  {| qTenantID := "acme"; DailyLimit := 10; MonthlyLimit := 100; BurstLimit := 5; qUpdatedAt := 0 |}.

Definition one_reserved : list call :=
  [CallConfigure 1 small_quota; CallReserve 2 "r1" "acme" 3 (60 * Second)].

Lemma ledger_safe_witness :
  let l := foldl run_call NewLedger one_reserved in
  ledger_ok 10 100 5 l ∧ Reserved (usage_of l "acme") = 3 ∧
  ((Reserve 4 "r2" "acme" 2 (60 * Second) l).2.2 = None ↔
     3 + 2 ≤ 10 ∧ 0 + 3 + 2 ≤ 100 ∧ 3 + 2 ≤ 5).
Proof.
  destruct (ledger_safe 10 100 5 one_reserved) as [Hok Hres];
    [vm_compute; split; discriminate..|repeat constructor; vm_compute; discriminate|].
  split_and!; [exact Hok|vm_compute; reflexivity|].
  apply (Hres 4 "r2" "acme" 2 (60 * Second)
    {| qTenantID := "acme"; DailyLimit := 10; MonthlyLimit := 100; BurstLimit := 5; qUpdatedAt := 1 |});
    [discriminate|discriminate|vm_compute; split; discriminate|vm_compute; reflexivity|vm_compute; reflexivity].
Defined.

Lemma reserve_overflow_witness :
  let l := foldl run_call NewLedger one_reserved in
  (Reserve 4 "r2" "acme" max_int64 (60 * Second) l).2.2 = None ∧
  Reserved (usage_of (Reserve 4 "r2" "acme" max_int64 (60 * Second) l).1 "acme") < 0.
Proof.
  apply (reserve_overflow 4 "r2" "acme" (60 * Second) (foldl run_call NewLedger one_reserved)
    {| qTenantID := "acme"; DailyLimit := 10; MonthlyLimit := 100; BurstLimit := 5; qUpdatedAt := 1 |});
    [discriminate|discriminate|vm_compute; reflexivity|vm_compute; reflexivity|..];
    vm_compute; try split; discriminate.
Defined.

End Quota.
