(* ===== verification/Metrics.v ===== *)
(** * Package [observability]: counters and histograms
    ([internal/observability/metrics.go])

    A counter is reached through a pointer the registry hands out: [cells] and
    [samples_at] are the memory, addresses are positions in them. *)

From Stdlib Require Import Ascii.
From S2P Require Export GoTime GoSort.
Local Open Scope Z_scope.

Module Metrics.

(** ** Sorting *)

(** [v[j], v[k] = v[k], v[j]] *)
Definition swap (v : list Duration) (j k : nat) : list Duration :=
  match v !! j, v !! k with
  | Some a, Some b => <[j := b]> (<[k := a]> v)
  | _, _ => v
  end.

(** [for j := i; j > 0 && v[j] < v[j-1]; j--] *)
Fixpoint sink (v : list Duration) (j : nat) : list Duration :=
  match j with
  | O => v
  | S k =>
      match v !! j, v !! k with
      | Some a, Some b => if a <? b then sink (swap v j k) k else v
      | _, _ => v
      end
  end.

Definition sortDurations (v : list Duration) : list Duration :=
  foldl sink v (seq 1 (length v - 1)).

(** ** Histograms *)

Definition max_samples : Z := 10000.

Definition Observe (d : Duration) (samples : list Duration) : list Duration :=
  let n := Z.of_nat (length samples) in
  if n <? max_samples then samples ++ [d] else <[Z.to_nat (n `mod` max_samples) := d]> samples.

(** [v[i]]: [None] is the panic of an index out of range. *)
Definition percentile (num den : nat) (v : list Duration) : option Duration :=
  v !! (length v * num / den)%nat.

(** The keys and values of the map; [None] is a panic. *)
Definition Snapshot (samples : list Duration) : option (list (string * Duration)) :=
  match samples with
  | [] => Some []
  | _ =>
      let v := sortDurations samples in
      match percentile 1 2 v, percentile 95 100 v, percentile 99 100 v with
      | Some p50, Some p95, Some p99 => Some [("p50", p50); ("p95", p95); ("p99", p99)]
      | _, _, _ => None
      end
  end.

(** ** The registry *)

Record Registry := {
  counters : gmap string nat;
  histograms : gmap string nat;
  cells : list Z;
  samples_at : list (list Duration);
}.

Definition NewRegistry : Registry :=
  {| counters := ∅; histograms := ∅; cells := []; samples_at := [] |}.

Definition Counter (name : string) (r : Registry) : Registry * nat :=
  match counters r !! name with
  | Some c => (r, c)
  | None =>
      let c := length (cells r) in
      ({| counters := <[name := c]> (counters r); histograms := histograms r;
          cells := cells r ++ [0]; samples_at := samples_at r |}, c)
  end.

Definition Histogram (name : string) (r : Registry) : Registry * nat :=
  match histograms r !! name with
  | Some h => (r, h)
  | None =>
      let h := length (samples_at r) in
      ({| counters := counters r; histograms := <[name := h]> (histograms r);
          cells := cells r; samples_at := samples_at r ++ [[]] |}, h)
  end.

Definition set_cells (r : Registry) (l : list Z) : Registry :=
  {| counters := counters r; histograms := histograms r; cells := l; samples_at := samples_at r |}.

Definition Add (c : nat) (n : Z) (r : Registry) : Registry :=
  set_cells r (alter (λ v, wrapu64 (v + n)) c (cells r)).

Definition Inc (c : nat) (r : Registry) : Registry := Add c 1 r.

Definition Value (c : nat) (r : Registry) : Z := default 0 (cells r !! c).

(** One line per counter, in the order of the map. *)
Definition line (r : Registry) (x : string * nat) : string :=
  "notification_" +:+ x.1 +:+ " " +:+ FormatInt (Value x.2 r) +:+ String (ascii_of_nat 10) "".

Definition Prometheus `{!MapRange} (r : Registry) : string :=
  foldl (λ out x, out +:+ line r x) "" (map_range (counters r)).

Example snapshot_ex :
  Snapshot [5; 3; 9; 1] = Some [("p50", 5); ("p95", 9); ("p99", 9)] ∧ Snapshot [] = Some [].
Proof. by vm_compute. Qed.

(** ** Lemmas: sorting *)

Lemma length_swap v j k : length (swap v j k) = length v.
Proof. unfold swap. repeat case_match; by rewrite ?length_insert. Qed.

Lemma swap_perm v j k : swap v j k ≡ₚ v.
Proof.
  unfold swap. destruct (v !! j) as [a|] eqn:Hj; [|done]. destruct (v !! k) as [b|] eqn:Hk; [|done].
  by apply Permutation_insert_swap.
Qed.

Lemma lookup_swap v j k a b q :
  v !! j = Some a → v !! k = Some b → j ≠ k →
  swap v j k !! q = if decide (q = j) then Some b else if decide (q = k) then Some a else v !! q.
Proof.
  intros Hj Hk Hne. unfold swap. rewrite Hj, Hk. apply lookup_lt_Some in Hj, Hk.
  destruct (decide (q = j)) as [->|Hqj].
  - apply list_lookup_insert_eq. by rewrite length_insert.
  - rewrite list_lookup_insert_ne by done. destruct (decide (q = k)) as [->|].
    + by apply list_lookup_insert_eq.
    + by rewrite list_lookup_insert_ne.
Qed.

(** The first [i + 1] elements are in order, but for pairs that end at [j]. *)
Definition ordered_but (v : list Duration) (i j : nat) : Prop :=
  ∀ p q x y, (p < q ≤ i)%nat → q ≠ j → v !! p = Some x → v !! q = Some y → x ≤ y.

Definition ordered (v : list Duration) (i : nat) : Prop :=
  ∀ p q x y, (p < q ≤ i)%nat → v !! p = Some x → v !! q = Some y → x ≤ y.

Lemma sink_perm v j : sink v j ≡ₚ v.
Proof.
  revert v. induction j as [|k IH]; intros v; cbn [sink]; [done|].
  repeat case_match; try done. by rewrite IH, swap_perm.
Qed.

Lemma swap_ordered v i k a b :
  v !! S k = Some a → v !! k = Some b → a < b →
  ordered_but v i (S k) → ordered_but (swap v (S k) k) i k.
Proof.
  intros Ha Hb Hlt Hv p q x y Hpq Hq. rewrite !(lookup_swap v (S k) k a b) by (done || lia).
  destruct (decide (q = S k)) as [->|Hqj]; [|destruct (decide (q = k)) as [?|_]; [done|]].
  - destruct (decide (p = S k)) as [?|_]; [lia|].
    destruct (decide (p = k)) as [->|Hpk]; [intros [= <-] [= <-]; lia|].
    intros Hp [= <-]. apply (Hv p k x b); [lia|lia|done|done].
  - destruct (decide (p = S k)) as [->|_]; [intros [= <-] Hy; apply (Hv k q b y); (lia || done)|].
    destruct (decide (p = k)) as [->|_]; [intros [= <-] Hy; apply (Hv (S k) q a y); (lia || done)|].
    intros Hp Hy. by apply (Hv p q x y).
Qed.

Lemma sink_ordered v i j :
  (j ≤ i)%nat → ordered_but v i j → ordered (sink v j) i.
Proof.
  revert v. induction j as [|k IH]; intros v Hj Hv; cbn [sink].
  { intros p q x y Hpq. apply Hv; lia. }
  destruct (v !! S k) as [a|] eqn:Ha.
  2: { intros p q x y Hpq Hp Hq. destruct (decide (q = S k)) as [->|]; [congruence|].
       by apply (Hv p q x y). }
  destruct (v !! k) as [b|] eqn:Hb.
  2: { apply lookup_ge_None in Hb. apply lookup_lt_Some in Ha. lia. }
  destruct (Z.ltb_spec a b) as [Hlt|Hge].
  { apply IH; [lia|by eapply swap_ordered]. }
  intros p q x y Hpq Hp Hq. destruct (decide (q = S k)) as [->|Hne]; [|by apply (Hv p q x y)].
  assert (y = a) as -> by congruence. destruct (decide (p = k)) as [->|Hpk].
  - assert (x = b) as -> by congruence. done.
  - transitivity b; [|done]. apply (Hv p k x b); (lia || done).
Qed.

Lemma sort_fold v n m :
  ordered v n →
  let v' := foldl sink v (seq (S n) m) in v' ≡ₚ v ∧ ordered v' (n + m).
Proof.
  cbn zeta. revert v n. induction m as [|m IH]; intros v n Hv; cbn [seq foldl].
  { by rewrite Nat.add_0_r. }
  destruct (IH (sink v (S n)) (S n)) as [Hp Ho].
  { apply sink_ordered; [done|]. intros p q x y Hpq Hq. apply Hv. lia. }
  split; [etrans; [exact Hp|apply sink_perm]|]. by rewrite Nat.add_succ_r.
Qed.

Lemma ordered_sorted v :
  (∀ p q x y, (p < q)%nat → v !! p = Some x → v !! q = Some y → x ≤ y) → StronglySorted Z.le v.
Proof.
  induction v as [|a v IH]; intros Hv; constructor.
  - apply IH. intros p q x y Hpq Hp Hq. apply (Hv (S p) (S q)); [lia|done..].
  - apply Forall_forall. intros y (q & Hq)%list_elem_of_lookup. apply (Hv 0%nat (S q)); [lia|done..].
Qed.

Lemma sortDurations_ok v :
  sortDurations v ≡ₚ v ∧ StronglySorted Z.le (sortDurations v) ∧
  ∀ p q x y, (p ≤ q)%nat → sortDurations v !! p = Some x → sortDurations v !! q = Some y → x ≤ y.
Proof.
  unfold sortDurations. destruct (sort_fold v 0 (length v - 1)) as [Hp Ho]; [intros p q x y; lia|].
  set (v' := foldl sink v (seq 1 (length v - 1))) in *. pose proof (Permutation_length Hp) as Hlen.
  assert (Hlt : ∀ p q x y, (p < q)%nat → v' !! p = Some x → v' !! q = Some y → x ≤ y).
  { intros p q x y Hpq Hx Hy. apply lookup_lt_Some in Hy as Hq. apply (Ho p q); [lia|done..]. }
  split_and!; [done|by apply ordered_sorted|]. intros p q x y Hpq Hx Hy.
  destruct (decide (p = q)) as [->|]; [assert (x = y) by congruence; lia|]. apply (Hlt p q); [lia|done..].
Qed.

(** ** Lemmas: histograms *)

Lemma Observe_full d s : Z.of_nat (length s) = max_samples → Observe d s = <[0%nat := d]> s.
Proof.
  unfold Observe. intros ->. rewrite Z.ltb_irrefl. by rewrite Z_mod_same_full.
Qed.

Definition observe_all (ds : list Duration) : list Duration := foldl (λ s d, Observe d s) [] ds.

Lemma observe_few ds : Z.of_nat (length ds) ≤ max_samples → observe_all ds = ds.
Proof.
  unfold observe_all. induction ds as [|d ds IH] using rev_ind; [done|].
  rewrite length_app, foldl_app. simpl. intros Hl. rewrite IH by lia. unfold Observe.
  destruct (Z.ltb_spec (Z.of_nat (length ds)) max_samples); [done|lia].
Qed.

Lemma observe_many ds more :
  Z.of_nat (length ds) = max_samples →
  observe_all (ds ++ more) = match last more with Some d => <[0%nat := d]> ds | None => ds end.
Proof.
  intros Hl. unfold observe_all. rewrite foldl_app. fold (observe_all ds).
  rewrite observe_few by lia. induction more as [|d more IH] using rev_ind; [done|].
  rewrite foldl_app, last_snoc. cbn [foldl]. rewrite IH.
  assert (Hlen : Z.of_nat (length (match last more with Some d => <[0%nat := d]> ds | None => ds end)) = max_samples).
  { destruct (last more); by rewrite ?length_insert. }
  rewrite Observe_full by done. destruct (last more); [apply list_insert_insert_eq|done].
Qed.

Lemma percentile_some num den v :
  (0 < length v)%nat → (num < den)%nat → ∃ x, percentile num den v = Some x.
Proof.
  intros Hv Hnd. unfold percentile. apply lookup_lt_is_Some_2.
  apply Nat.Div0.div_lt_upper_bound. nia.
Qed.

Lemma percentile_mono n num1 den1 num2 den2 :
  (den1 ≠ 0 → den2 ≠ 0 → num1 * den2 ≤ num2 * den1 → n * num1 / den1 ≤ n * num2 / den2)%nat.
Proof.
  intros H1 H2 Hle. apply Nat.div_le_lower_bound; [done|].
  pose proof (Nat.Div0.mul_div_le (n * num1) den1) as Hd.
  assert (den2 * (n * num1 / den1) * den1 ≤ n * num2 * den1)%nat; [|nia].
  nia.
Qed.

(** ** Lemmas: the registry *)

Record registry_ok (r : Registry) : Prop := {
  rg_bound : ∀ n c, counters r !! n = Some c → (c < length (cells r))%nat;
  rg_inj : ∀ n m c, counters r !! n = Some c → counters r !! m = Some c → n = m;
}.

(** [Registry.Counter(name).Add(n)] *)
Definition count (r : Registry) (x : string * Z) : Registry :=
  let '(r, c) := Counter x.1 r in Add c x.2 r.

Definition total (name : string) (l : list (string * Z)) : Z :=
  foldl (λ z x, if decide (x.1 = name) then z + x.2 else z) 0 l.

Lemma total_snoc name l x : total name (l ++ [x]) = if decide (x.1 = name) then total name l + x.2 else total name l.
Proof. unfold total. by rewrite foldl_app. Qed.

(** The value of the counter of a name, 0 when there is none yet. *)
Definition read (name : string) (r : Registry) : Z :=
  match counters r !! name with
  | Some c => Value c r
  | None => 0
  end.

Lemma Counter_ok name r :
  registry_ok r →
  let '(r', c) := Counter name r in
  registry_ok r' ∧ counters r' !! name = Some c ∧ ∀ n, read n r' = read n r.
Proof.
  intros [Hb Hi]. unfold Counter. destruct (counters r !! name) as [c|] eqn:Hc; [done|].
  set (r' := {| counters := _; histograms := _; cells := _; samples_at := _ |}).
  assert (Hlook : ∀ n, counters r' !! n = if decide (name = n) then Some (length (cells r)) else counters r !! n)
    by (intros n; apply lookup_insert).
  split_and!.
  - split.
    + intros n c. rewrite Hlook. cbn [cells r']. rewrite length_app. simpl.
      case_decide; [intros [= <-]; lia|]. intros Hn%Hb. lia.
    + intros n m c. rewrite !Hlook. do 2 case_decide; try congruence; [| |apply Hi];
        intros H1 H2; simplify_eq; apply Hb in H1 || apply Hb in H2; lia.
  - rewrite Hlook. by rewrite decide_True.
  - intros n. unfold read. rewrite Hlook. unfold Value. cbn [cells r']. case_decide as Hn.
    + subst n. rewrite Hc, lookup_app_r, Nat.sub_diag by done. done.
    + destruct (counters r !! n) as [c|] eqn:Hn'; [|done]. by rewrite lookup_app_l by (by eapply Hb).
Qed.

Lemma count_read r x name :
  registry_ok r →
  registry_ok (count r x) ∧
  read name (count r x) = if decide (x.1 = name) then wrapu64 (read name r + x.2) else read name r.
Proof.
  intros Hr. unfold count. pose proof (Counter_ok x.1 r Hr) as Hc.
  destruct (Counter x.1 r) as [r' c]. destruct Hc as ([Hb Hi] & Hx & Hread).
  split; [split; cbn [counters cells Add set_cells]; rewrite ?length_alter; done|].
  rewrite <- !Hread. unfold read. cbn [counters Add set_cells]. unfold Value. cbn [cells Add set_cells].
  destruct (decide (x.1 = name)) as [<-|Hne].
  - rewrite Hx. rewrite list_lookup_alter_eq. destruct (lookup_lt_is_Some_2 (cells r') c) as [v Hv]; [by eapply Hb|].
    by rewrite Hv.
  - destruct (counters r' !! name) as [d|] eqn:Hd; [|done]. rewrite list_lookup_alter_ne; [done|].
    intros ->. apply Hne. by apply (Hi _ _ d).
Qed.

(** ** Properties *)

(** C40: the hand-written insertion sort is sorting: it returns what merge sort
    returns, so the percentiles depend on the samples only, not on their order. *)
Theorem sortDurations_reference (v : list Duration) :
  sortDurations v = merge_sort Z.le v ∧ ∀ w, w ≡ₚ v → sortDurations w = sortDurations v.
Proof.
  assert (Huniq : ∀ u w : list Duration, StronglySorted Z.le u → StronglySorted Z.le w → u ≡ₚ w → u = w).
  { intros u w. apply (StronglySorted_unique Z.le). }
  destruct (sortDurations_ok v) as (Hp & Hs & _). split.
  - apply Huniq; [done|apply (StronglySorted_merge_sort Z.le)|]. by rewrite Hp, merge_sort_Permutation.
  - intros w Hw. destruct (sortDurations_ok w) as (Hp' & Hs' & _). apply Huniq; [done..|]. by rewrite Hp', Hw, Hp.
Qed.

(** C35: a histogram keeps the first 10000 samples, and from then on only
    ever replaces the first of them; a snapshot never panics and reports, of the
    sorted samples, the elements at one half, 95 and 99 hundredths of the length,
    which are in order; a counter reads the sum added under its name, modulo
    2^64, whatever was added under others. *)
Theorem metrics_correct (ds : list Duration) (adds : list (string * Z)) (name : string) :
  let s := observe_all ds in
  (Z.of_nat (length ds) ≤ max_samples → s = ds) ∧
  (∀ first more d, ds = first ++ more ++ [d] → Z.of_nat (length first) = max_samples → s = <[0%nat := d]> first) ∧
  (ds = [] ∧ Snapshot s = Some [] ∨
   ∃ v p50 p95 p99, Snapshot s = Some [("p50", p50); ("p95", p95); ("p99", p99)] ∧
     v ≡ₚ s ∧ StronglySorted Z.le v ∧ p50 ≤ p95 ≤ p99 ∧
     v !! (length s * 1 / 2)%nat = Some p50 ∧ v !! (length s * 95 / 100)%nat = Some p95 ∧
     v !! (length s * 99 / 100)%nat = Some p99) ∧
  read name (foldl count NewRegistry adds) = wrapu64 (total name adds).
Proof.
  cbn zeta. split_and!.
  - apply observe_few.
  - intros first more d -> Hl. rewrite observe_many by done. by rewrite last_snoc.
  - set (s := observe_all ds). destruct s as [|x s'] eqn:Hs.
    { left. split; [|done]. destruct ds as [|d ds _] using rev_ind; [done|].
      unfold s, observe_all in Hs. rewrite foldl_app in Hs. cbn [foldl] in Hs. exfalso. revert Hs. unfold Observe.
      case_match; [by intros [_ ?]%app_nil|]. intros Hn%(f_equal length). rewrite length_insert in Hn.
      apply length_zero_iff_nil in Hn. by rewrite Hn in H. }
    right. destruct (sortDurations_ok (x :: s')) as (Hp & Hsort & Ho). unfold Snapshot.
    set (v := sortDurations (x :: s')) in *. pose proof (Permutation_length Hp) as Hlen.
    assert (Hpos : (0 < length v)%nat) by (rewrite Hlen; simpl; lia).
    destruct (percentile_some 1 2 v Hpos ltac:(lia)) as [p50 H50].
    destruct (percentile_some 95 100 v Hpos ltac:(lia)) as [p95 H95].
    destruct (percentile_some 99 100 v Hpos ltac:(lia)) as [p99 H99].
    rewrite H50, H95, H99. exists v, p50, p95, p99. unfold percentile in *. rewrite Hlen in *.
    split_and!; try done; (eapply Ho; [|done|done]; apply percentile_mono; lia).
  - enough (Hgen : registry_ok (foldl count NewRegistry adds) ∧
      read name (foldl count NewRegistry adds) = wrapu64 (total name adds)) by apply Hgen.
    induction adds as [|x adds IH] using rev_ind.
    { split; [|done]. split; intros ? ?; cbn; rewrite lookup_empty; done. }
    destruct IH as [Hok Hr]. rewrite foldl_app, total_snoc. cbn [foldl].
    destruct (count_read _ x name Hok) as [Hok' ->]. split; [done|].
    rewrite Hr. case_decide; [apply wrapu64_add|done].
Qed.

End Metrics.
