(* ===== verification/Config.v ===== *)
(** * Package [config]: configuration file and environment
    ([internal/config/config.go])

    [time.ParseDuration] is abstract: the value it returns, 0 with an error. *)

From Stdlib Require Import Ascii.
From S2P Require Export GoTime.
Local Open Scope Z_scope.

Module Config.

Class DurationParser := { ParseDuration : string → Duration }.

Record Config := {
  HTTPAddr : string;
  DataFile : string;
  WebhookSecret : string;
  WorkerConcurrency : Z;
  QueueCapacity : Z;
  ProviderTimeout : Duration;
  MaxAttempts : Z;
  ShutdownTimeout : Duration;
}.

Definition defaults : Config := {|
  HTTPAddr := ":8080"; DataFile := "data/store.json"; WebhookSecret := ""; WorkerConcurrency := 4;
  QueueCapacity := 10000; ProviderTimeout := 3 * Second; MaxAttempts := 5;
  ShutdownTimeout := 10 * Second |}.

Definition newline : ascii := ascii_of_nat 10.

(** The cutset of the two quotes. *)
Definition quotes : string := String (ascii_of_nat 34) "'".

(** The variables of the environment and the keys they set, in order. *)
Definition env_keys : list (string * string) := [
  ("NOTIFY_HTTP_ADDR", "http_addr"); ("NOTIFY_DATA_FILE", "data_file");
  ("NOTIFY_WEBHOOK_SECRET", "webhook_secret"); ("NOTIFY_WORKER_CONCURRENCY", "worker_concurrency");
  ("NOTIFY_QUEUE_CAPACITY", "queue_capacity"); ("NOTIFY_PROVIDER_TIMEOUT", "provider_timeout");
  ("NOTIFY_MAX_ATTEMPTS", "max_attempts")].

Section config.
Context {dp : DurationParser}.

Definition set (c : Config) (addr file secret : string) (workers capacity : Z) (timeout : Duration)
    (attempts : Z) (shutdown : Duration) : Config := {|
  HTTPAddr := addr; DataFile := file; WebhookSecret := secret; WorkerConcurrency := workers;
  QueueCapacity := capacity; ProviderTimeout := timeout; MaxAttempts := attempts;
  ShutdownTimeout := shutdown |}.

(** The errors of the parsers are dropped; their values are stored. *)
Definition apply (c : Config) (k v : string) : Config :=
  let keep := set c (HTTPAddr c) (DataFile c) (WebhookSecret c) in
  if decide (k = "http_addr") then
    set c v (DataFile c) (WebhookSecret c) (WorkerConcurrency c) (QueueCapacity c) (ProviderTimeout c)
      (MaxAttempts c) (ShutdownTimeout c)
  else if decide (k = "data_file") then
    set c (HTTPAddr c) v (WebhookSecret c) (WorkerConcurrency c) (QueueCapacity c) (ProviderTimeout c)
      (MaxAttempts c) (ShutdownTimeout c)
  else if decide (k = "webhook_secret") then
    set c (HTTPAddr c) (DataFile c) v (WorkerConcurrency c) (QueueCapacity c) (ProviderTimeout c)
      (MaxAttempts c) (ShutdownTimeout c)
  else if decide (k = "worker_concurrency") then
    keep (Atoi v).1 (QueueCapacity c) (ProviderTimeout c) (MaxAttempts c) (ShutdownTimeout c)
  else if decide (k = "queue_capacity") then
    keep (WorkerConcurrency c) (Atoi v).1 (ProviderTimeout c) (MaxAttempts c) (ShutdownTimeout c)
  else if decide (k = "max_attempts") then
    keep (WorkerConcurrency c) (QueueCapacity c) (ProviderTimeout c) (Atoi v).1 (ShutdownTimeout c)
  else if decide (k = "provider_timeout") then
    keep (WorkerConcurrency c) (QueueCapacity c) (ParseDuration v) (MaxAttempts c) (ShutdownTimeout c)
  else if decide (k = "shutdown_timeout") then
    keep (WorkerConcurrency c) (QueueCapacity c) (ProviderTimeout c) (MaxAttempts c) (ParseDuration v)
  else c.

(** One line of the file. *)
Definition apply_line (c : Config) (line : string) : Config :=
  match Split2 (TrimSpace line) ":" with
  | [k; v] => apply c (TrimSpace k) (Trim (TrimSpace v) quotes)
  | _ => c
  end.

Definition apply_env (env : string → option string) (c : Config) (x : string * string) : Config :=
  match env x.1 with
  | Some v => apply c x.2 v
  | None => c
  end.

(** [file] is what [os.ReadFile] returns, [env] is [os.LookupEnv]. *)
Definition Load (path : string) (file : result string) (env : string → option string) :
    Config * option error :=
  let finish c :=
    let c := foldl (apply_env env) c env_keys in
    if (WorkerConcurrency c <? 1) || (QueueCapacity c <? 1) || (MaxAttempts c <? 1)
    then (c, Some "numeric configuration must be positive") else (c, None) in
  if decide (path = "") then finish defaults
  else match file with
       | Err e => (defaults, Some e)
       | Ok b => finish (foldl apply_line defaults (Split b newline))
       end.

(** ** Lemmas *)

Definition no_env : string → option string := λ _, None.

Lemma apply_env_none c l : foldl (apply_env no_env) c l = c.
Proof. by induction l. Qed.

(** ** Properties *)

(** C38: a configuration that [Load] accepts has positive worker, queue and
    attempt numbers; each variable of the environment that is set decides its
    field, whatever the file says; without variables the file's lines are applied
    to the defaults in order. *)
Theorem load_correct (path : string) (file : result string) (env : string → option string) :
  let '(c, e) := Load path file env in
  (e = None → 1 ≤ WorkerConcurrency c ∧ 1 ≤ QueueCapacity c ∧ 1 ≤ MaxAttempts c) ∧
  (path = "" ∨ is_ok file = true →
   (∀ v, env "NOTIFY_HTTP_ADDR" = Some v → HTTPAddr c = v) ∧
   (∀ v, env "NOTIFY_DATA_FILE" = Some v → DataFile c = v) ∧
   (∀ v, env "NOTIFY_WEBHOOK_SECRET" = Some v → WebhookSecret c = v) ∧
   (∀ v, env "NOTIFY_WORKER_CONCURRENCY" = Some v → WorkerConcurrency c = (Atoi v).1) ∧
   (∀ v, env "NOTIFY_QUEUE_CAPACITY" = Some v → QueueCapacity c = (Atoi v).1) ∧
   (∀ v, env "NOTIFY_PROVIDER_TIMEOUT" = Some v → ProviderTimeout c = ParseDuration v) ∧
   (∀ v, env "NOTIFY_MAX_ATTEMPTS" = Some v → MaxAttempts c = (Atoi v).1)) ∧
  (∀ b, path ≠ "" → file = Ok b → env = no_env → c = foldl apply_line defaults (Split b newline)).
Proof.
  set (finish c := foldl (apply_env env) c env_keys).
  assert (Hfin : ∀ c0, let c := finish c0 in
   (∀ v, env "NOTIFY_HTTP_ADDR" = Some v → HTTPAddr c = v) ∧
   (∀ v, env "NOTIFY_DATA_FILE" = Some v → DataFile c = v) ∧
   (∀ v, env "NOTIFY_WEBHOOK_SECRET" = Some v → WebhookSecret c = v) ∧
   (∀ v, env "NOTIFY_WORKER_CONCURRENCY" = Some v → WorkerConcurrency c = (Atoi v).1) ∧
   (∀ v, env "NOTIFY_QUEUE_CAPACITY" = Some v → QueueCapacity c = (Atoi v).1) ∧
   (∀ v, env "NOTIFY_PROVIDER_TIMEOUT" = Some v → ProviderTimeout c = ParseDuration v) ∧
   (∀ v, env "NOTIFY_MAX_ATTEMPTS" = Some v → MaxAttempts c = (Atoi v).1)).
  { intros c0. cbn zeta. unfold finish, env_keys. cbn [foldl]. unfold apply_env. cbn [fst snd].
    split_and!; intros v Hv; rewrite Hv; repeat (case_match; try done). }
  unfold Load. fold (finish defaults).
  assert (Hchk : ∀ c0, let c := finish c0 in
    let '(c', e) := if (WorkerConcurrency c <? 1) || (QueueCapacity c <? 1) || (MaxAttempts c <? 1)
                    then (c, Some "numeric configuration must be positive") else (c, None) in
    c' = c ∧ (e = None → 1 ≤ WorkerConcurrency c' ∧ 1 ≤ QueueCapacity c' ∧ 1 ≤ MaxAttempts c')).
  { intros c0. cbn zeta. destruct (_ || _ || _) eqn:Hg; [done|]. split; [done|]. intros _.
    apply orb_false_iff in Hg as [[??]%orb_false_iff ?]. lia. }
  destruct (decide (path = "")) as [Hp|Hp].
  - pose proof (Hchk defaults) as Hc. cbn zeta in Hc. destruct (if _ : bool then _ else _) as [c e].
    destruct Hc as [-> Hpos]. split_and!; [done|intros _; apply Hfin|done].
  - destruct file as [b|err].
    + pose proof (Hchk (foldl apply_line defaults (Split b newline))) as Hc. cbn zeta in Hc.
      fold (finish (foldl apply_line defaults (Split b newline))).
      destruct (if _ : bool then _ else _) as [c e]. destruct Hc as [-> Hpos].
      split_and!; [done|intros _; apply Hfin|]. intros b' _ [= <-] ->. apply apply_env_none.
    + split_and!; [done|by intros [?|?]|done].
Qed.
End config.

End Config.
