(* ===== verification/HttpApi.v ===== *)
(** * Package [httpapi]: routes and handlers ([internal/transport/httpapi/server.go])

    A request is its parsed parts; a response keeps the value that is encoded, not
    its JSON text.  Decoding a body is abstract ([Decoders]).  Paths are clean, as
    [ServeMux] redirects the others first.  [None] is a panic of the handler, which
    [net/http] turns into a closed connection. *)

From Stdlib Require Import Ascii.
From S2P Require Export Application Receipt Template.
Local Open Scope Z_scope.

Module HttpApi.

(** ** Data *)

Record SuppressionInput := { siChannel : Channel; siAddress : string; siReason : string }.

(** [json.Decoder.Decode] and [json.Unmarshal] on the types of the handlers. *)
Class Decoders := {
  dec_notification : string → result Notification;
  dec_batch : string → result (list Notification);
  dec_definition : string → result Template.Definition_;
  dec_version : string → result Template.Version;
  dec_suppression : string → result SuppressionInput;
  dec_event : string → result Receipt.Event;
}.

Record Req := {
  Method : string;
  Path : string;
  Query : string → string;        (** [r.URL.Query().Get] *)
  TenantHeader : string;          (** X-Tenant-ID *)
  RequestID : string;             (** X-Request-ID *)
  RemoteAddr : string;
  Body : string;
  ReadErr : option error;         (** of [io.ReadAll] *)
  CtxErr : option error;
}.

(** What the response body encodes. *)
Inductive payload :=
| PHealth (now : time)
| PNotification (n : Notification)
| PNotifications (l : list Notification)
| PEvents (l : list TimelineEvent)
| PStatus (s : string)
| PDefinition (d : Template.Definition_)
| PVersion (v : Template.Version)
| PPublished (version : Z)
| PAccepted (b : bool)
| PSuppressions (l : list Suppression)
| PSuppression (x : Suppression)
| POutbox (l : list Outbox)
| PError (code : string) (message : error)
| PNotFoundPage
| PRedirect (path : string).

Record Resp := { status : Z; ETag : option string; ReqID : string; content : payload }.

Section server.
Context {codec : JsonCodec} {uni : Unicode} {dec : Decoders} {mrange : MapRange} {sorter : SortSlice}.

(** The parts of the program the handlers change. *)
Record State := { app : Application.Service; templates : Template.Service }.

(** What one request meets: the readings of the application, one per item of a
    batch, and those of the handlers. *)
Record Env := {
  app_env : nat → Application.Env;
  others : list op;
  now : time;
  t_event : time;
  write : io;
  time_text : string;             (** [time.Now().String()] *)
}.

Definition store (s : State) : Store := Application.Store_ (app s).

Definition with_store (s : State) (st : Store) : State :=
  {| app := {| Application.Store_ := st; Application.Queue_ := Application.Queue_ (app s) |};
     templates := templates s |}.

Definition with_app (s : State) (a : Application.Service) : State :=
  {| app := a; templates := templates s |}.

Definition with_templates (s : State) (t : Template.Service) : State :=
  {| app := app s; templates := t |}.

(** ** Helpers *)

Definition reply (code : Z) (p : payload) : Resp :=
  {| status := code; ETag := None; ReqID := ""; content := p |}.

Definition errorJSON (code : Z) (kind : string) (e : error) : Resp := reply code (PError kind e).
Definition methodNotAllowed : Resp := errorJSON 405 "method_not_allowed" "method not allowed".
Definition notFound : Resp := errorJSON 404 "not_found" ErrNotFound.

(** [io.LimitReader(r.Body, n)] *)
Definition limit_body (n : nat) (r : Req) : string := slice_to (Body r) n.

Definition decode {A} (d : string → result A) (r : Req) : result A := d (limit_body (Z.to_nat 2097152) r).

Definition hash (v : list string) : string := EncodeToString (Sum256 (mjoin (bytes_of <$> v))).

(** The tenant of the header where the body gives none. *)
Definition fill_tenant (r : Req) (n : Notification) : Notification :=
  if decide (nTenantID n = "") then with_tenant n (TenantHeader r) else n.

(** ** Handlers *)

Definition health (e : Env) (r : Req) (s : State) : State * option Resp := (s, Some (reply 200 (PHealth (now e)))).

(** The loop over a batch: it stops at the first item refused, keeping what was
    submitted before. *)
Fixpoint submit_batch (e : Env) (r : Req) (i : nat) (l : list Notification) (a : Application.Service) :
    Application.Service * result (list Notification) :=
  match l with
  | [] => (a, Ok [])
  | n :: rest =>
      match Application.Submit (app_env e i) (CtxErr r) (fill_tenant r n) a with
      | (a, (_, _, Some err)) => (a, Err ("item " +:+ FormatInt (Z.of_nat i) +:+ ": " +:+ err))
      | (a, (saved, _, None)) =>
          match submit_batch e r (S i) rest a with
          | (a, Ok out) => (a, Ok (saved :: out))
          | (a, Err err) => (a, Err err)
          end
      end
  end.

Definition batch (e : Env) (r : Req) (s : State) : State * option Resp :=
  if negb (bool_decide (Method r = "POST")) then (s, Some methodNotAllowed)
  else match decode dec_batch r with
       | Err err => (s, Some (errorJSON 400 "invalid_request" err))
       | Ok input =>
           if bool_decide (input = []) || (1000 <? Z.of_nat (length input))
           then (s, Some (errorJSON 400 "invalid_request" "batch must contain 1..1000 notifications"))
           else match submit_batch e r 0 input (app s) with
                | (a, Err err) => (with_app s a, Some (errorJSON 400 "batch_item_failed" err))
                | (a, Ok out) => (with_app s a, Some (reply 202 (PNotifications out)))
                end
       end.

Definition notifications (e : Env) (r : Req) (s : State) : State * option Resp :=
  if HasSuffix (Path r) "/batch" then batch e r s
  else if bool_decide (Method r = "GET") then
    (s, match List (TenantHeader r) (Atoi (Query r "limit")).1 (Atoi (Query r "offset")).1 (store s) with
        | Some l => Some (reply 200 (PNotifications l))
        | None => None
        end)
  else if negb (bool_decide (Method r = "POST")) then (s, Some methodNotAllowed)
  else match decode dec_notification r with
       | Err err => (s, Some (errorJSON 400 "invalid_request" err))
       | Ok n =>
           match Application.Submit (app_env e 0) (CtxErr r) (fill_tenant r n) (app s) with
           | (a, (_, _, Some err)) => (with_app s a, Some (errorJSON 400 "submit_failed" err))
           | (a, (saved, created, None)) =>
               (with_app s a,
                Some {| status := if created : bool then 201 else 200;
                        ETag := Some (FormatInt (nVersion saved)); ReqID := "";
                        content := PNotification saved |})
           end
       end.

Definition notificationByID (e : Env) (r : Req) (s : State) : State * option Resp :=
  match Split (TrimPrefix (Path r) "/api/v1/notifications/") "/" with
  | [] => (s, Some notFound)
  | id :: rest =>
      if decide (id = "") then (s, Some notFound)
      else match rest with
      | [] =>
          if bool_decide (Method r = "GET") then
            (s, Some match Get id (store s) with
                     | Err err => errorJSON 404 "not_found" err
                     | Ok n => {| status := 200; ETag := Some (FormatInt (nVersion n)); ReqID := "";
                                  content := PNotification n |}
                     end)
          else (s, Some notFound)
      | [action] =>
          if decide (action = "timeline") then
            if bool_decide (Method r = "GET") then (s, Some (reply 200 (PEvents (Timeline id (store s)))))
            else (s, Some methodNotAllowed)
          else if bool_decide (action ∈ ["cancel"; "pause"; "replay"]) then
            if negb (bool_decide (Method r = "POST")) then (s, Some methodNotAllowed)
            else match Get id (store s) with
            | Err err => (s, Some (errorJSON 404 "not_found" err))
            | Ok n =>
                let moved (out : Store * option error) :=
                  (with_store s out.1,
                   Some match out.2 with
                        | Some err => errorJSON 409 "transition_failed" err
                        | None => reply 202 (PStatus "accepted")
                        end) in
                if decide (action = "cancel") then
                  moved (Application.Cancel (now e) (t_event e) (write e) (others e) id (nVersion n) (store s))
                else if decide (action = "pause") then
                  moved (Application.Pause (now e) (t_event e) (write e) (others e) id (nVersion n) (store s))
                else
                  let '(a, (x, err)) := Application.Replay (app_env e 0) id (app s) in
                  (with_app s a,
                   Some match err with
                        | Some err => errorJSON 409 "transition_failed" err
                        | None => reply 202 (PNotification x)
                        end)
            end
          else (s, Some notFound)
      | _ => (s, Some notFound)
      end
  end.

Definition templates_handler (r : Req) (s : State) : State * option Resp :=
  if negb (bool_decide (Method r = "POST")) then (s, Some methodNotAllowed)
  else match decode dec_definition r with
       | Err err => (s, Some (errorJSON 400 "invalid_request" err))
       | Ok d =>
           match Template.Create d (templates s) with
           | (t, Some err) => (with_templates s t, Some (errorJSON 409 "create_failed" err))
           | (t, None) => (with_templates s t, Some (reply 201 (PDefinition d)))
           end
       end.

Definition templateByID (r : Req) (s : State) : State * option Resp :=
  match Split (TrimPrefix (Path r) "/api/v1/templates/") "/" with
  | id :: action :: _ =>
      if decide (action = "versions") then
        if negb (bool_decide (Method r = "POST")) then (s, Some methodNotAllowed)
        else match decode dec_version r with
             | Err err => (s, Some (errorJSON 400 "invalid_request" err))
             | Ok v =>
                 match Template.AddVersion id v (templates s) with
                 | (t, Some err) => (with_templates s t, Some (errorJSON 400 "version_failed" err))
                 | (t, None) => (with_templates s t, Some (reply 201 (PVersion v)))
                 end
             end
      else if decide (action = "publish") then
        if negb (bool_decide (Method r = "POST")) then (s, Some methodNotAllowed)
        else
          let v := (Atoi (Query r "version")).1 in
          match Template.Publish id v (templates s) with
          | (t, Some err) => (with_templates s t, Some (errorJSON 400 "publish_failed" err))
          | (t, None) => (with_templates s t, Some (reply 202 (PPublished v)))
          end
      else (s, Some notFound)
  | _ => (s, Some notFound)
  end.

(** The secret of the server is not consulted. *)
Definition webhook (WebhookSecret : string) (e : Env) (r : Req) (s : State) : State * option Resp :=
  if negb (bool_decide (Method r = "POST")) then (s, Some methodNotAllowed)
  else match ReadErr r with
       | Some err => (s, Some (errorJSON 400 "read_failed" err))
       | None =>
           match dec_event (limit_body (Z.to_nat 1048576) r) with
           | Err err => (s, Some (errorJSON 400 "invalid_receipt" err))
           | Ok ev =>
               match Receipt.Ingest (now e) (write e) ev (store s) with
               | (st, (_, Some err)) => (with_store s st, Some (errorJSON 400 "receipt_rejected" err))
               | (st, (accepted, None)) => (with_store s st, Some (reply 202 (PAccepted accepted)))
               end
           end
       end.

(** The suppression a request adds. *)
Definition new_suppression (e : Env) (r : Req) (x : SuppressionInput) : Suppression := {|
  sTenantID := TenantHeader r; sChannel := siChannel x;
  sAddressHash := hash [TenantHeader r; siAddress x]; sReason := siReason x; sCreatedAt := now e |}.

Definition suppressions (e : Env) (r : Req) (s : State) : State * option Resp :=
  if bool_decide (Method r = "GET") then
    (s, Some (reply 200 (PSuppressions (ListSuppressions (TenantHeader r) (store s)))))
  else if negb (bool_decide (Method r = "POST")) then (s, Some methodNotAllowed)
  else match decode dec_suppression r with
       | Err err => (s, Some (errorJSON 400 "invalid_request" err))
       | Ok x =>
           if bool_decide (TenantHeader r = "") || bool_decide (siAddress x = "")
           then (s, Some (errorJSON 400 "invalid_request" "tenant and address required"))
           else
             let sp := new_suppression e r x in
             match Suppress (write e) sp (store s) with
             | (st, Some err) => (with_store s st, Some (errorJSON 500 "persist_failed" err))
             | (st, None) => (with_store s st, Some (reply 201 (PSuppression sp)))
             end
       end.

Definition audit (r : Req) (s : State) : State * option Resp :=
  if negb (bool_decide (Method r = "GET")) then (s, Some methodNotAllowed)
  else (s, Some (reply 200 (POutbox (Audit (store s))))).

(** ** The multiplexer *)

(** The patterns of [Handler], in the sense of [http.ServeMux]: one that ends in a
    slash stands for the whole subtree, and a path that lacks only that slash is
    redirected. *)
Definition mux (secret : string) (e : Env) (r : Req) (s : State) : State * option Resp :=
  let p := Path r in
  if decide (p = "/healthz") then health e r s
  else if decide (p = "/readyz") then health e r s
  else if decide (p = "/api/v1/notifications") then notifications e r s
  else if HasPrefix p "/api/v1/notifications/" then notificationByID e r s
  else if decide (p = "/api/v1/templates") then templates_handler r s
  else if HasPrefix p "/api/v1/templates/" then templateByID r s
  else if decide (p = "/api/v1/webhooks") then (s, Some (reply 301 (PRedirect "/api/v1/webhooks/")))
  else if HasPrefix p "/api/v1/webhooks/" then webhook secret e r s
  else if decide (p = "/api/v1/suppressions") then suppressions e r s
  else if decide (p = "/api/v1/audit/export") then audit r s
  else (s, Some (reply 404 PNotFoundPage)).

(** The middleware [requestID]. *)
Definition requestID (e : Env) (r : Req) : string :=
  if decide (RequestID r = "") then hash [time_text e; RemoteAddr r] else RequestID r.

Definition Handler (secret : string) (e : Env) (r : Req) (s : State) : State * option Resp :=
  let '(s, resp) := mux secret e r s in
  (s, match resp with
      | Some x => Some {| status := status x; ETag := ETag x; ReqID := requestID e r; content := content x |}
      | None => None
      end).

(** ** Lemmas *)

Lemma Handler_state secret e r s : (Handler secret e r s).1 = (mux secret e r s).1.
Proof. unfold Handler. by destruct (mux secret e r s). Qed.

Lemma mux_collection secret e r s :
  Path r = "/api/v1/notifications" → mux secret e r s = notifications e r s.
Proof. intros Hp. unfold mux. by rewrite Hp. Qed.

Lemma mux_suppressions secret e r s :
  Path r = "/api/v1/suppressions" → mux secret e r s = suppressions e r s.
Proof. intros Hp. unfold mux. by rewrite Hp. Qed.

Lemma not_post_state e r s :
  Method r ≠ "POST" →
  (batch e r s).1 = s ∧ (notifications e r s).1 = s ∧ (notificationByID e r s).1 = s ∧
  (templates_handler r s).1 = s ∧ (templateByID r s).1 = s ∧ (suppressions e r s).1 = s ∧
  ∀ secret, (webhook secret e r s).1 = s.
Proof.
  intros Hm. unfold notifications, notificationByID, templates_handler, templateByID, suppressions,
    webhook, batch. rewrite (bool_decide_false (Method r = "POST")) by done. cbn [negb].
  split_and!; intros; by repeat (case_match; cbn [fst]).
Qed.

(** A repeated [POST] meets the notification of the first. *)
Lemma Submit_again env env' n a a1 m ops :
  Application.Submit env None n a = (a1, (m, true, None)) →
  let a2 := {| Application.Store_ := foldl run_op (Application.Store_ a1) ops;
               Application.Queue_ := Application.Queue_ a1 |} in
  (∃ x, Application.Submit env' None n a2 = (a2, (x, false, Some "target is suppressed"))) ∨
  (∃ x, Application.Submit env' None n a2 = (a2, (x, false, None)) ∧
        Get (nID m) (Application.Store_ a2) = Ok x).
Proof.
  intros Hsub a2. unfold Application.Submit in Hsub |- *. destruct (Validate n) as [v [err|]]; [done|].
  case_match; [done|]. revert Hsub.
  destruct (Application.suppressed (Application.prepare env' v) (Application.Store_ a2)); [intros _; left; eauto|].
  set (k := Application.prepare env v).
  destruct (Idempotency (data (Application.Store_ a)) !! idempotency_key k) as [id|] eqn:Hfree.
  { rewrite (Create_bound _ _ _ _ _ _ Hfree). by intros [= ]. }
  pose proof (Create_fresh (Application.t_event env) (Application.t_outbox env) (Application.write env)
    k _ Hfree) as [Hc Hd].
  destruct (Create _ _ _ k _) as [s1 [[saved created] err]]. cbn [fst snd] in *.
  injection Hc as -> ->. intros Hout.
  assert (Application.Store_ a1 = s1 ∧ nID m = nID k) as [Hs1 ->].
  { destruct err as [err|]; [done|]. destruct (Application.due (Application.now env) k).
    - destruct (Queue.Enqueue _ _ _) as [q [qerr|]]; [done|]. injection Hout as <- <-.
      split; [done|]. by destruct (Application.seen env).
    - by injection Hout as <- <-. }
  right. set (d2 := data (Application.Store_ a2)).
  assert (Hg : grows (data s1) d2).
  { unfold d2, a2. cbn [Application.Store_]. rewrite data_run_ops, Hs1. apply grows_ops. }
  assert (Hb : Idempotency d2 !! idempotency_key (Application.prepare env' v) = Some (nID k)).
  { change (idempotency_key (Application.prepare env' v)) with (idempotency_key k).
    eapply lookup_weaken; [|apply (grows_keys _ _ Hg)]. rewrite Hd. simpl. apply lookup_insert_eq. }
  rewrite (Create_bound _ _ _ _ _ _ Hb). eexists. split; [reflexivity|].
  assert (is_Some (Notifications d2 !! nID k)) as [x Hx].
  { apply (grows_ids _ _ Hg). rewrite Hd, created_lookup, decide_True by done. by eexists. }
  unfold Get. fold d2. by rewrite Hx.
Qed.

Lemma hash_digest u v : EncodeToString (Sum256 u) = EncodeToString (Sum256 v) ↔ Sum256 u = Sum256 v.
Proof.
  split; [|congruence]. intros Heq%(f_equal DecodeString). rewrite !hex_digest_roundtrip in Heq.
  by injection Heq.
Qed.

Lemma hash_pair u v : hash [u; v] = EncodeToString (Sum256 (bytes_of (u +:+ v))).
Proof. unfold hash, bytes_of. cbn [fmap list_fmap mjoin list_join]. by rewrite app_nil_r, to_bytes_app, fmap_app. Qed.

Lemma string_app_inv_l (p u v : string) : p +:+ u = p +:+ v → u = v.
Proof.
  intros Heq. apply (inj to_bytes). apply (f_equal to_bytes) in Heq. rewrite !to_bytes_app in Heq.
  by apply app_inv_head in Heq.
Qed.

(** ** Properties *)

(** A request that is not a [POST] leaves the whole state as it is,
    on every path; and so does a [POST] to [/api/v1/notifications/batch], which the
    multiplexer gives to the handler of single notifications: that handler answers
    404 and the batch is never submitted. *)
Theorem http_safe (secret : string) (e : Env) (r : Req) (s : State) :
  (Method r ≠ "POST" → (Handler secret e r s).1 = s) ∧
  (Path r = "/api/v1/notifications/batch" → Method r = "POST" →
     Handler secret e r s =
       (s, Some {| status := 404; ETag := None; ReqID := requestID e r;
                   content := PError "not_found" ErrNotFound |})).
Proof.
  split.
  - intros Hm. rewrite Handler_state. unfold mux.
    destruct (not_post_state e r s Hm) as (_ & H1 & H2 & H3 & H4 & H5 & H6).
    repeat (case_match; [done|]). case_match; [|done]. unfold audit. by case_match.
  - intros Hp Hm. unfold Handler, mux. rewrite Hp. cbn. unfold notificationByID. rewrite Hp, Hm. by cbn.
Qed.

(** C29: once a [POST] to [/api/v1/notifications] was answered 201, the
    same request, at any later time and after any operations on the store, changes
    nothing; it is answered 200 with the notification stored under the id that was
    returned, or 400 (a target suppressed in between). *)
Theorem http_create_once (secret : string) (e e' : Env) (r : Req) (s s1 : State) (resp : Resp) (ops : list op) :
  Path r = "/api/v1/notifications" → Method r = "POST" →
  Handler secret e r s = (s1, Some resp) → status resp = 201 →
  let s2 := with_store s1 (foldl run_op (store s1) ops) in
  ∃ m resp2, content resp = PNotification m ∧ Handler secret e' r s2 = (s2, Some resp2) ∧
    ((status resp2, content resp2) = (400, PError "submit_failed" "target is suppressed") ∨
     status resp2 = 200 ∧ ∃ x, content resp2 = PNotification x ∧ Get (nID m) (store s2) = Ok x).
Proof.
  intros Hp Hm Hh Hst s2. unfold Handler in Hh |- *. rewrite mux_collection in Hh |- * by done.
  unfold notifications in Hh |- *. rewrite Hp, Hm in Hh |- *. cbn in Hh |- *.
  destruct (decode dec_notification r) as [n|err]; [|by injection Hh as _ <-].
  destruct (Application.Submit (app_env e 0) (CtxErr r) (fill_tenant r n) (app s))
    as [a1 [[m created] [err|]]] eqn:Hsub; injection Hh as <- <-; [done|].
  destruct created; [|done].
  destruct (CtxErr r); [by unfold Application.Submit in Hsub|].
  pose proof (Submit_again _ (app_env e' 0) _ _ _ _ ops Hsub) as Hagain. cbn zeta in Hagain.
  exists m. unfold s2, with_store, with_app, store in *. cbn [app templates] in *.
  destruct Hagain as [(x & ->)|(x & -> & Hx)]; eexists; split_and!; [done|done|by left|done|done|].
  right. split; [done|]. exists x. by split.
Qed.

(** A suppression added through the API is stored, and adds to the
    addresses blocked for its tenant and channel exactly those whose normal form,
    behind the tenant and a colon, has the digest of the tenant followed by the
    text of the request: the two texts are equal only when the request's address is
    that normal form with a colon in front, so the address itself stays unblocked
    unless SHA-256 happens to collide on the two. *)
Theorem http_suppression_mismatch (secret : string) (e : Env) (r : Req) (s s1 : State) (resp : Resp)
    (x : SuppressionInput) :
  Path r = "/api/v1/suppressions" → Method r = "POST" → decode dec_suppression r = Ok x →
  Handler secret e r s = (s1, Some resp) → status resp = 201 →
  let tenant := TenantHeader r in
  let key := suppression_key tenant (siChannel x) (hash [tenant; siAddress x]) in
  let given := tenant +:+ siAddress x in
  let sought a := tenant +:+ ":" +:+ ToLower (TrimSpace a) in
  let blocked s a := IsSuppressed tenant (siChannel x) (HashAddress tenant a) (store s) in
  Suppressions (data (store s1)) = <[key := new_suppression e r x]> (Suppressions (data (store s))) ∧
  ∀ a, (blocked s1 a = true ↔
          blocked s a = true ∨ Sum256 (bytes_of given) = Sum256 (bytes_of (sought a))) ∧
       (given = sought a ↔ siAddress x = ":" +:+ ToLower (TrimSpace a)).
Proof.
  intros Hp Hm Hx Hh Hst tenant key given sought blocked. unfold Handler in Hh. rewrite mux_suppressions in Hh by done.
  unfold suppressions in Hh. rewrite Hm, Hx in Hh. cbn in Hh.
  destruct (bool_decide (TenantHeader r = "") || _); [by injection Hh as _ <-|].
  assert (Hs1 : Suppressions (data (store s1)) = <[key := new_suppression e r x]> (Suppressions (data (store s)))).
  { destruct (Suppress (write e) (new_suppression e r x) (store s)) as [st err] eqn:Hsup.
    apply (f_equal fst) in Hsup. unfold Suppress in Hsup. cbn [fst] in Hsup.
    destruct err; injection Hh as <- <-; cbn [store with_store app Application.Store_];
      by rewrite <- Hsup, (proj1 (persist_data _ _)). }
  split; [done|]. intros a. split; [|split; [apply string_app_inv_l|unfold given, sought; by intros ->]].
  unfold blocked, IsSuppressed. rewrite Hs1, !bool_decide_eq_true.
  set (k := suppression_key _ _ (HashAddress _ a)).
  assert (Hk : key = k ↔ Sum256 (bytes_of given) = Sum256 (bytes_of (sought a))).
  { rewrite <- hash_digest. unfold key, k, suppression_key. rewrite hash_pair. split.
    - intros Hk. by do 4 apply string_app_inv_l in Hk.
    - intros Heq. exact (f_equal (suppression_key tenant (siChannel x)) Heq). }
  rewrite <- Hk, lookup_insert. destruct (decide (key = k)); split; [by right|by eexists|by left|by intros [?|?]].
Qed.
End server.

#[local] Existing Instance memory_codec.
#[local] Instance ascii_only : Unicode := {| to_lower_table := λ r, r |}.
#[local] Existing Instance map_to_list_range.
#[local] Existing Instance merge_sort_slice.

(** A decoder for the two bodies the requests below have. *)
#[local] Instance sample_decoders : Decoders := {|
  dec_notification := λ b, if decide (b = "email") then Ok sample_email else Err "EOF";
  dec_batch := λ _, Err "EOF";
  dec_definition := λ _, Err "EOF";
  dec_version := λ _, Err "EOF";
  dec_suppression := λ b,
    if decide (b = "address")
    then Ok {| siChannel := ChannelEmail; siAddress := "a@example.com"; siReason := "asked" |}
    else Err "EOF";
  dec_event := λ _, Err "EOF" |}.

Definition post (path body : string) : Req := {|
  Method := "POST"; Path := path; Query := λ _, ""; TenantHeader := "acme"; RequestID := "req-1";
  RemoteAddr := "10.0.0.1:4000"; Body := body; ReadErr := None; CtxErr := None |}.

Definition sample_env : Env := {|
  app_env := λ _, Application.env0; others := []; now := 300; t_event := 301; write := io_fine;
  time_text := "2024-01-01" |}.

Definition booted : State := {| app := Application.fresh 5; templates := Template.NewService |}.

Definition post_email : Req := post "/api/v1/notifications" "email".
Definition post_suppression : Req := post "/api/v1/suppressions" "address".
Definition after_email : State := (Handler "" sample_env post_email booted).1.
Definition after_suppression : State := (Handler "" sample_env post_suppression booted).1.

Definition answer (e : Env) (r : Req) (s : State) : Resp :=
  default (reply 0 PNotFoundPage) (Handler "" e r s).2.

(** The suppressed address is still sent to. *)
Example suppression_ignored :
  status (answer sample_env post_suppression booted) = 201 ∧
  status (answer sample_env post_email after_suppression) = 201.
Proof. by vm_compute. Qed.

Lemma http_create_once_witness :
  status (answer sample_env post_email booted) = 201 ∧
  ∃ m resp2, content (answer sample_env post_email booted) = PNotification m ∧
    Handler "" sample_env post_email (with_store after_email (foldl run_op (store after_email) [])) =
      (with_store after_email (foldl run_op (store after_email) []), Some resp2) ∧
    ((status resp2, content resp2) = (400, PError "submit_failed" "target is suppressed") ∨
     status resp2 = 200 ∧ ∃ x, content resp2 = PNotification x ∧
       Get (nID m) (store (with_store after_email (foldl run_op (store after_email) []))) = Ok x).
Proof.
  split; [vm_compute; reflexivity|].
  apply (http_create_once "" sample_env sample_env post_email booted after_email
    (answer sample_env post_email booted) []); vm_compute; reflexivity.
Defined.

Lemma http_suppression_mismatch_witness :
  Suppressions (data (store after_suppression)) !! suppression_key "acme" "email" (hash ["acme"; "a@example.com"])
    ≠ None ∧
  let given := "acme" +:+ "a@example.com" in
  let sought a := "acme" +:+ ":" +:+ ToLower (TrimSpace a) in
  let blocked s a := IsSuppressed "acme" "email" (HashAddress "acme" a) (store s) in
  ∀ a, (blocked after_suppression a = true ↔
          blocked booted a = true ∨ Sum256 (bytes_of given) = Sum256 (bytes_of (sought a))) ∧
       (given = sought a ↔ "a@example.com" = ":" +:+ ToLower (TrimSpace a)).
Proof.
  split; [vm_compute; discriminate|].
  refine (proj2 (http_suppression_mismatch "" sample_env post_suppression booted after_suppression
    (answer sample_env post_suppression booted)
    {| siChannel := ChannelEmail; siAddress := "a@example.com"; siReason := "asked" |}
    _ _ _ _ _)); vm_compute; reflexivity.
Defined.

End HttpApi.
