(* ===== verification/Main.v ===== *)
(** * The two binaries ([cmd/notification-api/main.go], [cmd/notification-worker/main.go])

    Both load the configuration, open the store, put the queued notifications in a
    new queue and start the dispatcher on one mock provider per channel; they
    differ in the HTTP server only.  What runs afterwards is [System]. *)

From S2P Require Export Config System.
Local Open Scope Z_scope.

Module Main.

Section main.
Context {codec : JsonCodec} {dp : Config.DurationParser} `{!MapRange}.

Definition mock (name : string) (ch : Channel) : Mock :=
  {| ProviderName := name; ProviderChannel := ch; Calls := 0; Failures := 0; Delay := 0 |}.

Definition local_router : Router.Router (P := Mock) :=
  foldl (λ r p, Router.Add p r) Router.New [
    mock "mock-email" ChannelEmail; mock "mock-sms" ChannelSMS;
    mock "mock-webhook" ChannelWebhook; mock "mock-push" ChannelPush].

(** The dispatcher the binaries start on a store and a queue. *)
Definition dispatch {P} (router : Router.Router (P := P)) (t_limiter : time) (st : Store)
    (q : Queue.Queue) : System.System (P := P) := {|
  System.shared := {| Worker.d_store := st; Worker.d_router := router;
                      Worker.d_limiter := Rate.New t_limiter (float_of 100) (float_of 100) |};
  System.queue := q; System.jobs := []; System.sent := [] |}.

(** From the configuration to the running dispatcher.  [None]: the process ends,
    on an error of [Open] or on the nil store that [Open] returns for an empty
    file.  [clock] is read by [Queue.Enqueue]. *)
Definition boot {P} (router : Router.Router (P := P)) (cfg : Config.Config) (t_limiter : time)
    (clock : nat → time) (fs : gmap string Bytes) (r : read_result) : option (System.System (P := P)) :=
  match Open (Config.DataFile cfg) fs r with
  | (Some st, None) =>
      let a := Application.Recover clock
        {| Application.Store_ := st; Application.Queue_ := Queue.New (Config.QueueCapacity cfg) |} in
      Some (dispatch router t_limiter (Application.Store_ a) (Application.Queue_ a))
  | _ => None
  end.

(** The worker writes the loop of [Recover] out. *)
Definition boot_worker {P} (router : Router.Router (P := P)) (cfg : Config.Config) (t_limiter : time)
    (clock : nat → time) (fs : gmap string Bytes) (r : read_result) : option (System.System (P := P)) :=
  match Open (Config.DataFile cfg) fs r with
  | (Some st, None) =>
      Some (dispatch router t_limiter st
              (Application.enqueue_all clock (Queued st) (Queue.New (Config.QueueCapacity cfg))))
  | _ => None
  end.

Definition main (path : string) (file : result string) (env : string → option string)
    (t_limiter : time) (clock : nat → time) (fs : gmap string Bytes) :
    option (Config.Config * System.System (P := Mock)) :=
  match Config.Load path file env with
  | (_, Some _) => None
  | (cfg, None) =>
      match boot local_router cfg t_limiter clock fs (ReadFile (Config.DataFile cfg) fs) with
      | Some s => Some (cfg, s)
      | None => None
      end
  end.

(** ** Lemmas *)

Lemma boot_worker_boot {P} (router : Router.Router (P := P)) cfg t clock fs r :
  boot_worker router cfg t clock fs r = boot router cfg t clock fs r.
Proof. unfold boot_worker, boot. by destruct (Open _ fs r) as [[st|] [err|]]. Qed.

Context `{!MapRangeOk}.

Lemma boot_some {P} (router : Router.Router (P := P)) cfg t clock fs r s :
  boot router cfg t clock fs r = Some s →
  ∃ st, Open (Config.DataFile cfg) fs r = (Some st, None) ∧ System.store s = st ∧
    System.jobs s = [] ∧ System.sent s = [] ∧ Queue.queue_ok (System.queue s) ∧
    ∃ l, l ≡ₚ base.filter (λ n, nStatus n = StatusQueued) (map_to_list (Notifications (data st))).*2 ∧
      (Queue.contents (System.queue s)).*2 ≡ₚ take (Z.to_nat (Config.QueueCapacity cfg)) l.
Proof.
  unfold boot. destruct (Open _ fs r) as [[st|] [err|]]; try done. intros [= <-]. exists st.
  split_and!; [done..| |].
  - apply Application.enqueue_all_ok, Queue.New_ok.
  - exists (Queued st). split; [unfold Queued, range_values; by rewrite map_range_perm|].
    cbn [dispatch System.queue Application.Recover Application.Queue_ Application.Store_].
    rewrite Application.enqueue_all_contents. cbn. by rewrite app_nil_r, Z.sub_0_r.
Qed.

(** A stored snapshot, or no file, can be booted from. *)
Lemma boot_opens {P} `{!JsonCodecOk} (router : Router.Router (P := P)) cfg t clock fs d :
  match fs !! Config.DataFile cfg with
  | None => d = empty_snapshot
  | Some b => marshal_indent d = Ok b ∧ storable d
  end →
  ∃ s, boot router cfg t clock fs (ReadFile (Config.DataFile cfg) fs) = Some s ∧
    data (System.store s) ≡ d ∧ storable (data (System.store s)) ∧
    path (System.store s) = Config.DataFile cfg ∧ files (System.store s) = fs.
Proof.
  intros Hd. unfold boot. destruct (fs !! _) as [b|] eqn:Hf.
  - destruct Hd as [Hm Hs]. destruct (Open_written _ _ _ _ Hf Hs Hm) as (d' & -> & Hd & Hs').
    eexists. by split.
  - subst d. unfold Open, ReadFile. rewrite Hf. eexists. split_and!; [done..|apply storable_empty|done|done].
Qed.
End main.

End Main.
