(* ===== verification/Process.v ===== *)
(** * The process: worker loops, wake token, context and shutdown
    ([internal/worker/dispatcher.go], [cmd/notification-api/main.go],
    [cmd/notification-worker/main.go])

    [System] lets any number of goroutines work on the queue.  Here are the
    goroutines the binaries really start: [Concurrency] loops that sleep in a
    [select], the timers and handlers that are about to enqueue, the cancellation of
    the context, and [main] from the start of the dispatcher to its return.  A run
    of the process is a run of [System], so what is proved there holds here. *)

From S2P Require Export Main.
Local Open Scope Z_scope.

Module Process.
Import System.

Section process.
Context {codec : JsonCodec} {uni : Unicode} {arch : Arch} {P : Type} {prov : Provider P} {mr : MapRange}.

(** ** State *)

(** Where a loop is: about to call [Dequeue], in the [select], in [deliver] before
    the processing mark, before [Choose], in [Send]; or it has returned. *)
Inductive worker :=
| WLoop
| WSelect
| WStart (n : Notification)
| WChoose (n : Notification)
| WSending (n : Notification) (p : P)
| WExited.

(** [main] after [Run]: in [<-ctx.Done()], in [srv.Shutdown], in [Wait] (the worker
    binary selects between it and a timer), returned. *)
Inductive main_pc := MServe | MShutdown | MWait | MReturned.

Inductive binary := Api | WorkerOnly.

#[export] Instance main_pc_eq_dec : EqDecision main_pc.
Proof. solve_decision. Defined.
#[export] Instance binary_eq_dec : EqDecision binary.
Proof. solve_decision. Defined.

Record Process := {
  shared : Worker.State (P := P);
  queue : Queue.Queue;
  pending : list Notification;      (** timers and handlers, before [Enqueue] *)
  workers : list worker;
  stopped : bool;                   (** [ctx.Done()] is closed *)
  main : main_pc;
  sent : list string;
}.

(** [Dispatcher.Run] on what [Main.boot] built. *)
Definition Run (Concurrency : Z) (s : System (P := P)) : Process := {|
  shared := System.shared s; queue := System.queue s; pending := [];
  workers := replicate (Z.to_nat Concurrency) WLoop; stopped := false; main := MServe;
  sent := System.sent s |}.

(** ** Steps *)

(** The case of the [select] that is taken. *)
Inductive case := CDone | CWake | CTick.

Inductive plabel :=
| PSubmit (e : Application.Env) (n : Notification)
| PReplay (e : Application.Env) (id : string)
| PStore (a : op)
| PEnqueue (i : nat) (now : time)
| PDequeue (w : nat) (now : time)
| PSelect (w : nat) (c : case)
| PBegin (w : nat) (e : Worker.Env (P := P))
| PChoose (w : nat) (e : Worker.Env (P := P))
| PFinish (w : nat) (e : Worker.Env (P := P))
| PStop                             (** a signal, or [ListenAndServe] failed *)
| PMain                             (** [main] goes on, if it can *)
| PTimeout.                         (** [time.After(cfg.ShutdownTimeout)] *)

Definition is_exited (w : worker) : bool := match w with WExited => true | _ => false end.

(** The store, queue and calls as [System] has them, with nobody at work: the
    handlers' steps are those of [System]. *)
Definition bare (p : Process) : System (P := P) :=
  {| System.shared := shared p; System.queue := queue p; System.jobs := []; System.sent := sent p |}.

(** Loop [w] goes on at [pc], leaving the parts [sh] and [q], after starting the
    timers [ts] and the provider calls [calls]. *)
Definition resume (w : nat) (pc : worker) (sh : Worker.State (P := P)) (q : Queue.Queue)
    (ts : list Notification) (calls : list string) (p : Process) : Process := {|
  shared := sh; queue := q; pending := pending p ++ ts; workers := <[w := pc]> (workers p);
  stopped := stopped p; main := main p; sent := sent p ++ calls |}.

(** What a handler's step of [System] leaves. *)
Definition handled (s : System (P := P)) (p : Process) : Process := {|
  shared := System.shared s; queue := System.queue s; pending := pending p ++ (job_n <$> jobs s);
  workers := workers p; stopped := stopped p; main := main p; sent := System.sent s |}.

Definition set_main (pc : main_pc) (p : Process) : Process := {|
  shared := shared p; queue := queue p; pending := pending p; workers := workers p;
  stopped := stopped p; main := pc; sent := sent p |}.

(** One turn of [loop] before [deliver]. *)
Definition dequeue_step (w : nat) (now : time) (p : Process) : Process :=
  match Queue.Dequeue (queue p) with
  | (_, None) => resume w WSelect (shared p) (queue p) [] [] p
  | (q, Some n) =>
      if Worker.early now n then resume w WLoop (shared p) q [n] [] p
      else resume w (WStart n) (shared p) q [] [] p
  end.

(** A case that is not ready is not taken. *)
Definition select_step (w : nat) (c : case) (p : Process) : Process :=
  match c with
  | CDone => if stopped p then resume w WExited (shared p) (queue p) [] [] p else p
  | CWake =>
      if Queue.wake (queue p) then resume w WLoop (shared p) (Queue.recv_wake (queue p)) [] [] p else p
  | CTick => resume w WLoop (shared p) (queue p) [] [] p
  end.

Definition begin_worker (w : nat) (e : Worker.Env) (n : Notification) (p : Process) : Process :=
  match Worker.begin e n (shared p) with
  | (sh, Worker.Dropped) => resume w WLoop sh (queue p) [] [] p
  | (sh, Worker.Delayed n) => resume w WLoop sh (queue p) [n] [] p
  | (sh, Worker.Started n) => resume w (WChoose n) sh (queue p) [] [] p
  end.

(** The timer of [retry]. *)
Definition retried (o : option (Notification * Duration)) : list Notification :=
  match o with Some (n, _) => [n] | None => [] end.

Definition choose_worker (maxAttempts : Z) (w : nat) (e : Worker.Env) (n : Notification) (p : Process) : Process :=
  let sh := shared p in
  let '(router, choice) :=
    Router.Choose (Worker.choose_clock e) (Worker.health e) (nChannel n) (Worker.d_router sh) in
  let sh s := {| Worker.d_store := s; Worker.d_router := router; Worker.d_limiter := Worker.d_limiter sh |} in
  match choice with
  | Err err =>
      let '(st, o) := Worker.retry maxAttempts (Worker.second e) n err (Worker.d_store (shared p)) in
      resume w WLoop (sh st) (queue p) (retried o) [] p
  | Ok q =>
      resume w (WSending (Worker.attempt (Name q) n) q) (sh (Worker.d_store (shared p))) (queue p) []
        [idempotency_key n] p
  end.

Definition finish_worker (maxAttempts : Z) (w : nat) (e : Worker.Env) (n : Notification) (q : P) (p : Process) :
    Process :=
  let sh := shared p in
  let '(res, sendErr) := Worker.reply e q (Worker.request_of n) in
  let router := Router.Record_ (Worker.record_clock e) q sendErr (Worker.d_router sh) in
  let '(st, o) := Worker.finish maxAttempts (Worker.second e) n res sendErr (Worker.d_store sh) in
  resume w WLoop {| Worker.d_store := st; Worker.d_router := router; Worker.d_limiter := Worker.d_limiter sh |}
    (queue p) (retried o) [] p.

(** [main]: the API shuts its server down first, and both wait for the loops. *)
Definition main_step (b : binary) (p : Process) : Process :=
  match main p with
  | MServe => if stopped p then set_main (match b with Api => MShutdown | WorkerOnly => MWait end) p else p
  | MShutdown => set_main MWait p
  | MWait => if forallb is_exited (workers p) then set_main MReturned p else p
  | MReturned => p
  end.

(** The worker gives up waiting; the API has no such case. *)
Definition timeout_step (b : binary) (p : Process) : Process :=
  match b, main p with
  | WorkerOnly, MWait => set_main MReturned p
  | _, _ => p
  end.

Definition stop (p : Process) : Process := {|
  shared := shared p; queue := queue p; pending := pending p; workers := workers p;
  stopped := true; main := main p; sent := sent p |}.

(** The process ends with [main].  Only the API has handlers; those that are still at
    work when [Shutdown] gives up run on. *)
Definition pstep (maxAttempts : Z) (b : binary) (p : Process) (l : plabel) : Process :=
  if decide (main p = MReturned) then p else
  match l with
  | PSubmit e n => if decide (b = Api) then handled (step maxAttempts (bare p) (LSubmit e n)) p else p
  | PReplay e id => if decide (b = Api) then handled (step maxAttempts (bare p) (LReplay e id)) p else p
  | PStore a => if decide (b = Api) then handled (step maxAttempts (bare p) (LStore a)) p else p
  | PEnqueue i now =>
      match pending p !! i with
      | Some n => {| shared := shared p; queue := (Queue.Enqueue now n (queue p)).1;
                     pending := delete i (pending p); workers := workers p; stopped := stopped p;
                     main := main p; sent := sent p |}
      | None => p
      end
  | PDequeue w now => match workers p !! w with Some WLoop => dequeue_step w now p | _ => p end
  | PSelect w c => match workers p !! w with Some WSelect => select_step w c p | _ => p end
  | PBegin w e => match workers p !! w with Some (WStart n) => begin_worker w e n p | _ => p end
  | PChoose w e => match workers p !! w with Some (WChoose n) => choose_worker maxAttempts w e n p | _ => p end
  | PFinish w e =>
      match workers p !! w with Some (WSending n q) => finish_worker maxAttempts w e n q p | _ => p end
  | PStop => stop p
  | PMain => main_step b p
  | PTimeout => timeout_step b p
  end.

Definition prun (maxAttempts : Z) (b : binary) (p : Process) (ls : list plabel) : Process :=
  foldl (pstep maxAttempts b) p ls.

(** ** Specification *)

Definition worker_job (w : worker) : option (job (P := P)) :=
  match w with
  | WStart n => Some (JStart n)
  | WChoose n => Some (JChoose n)
  | WSending n q => Some (JSending n q)
  | _ => None
  end.

(** What goroutines and timers hold, as the jobs of [System]. *)
Definition held (p : Process) : list (job (P := P)) := (JTimer <$> pending p) ++ omap worker_job (workers p).

(** [s] is the state of [System] that [p] implements; the order of the jobs does
    not matter. *)
Record abstracts (p : Process) (s : System (P := P)) : Prop := {
  ab_shared : System.shared s = shared p;
  ab_queue : System.queue s = queue p;
  ab_jobs : jobs s ≡ₚ held p;
  ab_sent : System.sent s = sent p;
}.

(** The step of [System] that a step of the process is, where it is one; [i] is the
    position of the job. *)
Definition label_of (i : nat) (l : plabel) : option (label (P := P)) :=
  match l with
  | PSubmit e n => Some (LSubmit e n)
  | PReplay e id => Some (LReplay e id)
  | PStore a => Some (LStore a)
  | PEnqueue _ now => Some (LEnqueue i now)
  | PDequeue _ now => Some (LDequeue now)
  | PSelect _ _ => Some LWake
  | PBegin _ e => Some (LBegin i e)
  | PChoose _ e => Some (LChoose i e)
  | PFinish _ e => Some (LFinish i e)
  | PStop | PMain | PTimeout => None
  end.

(** A loop that is not asleep and has not returned. *)
Definition active (w : worker) : bool := match w with WSelect | WExited => false | _ => true end.

(** How many steps a loop can take before it sleeps, at most. *)
Definition weight (w : worker) : nat :=
  match w with
  | WExited => 0
  | WSelect => 1
  | WLoop => 2
  | WSending _ _ => 3
  | WChoose _ => 4
  | WStart _ => 5
  end.

(** What is left to do for the loops. *)
Definition work (p : Process) : nat :=
  4 * length (Queue.items (queue p)) + (if Queue.wake (queue p) then 2 else 0) + sum_list (weight <$> workers p).

(** A step some loop takes without waiting for its ticker. *)
Definition works (p : Process) (l : plabel) : bool :=
  bool_decide (main p ≠ MReturned) &&
  match l with
  | PDequeue w _ => match workers p !! w with Some WLoop => true | _ => false end
  | PSelect w CWake => match workers p !! w with Some WSelect => Queue.wake (queue p) | _ => false end
  | PSelect w CDone => match workers p !! w with Some WSelect => stopped p | _ => false end
  | PBegin w _ => match workers p !! w with Some (WStart _) => true | _ => false end
  | PChoose w _ => match workers p !! w with Some (WChoose _) => true | _ => false end
  | PFinish w _ => match workers p !! w with Some (WSending _ _) => true | _ => false end
  | _ => false
  end.

(** The number of such steps in a run. *)
Fixpoint worked (maxA : Z) (b : binary) (p : Process) (ls : list plabel) : nat :=
  match ls with
  | [] => 0
  | l :: ls => (if works p l then 1 else 0) + worked maxA b (pstep maxA b p l) ls
  end.

(** The next steps of a loop that is not asleep: to the end of the delivery it is
    in, and a [Dequeue].  Those for which it is not at the point do nothing. *)
Definition own_steps (w : nat) (e : Worker.Env (P := P)) (now : time) : list plabel :=
  [PBegin w e; PChoose w e; PFinish w e; PDequeue w now].

(** The work a step can add. *)
Definition added (l : plabel) : nat :=
  match l with
  | PEnqueue _ _ => 6
  | PSelect _ CTick => 1
  | _ => 0
  end.

(** The invariant of the process. *)
Record proc_ok (b : binary) (c : Z) (p : Process) : Prop := {
  po_queue : Queue.queue_ok (queue p);
  po_workers : length (workers p) = Z.to_nat c;
  po_exited : WExited ∈ workers p → stopped p = true;
  po_main : main p ≠ MServe → stopped p = true;
  po_returned : b = Api → main p = MReturned → forallb is_exited (workers p) = true;
  po_wake : Queue.items (queue p) ≠ [] →
    Queue.wake (queue p) = true ∨ ∃ w pc, workers p !! w = Some pc ∧ active pc = true;
}.

(** ** Lemmas: what is held *)

Definition job_list (w : worker) : list (job (P := P)) := option_list (worker_job w).

Lemma omap_worker w pc (l : list worker) :
  l !! w = Some pc → ∃ r, omap worker_job l ≡ₚ job_list pc ++ r ∧
    ∀ pc', omap worker_job (<[w := pc']> l) ≡ₚ job_list pc' ++ r.
Proof.
  intros Hw. exists (omap worker_job (take w l) ++ omap worker_job (drop (S w) l)).
  assert (Hgen : ∀ x, omap worker_job (take w l ++ x :: drop (S w) l) ≡ₚ
    job_list x ++ omap worker_job (take w l) ++ omap worker_job (drop (S w) l)).
  { intros x. rewrite omap_app. cbn [omap list_omap]. unfold job_list.
    destruct (worker_job x); cbn [option_list app]; [|done]. by rewrite <- Permutation_middle. }
  split.
  - rewrite <- (take_drop_middle l w pc Hw) at 1. apply Hgen.
  - intros pc'. rewrite insert_take_drop by (by eapply lookup_lt_Some). apply Hgen.
Qed.

Lemma held_resume w pc p :
  workers p !! w = Some pc → ∃ r, held p ≡ₚ job_list pc ++ r ∧
    ∀ pc' sh q ts calls, held (resume w pc' sh q ts calls p) ≡ₚ r ++ (JTimer <$> ts) ++ job_list pc'.
Proof.
  intros (r & Hr & Hr')%omap_worker. exists ((JTimer <$> pending p) ++ r). unfold held. split.
  - rewrite Hr. solve_Permutation.
  - intros *. cbn [pending workers resume]. rewrite Hr', fmap_app. solve_Permutation.
Qed.

Lemma job_index (l k : list (job (P := P))) j :
  l ≡ₚ j :: k → ∃ i, l !! i = Some j ∧ delete i l ≡ₚ k.
Proof.
  intros Hp. assert (Hj : j ∈ l) by (rewrite Hp; left). apply list_elem_of_lookup in Hj as [i Hi].
  exists i. split; [done|]. apply (Permutation_cons_inv (a := j)). by rewrite <- Hp, <- delete_Permutation.
Qed.

(** ** Lemmas: the simulation *)

(** Loop [w] left [pc], whose job was taken from the jobs of [s]. *)
Lemma resumed p s w pc pc' sh q ts calls s' k outs :
  abstracts p s → workers p !! w = Some pc → jobs s ≡ₚ job_list pc ++ k →
  jobs s' = k ++ outs → outs ≡ₚ (JTimer <$> ts) ++ job_list pc' →
  System.shared s' = sh → System.queue s' = q → System.sent s' = sent p ++ calls →
  abstracts (resume w pc' sh q ts calls p) s'.
Proof.
  intros Hab Hw Hk Hjobs Houts Hsh Hq Hsent. destruct (held_resume w pc p Hw) as (r & Hr & Hr').
  split; [done..| |done]. rewrite Hr', Hjobs, Houts. f_equiv. apply (Permutation_app_inv_l (job_list pc)).
  by rewrite <- Hk, <- Hr, (ab_jobs _ _ Hab).
Qed.

(** The job of a loop is one of the jobs of [System]. *)
Lemma job_taken p s w pc j :
  abstracts p s → workers p !! w = Some pc → worker_job pc = Some j →
  ∃ i, jobs s !! i = Some j ∧ jobs s ≡ₚ job_list pc ++ jobs (without i s).
Proof.
  intros Hab Hw Hj. destruct (held_resume w pc p Hw) as (r & Hr & _).
  rewrite <- (ab_jobs _ _ Hab) in Hr. unfold job_list in *. rewrite Hj in *.
  destruct (job_index _ _ _ Hr) as (i & Hi & Hd). exists i. split; [done|]. by rewrite Hr, <- Hd.
Qed.

(** The steps of a handler add jobs and look at none. *)
Lemma submit_frame e n (s b : System (P := P)) :
  System.shared s = System.shared b → System.queue s = System.queue b → System.sent s = System.sent b →
  jobs b = [] →
  System.shared (submit e n s) = System.shared (submit e n b) ∧
  System.queue (submit e n s) = System.queue (submit e n b) ∧
  System.sent (submit e n s) = System.sent (submit e n b) ∧
  jobs (submit e n s) = jobs s ++ jobs (submit e n b).
Proof.
  intros Hsh Hq Hs Hj. unfold submit, store. rewrite Hsh.
  destruct (Validate n) as [m [err|]]; [by rewrite Hj, app_nil_r|].
  destruct (Application.suppressed _ _); [by rewrite Hj, app_nil_r|].
  destruct (Create _ _ _ _ _) as [st [[saved created] err]]. unfold with_store, add_jobs. rewrite Hsh, Hq, Hs.
  case_match; cbn [System.shared System.queue System.sent jobs]; by rewrite Hj, ?app_nil_r.
Qed.

Lemma handled_frame p s s' b' :
  abstracts p s → System.shared s' = System.shared b' → System.queue s' = System.queue b' →
  System.sent s' = System.sent b' → jobs s' = jobs s ++ jobs b' →
  (∀ j, j ∈ jobs b' → JTimer (job_n j) = j) → abstracts (handled b' p) s'.
Proof.
  intros Hab Hsh Hq Hs Hj Ht. split; [done..| |done]. rewrite Hj, (ab_jobs _ _ Hab). unfold held.
  cbn [pending workers handled]. rewrite fmap_app.
  replace (JTimer <$> (job_n <$> jobs b')) with (jobs b').
  { rewrite <- !(assoc_L (++)). f_equiv. apply Permutation_app_comm. }
  rewrite <- list_fmap_compose. symmetry. etrans; [|apply list_fmap_id].
  apply list_fmap_ext. intros k j Hin. by apply Ht; eapply list_elem_of_lookup_2.
Qed.

Lemma submit_timers e n (b : System (P := P)) :
  jobs b = [] → ∀ j, j ∈ jobs (submit e n b) → JTimer (job_n j) = j.
Proof.
  intros Hb. unfold submit. destruct (Validate n) as [m [err|]]; [rewrite Hb; by intros j ?%elem_of_nil|].
  case_match; [rewrite Hb; by intros j ?%elem_of_nil|].
  destruct (Create _ _ _ _ _) as [st [[saved created] err]].
  case_match; cbn [jobs add_jobs with_store]; rewrite Hb; [by intros j ->%list_elem_of_singleton|].
  by intros j ?%elem_of_nil.
Qed.

Lemma abstracts_submit p s e n :
  abstracts p s → abstracts (handled (submit e n (bare p)) p) (submit e n s).
Proof.
  intros Hab. destruct (submit_frame e n s (bare p)) as (H1 & H2 & H3 & H4);
    [apply (ab_shared _ _ Hab)|apply (ab_queue _ _ Hab)|apply (ab_sent _ _ Hab)|done|].
  apply (handled_frame p s); [done..|]. by apply submit_timers.
Qed.

(** One step of the process is at most one step of [System]. *)
Definition follows (maxA : Z) (l : plabel) (s : System (P := P)) (p' : Process) : Prop :=
  abstracts p' s ∨ ∃ i lb, label_of i l = Some lb ∧ abstracts p' (step maxA s lb).

Lemma follows_store maxA p s a :
  abstracts p s → follows maxA (PStore a) s (handled (step maxA (bare p) (LStore a)) p).
Proof.
  intros Hab. right. exists 0%nat, (LStore a). split; [done|].
  apply (handled_frame p s); [done|..]; destruct Hab as [H1 H2 H3 H4]; destruct a; cbn [step];
    rewrite ?app_nil_r; unfold with_store, store; cbn [System.shared System.queue System.sent jobs bare];
    rewrite ?H1, ?app_nil_r; try done; by intros j ?%elem_of_nil.
Qed.

Lemma follows_enqueue maxA p s i n now :
  abstracts p s → pending p !! i = Some n →
  follows maxA (PEnqueue i now) s {| shared := shared p; queue := (Queue.Enqueue now n (queue p)).1;
    pending := delete i (pending p); workers := workers p; stopped := stopped p; main := main p;
    sent := sent p |}.
Proof.
  intros Hab Hi. right. destruct (job_index (jobs s) ((JTimer <$> delete i (pending p)) ++ omap worker_job (workers p))
    (JTimer n)) as (k & Hk & Hd).
  { rewrite (ab_jobs _ _ Hab). unfold held. by rewrite (delete_Permutation _ _ _ Hi) at 1. }
  exists k, (LEnqueue k now). split; [done|]. cbn [step]. rewrite Hk.
  split; cbn [System.shared System.queue jobs System.sent shared queue sent]; [apply (ab_shared _ _ Hab)| | |
    apply (ab_sent _ _ Hab)]; [by rewrite (ab_queue _ _ Hab)|exact Hd].
Qed.

Lemma follows_dequeue maxA p s w now :
  abstracts p s → workers p !! w = Some WLoop → follows maxA (PDequeue w now) s (dequeue_step w now p).
Proof.
  intros Hab Hw. right. exists 0%nat, (LDequeue now). split; [done|]. unfold dequeue_step. cbn [step].
  rewrite (ab_queue _ _ Hab). pose proof (ab_shared _ _ Hab) as Hsh. pose proof (ab_sent _ _ Hab) as Hs.
  assert (Hgo : ∀ s' pc' q ts outs, jobs s' = jobs s ++ outs → outs ≡ₚ (JTimer <$> ts) ++ job_list pc' →
    System.shared s' = System.shared s → System.queue s' = q → System.sent s' = System.sent s →
    abstracts (resume w pc' (shared p) q ts [] p) s').
  { intros s' pc' q ts outs Hj Ho H1 H2 H3.
    apply (resumed p s w WLoop) with (k := jobs s) (outs := outs); rewrite ?app_nil_r; try done;
      [by rewrite H1|by rewrite H3]. }
  destruct (Queue.Dequeue (queue p)) as [q [n|]] eqn:Hd.
  - destruct (Worker.early now n); by eapply Hgo.
  - apply (Hgo s WSelect (queue p) [] []); [by rewrite app_nil_r|done..|apply (ab_queue _ _ Hab)|done].
Qed.

Lemma follows_select maxA p s w c :
  abstracts p s → workers p !! w = Some WSelect → follows maxA (PSelect w c) s (select_step w c p).
Proof.
  intros Hab Hw. destruct Hab as [H1 H2 H3 H4] eqn:He. clear He.
  assert (Hgo : ∀ s' pc' q, jobs s' = jobs s → job_list pc' = [] → System.shared s' = System.shared s →
    System.queue s' = q → System.sent s' = System.sent s → abstracts (resume w pc' (shared p) q [] [] p) s').
  { intros s' pc' q Hj Ho Hs1 Hs2 Hs3.
    apply (resumed p s w WSelect) with (k := jobs s) (outs := []); rewrite ?app_nil_r, ?Ho; try done;
      [by rewrite Hs1|by rewrite Hs3]. }
  destruct c; cbn [select_step]; [left; destruct (stopped p)|right|left]; [by apply Hgo|done| |by apply Hgo].
  destruct (Queue.wake (queue p)) eqn:Hwake.
  - exists 0%nat, LWake. split; [done|]. apply Hgo; try done. cbn [step System.queue]. by rewrite H2.
  - exists 0%nat, LWake. split; [done|]. split; try done. cbn [step System.queue]. rewrite H2.
    unfold Queue.recv_wake. rewrite <- Hwake. by destruct (queue p).
Qed.

Lemma follows_begin maxA p s w e n :
  abstracts p s → workers p !! w = Some (WStart n) → follows maxA (PBegin w e) s (begin_worker w e n p).
Proof.
  intros Hab Hw. destruct (job_taken p s w _ _ Hab Hw eq_refl) as (i & Hi & Hk). right. exists i, (LBegin i e).
  split; [done|]. cbn [step]. rewrite Hi. unfold begin_step, begin_worker. cbn [System.shared without].
  rewrite (ab_shared _ _ Hab). destruct (Worker.begin e n (shared p)) as [sh [|m|m]];
    (eapply (resumed p s w (WStart n)); [done..|reflexivity|done|done|apply (ab_queue _ _ Hab)|]);
    rewrite (app_nil_r (sent p)); apply (ab_sent _ _ Hab).
Qed.

Lemma timer_retried (o : option (Notification * Duration)) : timer (P := P) o = JTimer <$> retried o.
Proof. by destruct o as [[]|]. Qed.

Lemma follows_choose maxA p s w e n :
  abstracts p s → workers p !! w = Some (WChoose n) → follows maxA (PChoose w e) s (choose_worker maxA w e n p).
Proof.
  intros Hab Hw. destruct (job_taken p s w _ _ Hab Hw eq_refl) as (i & Hi & Hk). right. exists i, (LChoose i e).
  split; [done|]. cbn [step]. rewrite Hi. unfold choose_step, choose_worker. cbn [System.shared without].
  rewrite (ab_shared _ _ Hab). destruct (Router.Choose _ _ _ _) as [rt [q|err]].
  - eapply (resumed p s w (WChoose n)); [done..|reflexivity|done|done|apply (ab_queue _ _ Hab)|].
    by rewrite <- (ab_sent _ _ Hab).
  - destruct (Worker.retry _ _ _ _ _) as [st o].
    eapply (resumed p s w (WChoose n)); [done..|reflexivity| |done|apply (ab_queue _ _ Hab)|].
    + by rewrite timer_retried, app_nil_r.
    + rewrite (app_nil_r (sent p)). apply (ab_sent _ _ Hab).
Qed.

Lemma follows_finish maxA p s w e n q :
  abstracts p s → workers p !! w = Some (WSending n q) →
  follows maxA (PFinish w e) s (finish_worker maxA w e n q p).
Proof.
  intros Hab Hw. destruct (job_taken p s w _ _ Hab Hw eq_refl) as (i & Hi & Hk). right. exists i, (LFinish i e).
  split; [done|]. cbn [step]. rewrite Hi. unfold finish_step, finish_worker. cbn [System.shared without].
  rewrite (ab_shared _ _ Hab). destruct (Worker.reply e q _) as [res sendErr].
  destruct (Worker.finish _ _ _ _ _ _) as [st o].
  eapply (resumed p s w (WSending n q)); [done..|reflexivity| |done|apply (ab_queue _ _ Hab)|].
  - by rewrite timer_retried, app_nil_r.
  - rewrite (app_nil_r (sent p)). apply (ab_sent _ _ Hab).
Qed.

Lemma pstep_follows maxA b p s l : abstracts p s → follows maxA l s (pstep maxA b p l).
Proof.
  intros Hab. assert (Hid : follows maxA l s p) by by left.
  unfold pstep. case_decide; [done|]. destruct l as [e n|e id|a|i now|w now|w c|w e|w e|w e| | |].
  - case_decide; [|done]. right. exists 0%nat, (LSubmit e n). split; [done|]. by apply abstracts_submit.
  - case_decide; [|done]. right. exists 0%nat, (LReplay e id). split; [done|]. cbn [step].
    unfold store. rewrite (ab_shared _ _ Hab). change (System.shared (bare p)) with (shared p).
    destruct (Get id _) as [old|err]; [by apply abstracts_submit|].
    apply (handled_frame p s); [done|apply (ab_shared _ _ Hab)|apply (ab_queue _ _ Hab)|apply (ab_sent _ _ Hab)| |].
    + cbn [jobs bare]. by rewrite app_nil_r.
    + by intros j ?%elem_of_nil.
  - case_decide; [|done]. by apply follows_store.
  - destruct (pending p !! i) eqn:Hi; [by apply follows_enqueue|done].
  - destruct (workers p !! w) as [[]|] eqn:Hw; try done. by apply follows_dequeue.
  - destruct (workers p !! w) as [[]|] eqn:Hw; try done. by apply follows_select.
  - destruct (workers p !! w) as [[]|] eqn:Hw; try done. by apply follows_begin.
  - destruct (workers p !! w) as [[]|] eqn:Hw; try done. by apply follows_choose.
  - destruct (workers p !! w) as [[]|] eqn:Hw; try done. by apply follows_finish.
  - left. by destruct Hab.
  - left. unfold main_step. repeat case_match; by destruct Hab.
  - left. unfold timeout_step. repeat case_match; by destruct Hab.
Qed.

Lemma prun_follows maxA b p s ls :
  abstracts p s → ∃ lbs, abstracts (prun maxA b p ls) (run maxA s lbs) ∧
    Forall (λ lb, ∃ i l, l ∈ ls ∧ label_of i l = Some lb) lbs.
Proof.
  revert p s. induction ls as [|l ls IH]; intros p s Hab; [by exists []|].
  assert (Hin : ∀ lbs : list (label (P := P)), Forall (λ lb, ∃ i x, x ∈ ls ∧ label_of i x = Some lb) lbs →
    Forall (λ lb, ∃ i x, x ∈ l :: ls ∧ label_of i x = Some lb) lbs).
  { intros lbs Hl. eapply Forall_impl; [exact Hl|]. intros lb (i & x & Hx & Hl'). exists i, x. split; [by right|done]. }
  destruct (pstep_follows maxA b p s l Hab) as [Hab'|(i & lb & Hl & Hab')];
    destruct (IH _ _ Hab') as (lbs & Hr & Hlbs).
  - exists lbs. split; [done|by apply Hin].
  - exists (lb :: lbs). split; [done|]. constructor; [|by apply Hin]. exists i, l. split; [left|done].
Qed.

Lemma Run_abstracts c (s : System (P := P)) : jobs s = [] → abstracts (Run c s) s.
Proof.
  intros Hj. split; [done..| |done]. rewrite Hj. unfold held. cbn [pending workers Run fmap list_fmap app].
  by induction (Z.to_nat c).
Qed.

(** ** Lemmas: the turns of the loops *)

(** What one step of a loop does to its place and to the queue. *)
Inductive turn (p : Process) : worker → worker → Queue.Queue → Prop :=
| turn_take n pc q :
    Queue.Dequeue (queue p) = (q, Some n) → pc = WLoop ∨ pc = WStart n → turn p WLoop pc q
| turn_sleep : (Queue.Dequeue (queue p)).2 = None → turn p WLoop WSelect (queue p)
| turn_done : stopped p = true → turn p WSelect WExited (queue p)
| turn_wake : Queue.wake (queue p) = true → turn p WSelect WLoop (Queue.recv_wake (queue p))
| turn_begin n pc : pc = WLoop ∨ (∃ m, pc = WChoose m) → turn p (WStart n) pc (queue p)
| turn_choose n pc : pc = WLoop ∨ (∃ m q, pc = WSending m q) → turn p (WChoose n) pc (queue p)
| turn_finish n q : turn p (WSending n q) WLoop (queue p).

(** A loop's turn, a tick, or a step of somebody else. *)
Inductive pcase (b : binary) (p : Process) (l : plabel) : Process → Prop :=
| pc_turn w pc pc' sh q ts calls :
    workers p !! w = Some pc → works p l = true → turn p pc pc' q →
    pcase b p l (resume w pc' sh q ts calls p)
| pc_tick w :
    workers p !! w = Some WSelect → works p l = false → l = PSelect w CTick →
    pcase b p l (resume w WLoop (shared p) (queue p) [] [] p)
| pc_other p' :
    works p l = false → workers p' = workers p → stopped p' = stopped p ∨ stopped p' = true →
    main p' = main p ∨ p' = main_step b p ∨ p' = timeout_step b p →
    queue p' = queue p ∨
      (∃ i now n, l = PEnqueue i now ∧ queue p' = (Queue.Enqueue now n (queue p)).1) →
    pcase b p l p'.

Lemma pcase_idle b p l : works p l = false → pcase b p l p.
Proof. intros Hw. apply pc_other; auto. Qed.

Lemma handler_queue maxA p l :
  (∃ e n, l = LSubmit e n) ∨ (∃ e id, l = LReplay e id) ∨ (∃ a, l = LStore a) →
  System.queue (step maxA (bare p) l) = queue p.
Proof.
  assert (Hsub : ∀ e n, System.queue (submit e n (bare p)) = queue p).
  { intros e n. unfold submit. destruct (Validate n) as [m [err|]]; [done|]. case_match; [done|].
    destruct (Create _ _ _ _ _) as [st [[saved created] err]]. by case_match. }
  intros [(e & n & ->)|[(e & id & ->)|(a & ->)]]; cbn [step]; [done| |by destruct a].
  case_match; [apply Hsub|done].
Qed.

Lemma pstep_cases maxA b p l : main p ≠ MReturned → pcase b p l (pstep maxA b p l).
Proof.
  intros Hm. unfold pstep. rewrite decide_False by done.
  assert (Hrun : ∀ x, bool_decide (main p ≠ MReturned) && x = x) by (intros x; by rewrite bool_decide_true).
  assert (Hw : works p l = match l with
    | PDequeue w _ => match workers p !! w with Some WLoop => true | _ => false end
    | PSelect w CWake => match workers p !! w with Some WSelect => Queue.wake (queue p) | _ => false end
    | PSelect w CDone => match workers p !! w with Some WSelect => stopped p | _ => false end
    | PBegin w _ => match workers p !! w with Some (WStart _) => true | _ => false end
    | PChoose w _ => match workers p !! w with Some (WChoose _) => true | _ => false end
    | PFinish w _ => match workers p !! w with Some (WSending _ _) => true | _ => false end
    | _ => false end) by apply Hrun.
  destruct l as [e n|e id|a|i now|w now|w c|w e|w e|w e| | |].
  - destruct (decide (b = Api)); [|by apply pcase_idle]. apply pc_other; [done..|by left|by left|left]. apply handler_queue; eauto.
  - destruct (decide (b = Api)); [|by apply pcase_idle]. apply pc_other; [done..|by left|by left|left]. apply handler_queue; eauto.
  - destruct (decide (b = Api)); [|by apply pcase_idle]. apply pc_other; [done..|by left|by left|left]. apply handler_queue; eauto.
  - destruct (pending p !! i) as [n|]; [|by apply pcase_idle].
    apply pc_other; [done..|by left|by left|right]. by exists i, now, n.
  - destruct (workers p !! w) as [[]|] eqn:Hwk; try by apply pcase_idle. unfold dequeue_step.
    destruct (Queue.Dequeue (queue p)) as [q [n|]] eqn:Hd.
    + destruct (Worker.early now n); (eapply pc_turn; [done|done|]); eapply turn_take; eauto.
    + eapply pc_turn; [done..|]. apply turn_sleep. by rewrite Hd.
  - destruct (workers p !! w) as [[]|] eqn:Hwk; try (destruct c; by apply pcase_idle). destruct c; cbn [select_step].
    + destruct (stopped p) eqn:Hs; [|by apply pcase_idle]. eapply pc_turn; [done|by rewrite Hw|by apply turn_done].
    + destruct (Queue.wake (queue p)) eqn:Hk; [|by apply pcase_idle].
      eapply pc_turn; [done|by rewrite Hw|by apply turn_wake].
    + by eapply pc_tick.
  - destruct (workers p !! w) as [[]|] eqn:Hwk; try by apply pcase_idle. unfold begin_worker.
    destruct (Worker.begin e n (shared p)) as [sh [|m|m]]; (eapply pc_turn; [done|done|apply turn_begin; eauto]).
  - destruct (workers p !! w) as [[]|] eqn:Hwk; try by apply pcase_idle. unfold choose_worker.
    destruct (Router.Choose _ _ _ _) as [rt [q|err]]; [|destruct (Worker.retry _ _ _ _ _)];
      (eapply pc_turn; [done|done|apply turn_choose; eauto]).
  - destruct (workers p !! w) as [[]|] eqn:Hwk; try by apply pcase_idle. unfold finish_worker.
    destruct (Worker.reply e p0 _) as [res sendErr]. destruct (Worker.finish _ _ _ _ _ _) as [st o].
    eapply pc_turn; [done|done|apply turn_finish].
  - apply pc_other; [done..|by right|by left|by left].
  - apply pc_other; [done|..|by right; left|]; unfold main_step; repeat case_match; auto.
  - apply pc_other; [done|..|by right; right|]; unfold timeout_step; repeat case_match; auto.
Qed.

(** ** Lemmas: the invariant *)

Lemma turn_queue p pc pc' q : Queue.queue_ok (queue p) → turn p pc pc' q → Queue.queue_ok q.
Proof.
  intros Hq Ht. destruct Ht as [n pc q Hd _| | | | | |]; try done.
  pose proof (Queue.Dequeue_ok _ Hq) as H. by rewrite Hd in H.
Qed.

Lemma proc_ok_resume b c p w pc pc' sh q ts calls :
  proc_ok b c p → main p ≠ MReturned → workers p !! w = Some pc → Queue.queue_ok q →
  (pc' = WExited → stopped p = true) →
  (active pc' = true ∨ Queue.items q = [] ∨ active pc = false ∧ q = queue p) →
  proc_ok b c (resume w pc' sh q ts calls p).
Proof.
  intros [_ Hlen Hex Hm Hr Hw] Hrun Hpc Hq Hex' Hact.
  split; cbn [queue workers stopped main resume]; [done|by rewrite length_insert| |done|done|].
  - intros [i Hi]%list_elem_of_lookup. apply list_lookup_insert_Some in Hi as [(-> & -> & _)|[_ Hi]]; [auto|].
    by apply Hex, list_elem_of_lookup_2 with i.
  - intros Hne. destruct Hact as [Ha|[?|[Ha ->]]]; [right|done|].
    + exists w, pc'. split; [|done]. apply list_lookup_insert_eq. by eapply lookup_lt_Some.
    + destruct (Hw Hne) as [?|(w0 & pc0 & Hw0 & Ha0)]; [by left|right]. exists w0, pc0. split; [|done].
      rewrite list_lookup_insert_ne; [done|]. intros ->. rewrite Hpc in Hw0. injection Hw0 as ->. congruence.
Qed.

Lemma proc_ok_turn b c p w pc pc' sh q ts calls :
  proc_ok b c p → main p ≠ MReturned → workers p !! w = Some pc → turn p pc pc' q →
  proc_ok b c (resume w pc' sh q ts calls p).
Proof.
  intros Hok Hm Hpc Ht. pose proof (turn_queue _ _ _ _ (po_queue _ _ _ Hok) Ht) as Hq.
  apply (proc_ok_resume _ _ _ _ pc); [done..| |].
  - destruct Ht as [n ? ? ? [-> | ->]| | | |n ? [->|[? ->]]|n ? [->|(? & ? & ->)]|]; done.
  - destruct Ht as [n ? ? ? [-> | ->]|Hd%Queue.Dequeue_empty| | |n ? [->|[? ->]]|n ? [->|(? & ? & ->)]|];
      auto. apply (po_queue _ _ _ Hok).
Qed.

Lemma Enqueue_wakes now n q :
  Queue.items (Queue.Enqueue now n q).1 ≠ [] →
  Queue.Enqueue now n q = (q, (Queue.Enqueue now n q).2) ∨ Queue.wake (Queue.Enqueue now n q).1 = true.
Proof. unfold Queue.Enqueue. case_match; [by left|by right]. Qed.

Lemma proc_ok_step maxA b c p l : proc_ok b c p → proc_ok b c (pstep maxA b p l).
Proof.
  intros Hok. destruct (decide (main p = MReturned)) as [Hm|Hm]; [by unfold pstep; rewrite decide_True|].
  destruct (pstep_cases maxA b p l Hm) as [w pc pc' sh q ts calls Hpc _ Ht|w Hpc _ _|p' _ Hwk Hst Hmain Hq].
  - by eapply proc_ok_turn.
  - eapply proc_ok_resume; [done..|apply (po_queue _ _ _ Hok)|done|by left].
  - destruct Hok as [Hqo Hlen Hex Hmn Hr Hw].
    assert (Hup : stopped p = true → stopped p' = true) by (intros; by destruct Hst as [-> | ->]).
    split; rewrite ?Hwk; [|done|auto|..].
    + destruct Hq as [->|(i & now & n & _ & ->)]; [done|by apply Queue.Enqueue_ok].
    + intros Hne. destruct (decide (main p = MServe)) as [Hs|Hs]; [|auto].
      destruct Hmain as [Hmp|[->| ->]]; [by rewrite Hmp in Hne| |].
      * revert Hne. unfold main_step. rewrite Hs. destruct (stopped p) eqn:Hsp; [by destruct b|done].
      * revert Hne. unfold timeout_step. rewrite Hs. by destruct b.
    + intros -> Hret. destruct Hmain as [Hmn'|[->| ->]]; [by rewrite Hmn' in Hret| |by destruct (Hm Hret)].
      revert Hret. unfold main_step. destruct (main p) eqn:Hmp; [destruct (stopped p)| | |done];
        [cbn; rewrite ?Hmp; done..|]. destruct (forallb is_exited (workers p)); [done|by rewrite Hmp].
    + intros Hne. destruct Hq as [Hq|(i & now & n & _ & Hq)]; rewrite Hq in *; [by apply Hw|].
      destruct (Enqueue_wakes now n (queue p) Hne) as [He|?]; [|by left].
      rewrite He in Hne |- *. by apply Hw.
Qed.

Lemma proc_ok_run maxA b c p ls : proc_ok b c p → proc_ok b c (prun maxA b p ls).
Proof. revert p. induction ls as [|l ls IH]; intros p Hok; [done|]. by apply IH, proc_ok_step. Qed.

Lemma proc_ok_Run b c (s : System (P := P)) : 0 < c → Queue.queue_ok (System.queue s) → proc_ok b c (Run c s).
Proof.
  intros Hc Hq. split; cbn [queue workers stopped main Run]; [done|by rewrite length_replicate| |done|done|].
  - by intros ?%elem_of_replicate_inv.
  - intros _. right. exists 0%nat, WLoop. split; [|done]. apply lookup_replicate. split; [done|lia].
Qed.

(** ** Lemmas: the work of the loops *)

Lemma weight_insert w pc pc' (l : list worker) :
  l !! w = Some pc → (sum_list (weight <$> <[w := pc']> l) + weight pc = sum_list (weight <$> l) + weight pc')%nat.
Proof.
  intros Hw. rewrite insert_take_drop by (by eapply lookup_lt_Some).
  rewrite <- (take_drop_middle l w pc Hw) at 3. rewrite !sum_fmap_app, !sum_fmap_cons. lia.
Qed.

Lemma turn_work b c p w pc pc' sh q ts calls :
  proc_ok b c p → workers p !! w = Some pc → turn p pc pc' q →
  (S (work (resume w pc' sh q ts calls p)) ≤ work p)%nat.
Proof.
  intros Hok Hpc Ht. pose proof (weight_insert w pc pc' _ Hpc) as Hsum. unfold work. cbn [queue workers resume].
  destruct Ht as [n ? ? Hd [-> | ->]|Hd| |Hk|n ? [->|[? ->]]|n ? [->|(? & ? & ->)]|]; simpl weight in Hsum; try lia.
  - destruct (Queue.Dequeue_shrinks _ _ _ (po_queue _ _ _ Hok) Hd) as [-> ->]. lia.
  - destruct (Queue.Dequeue_shrinks _ _ _ (po_queue _ _ _ Hok) Hd) as [-> ->]. lia.
  - rewrite Hk. cbn [Queue.wake Queue.recv_wake Queue.items]. lia.
Qed.

Lemma pstep_work maxA b c p l :
  proc_ok b c p → ((if works p l then 1 else 0) + work (pstep maxA b p l) ≤ work p + added l)%nat.
Proof.
  intros Hok. destruct (decide (main p = MReturned)) as [Hm|Hm].
  { unfold pstep, works. rewrite decide_True, bool_decide_false by auto. simpl. lia. }
  destruct (pstep_cases maxA b p l Hm) as [w pc pc' sh q ts calls Hpc -> Ht|w Hpc -> ->|p' -> Hwk _ _ Hq].
  - pose proof (turn_work _ _ _ _ _ _ sh _ ts calls Hok Hpc Ht). lia.
  - pose proof (weight_insert w _ WLoop _ Hpc). unfold work. cbn [queue workers resume added] in *.
    simpl weight in *. lia.
  - unfold work. rewrite Hwk. destruct Hq as [->|(i & now & n & -> & ->)]; [lia|]. cbn [added].
    unfold Queue.Enqueue. case_match; cbn [fst Queue.items Queue.wake]; [lia|]. rewrite length_Push. case_match; lia.
Qed.

Lemma worked_bound maxA b c p ls :
  proc_ok b c p → (worked maxA b p ls + work (prun maxA b p ls) ≤ work p + sum_list (added <$> ls))%nat.
Proof.
  revert p. induction ls as [|l ls IH]; intros p Hok; simpl; [lia|]. change (list_fmap _ _ added ls) with (added <$> ls).
  pose proof (pstep_work maxA b c p l Hok). pose proof (IH _ (proc_ok_step maxA b c p l Hok)). lia.
Qed.

Lemma work_limit b c p : proc_ok b c p → (work p ≤ 4 * length (Queue.items (queue p)) + 2 + 5 * Z.to_nat c)%nat.
Proof.
  intros Hok. unfold work. rewrite <- (po_workers _ _ _ Hok).
  assert (Hs : ∀ l : list worker, (sum_list (weight <$> l) ≤ 5 * length l)%nat).
  { induction l as [|x l IH]; [simpl; lia|].
    rewrite sum_fmap_cons. cbn [length]. destruct x; cbn [weight]; lia. }
  pose proof (Hs (workers p)). case_match; lia.
Qed.

Lemma progress b c p (e : Worker.Env (P := P)) :
  proc_ok b c p → main p ≠ MReturned → stopped p = true → forallb is_exited (workers p) = false →
  ∃ l, works p l = true.
Proof.
  intros Hok Hm Hst Hex. assert (∃ w pc, workers p !! w = Some pc ∧ is_exited pc = false) as (w & pc & Hw & Hpc).
  { revert Hex. generalize (workers p). induction l as [|x l IH]; [done|]. cbn [forallb].
    destruct (is_exited x) eqn:Hx; [|intros _; by exists 0%nat, x].
    cbn [andb]. intros (w & pc & ? & ?)%IH. by exists (S w), pc. }
  assert (Hgo : ∀ l, match l with
    | PDequeue w _ => match workers p !! w with Some WLoop => true | _ => false end
    | PSelect w CDone => match workers p !! w with Some WSelect => stopped p | _ => false end
    | PBegin w _ => match workers p !! w with Some (WStart _) => true | _ => false end
    | PChoose w _ => match workers p !! w with Some (WChoose _) => true | _ => false end
    | PFinish w _ => match workers p !! w with Some (WSending _ _) => true | _ => false end
    | _ => false end = true → works p l = true).
  { intros l Hl. unfold works. rewrite bool_decide_true by done. by destruct l as [| | | | |? []| | | | | |]. }
  destruct pc as [| |n|n|n q|]; [exists (PDequeue w 0)|exists (PSelect w CDone)|exists (PBegin w e)|
    exists (PChoose w e)|exists (PFinish w e)|done]; apply Hgo; by rewrite Hw.
Qed.

(** The steps that a loop still has before its [Dequeue]. *)
Definition points (w : worker) : nat :=
  match w with WStart _ => 3 | WChoose _ => 2 | WSending _ _ => 1 | _ => 0 end.

Lemma own_step maxA b p w e pc i l :
  main p ≠ MReturned → workers p !! w = Some pc → active pc = true → (points pc ≤ S i)%nat →
  own_steps w e 0 !! (2 - i)%nat = Some l → (i ≤ 2)%nat →
  let p' := pstep maxA b p l in
  main p' ≠ MReturned ∧ queue p' = queue p ∧
  ∃ pc', workers p' !! w = Some pc' ∧ active pc' = true ∧ (points pc' ≤ i)%nat.
Proof.
  intros Hm Hw Ha Hi Hl Hle p'.
  assert (Hidle : p' = p → (points pc ≤ i)%nat → main p' ≠ MReturned ∧ queue p' = queue p ∧
    ∃ pc', workers p' !! w = Some pc' ∧ active pc' = true ∧ (points pc' ≤ i)%nat).
  { intros -> Hp. split_and!; [done..|]. by exists pc. }
  assert (Hgo : ∀ pc' sh ts calls, p' = resume w pc' sh (queue p) ts calls p → active pc' = true → (points pc' ≤ i)%nat →
    main p' ≠ MReturned ∧ queue p' = queue p ∧
    ∃ pc', workers p' !! w = Some pc' ∧ active pc' = true ∧ (points pc' ≤ i)%nat).
  { intros pc' sh ts calls -> Ha' Hp. split_and!; [done..|]. exists pc'. split; [|done]. cbn [workers resume].
    apply list_lookup_insert_eq. by eapply lookup_lt_Some. }
  unfold p', pstep in *. clear p'. rewrite decide_False in * by done.
  destruct i as [|[|[|i]]]; [..|lia]; cbn in Hl; injection Hl as <-; rewrite Hw in *;
    destruct pc as [| |n|n|n q|]; cbn [active points] in Ha, Hi; try done; try lia; try (apply Hidle; [done|cbn; lia]).
  - unfold finish_worker in *. destruct (Worker.reply e q _) as [res sendErr].
    destruct (Worker.finish _ _ _ _ _ _) as [st o]. eapply Hgo; [done..|cbn; lia].
  - unfold choose_worker in *. destruct (Router.Choose _ _ _ _) as [rt [q|err]]; [eapply Hgo; [done..|cbn; lia]|].
    destruct (Worker.retry _ _ _ _ _) as [st o]. eapply Hgo; [done..|cbn; lia].
  - unfold begin_worker in *. destruct (Worker.begin e n (shared p)) as [sh [|m|m]]; (eapply Hgo; [done..|cbn; lia]).
Qed.

Lemma own_dequeues maxA b p w e now pc :
  main p ≠ MReturned → Queue.queue_ok (queue p) → Queue.items (queue p) ≠ [] →
  workers p !! w = Some pc → active pc = true →
  (length (Queue.items (queue (prun maxA b p (own_steps w e now)))) < length (Queue.items (queue p)))%nat.
Proof.
  intros Hm Hq Hne Hw Ha. assert (Hp : (points pc ≤ 3)%nat) by (destruct pc; simpl; lia).
  destruct (own_step maxA b p w e pc 2 _ Hm Hw Ha Hp eq_refl ltac:(lia)) as (Hm1 & Hq1 & pc1 & Hw1 & Ha1 & Hp1).
  destruct (own_step maxA b _ w e pc1 1 _ Hm1 Hw1 Ha1 Hp1 eq_refl ltac:(lia)) as (Hm2 & Hq2 & pc2 & Hw2 & Ha2 & Hp2).
  destruct (own_step maxA b _ w e pc2 0 _ Hm2 Hw2 Ha2 Hp2 eq_refl ltac:(lia)) as (Hm3 & Hq3 & pc3 & Hw3 & Ha3 & Hp3).
  unfold own_steps, prun. cbn [foldl]. cbn in Hm3, Hq3, Hw3, Hq2, Hq1.
  set (p3 := pstep _ _ (pstep _ _ (pstep _ _ p _) _) _) in *. rewrite Hq2, Hq1 in Hq3.
  unfold pstep. rewrite decide_False by done. rewrite Hw3. destruct pc3; cbn [points] in Hp3; try lia; try done.
  unfold dequeue_step. rewrite Hq3. destruct (Queue.Dequeue (queue p)) as [q [n|]] eqn:Hd.
  - destruct (Queue.Dequeue_shrinks (queue p) n q Hq Hd) as [Hl _]. case_match; cbn; lia.
  - by apply (f_equal snd), (Queue.Dequeue_empty _ Hq) in Hd.
Qed.

Lemma pstep_main maxA b p : pstep maxA b p PMain = main_step b p.
Proof. unfold pstep. case_decide as Hm; [|done]. unfold main_step. by rewrite Hm. Qed.

Lemma main_returns maxA b p :
  stopped p = true → forallb is_exited (workers p) = true →
  main (prun maxA b p [PMain; PMain; PMain]) = MReturned.
Proof.
  intros Hst Hex. unfold prun. cbn [foldl]. rewrite !pstep_main.
  assert (Hret : ∀ q, main q = MReturned → main_step b q = q) by (intros q Hq; unfold main_step; by rewrite Hq).
  unfold main_step at 3. destruct (main p) eqn:Hm; rewrite ?Hst, ?Hex.
  - destruct b; unfold main_step; cbn [main set_main workers]; by rewrite ?Hex.
  - rewrite Hret; unfold main_step; cbn [main set_main workers]; by rewrite Hex.
  - rewrite (Hret (set_main MReturned p)) by done. by rewrite Hret.
  - rewrite (Hret p Hm). by rewrite (Hret p Hm).
Qed.

(** ** Properties *)

(** C11: a run of the process with its loops, timers, handlers and shutdown is a
    run of [System], the unrestricted interleaving: it ends with the same store,
    router, limiter, queue and provider calls, and with the same notifications held
    at the same points of their delivery; the steps are those of the process.  At
    most [Concurrency] of them are in the hands of the loops. *)
Theorem process_refines (maxAttempts c : Z) (b : binary) (s : System (P := P)) (ls : list plabel) :
  jobs s = [] →
  let p := prun maxAttempts b (Run c s) ls in
  ∃ lbs, abstracts p (run maxAttempts s lbs) ∧
    Forall (λ lb, ∃ i l, l ∈ ls ∧ label_of i l = Some lb) lbs ∧
    (length (omap worker_job (workers p)) ≤ Z.to_nat c)%nat.
Proof.
  intros Hj p. destruct (prun_follows maxAttempts b (Run c s) s ls (Run_abstracts c s Hj)) as (lbs & Hab & Hlbs).
  exists lbs. split_and!; [done..|]. assert (Hlen : length (workers p) = Z.to_nat c).
  { unfold p. clear. assert (Hr : length (workers (Run c s)) = Z.to_nat c) by apply length_replicate.
    revert Hr. generalize (Run c s). induction ls as [|l ls IH]; intros p Hp; [done|]. apply IH.
    destruct (decide (main p = MReturned)) as [Hm|Hm]; [by unfold pstep; rewrite decide_True|].
    destruct (pstep_cases maxAttempts b p l Hm) as [| |p' _ -> _ _ _]; cbn [workers resume];
      by rewrite ?length_insert. }
  rewrite <- Hlen. clear. induction (workers p) as [|x l IH]; [done|]. cbn [omap list_omap].
  destruct (worker_job x); simpl in *; lia.
Qed.

(** C13: no wake-up is lost: whenever the queue is not empty and [main] has not
    returned, either a loop is awake, and its own next steps, the rest of the delivery
    it is in and a [Dequeue], take something from the queue, however they turn out;
    or the token is in the channel, and each loop that sleeps can take it and then
    takes something from the queue.  This is not one wake-up for each notification:
    two [Enqueue]s can leave one token, so that the second notification waits, while
    a loop sleeps, for another loop's delivery or for the tick ([one_token]). *)
Theorem no_lost_wakeup (maxAttempts c : Z) (b : binary) (s : System (P := P)) (ls : list plabel) :
  0 < c → Queue.queue_ok (System.queue s) →
  let p := prun maxAttempts b (Run c s) ls in
  Queue.items (queue p) ≠ [] → main p ≠ MReturned →
  let shorter q := (length (Queue.items (queue q)) < length (Queue.items (queue p)))%nat in
  (∃ w pc, workers p !! w = Some pc ∧ active pc = true ∧
     ∀ e now, shorter (prun maxAttempts b p (own_steps w e now))) ∨
  (Queue.wake (queue p) = true ∧
   ∀ w now, workers p !! w = Some WSelect → shorter (prun maxAttempts b p [PSelect w CWake; PDequeue w now])).
Proof.
  intros Hc Hq p Hne Hm shorter. assert (Hok : proc_ok b c p) by by apply proc_ok_run, proc_ok_Run.
  destruct (po_wake _ _ _ Hok Hne) as [Hk|(w & pc & Hw & Ha)]; [right|left].
  2: { exists w, pc. split_and!; [done..|]. intros e now. apply (own_dequeues _ _ _ _ _ _ pc); [done| |done..].
       apply (po_queue _ _ _ Hok). }
  split; [done|]. intros w now Hw. unfold shorter.
  assert (Hlt : (w < length (workers p))%nat) by (by eapply lookup_lt_Some).
  unfold prun. cbn [foldl]. unfold pstep at 2. rewrite decide_False, Hw by done. cbn [select_step]. rewrite Hk.
  unfold pstep. cbn [main workers resume]. rewrite decide_False, list_lookup_insert_eq by done.
  unfold dequeue_step. cbn [queue resume].
  set (q1 := Queue.recv_wake (queue p)). assert (Hq1 : Queue.queue_ok q1) by apply (po_queue _ _ _ Hok).
  destruct (Queue.Dequeue q1) as [q [n|]] eqn:Hd.
  - destruct (Queue.Dequeue_shrinks q1 n q Hq1 Hd) as [Hl _]. cbn in Hl. case_match; cbn; lia.
  - by apply (f_equal snd), (Queue.Dequeue_empty q1 Hq1) in Hd.
Qed.

(** C9: a loop returns only once the context is done; when the API's [main]
    returns, all loops have returned, so no notification is left between the queue
    and the end of its delivery: what the process still holds is in the queue or
    about to be put there. *)
Theorem shutdown_complete (maxAttempts c : Z) (b : binary) (s : System (P := P)) (ls : list plabel) :
  0 < c → Queue.queue_ok (System.queue s) →
  let p := prun maxAttempts b (Run c s) ls in
  (WExited ∈ workers p ∨ main p ≠ MServe → stopped p = true) ∧
  (b = Api → main p = MReturned →
     Forall (λ w, w = WExited) (workers p) ∧ held p = JTimer <$> pending p).
Proof.
  intros Hc Hq p. assert (Hok : proc_ok b c p) by by apply proc_ok_run, proc_ok_Run.
  split; [intros [?|?]; [by eapply po_exited|by eapply po_main]|]. intros Hb Hm.
  assert (Hall : Forall (λ w, w = WExited) (workers p)).
  { pose proof (po_returned _ _ _ Hok Hb Hm) as Hex. rewrite forallb_forall in Hex. apply Forall_forall.
    intros x Hx%list_elem_of_In%Hex. by destruct x. }
  split; [done|]. unfold held. replace (omap worker_job (workers p)) with (@nil (job (P := P))).
  { by rewrite app_nil_r. }
  induction Hall as [|x l -> _ IH]; [done|]. exact IH.
Qed.

(** C12: the loops do a bounded amount of work for what is enqueued, whatever
    the schedule: at most four steps for a queued notification, two for a token in
    the wake channel, five for each loop, six for an [Enqueue], one for a tick.  Once the context is done, as long as a
    loop has not returned one of them can take such a step, so that without new
    entries and ticks all return; then [main] returns, in three steps of its own. *)
Theorem shutdown_terminates (maxAttempts c : Z) (b : binary) (s : System (P := P)) (ls : list plabel)
    (e : Worker.Env (P := P)) :
  0 < c → Queue.queue_ok (System.queue s) →
  let p := prun maxAttempts b (Run c s) ls in
  (∀ more, (worked maxAttempts b p more ≤
     4 * length (Queue.items (queue p)) + 2 + 5 * Z.to_nat c + sum_list (added <$> more))%nat) ∧
  (stopped p = true → main p ≠ MReturned → forallb is_exited (workers p) = false → ∃ l, works p l = true) ∧
  (stopped p = true → forallb is_exited (workers p) = true →
     main (prun maxAttempts b p [PMain; PMain; PMain]) = MReturned).
Proof.
  intros Hc Hq p. assert (Hok : proc_ok b c p) by by apply proc_ok_run, proc_ok_Run. split_and!.
  - intros more. pose proof (worked_bound maxAttempts b c p more Hok). pose proof (work_limit b c p Hok). lia.
  - intros Hst Hm Hex. by eapply progress.
  - by apply main_returns.
Qed.
End process.

(** ** Witnesses *)

#[local] Existing Instance memory_codec.
#[local] Existing Instance System.ascii_only.
#[local] Existing Instance System.amd64.
#[local] Existing Instance map_to_list_range.

(** Two submissions; loop 0 takes the first to the provider while loop 1 falls
    asleep, and the second is enqueued. *)
Definition at_work : list (plabel (P := Mock)) := [
  PSubmit Application.env0 sample_email; PDequeue 1 9; PEnqueue 0 10; PDequeue 0 11; PBegin 0 wenv; PChoose 0 wenv;
  PSubmit Application.env1 (set_key sample_email "invoice-2"); PSelect 1 CWake; PDequeue 1 12; PEnqueue 0 13].

(** The context ends, loop 0 finishes its delivery, both empty the queue and return,
    and so does [main]. *)
Definition to_the_end : list (plabel (P := Mock)) := [
  PStop; PMain; PMain; PMain; PFinish 0 wenv; PDequeue 0 14; PBegin 0 wenv; PChoose 0 wenv; PFinish 0 wenv;
  PDequeue 0 15; PSelect 0 CDone; PSelect 1 CDone; PMain].

Example process_ex :
  let p := prun 5 Api (Run 2 start) (at_work ++ to_the_end) in
  main p = MReturned ∧ sent p = ["acme:invoice-1"; "acme:invoice-2"] ∧ length (pending p) = 2%nat ∧
  main (prun 5 Api (Run 2 start) (at_work ++ take 12 to_the_end)) = MWait.
Proof. by vm_compute. Qed.

(** The worker binary returns when its time is up, with a notification still at the
    provider; the API, which has no such case, would wait. *)
Example worker_gives_up :
  let s := run 5 start [LSubmit Application.env0 sample_email; LEnqueue 0 10] in
  let ls := [PDequeue 0 11; PBegin 0 wenv; PChoose 0 wenv; PStop; PMain; PMain; PTimeout] in
  (main (prun 5 WorkerOnly (Run 1 s) ls), length (held (prun 5 WorkerOnly (Run 1 s) ls))) = (MReturned, 1%nat) ∧
  main (prun 5 Api (Run 1 s) ls) = MWait.
Proof. by vm_compute. Qed.

Lemma start_queue_ok : Queue.queue_ok (System.queue start).
Proof. apply Queue.New_ok. Qed.

Lemma process_refines_witness :
  let p := prun 5 Api (Run 2 start) at_work in
  length (omap worker_job (workers p)) = 1%nat ∧
  ∃ lbs, abstracts p (run 5 start lbs) ∧
    Forall (λ lb, ∃ i l, l ∈ at_work ∧ label_of i l = Some lb) lbs ∧
    (length (omap worker_job (workers p)) ≤ Z.to_nat 2)%nat.
Proof. split; [vm_compute; reflexivity|]. apply (process_refines 5 2 Api start at_work). reflexivity. Defined.

(** Two [Enqueue]s leave one token: loop 0 takes it and the first notification, the
    second stays queued while loop 1 sleeps with no step but the tick. *)
Example one_token :
  let p := prun 5 Api (Run 2 start) [
    PDequeue 0 1; PDequeue 1 2; PSubmit Application.env0 sample_email;
    PSubmit Application.env1 (set_key sample_email "invoice-2"); PEnqueue 0 10; PEnqueue 0 11;
    PSelect 0 CWake; PDequeue 0 12; PBegin 0 wenv; PChoose 0 wenv] in
  length (Queue.items (queue p)) = 1%nat ∧ Queue.wake (queue p) = false ∧
  (works p (PSelect 1 CWake), works p (PSelect 1 CDone)) = (false, false) ∧
  length (Queue.items (queue (prun 5 Api p [PSelect 1 CTick; PDequeue 1 500]))) = 0%nat.
Proof. by vm_compute. Qed.

Lemma no_lost_wakeup_witness :
  let p := prun 5 Api (Run 2 start) at_work in
  let shorter q := (length (Queue.items (queue q)) < length (Queue.items (queue p)))%nat in
  (∃ w pc, workers p !! w = Some pc ∧ active pc = true ∧
     ∀ e now, shorter (prun 5 Api p (own_steps w e now))) ∨
  (Queue.wake (queue p) = true ∧
   ∀ w now, workers p !! w = Some WSelect → shorter (prun 5 Api p [PSelect w CWake; PDequeue w now])).
Proof.
  apply (no_lost_wakeup 5 2 Api start at_work); [lia|apply start_queue_ok|vm_compute; discriminate..].
Defined.

Lemma shutdown_complete_witness :
  let p := prun 5 Api (Run 2 start) (at_work ++ to_the_end) in
  main p = MReturned ∧
  (WExited ∈ workers p ∨ main p ≠ MServe → stopped p = true) ∧
  (Api = Api → main p = MReturned →
     Forall (λ w, w = WExited) (workers p) ∧ held p = JTimer <$> pending p).
Proof.
  split; [vm_compute; reflexivity|].
  apply (shutdown_complete 5 2 Api start (at_work ++ to_the_end)); [lia|apply start_queue_ok].
Defined.

Lemma shutdown_terminates_witness :
  let p := prun 5 Api (Run 2 start) (at_work ++ take 4 to_the_end) in
  stopped p = true ∧
  (∀ more, (worked 5 Api p more ≤
     4 * length (Queue.items (queue p)) + 2 + 5 * Z.to_nat 2 + sum_list (added <$> more))%nat) ∧
  (stopped p = true → main p ≠ MReturned → forallb is_exited (workers p) = false → ∃ l, works p l = true) ∧
  (stopped p = true → forallb is_exited (workers p) = true →
     main (prun 5 Api p [PMain; PMain; PMain]) = MReturned).
Proof.
  split; [vm_compute; reflexivity|].
  apply (shutdown_terminates 5 2 Api start (at_work ++ take 4 to_the_end) wenv); [lia|apply start_queue_ok].
Defined.

End Process.
