(* ===== verification/Lifetime.v ===== *)
(** * Crashes and restarts

    The life of the platform on one data file: a run of [System], interrupted
    anywhere, then [Main.boot] on what the file holds, and so on.  The list of
    provider calls is kept across restarts.  The invariant relates the calls to the
    store in memory and to the snapshot in the file, which may be older. *)

From S2P Require Export Main Receipt.
Local Open Scope Z_scope.

Module Lifetime.
Import System.

Section lifetime.
Context {codec : JsonCodec} {uni : Unicode} {arch : Arch} {P : Type} {prov : Provider P} {mr : MapRange}.
Context (cfg : Config.Config) (router : Router.Router (P := P)).

(** Whether the callers keep the two conditions under which attempts are counted:
    submitted attempt counters are not negative and can be incremented, and no
    provider answers with the status queued.  The source checks neither. *)
Context (fair : Prop).

Local Abbreviation maxA := (Config.MaxAttempts cfg).

(** What the callers outside the model respect: the notification a [Cancel] or
    [Pause] writes was read from the store, so its key is bound to its id; receipts
    have passed [Ingest]. *)
Definition allowed (s : System (P := P)) (l : label (P := P)) : Prop :=
  match l with
  | LSubmit _ n => fair → 0 ≤ nAttempts n < max_int64
  | LStore (OpUpdate _ _ n _) =>
      Idempotency (data (store s)) !! idempotency_key n = Some (nID n) ∧
      nStatus n ∈ [StatusCanceled; StatusPaused] ∧ request_ok n
  | LStore (OpReceipt _ _ _ ev) => eStatus ev ∈ Receipt.supported
  | LFinish _ e => fair → ∀ p r, ResStatus (Worker.reply e p r).1 ≠ StatusQueued
  | _ => True
  end.

(** A restarted program, with the calls made before. *)
Definition carry (l : list string) (s : System (P := P)) : System (P := P) :=
  {| shared := shared s; queue := queue s; jobs := jobs s; sent := l ++ sent s |}.

Inductive life : System (P := P) → Prop :=
| life_first t clock fs s :
    fs !! Config.DataFile cfg = None →
    Main.boot router cfg t clock fs (ReadFile (Config.DataFile cfg) fs) = Some s → life s
| life_step s l :
    life s → allowed s l → storable (data (store (step maxA s l))) → life (step maxA s l)
| life_restart s t clock fs s' :
    life s → fs !! Config.DataFile cfg = files (store s) !! Config.DataFile cfg →
    Main.boot router cfg t clock fs (ReadFile (Config.DataFile cfg) fs) = Some s' →
    life (carry (sent s) s').

(** ** The invariant *)

(** A goroutine that will call a provider, or is in the call. *)
Definition busy (j : job (P := P)) : bool :=
  match j with JChoose _ | JSending _ _ => true | _ => false end.

(** A snapshot from which nothing can be sent too often: its keys name its
    notifications, it knows every key that was sent or is about to be, and what it
    holds as queued has attempts left if they are counted. *)
Record good (l : list string) (js : list (job (P := P))) (d : snapshot) : Prop := {
  gd_entry : ∀ id n, Notifications d !! id = Some n →
    nID n = id ∧ Idempotency d !! idempotency_key n = Some id;
  gd_queued : fair → ∀ id n, Notifications d !! id = Some n → nStatus n = StatusQueued → waiting maxA l n;
  gd_sent : ∀ k, k ∈ l → is_Some (Idempotency d !! k);
  gd_busy : ∀ j, j ∈ js → busy j = true →
    is_Some (Idempotency d !! idempotency_key (job_n j)) ∧
    ∀ id n, Notifications d !! id = Some n → idempotency_key n = idempotency_key (job_n j) →
      nStatus n ≠ StatusQueued;
}.

Definition disk (s : System (P := P)) (d : snapshot) : Prop :=
  match files (store s) !! Config.DataFile cfg with
  | None => d = empty_snapshot
  | Some b => marshal_indent d = Ok b ∧ storable d
  end.

Record safe (s : System (P := P)) : Prop := {
  sf_unique : unique s;
  sf_bounded : fair → bounded maxA s;
  sf_live : ∀ n, n ∈ live s → Idempotency (data (store s)) !! idempotency_key n = Some (nID n);
  sf_path : path (store s) = Config.DataFile cfg;
  sf_mem : good (sent s) (jobs s) (data (store s));
  sf_storable : storable (data (store s));
  sf_disk : ∃ d, disk s d ∧ good (sent s) (jobs s) d;
}.

(** ** Lemmas: snapshots *)

Lemma good_jobs l js js' d :
  good l js d → (∀ j, j ∈ js' → busy j = true → j ∈ js) → good l js' d.
Proof. intros [He Hq Hs Hb] Hsub. split; [done..|]. intros j Hj Hbusy. by apply Hb; [apply Hsub|]. Qed.

Lemma good_equiv l js d d' : d ≡ d' → good l js d → good l js d'.
Proof. intros [Hn Hi _ _ _ _] [He Hq Hs Hb]. split; rewrite <- ?Hn, <- ?Hi; done. Qed.

(** Writing entries whose key is bound to their id, and of which those that are
    queued have attempts left and are held by nobody who is about to send. *)
Lemma good_write l js d d' :
  good l js d → Idempotency d ⊆ Idempotency d' →
  (∀ id m, Notifications d' !! id = Some m → Notifications d !! id = Some m ∨
     nID m = id ∧ Idempotency d' !! idempotency_key m = Some id ∧
     (nStatus m = StatusQueued → (fair → waiting maxA l m) ∧
        ∀ j, j ∈ js → busy j = true → idempotency_key m ≠ idempotency_key (job_n j))) →
  good l js d'.
Proof.
  intros [He Hq Hs Hb] Hgrow Hnew. split.
  - intros id n [Hn|(Hid & Hk & _)]%Hnew; [|done]. apply He in Hn as [Hid Hk].
    split; [done|]. by eapply lookup_weaken.
  - intros Hfair id n [Hn|(_ & _ & Hm)]%Hnew Hst; [by eapply Hq|by apply Hm].
  - intros k [x Hk]%Hs. exists x. by eapply lookup_weaken.
  - intros j Hj Hbusy. destruct (Hb j Hj Hbusy) as [[x Hx] Hno]. split; [exists x; by eapply lookup_weaken|].
    intros id n [Hn|(_ & _ & Hm)]%Hnew Hkey; [by eapply Hno|]. intros Hst.
    destruct (Hm Hst) as [_ Hne]. by apply (Hne j Hj Hbusy).
Qed.

(** Calling a provider for a key whose notification is marked as processing. *)
Lemma good_send l js js' d j :
  good l js d → j ∈ js → busy j = true →
  (∀ j', j' ∈ js' → busy j' = true → j' ∈ js ∨ idempotency_key (job_n j') = idempotency_key (job_n j)) →
  good (l ++ [idempotency_key (job_n j)]) js' d.
Proof.
  intros [He Hq Hs Hb] Hj Hbusy Hjs'. destruct (Hb j Hj Hbusy) as [Hbound Hno]. split; [done| | |].
  - intros Hfair id n Hn Hst. unfold waiting. rewrite count_snoc, decide_False; [rewrite Z.add_0_r; by eapply Hq|].
    intros Heq. by apply (Hno id n Hn).
  - intros k [Hk| ->%list_elem_of_singleton]%elem_of_app; [by apply Hs|done].
  - intros j' Hj' Hbusy'. destruct (Hjs' j' Hj' Hbusy') as [Hin| ->]; [by apply Hb|done].
Qed.

(** ** Lemmas: what the steps write as queued *)

(** The queued entries of the new store were there, or satisfy [R]. *)
Definition queues (R : Notification → Prop) (s s' : Store) : Prop :=
  ∀ id m, Notifications (data s') !! id = Some m → nStatus m = StatusQueued →
    Notifications (data s) !! id = Some m ∨ R m.

Lemma Update_queues t o m v s : queues (λ x, x = m) s (Update t o m v s).1.
Proof.
  intros id x. destruct (Application.Update_cases t o m v s) as [[err ->]|(old & _ & _ & ->)]; [by left|].
  rewrite updated_lookup. case_decide; [intros [= <-]; by right|by left].
Qed.

Lemma queues_weaken (R R' : Notification → Prop) s s' :
  queues R s s' → (∀ m, nStatus m = StatusQueued → R m → R' m) → queues R' s s'.
Proof. intros Hq HR id m Hm Hst. destruct (Hq id m Hm Hst); [by left|right; by apply HR]. Qed.

Lemma move_queues st n next s :
  next ≠ StatusQueued → queues (λ _, False) s (Worker.move st n next s).1.
Proof.
  intros Hnext. unfold Worker.move. destruct (Transition _ n next) as [n' [e|]] eqn:Ht; [by intros ??; left|].
  assert (Hst : nStatus n' = next).
  { by apply Transition_cases in Ht as [(-> & ? & _)|[(_ & _ & _ & ? & ?)|(-> & _)]]. }
  pose proof (Update_queues (Worker.t_event st) (Worker.write st) n' (nVersion n) s) as Hq.
  destruct (Update _ _ _ _ _) as [s' e]. eapply queues_weaken; [exact Hq|]. naive_solver.
Qed.

Lemma begin_queues e n sh :
  queues (λ _, False) (Worker.d_store sh) (Worker.d_store (Worker.begin e n sh).1).
Proof.
  unfold Worker.begin. destruct (Worker.expired (Worker.now e) n).
  - destruct (Transition _ n StatusExpired) as [n' err] eqn:Ht. simpl.
    eapply queues_weaken; [apply Update_queues|]. intros m Hm ->.
    apply Transition_cases in Ht as [(-> & He & _)|[(-> & _ & Ha & _)|(-> & _)]]; [by rewrite Hm in He| |done].
    rewrite Hm in Ha. by vm_compute in Ha.
  - destruct (Rate.Allow _ _ _) as [lim ok]. destruct ok; cbn [negb Worker.d_store]; [|by intros ??; left].
    pose proof (move_queues (Worker.first e) n StatusProcessing (Worker.d_store sh) ltac:(done)) as Hq.
    by destruct (Worker.move _ n StatusProcessing _) as [s' [n' [err|]]].
Qed.

Lemma retry_queues st n err s :
  queues (λ m, tag m = tag n ∧ nAttempts m = nAttempts n ∧ nAttempts n < maxA) s
    (Worker.retry maxA st n err s).1.
Proof.
  unfold Worker.retry. set (m := set_attempt n (nAttempts n) (nProvider n) err).
  change (nAttempts m) with (nAttempts n). destruct (Z.leb_spec maxA (nAttempts n)).
  { eapply queues_weaken; [by apply move_queues|done]. }
  destruct (Transition _ m StatusQueued) as [m' [e|]] eqn:Ht; [by intros ??; left|].
  apply Transition_tag in Ht as [Hk Ha]. eapply queues_weaken; [apply Update_queues|].
  intros x _ ->. split_and!; done.
Qed.

Lemma finish_queues st n res e s :
  (fair → ResStatus res ≠ StatusQueued) →
  queues (λ m, fair → tag m = tag n ∧ nAttempts m = nAttempts n ∧ nAttempts n < maxA) s
    (Worker.finish maxA st n res e s).1.
Proof.
  intros Hres. destruct (decide (ResStatus res = StatusQueued)) as [Hq|Hq].
  { intros id m _ _. right. intros Hf. by apply Hres in Hf. }
  unfold Worker.finish. destruct e as [err|].
  - eapply queues_weaken; [apply (retry_queues st (set_attempt n _ _ _))|done].
  - eapply queues_weaken; [apply move_queues|done]. by case_decide.
Qed.

(** The notification is marked as processing in memory and in the file. *)
Lemma begin_started e n sh n' :
  (Worker.begin e n sh).2 = Worker.Started n' →
  ∃ b, marshal_indent (data (Worker.d_store (Worker.begin e n sh).1)) = Ok b ∧
    files (Worker.d_store (Worker.begin e n sh).1) !! path (Worker.d_store sh) = Some b ∧
    Notifications (data (Worker.d_store (Worker.begin e n sh).1)) !! nID n = Some n' ∧
    nStatus n' = StatusProcessing.
Proof.
  unfold Worker.begin. destruct (Worker.expired (Worker.now e) n).
  { by destruct (Transition _ n StatusExpired). }
  destruct (Rate.Allow _ _ _) as [lim ok]. destruct ok; cbn [negb Worker.d_store]; [|done].
  unfold Worker.move. destruct (Transition _ n StatusProcessing) as [m [err|]] eqn:Ht; [done|].
  destruct (Update _ _ m _ _) as [s' [err|]] eqn:Hu; [done|]. cbn. intros [= <-].
  assert (nStatus m = StatusProcessing ∧ nID m = nID n) as [Hst Hid].
  { by apply Transition_cases in Ht as [(-> & ? & _)|[(_ & _ & _ & ? & ?)|(-> & _)]]. }
  revert Hu. unfold Update. destruct (Notifications _ !! nID m) as [old|]; [|done].
  case_match; [done|]. intros Hp. pose proof (f_equal snd Hp) as Herr. apply (f_equal fst) in Hp.
  cbn [fst snd] in *. apply persist_ok_file in Herr as (b & Hm & Hf). exists b.
  rewrite <- Hp in *. rewrite (proj1 (persist_data _ _)). cbn [data set_data path] in *.
  split_and!; [done|done| |done]. rewrite updated_lookup. by rewrite decide_True.
Qed.

(** ** Lemmas: each step keeps the invariant *)

Lemma safe_build s s' :
  safe s → unique s' → (fair → bounded maxA s') → written (store s) (store s') → storable (data (store s')) →
  (∀ n, n ∈ live s' → Idempotency (data (store s')) !! idempotency_key n = Some (nID n)) →
  good (sent s') (jobs s') (data (store s')) →
  (∀ d, good (sent s) (jobs s) d → good (sent s') (jobs s') d) ∨
  (∃ b, marshal_indent (data (store s')) = Ok b ∧ files (store s') !! path (store s) = Some b) →
  safe s'.
Proof.
  intros Hs Hu Hb [Hp Hf] Hst Hl Hm Hd. split; try done; [rewrite Hp; apply (sf_path _ Hs)|].
  unfold disk. rewrite (sf_path _ Hs) in Hf, Hd.
  assert (Hnew : (∃ b, marshal_indent (data (store s')) = Ok b ∧
                       files (store s') !! Config.DataFile cfg = Some b) →
    ∃ d, match files (store s') !! Config.DataFile cfg with
         | Some b => marshal_indent d = Ok b ∧ storable d
         | None => d = empty_snapshot
         end ∧ good (sent s') (jobs s') d).
  { intros (b & Hb' & ->). by exists (data (store s')). }
  destruct Hd as [Hd|Hd]; [|by apply Hnew]. destruct Hf as [->|Hf]; [|by apply Hnew].
  destruct (sf_disk _ Hs) as (d & Hdisk & Hg). exists d. split; [exact Hdisk|by apply Hd].
Qed.

Lemma elem_of_live (s : System (P := P)) n :
  n ∈ live s ↔ n ∈ (Queue.contents (queue s)).*2 ∨ ∃ j, j ∈ jobs s ∧ job_n j = n.
Proof.
  unfold live. rewrite elem_of_app, (list_elem_of_fmap job_n). split; (intros [?|(j & H1 & H2)]; [by left|right]);
    by exists j.
Qed.

(** The queue's steps put a notification somewhere else. *)
Lemma enqueue_live (s : System (P := P)) i now m : m ∈ live (step maxA s (LEnqueue i now)) → m ∈ live s.
Proof.
  cbn [step]. destruct (jobs s !! i) as [[n| | |]|] eqn:Hj; try done. rewrite !elem_of_live. cbn [queue jobs].
  intros [Hm|(j & Hjin & <-)].
  - rewrite (fmap_Permutation snd _ _ (Queue.Enqueue_contents now n (queue s))) in Hm.
    destruct (_ <=? _); [by left|]. apply elem_of_cons in Hm as [->|?]; [right|by left].
    exists (JTimer n). split; [by eapply list_elem_of_lookup_2|done].
  - right. exists j. split; [by eapply list_elem_of_delete_inv|done].
Qed.

Lemma dequeue_live (s : System (P := P)) now :
  Queue.queue_ok (queue s) → ∀ m, m ∈ live (step maxA s (LDequeue now)) → m ∈ live s.
Proof.
  intros Hh m. cbn [step]. pose proof (Queue.Dequeue_deq (queue s) (proj1 Hh)) as Hdq.
  destruct (Queue.Dequeue (queue s)) as [q [n|]]; [|done]. cbn [fst snd] in Hdq.
  inversion Hdq as [|en l' Hp _ Hl' Hn]; subst. rewrite !elem_of_live. cbn [queue jobs].
  rewrite (fmap_Permutation snd _ _ Hp), fmap_cons, elem_of_cons.
  intros [Hm|(j & Hjin & <-)]; [left; by right|].
  apply elem_of_app in Hjin as [Hjin| ->%list_elem_of_singleton]; [right; by exists j|left; left].
  by destruct (Worker.early now en.2).
Qed.

(** Steps that leave the store alone and put a notification somewhere else. *)
Lemma safe_moved s s' :
  safe s → unique s' → (fair → bounded maxA s') → store s' = store s → sent s' = sent s →
  (∀ n, n ∈ live s' → n ∈ live s) → (∀ j, j ∈ jobs s' → busy j = true → j ∈ jobs s) → safe s'.
Proof.
  intros Hs Hu Hb Hst Hsent Hl Hj.
  assert (Hmono : ∀ d, good (sent s) (jobs s) d → good (sent s') (jobs s') d).
  { intros d Hd. rewrite Hsent. by eapply good_jobs. }
  apply (safe_build s); rewrite ?Hst; [done..|apply written_refl|apply (sf_storable _ Hs)| | |by left].
  - intros n Hn. by apply (sf_live _ Hs), Hl.
  - by apply Hmono, (sf_mem _ Hs).
Qed.

Lemma left_live s i j s' l :
  safe s → jobs s !! i = Some j → left_by (without i s) s' (job_n j) l →
  ∀ n, n ∈ live s' → Idempotency (data (store s')) !! idempotency_key n = Some (nID n).
Proof.
  intros Hs Hj Hl n Hn. pose proof (left_by_tags _ _ _ _ Hl) as Hone. destruct Hl as [Hq Hjobs [Hk _ _] _ _].
  rewrite Hk. apply elem_of_live in Hn.
  assert (Hin : ∀ m, m ∈ live s → Idempotency (data (store (without i s))) !! idempotency_key m = Some (nID m))
    by apply (sf_live _ Hs).
  destruct Hn as [Hn|(j' & Hj' & <-)].
  { apply Hin, elem_of_live. left. by rewrite Hq in Hn. }
  rewrite Hjobs in Hj'. cbn [jobs without] in Hj'. apply elem_of_app in Hj' as [Hj'|Hj'].
  { apply Hin, elem_of_live. right. exists j'. split; [by eapply list_elem_of_delete_inv|done]. }
  assert (Htag : tag (job_n j') = tag (job_n j)).
  { apply (list_elem_of_fmap_2 (tag ∘ job_n)) in Hj'.
    by eapply elem_of_submseteq in Hj'; [|done]; apply list_elem_of_singleton in Hj'. }
  injection Htag as -> ->. apply Hin, elem_of_live. right. exists j.
  split; [by eapply list_elem_of_lookup_2|done].
Qed.

(** Steps of the holder of a notification that write the store. *)
Lemma left_mem s i j s' l R :
  safe s → jobs s !! i = Some j → left_by (without i s) s' (job_n j) l → sent s' = sent s →
  queues R (store s) (store s') → (∀ m, R m → fair → waiting maxA (sent s) m) →
  good (sent s') (delete i (jobs s)) (data (store s')).
Proof.
  intros Hs Hj Hl Hsent Hq HR. rewrite Hsent. pose proof (lb_store _ _ _ _ Hl) as [Hk Hent _].
  apply (good_write _ _ (data (store s))).
  - eapply good_jobs; [apply (sf_mem _ Hs)|]. intros j' Hj' _. by eapply list_elem_of_delete_inv.
  - by rewrite Hk.
  - intros id m Hm. destruct (Hent id m Hm) as [?|[-> Htag%evolves_tag]]; [by left|].
    destruct (decide (nStatus m = StatusQueued)) as [Hst|Hst].
    + destruct (Hq _ m Hm Hst) as [?|Hr]; [by left|right]. injection Htag as Hkey ->.
      split_and!; [done| |].
      * rewrite Hk, Hkey. apply (sf_live _ Hs), elem_of_live. right. exists j.
        split; [by eapply list_elem_of_lookup_2|done].
      * intros _. split; [by apply HR|]. intros j' Hj' _ Heq. pose proof (un_keys _ (sf_unique _ Hs)) as Hnd.
        rewrite (keys_take s i j Hj) in Hnd. apply NoDup_cons in Hnd as [Hno _]. apply Hno.
        rewrite <- Hkey, Heq. unfold keys, live. rewrite fmap_app, elem_of_app. right.
        by do 2 apply list_elem_of_fmap_2.
    + right. injection Htag as Hkey ->. split_and!; [done| |done].
      rewrite Hk, Hkey. apply (sf_live _ Hs), elem_of_live. right. exists j.
      split; [by eapply list_elem_of_lookup_2|done].
Qed.

Lemma safe_left s i j s' l R :
  safe s → jobs s !! i = Some j → left_by (without i s) s' (job_n j) l → sent s' = sent s →
  queues R (store s) (store s') → (∀ m, R m → fair → waiting maxA (sent s) m) →
  (∀ j', j' ∈ l → busy j' = false) →
  unique s' → (fair → bounded maxA s') → storable (data (store s')) → safe s'.
Proof.
  intros Hs Hj Hl Hsent Hq HR Hbusy Hu Hb Hst.
  assert (Hjobs : ∀ j', j' ∈ jobs s' → busy j' = true → j' ∈ delete i (jobs s)).
  { intros j'. rewrite (lb_jobs _ _ _ _ Hl). intros [?|Hin]%elem_of_app; [done|].
    by rewrite Hbusy. }
  apply (safe_build s); [done..|apply (wr_file _ _ _ (lb_store _ _ _ _ Hl))|done|by eapply left_live| |].
  - eapply good_jobs; [by eapply left_mem|done].
  - left. intros d Hd. rewrite Hsent. eapply good_jobs; [done|].
    intros j' Hin Hb'. by eapply list_elem_of_delete_inv, Hjobs.
Qed.

(** What is left waits with the attempts it had, below the limit. *)
Lemma waiting_tag l n m :
  tag m = tag n → nAttempts m = nAttempts n → nAttempts n < maxA → maxA ≤ max_int64 →
  0 ≤ nAttempts n → count (idempotency_key n) l ≤ nAttempts n → waiting maxA l m.
Proof. intros Hk%tag_key Ha ????. unfold waiting. rewrite Hk, Ha. lia. Qed.

Lemma timer_idle o j : j ∈ timer (P := P) o → busy j = false.
Proof. destruct o as [[n d]|]; simpl; [by intros ->%list_elem_of_singleton|by intros ?%elem_of_nil]. Qed.

(** [Submit]: nothing, or a notification with a new key. *)
Lemma submit_cases e n (s : System (P := P)) :
  submit e n s = s ∨
  ∃ m t1 t2 o, Idempotency (data (store s)) !! idempotency_key m = None ∧ nAttempts m = nAttempts n ∧
    nStatus m = StatusQueued ∧ request_ok m ∧ nID m = nID (Application.prepare e n) ∧
    let st := run_op (store s) (OpCreate t1 t2 o m) in
    data st = created_snapshot t1 t2 m (data (store s)) ∧
    (submit e n s = with_store s st ∨ submit e n s = add_jobs (with_store s st) [JTimer m]).
Proof.
  unfold submit. pose proof (Application.Validate_header_fields n) as (_ & _ & Hid & Hatt & _ & _).
  pose proof (Validate_request_ok n) as Hok.
  destruct (Validate n) as [v [err|]]; [by left|]. cbn [fst snd] in Hid, Hatt, Hok. set (m := Application.prepare e v).
  destruct (Application.suppressed m (store s)); [by left|].
  destruct (Idempotency (data (store s)) !! idempotency_key m) as [id|] eqn:Hfree.
  { left. rewrite (Create_bound _ _ _ _ _ id) by done. cbn [andb]. by destruct s as [[]]. }
  destruct (Create_fresh (Application.t_event e) (Application.t_outbox e) (Application.write e) m (store s) Hfree)
    as [Hc Hd].
  right. exists m, (Application.t_event e), (Application.t_outbox e), (Application.write e).
  split; [done|]. split; [exact Hatt|]. split; [done|].
  split; [by destruct (Hok eq_refl)|]. split; [unfold m, Application.prepare; by rewrite Hid|].
  cbn [run_op].
  destruct (Create _ _ _ m (store s)) as [st [[saved created] err]]. cbn [fst snd] in *.
  injection Hc as -> ->. split; [done|]. destruct (_ && _); [by right|by left].
Qed.

Lemma safe_submit e n s :
  safe s → (fair → 0 ≤ nAttempts n < max_int64) → unique (submit e n s) → (fair → bounded maxA (submit e n s)) →
  storable (data (store (submit e n s))) → safe (submit e n s).
Proof.
  intros Hs Hatt Hu Hb Hst.
  destruct (submit_cases e n s) as [->|(m & t1 & t2 & o & Hfree & Hm & _ & _ & _ & Hd & Hsub)]; [done|].
  set (st := run_op (store s) (OpCreate t1 t2 o m)) in *.
  assert (Hstore : store (submit e n s) = st) by (by destruct Hsub as [-> | ->]).
  assert (Hsent : sent (submit e n s) = sent s) by (by destruct Hsub as [-> | ->]).
  assert (Hjobs : ∀ j, j ∈ jobs (submit e n s) → j ∈ jobs s ∨ j = JTimer m).
  { destruct Hsub as [-> | ->]; [by left|]. cbn [jobs add_jobs with_store].
    intros j [?| ->%list_elem_of_singleton]%elem_of_app; [by left|by right]. }
  assert (Hgrow : Idempotency (data (store s)) ⊆ Idempotency (data st)).
  { rewrite Hd. simpl. by apply insert_subseteq. }
  assert (Hself : Idempotency (data st) !! idempotency_key m = Some (nID m)).
  { rewrite Hd. simpl. apply lookup_insert_eq. }
  assert (Hmono : ∀ d, good (sent s) (jobs s) d → good (sent (submit e n s)) (jobs (submit e n s)) d).
  { intros d Hg. rewrite Hsent. eapply good_jobs; [done|]. intros j [?| ->]%Hjobs ?; done. }
  pose proof (sf_mem _ Hs) as Hg.
  apply (safe_build s); [done..| |done| | |by left]; rewrite Hstore; [apply run_op_written| |].
  - intros x Hx. assert (x ∈ live s ∨ x = m) as [Hin| ->]; [| |done].
    + apply elem_of_live in Hx. rewrite elem_of_live. destruct Hx as [Hx|(j & [Hj| ->]%Hjobs & <-)]; [|eauto|by right].
      left. left. by destruct Hsub as [Heq|Heq]; rewrite Heq in Hx.
    + eapply lookup_weaken; [by apply (sf_live _ Hs)|done].
  - rewrite Hsent. eapply good_jobs with (js := jobs s); [|by intros j [?| ->]%Hjobs ?].
    apply (good_write _ _ _ _ Hg Hgrow). intros id x. rewrite Hd, created_lookup, <- Hd.
    case_decide as Hid; [|by left]. intros [= <-]. right. split_and!; [done|by rewrite Hself, Hid|].
    intros _. split.
    + intros Hfair. specialize (Hatt Hfair). unfold waiting. rewrite Hm, count_0; [lia|]. intros Hin. apply (gd_sent _ _ _ Hg) in Hin.
      rewrite Hfree in Hin. by destruct Hin.
    + intros j Hj Hbusy Heq. destruct (gd_busy _ _ _ Hg j Hj Hbusy) as [Hk _].
      rewrite <- Heq, Hfree in Hk. by destruct Hk.
Qed.

(** The store operations of the handlers. *)
Lemma allowed_entries a (s : System (P := P)) :
  safe s → allowed s (LStore a) → (∀ t1 t2 o n, a ≠ OpCreate t1 t2 o n) →
  let d := data (store s) in
  Idempotency (data_op d a) = Idempotency d ∧
  ∀ id m, Notifications (data_op d a) !! id = Some m → Notifications d !! id = Some m ∨
    nID m = id ∧ Idempotency d !! idempotency_key m = Some id ∧ nStatus m ≠ StatusQueued.
Proof.
  intros Hs Hall Hnc. cbn zeta. pose proof (gd_entry _ _ _ (sf_mem _ Hs)) as He.
  destruct a as [t1 t2 o n|t o n v|t o key ev|o x]; [by destruct (Hnc t1 t2 o n)|..]; simpl in Hall |- *.
  - destruct Hall as (Hkey & Hst & _).
    destruct (Notifications _ !! nID n) as [old|]; [|split; [done|by left]].
    case_match; (split; [done|]); [by left|]. intros id m. rewrite updated_lookup.
    case_decide as Hid; [|by left]. intros [= <-]. right. split_and!; [done|by rewrite Hkey, Hid|].
    intros Heq. rewrite Heq in Hst. apply (bool_decide_pack _) in Hst. by vm_compute in Hst.
  - case_match; [split; [done|by left]|]. unfold received_snapshot. cbn [Notifications append_event put_receipt].
    destruct (Notifications _ !! eNotificationID ev) as [n|] eqn:Hn; [|split; [done|by left]].
    split; [done|]. intros id m. destruct (He _ _ Hn) as [Hid Hk]. cbn. rewrite lookup_insert.
    case_decide as Heq; [|by left]. intros [= <-]. right. split_and!; [done| |].
    + change (Idempotency (data (store s)) !! idempotency_key n = Some id). by rewrite Hk, <- Hid, Heq.
    + cbn. intros Heq'. rewrite Heq' in Hall. apply (bool_decide_pack _) in Hall. by vm_compute in Hall.
  - split; [done|by left].
Qed.

Lemma safe_op a s :
  safe s → allowed s (LStore a) → unique (step maxA s (LStore a)) → (fair → bounded maxA (step maxA s (LStore a))) →
  storable (data (store (step maxA s (LStore a)))) → safe (step maxA s (LStore a)).
Proof.
  intros Hs Hall. assert (Hnc : (∃ t1 t2 o n, a = OpCreate t1 t2 o n) ∨ ∀ t1 t2 o n, a ≠ OpCreate t1 t2 o n).
  { destruct a as [t1 t2 o n| | |]; [left; by exists t1, t2, o, n|by right..]. }
  destruct Hnc as [(t1 & t2 & o & n & ->)|Hnc]; [done|].
  destruct (allowed_entries a s Hs Hall Hnc) as [Hk Hent].
  assert (Hstep : step maxA s (LStore a) = with_store s (run_op (store s) a)).
  { destruct a as [t1 t2 o n| | |]; [by destruct (Hnc t1 t2 o n)|done..]. }
  rewrite Hstep. rewrite <- data_run_op in Hk, Hent. intros Hu Hb Hst.
  apply (safe_build s); [done..|apply run_op_written|done| | |by left].
  - intros n Hn. etrans; [|by apply (sf_live _ Hs)]. f_equal. exact Hk.
  - apply (good_write _ _ (data (store s))); [apply (sf_mem _ Hs)| |].
    + by rewrite <- Hk.
    + intros id m [?|(H1 & H2 & H3)]%Hent; [by left|right]. split_and!; [done| |done].
      etrans; [|exact H2]. f_equal. exact Hk.
Qed.

Lemma safe_begin i n e s :
  safe s → jobs s !! i = Some (JStart n) → let s' := begin_step e n (without i s) in
  unique s' → (fair → bounded maxA s') → storable (data (store s')) → safe s'.
Proof.
  intros Hs Hj s' Hu Hb Hst. destruct (begin_step_left e n (without i s)) as (l & Hl & Hsent).
  fold s' in Hl, Hsent. pose proof (lb_jobs _ _ _ _ Hl) as Hjobs.
  assert (Hq : queues (λ _, False) (store s) (store s')).
  { unfold s', begin_step. pose proof (begin_queues e n (shared (without i s))) as Hq.
    by destruct (Worker.begin e n (shared (without i s))). }
  assert (Hout : (∀ j, j ∈ l → busy j = false) ∨ ∃ n', l = [JChoose n'] ∧ tag n' = tag n ∧
    ∃ b, marshal_indent (data (store s')) = Ok b ∧ files (store s') !! path (store s) = Some b ∧
      Notifications (data (store s')) !! nID n = Some n' ∧ nStatus n' = StatusProcessing).
  { pose proof (begin_started e n (shared (without i s))) as Hstart.
    pose proof (begin_keys e n (shared (without i s))) as [_ Hev].
    revert Hjobs. unfold s', begin_step. destruct (Worker.begin e n (shared (without i s))) as [sh out].
    cbn [fst snd jobs] in *. intros <-%(inj (app _)).
    destruct out as [|n'|n']; [left; intros j Hin; by apply elem_of_nil in Hin| |].
    - left. by intros j ->%list_elem_of_singleton.
    - right. exists n'. split_and!; [done|by apply evolves_tag, Hev; right|by apply Hstart]. }
  destruct Hout as [Hidle|(n' & -> & Htag & b & Hm & Hf & Hn' & Hproc)].
  { eapply (safe_left s i (JStart n) s' l (λ _, False)); done. }
  apply (safe_build s); [done..|apply (wr_file _ _ _ (lb_store _ _ _ _ Hl))|done| | |right; by exists b].
  { by eapply (left_live s i (JStart n)). }
  rewrite Hsent. pose proof (left_mem s i (JStart n) s' _ (λ _, False) Hs Hj Hl Hsent Hq ltac:(done)) as Hg.
  rewrite Hsent in Hg. destruct Hg as [He Hqd Hse Hbu]. split; [done..|].
  rewrite Hjobs. intros j [Hin| ->%list_elem_of_singleton]%elem_of_app Hbusy; [by apply Hbu|].
  cbn [job_n]. destruct (He _ _ Hn') as [Hid Hk]. rewrite Hk. split; [by eexists|].
  intros id m Hm' Hkey. destruct (He _ _ Hm') as [Hid' Hk']. rewrite Hkey, Hk in Hk'. injection Hk' as <-.
  rewrite Hn' in Hm'. injection Hm' as <-. by rewrite Hproc.
Qed.

Lemma safe_choose i n e s :
  safe s → maxA ≤ max_int64 → jobs s !! i = Some (JChoose n) → let s' := choose_step maxA e n (without i s) in
  unique s' → (fair → bounded maxA s') → storable (data (store s')) → safe s'.
Proof.
  intros Hs Hmax Hj s' Hu Hb Hst. pose proof (list_elem_of_lookup_2 _ _ _ Hj) as Hin.
  destruct (choose_step_left maxA e n (without i s)) as (l & Hl & _). fold s' in Hl.
  pose proof (lb_jobs _ _ _ _ Hl) as Hjobs. cbn [jobs without] in Hjobs.
  destruct (Router.Choose (Worker.choose_clock e) (Worker.health e) (nChannel n)
    (Worker.d_router (shared s))) as [rt [p|err]] eqn:Hch.
  - assert (store s' = store s ∧ sent s' = sent s ++ [idempotency_key n] ∧
                  l = [JSending (Worker.attempt (Name p) n) p]) as (Hstore & Hsent & ->).
    { revert Hjobs. unfold s', choose_step. cbn [shared without]. rewrite Hch. cbn [jobs without].
      by intros <-%(inj (app _)). }
    assert (Hmono : ∀ d, good (sent s) (jobs s) d → good (sent s') (jobs s') d).
    { intros d Hg. rewrite Hsent. apply (good_send _ _ _ _ (JChoose n) Hg Hin eq_refl).
      rewrite Hjobs. intros j' [Hj'| ->%list_elem_of_singleton]%elem_of_app _; [left|by right].
      by eapply list_elem_of_delete_inv. }
    apply (safe_build s); [done..|apply (wr_file _ _ _ (lb_store _ _ _ _ Hl))|done| | |by left].
    { by eapply (left_live s i (JChoose n)). }
    rewrite Hstore. apply Hmono, (sf_mem _ Hs).
  - pose proof (retry_queues (Worker.second e) n err (Worker.d_store (shared s))) as Hq.
    assert (sent s' = sent s ∧ queues (λ m, tag m = tag n ∧ nAttempts m = nAttempts n ∧ nAttempts n < maxA)
      (store s) (store s') ∧ ∃ o, l = timer o) as (Hsent & Hqs & o & ->).
    { revert Hjobs. unfold s', choose_step. cbn [shared without]. rewrite Hch. cbn [jobs without].
      destruct (Worker.retry _ _ _ _ _) as [st o]. cbn [jobs]. intros <-%(inj (app _)).
      split_and!; [done|exact Hq|by exists o]. }
    eapply (safe_left s i (JChoose n) s' _ _ Hs Hj Hl Hsent Hqs); [|apply timer_idle|done..].
    intros m (Htag & Ha & Hlt) Hfair. pose proof (bd_jobs _ _ (sf_bounded _ Hs Hfair) _ Hin) as (Hr & Hc & _).
    cbn [job_n] in Hr, Hc. eapply waiting_tag; [done..|lia|done].
Qed.

Lemma safe_finish i n p e s :
  safe s → maxA ≤ max_int64 → jobs s !! i = Some (JSending n p) →
  (fair → ∀ p r, ResStatus (Worker.reply e p r).1 ≠ StatusQueued) →
  let s' := finish_step maxA e n p (without i s) in
  unique s' → (fair → bounded maxA s') → storable (data (store s')) → safe s'.
Proof.
  intros Hs Hmax Hj Hall s' Hu Hb Hst. pose proof (list_elem_of_lookup_2 _ _ _ Hj) as Hin.
  destruct (finish_step_left maxA e n p (without i s)) as (l & Hl & Hsent). fold s' in Hl, Hsent.
  pose proof (lb_jobs _ _ _ _ Hl) as Hjobs. cbn [jobs without] in Hjobs.
  assert (queues (λ m, fair → tag m = tag n ∧ nAttempts m = nAttempts n ∧ nAttempts n < maxA)
    (store s) (store s') ∧ ∃ o, l = timer o) as (Hqs & o & ->).
  { revert Hjobs. unfold s', finish_step. cbn [shared without].
    assert (Hres : fair → ResStatus (Worker.reply e p (Worker.request_of n)).1 ≠ StatusQueued) by (intros; by apply Hall).
    destruct (Worker.reply e p (Worker.request_of n)) as [res sendErr].
    pose proof (finish_queues (Worker.second e) n res sendErr (Worker.d_store (shared s)) Hres) as Hq.
    destruct (Worker.finish _ _ _ _ _ _) as [st o]. cbn [jobs]. intros <-%(inj (app _)).
    split; [exact Hq|by exists o]. }
  eapply (safe_left s i (JSending n p) s' _ _ Hs Hj Hl Hsent Hqs); [|apply timer_idle|done..].
  intros m Hm Hfair. destruct (Hm Hfair) as (Htag & Ha & Hlt).
  pose proof (bd_jobs _ _ (sf_bounded _ Hs Hfair) _ Hin) as (Hr & Hc). eapply waiting_tag; [done..|lia|done].
Qed.

Lemma safe_step s l :
  safe s → maxA ≤ max_int64 → allowed s l → storable (data (store (step maxA s l))) → safe (step maxA s l).
Proof.
  intros Hs Hmax Hall Hst. pose proof (unique_step maxA s l (sf_unique _ Hs)) as Hu.
  assert (Hb : fair → bounded maxA (step maxA s l)).
  { intros Hf. apply bounded_step; [apply (sf_unique _ Hs)|by apply (sf_bounded _ Hs)|done|]. destruct l; try done. by apply Hall. }
  destruct l as [e n|e id|a|i now|now| |i e|i e|i e].
  - by apply safe_submit.
  - cbn [step] in *. destruct (Get id (store s)) as [old|]; [|done]. apply safe_submit; done.
  - by apply safe_op.
  - cbn [step] in *. destruct (jobs s !! i) as [[n| | |]|] eqn:Hj; try done.
    apply (safe_moved s); try done.
    + intros m Hm. apply (enqueue_live s i now). cbn [step]. by rewrite Hj.
    + intros j Hjin _. by eapply list_elem_of_delete_inv.
  - pose proof (dequeue_live s now (un_queue _ (sf_unique _ Hs))) as Hl. cbn [step] in *.
    destruct (Queue.Dequeue (queue s)) as [q [n|]]; [|done]. apply (safe_moved s); try done.
    intros j. cbn [jobs]. intros [?| ->%list_elem_of_singleton]%elem_of_app; [done|].
    by destruct (Worker.early now n).
  - by apply (safe_moved s).
  - cbn [step] in *. destruct (jobs s !! i) as [[|n| |]|] eqn:Hj; try done. by apply safe_begin.
  - cbn [step] in *. destruct (jobs s !! i) as [[| |n|]|] eqn:Hj; try done. by apply safe_choose.
  - cbn [step] in *. destruct (jobs s !! i) as [[| | |n p]|] eqn:Hj; try done. by apply safe_finish.
Qed.

Context {codec_ok : JsonCodecOk} {mr_ok : MapRangeOk}.

Lemma good_keys l js d :
  good l js d → NoDup (idempotency_key <$> (map_to_list (Notifications d)).*2).
Proof.
  intros [He _ _ _]. apply (NoDup_fmap_1 (λ k, Idempotency d !! k)).
  rewrite <- !list_fmap_compose. erewrite (list_fmap_ext _ (Some ∘ fst)).
  - rewrite list_fmap_compose. apply (NoDup_fmap_2 Some), NoDup_fst_map_to_list.
  - intros i [id n] Hin. apply list_elem_of_lookup_2, elem_of_map_to_list in Hin.
    exact (proj2 (He _ _ Hin)).
Qed.

Lemma safe_boot l t clock fs s d :
  match fs !! Config.DataFile cfg with
  | None => d = empty_snapshot
  | Some b => marshal_indent d = Ok b ∧ storable d
  end →
  good l [] d → (fair → ∀ k, count k l ≤ Z.max 1 maxA) →
  Main.boot router cfg t clock fs (ReadFile (Config.DataFile cfg) fs) = Some s → safe (carry l s).
Proof.
  intros Hdisk Hg Hcount Hboot.
  destruct (Main.boot_opens router cfg t clock fs d Hdisk) as (s0 & Hb0 & Hd & Hst & Hpath & Hfiles).
  rewrite Hboot in Hb0. injection Hb0 as <-.
  apply Main.boot_some in Hboot as (st & _ & <- & Hjobs & Hsent & Hqok & k & Hk & Hq).
  pose proof (good_equiv _ _ _ _ (symmetry Hd) Hg) as Hg'.
  assert (Hin : ∀ n, n ∈ (Queue.contents (queue s)).*2 →
    nStatus n = StatusQueued ∧ ∃ id, Notifications (data (store s)) !! id = Some n).
  { intros n. rewrite Hq. intros Hn. apply (elem_of_submseteq _ k) in Hn; [|apply sublist_submseteq, sublist_take].
    rewrite Hk in Hn. apply list_elem_of_filter in Hn as [Hs Hn]. split; [done|].
    apply list_elem_of_fmap in Hn as ([id m] & -> & Hm). exists id. by apply elem_of_map_to_list. }
  assert (Hlive : live (carry l s) = (Queue.contents (queue s)).*2).
  { unfold live. cbn [queue jobs carry]. by rewrite Hjobs, app_nil_r. }
  assert (Hall : sent (carry l s) = l) by (cbn [sent carry]; by rewrite Hsent, app_nil_r).
  split; rewrite ?Hall; cbn [queue jobs carry]; rewrite ?Hjobs.
  - split; cbn [queue carry]; [done| |intros x|intros x; rewrite Hall; apply (gd_sent _ _ _ Hg')];
      unfold keys; rewrite Hlive.
    + rewrite Hq. eapply NoDup_sub; [|apply (good_keys _ _ _ Hg')].
      apply fmap_submseteq. etrans; [apply sublist_submseteq, sublist_take|]. rewrite Hk.
      apply sublist_submseteq, sublist_filter.
    + intros (n & -> & Hn)%list_elem_of_fmap. destruct (Hin n Hn) as (_ & id & Hid).
      apply (gd_entry _ _ _ Hg') in Hid as [_ Hid]. by exists id.
  - intros Hfair. split; rewrite ?Hall; cbn [queue jobs carry]; rewrite ?Hjobs; [by apply Hcount| |intros j Hj; by apply elem_of_nil in Hj].
    intros n Hn. destruct (Hin n Hn) as (Hs & id & Hid). by eapply (gd_queued _ _ _ Hg').
  - rewrite Hlive. intros n Hn. destruct (Hin n Hn) as (_ & id & Hid).
    by destruct (gd_entry _ _ _ Hg' _ _ Hid) as [-> Hkey].
  - done.
  - done.
  - done.
  - exists d. split; [|done]. unfold disk. change (files (store (carry l s))) with (files (store s)). by rewrite Hfiles.
Qed.

Lemma life_safe s : maxA ≤ max_int64 → life s → safe s.
Proof.
  intros Hmax. induction 1 as [t clock fs s Hnone Hboot|s l Hl IH Hall Hst|s t clock fs s' Hl IH Hfs Hboot].
  - replace s with (carry [] s) by (by destruct s). eapply (safe_boot [] _ _ _ _ empty_snapshot); [|..|done].
    + by rewrite Hnone.
    + split; simpl; intros *; rewrite ?lookup_empty; try done; by intros ?%elem_of_nil.
    + intros _ k. unfold count. simpl. lia.
  - by apply safe_step.
  - destruct (sf_disk _ IH) as (d & Hd & Hg). eapply (safe_boot _ _ _ _ _ d); [| | |done].
    + by rewrite Hfs.
    + eapply good_jobs; [done|]. intros j Hj. by apply elem_of_nil in Hj.
    + intros Hf. apply (bd_all _ _ (sf_bounded _ IH Hf)).
Qed.

Lemma life_run s ls :
  (∀ d, storable d) → Forall (λ l, ∀ s, allowed s l) ls → life s → life (run maxA s ls).
Proof.
  intros Hst. revert s. induction ls as [|l ls IH]; intros s Hls Hs; simpl; [done|].
  inversion_clear Hls. apply IH; [done|]. by apply life_step.
Qed.

(** ** Lemmas: keys stay bound along a run *)

Lemma step_keys s l : Idempotency (data (store s)) ⊆ Idempotency (data (store (step maxA s l))).
Proof.
  assert (Hsub : ∀ e n s, Idempotency (data (store s)) ⊆ Idempotency (data (store (submit (P := P) e n s)))).
  { intros e n s0. destruct (submit_cases e n s0) as [->|(m & t1 & t2 & o & _ & _ & _ & _ & _ & _ & [-> | ->])]; [done|..];
      cbn [store with_store add_jobs shared Worker.d_store Worker.on_store]; rewrite data_run_op;
      apply grows_keys, grows_data_op. }
  assert (Hleft : ∀ i s' n l, left_by (without i s) s' n l →
    Idempotency (data (store s)) ⊆ Idempotency (data (store s'))).
  { intros i s' n l0 [_ _ [Hk _ _] _ _]. by rewrite Hk. }
  destruct l as [e n|e id|a|i now|now| |i e|i e|i e]; cbn [step].
  - apply Hsub.
  - by destruct (Get id (store s)).
  - assert (Hop : Idempotency (data (store s)) ⊆ Idempotency (data (run_op (store s) a))).
    { rewrite data_run_op. apply grows_keys, grows_data_op. }
    by destruct a.
  - by destruct (jobs s !! i) as [[]|].
  - by destruct (Queue.Dequeue (queue s)) as [q [n|]].
  - done.
  - destruct (jobs s !! i) as [[|n| |]|]; try done. by destruct (begin_step_left e n (without i s)) as (? & ?%Hleft & _).
  - destruct (jobs s !! i) as [[| |n|]|]; try done.
    by destruct (choose_step_left maxA e n (without i s)) as (? & ?%Hleft & _).
  - destruct (jobs s !! i) as [[| | |n p]|]; try done.
    by destruct (finish_step_left maxA e n p (without i s)) as (? & ?%Hleft & _).
Qed.

Lemma run_keys s ls : Idempotency (data (store s)) ⊆ Idempotency (data (store (run maxA s ls))).
Proof. revert s. induction ls as [|l ls IH]; intros s; [done|]. etrans; [apply step_keys|apply IH]. Qed.

(** ** What the file holds *)

(** What the file system answers to the write of a step. *)
Definition op_io (a : op) : io :=
  match a with OpCreate _ _ o _ | OpUpdate _ o _ _ | OpReceipt _ o _ _ | OpSuppress o _ => o end.

Definition label_io (l : label (P := P)) : io :=
  match l with
  | LSubmit e _ | LReplay e _ => Application.write e
  | LStore a => op_io a
  | LBegin _ e => Worker.write (Worker.first e)
  | LChoose _ e | LFinish _ e => Worker.write (Worker.second e)
  | _ => io_fine
  end.

(** The file system does all that is asked, and the data have a text. *)
Definition succeeds (o : io) (d : snapshot) : Prop :=
  io_mkdir o = None ∧ io_write o = None ∧ io_rename o = None ∧ ∃ b, marshal_indent d = Ok b.

(** A life of the platform, and the data that it last wrote with success: a step
    that leaves the store as it is writes nothing, one whose write fails leaves the
    data written before. *)
Inductive saved : System (P := P) → snapshot → Prop :=
| saved_first t clock fs s :
    fs !! Config.DataFile cfg = None →
    Main.boot router cfg t clock fs (ReadFile (Config.DataFile cfg) fs) = Some s → saved s empty_snapshot
| saved_idle s d l :
    saved s d → allowed s l → storable (data (store (step maxA s l))) →
    store (step maxA s l) = store s → saved (step maxA s l) d
| saved_write s d l :
    saved s d → allowed s l → storable (data (store (step maxA s l))) →
    store (step maxA s l) ≠ store s → succeeds (label_io l) (data (store (step maxA s l))) →
    saved (step maxA s l) (data (store (step maxA s l)))
| saved_failure s d l :
    saved s d → allowed s l → storable (data (store (step maxA s l))) →
    ¬ succeeds (label_io l) (data (store (step maxA s l))) → saved (step maxA s l) d
| saved_restart s d t clock fs s' :
    saved s d → fs !! Config.DataFile cfg = files (store s) !! Config.DataFile cfg →
    Main.boot router cfg t clock fs (ReadFile (Config.DataFile cfg) fs) = Some s' →
    saved (carry (sent s) s') d.

Lemma saved_life s d : saved s d → life s.
Proof. by induction 1; [eapply life_first|apply life_step..|eapply life_restart]. Qed.

(** Every life has such data. *)
Lemma life_saved s : life s → ¬ ¬ ∃ d, saved s d.
Proof.
  induction 1 as [t clock fs s Hn Hb|s l Hl IH Hall Hst|s t clock fs s' Hl IH Hfs Hb].
  - intros Hno. apply Hno. exists empty_snapshot. by eapply saved_first.
  - intros Hno. apply IH. intros [d Hd].
    assert (Hsame : ¬ store (step maxA s l) = store s) by (intros Heq; apply Hno; exists d; by apply saved_idle).
    assert (Hfail : ¬ ¬ succeeds (label_io l) (data (store (step maxA s l)))).
    { intros Hf. apply Hno. exists d. by apply saved_failure. }
    apply Hfail. intros Hs. apply Hno. eexists. by eapply saved_write.
  - intros Hno. apply IH. intros [d Hd]. apply Hno. exists d. by eapply saved_restart.
Qed.

(** A step writes nothing, or it is one [persistLocked]. *)
Definition persisted (o : io) (s s' : Store) : Prop :=
  s' = s ∨ ∃ d, s' = (persistLocked o (set_data s d)).1.

Lemma run_op_persisted s a : persisted (op_io a) s (run_op s a).
Proof.
  destruct a as [t1 t2 o n|t o n v|t o key ev|o x]; simpl.
  - unfold Create. case_match; [by left|]. right. exists (created_snapshot t1 t2 n (data s)). by destruct (persistLocked _ _).
  - unfold Update. repeat case_match; first [by left|right; by eexists].
  - unfold RecordReceipt. case_match; [by left|right; by eexists].
  - right. by eexists.
Qed.

Lemma move_persisted st n next s : persisted (Worker.write st) s (Worker.move st n next s).1.
Proof.
  unfold Worker.move. destruct (Transition _ n next) as [n' [e|]]; [by left|].
  pose proof (run_op_persisted s (OpUpdate (Worker.t_event st) (Worker.write st) n' (nVersion n))) as Hu.
  cbn [run_op op_io] in Hu. by destruct (Update _ _ _ _ _).
Qed.

Lemma retry_persisted st n err s : persisted (Worker.write st) s (Worker.retry maxA st n err s).1.
Proof.
  unfold Worker.retry. case_match; [apply move_persisted|]. destruct (Transition _ _ _) as [n' [e|]]; [by left|].
  apply (run_op_persisted s (OpUpdate (Worker.t_event st) (Worker.write st) n' (nVersion n))).
Qed.

Lemma begin_persisted e n sh :
  persisted (Worker.write (Worker.first e)) (Worker.d_store sh) (Worker.d_store (Worker.begin e n sh).1).
Proof.
  unfold Worker.begin. destruct (Worker.expired _ _).
  - destruct (Transition _ _ _) as [n' err].
    apply (run_op_persisted _ (OpUpdate (Worker.t_event (Worker.first e)) (Worker.write (Worker.first e)) n' (nVersion n))).
  - destruct (Rate.Allow _ _ _) as [lim ok]. destruct ok; cbn [negb Worker.d_store]; [|by left].
    pose proof (move_persisted (Worker.first e) n StatusProcessing (Worker.d_store sh)) as Hm.
    by destruct (Worker.move _ _ _ _) as [s' [n' [err|]]].
Qed.

Lemma submit_persisted e n (s : System (P := P)) : persisted (Application.write e) (store s) (store (submit e n s)).
Proof.
  unfold submit. destruct (Validate n) as [v [err|]]; [by left|]. case_match; [by left|].
  pose proof (run_op_persisted (store s)
    (OpCreate (Application.t_event e) (Application.t_outbox e) (Application.write e) (Application.prepare e v))) as Hc.
  cbn [run_op op_io] in Hc. destruct (Create _ _ _ _ _) as [st [[x created] err]]. by destruct (_ && _ && _).
Qed.

Lemma step_persisted (s : System (P := P)) l : persisted (label_io l) (store s) (store (step maxA s l)).
Proof.
  destruct l as [e n|e id|a|i now|now| |i e|i e|i e]; cbn [step label_io].
  - apply submit_persisted.
  - destruct (Get id (store s)); [apply submit_persisted|by left].
  - pose proof (run_op_persisted (store s) a). destruct a; [by left|done..].
  - left. by destruct (jobs s !! i) as [[]|].
  - left. by destruct (Queue.Dequeue (queue s)) as [q [n|]].
  - by left.
  - destruct (jobs s !! i) as [[|n| |]|]; try by left. unfold begin_step.
    pose proof (begin_persisted e n (shared (without i s))). by destruct (Worker.begin _ _ _).
  - destruct (jobs s !! i) as [[| |n|]|]; try by left. unfold choose_step.
    destruct (Router.Choose _ _ _ _) as [rt [p|err]]; [by left|].
    pose proof (retry_persisted (Worker.second e) n err (store s)). by destruct (Worker.retry _ _ _ _ _).
  - destruct (jobs s !! i) as [[| | |n p]|]; try by left. unfold finish_step.
    destruct (Worker.reply e p _) as [res [err|]]; unfold Worker.finish.
    + pose proof (retry_persisted (Worker.second e) (set_attempt n (nAttempts n) (nProvider n) (ErrorClass res)) err (store s)).
      by destruct (Worker.retry _ _ _ _ _).
    + set (next := if decide _ then _ else _). pose proof (move_persisted (Worker.second e) n next (store s)).
      by destruct (Worker.move _ _ _ _) as [? [? ?]].
Qed.

(** The file of a write that succeeds, and of one that fails. *)
Lemma persist_file o s :
  (succeeds o (data s) → ∃ b, marshal_indent (data s) = Ok b ∧ files (persistLocked o s).1 !! path s = Some b) ∧
  (¬ succeeds o (data s) → files (persistLocked o s).1 !! path s = files s !! path s).
Proof.
  unfold succeeds. pose proof (path_ne_tmp (path s)). unfold persistLocked.
  destruct (io_mkdir o); [by split; [intros (? & _)|]|].
  destruct (marshal_indent (data s)) as [b|]; [|by split; [intros (_ & _ & _ & ? & ?)|]].
  destruct (io_write o) as [[err part]|]; [split; [by intros (_ & ? & _)|intros _; by apply lookup_insert_ne]|].
  destruct (io_rename o); [split; [by intros (_ & _ & ? & _)|intros _; by apply lookup_insert_ne]|].
  split; [intros _; exists b; split; [done|apply lookup_insert_eq]|].
  intros Hno. exfalso. apply Hno. by eauto.
Qed.

Lemma disk_same s s' d :
  disk s d → files (store s') !! Config.DataFile cfg = files (store s) !! Config.DataFile cfg → disk s' d.
Proof. unfold disk. by intros ? ->. Qed.

Lemma boot_files t clock fs r (s : System (P := P)) : Main.boot router cfg t clock fs r = Some s → 
  r = ReadFile (Config.DataFile cfg) fs → files (store s) = fs.
Proof.
  intros (st & Ho & <- & _)%Main.boot_some ->. revert Ho. unfold Open, ReadFile.
  destruct (fs !! _) as [b|]; [|by intros [= <-]]. case_match; [|done]. by destruct (unmarshal_into _ _); [intros [= <-]|].
Qed.

Lemma saved_disk s d : maxA ≤ max_int64 → saved s d → disk s d.
Proof.
  intros Hmax Hs.
  induction Hs as [t clock fs s Hn Hb|s d l Hs IH Hall Hst Heq|s d l Hs IH Hall Hst Hne Hok|s d l Hs IH Hall Hst Hno
    |s d t clock fs s' Hs IH Hfs Hb].
  - unfold disk. by rewrite (boot_files _ _ _ _ _ Hb eq_refl), Hn.
  - eapply disk_same; [exact IH|by rewrite Heq].
  - pose proof (sf_path _ (life_safe _ Hmax (saved_life _ _ Hs))) as Hp.
    destruct (step_persisted s l) as [?|[d' Hd']]; [done|].
    destruct (persist_file (label_io l) (set_data (store s) d')) as [Hf _]. rewrite <- Hd' in Hf.
    rewrite Hd', (proj1 (persist_data _ _)) in Hok.
    destruct (Hf Hok) as (b & Hm & Hb). cbn [path set_data] in Hb. rewrite Hp in Hb. unfold disk. rewrite Hb.
    split; [|done]. by rewrite Hd', (proj1 (persist_data _ _)).
  - pose proof (sf_path _ (life_safe _ Hmax (saved_life _ _ Hs))) as Hp.
    eapply disk_same; [exact IH|]. destruct (step_persisted s l) as [->|[d' Hd']]; [done|].
    destruct (persist_file (label_io l) (set_data (store s) d')) as [_ Hf]. rewrite <- Hd' in Hf.
    rewrite Hd', (proj1 (persist_data _ _)) in Hno. specialize (Hf Hno). cbn [path files set_data] in Hf. by rewrite Hp in Hf.
  - eapply disk_same; [exact IH|]. rewrite <- Hfs. change (store (carry (sent s) s')) with (store s').
    by rewrite (boot_files _ _ _ _ _ Hb eq_refl).
Qed.

(** ** Properties *)

(** Over any number of crashes and restarts, under every interleaving
    and whatever the file system, the clocks and the providers do, a notification
    is never held twice by the queue and the goroutines; and it is handed to a
    provider at most [MaxAttempts] times in all (once if that is not positive), if
    no submitted attempt counter is negative or the largest integer and no provider
    answers with the status queued.  A crash during a provider call does not lead
    to a second call. *)
Theorem sends_bounded_forever (s : System (P := P)) :
  maxA ≤ max_int64 → life s → (fair → ∀ k, count k (sent s) ≤ Z.max 1 maxA) ∧ NoDup (keys s).
Proof.
  intros Hmax Hs%life_safe; [|done]. split; [intros Hf; apply (bd_all _ _ (sf_bounded _ Hs Hf))|].
  apply (un_keys _ (sf_unique _ Hs)).
Qed.

(** C3: the program can always be restarted on what a crash left in its file, and
    it finds exactly the data of the last write that succeeded ([saved]: the data
    after the last step that changed the store while the file system and the encoding
    did all that was asked; those after a failed write, or a crash during it, are
    lost), over any number of restarts.  No two of the notifications it then holds
    have the same key; its queue holds only what is stored as queued, and all of it
    if it fits the capacity; nothing is in delivery.  What is stored is assumed to be
    what JSON represents without loss ([storable]). *)
Theorem restart_recovers (s : System (P := P)) (d : snapshot) (t : time) (clock : nat → time)
    (fs : gmap string Bytes) :
  maxA ≤ max_int64 → saved s d →
  fs !! Config.DataFile cfg = files (store s) !! Config.DataFile cfg →
  ∃ s', Main.boot router cfg t clock fs (ReadFile (Config.DataFile cfg) fs) = Some s' ∧
    data (store s') ≡ d ∧ NoDup (keys s') ∧ jobs s' = [] ∧
    let queued := base.filter (λ n, nStatus n = StatusQueued) (map_to_list (Notifications (data (store s')))).*2 in
    (Queue.contents (queue s')).*2 ⊆+ queued ∧
    (Z.of_nat (length queued) ≤ Config.QueueCapacity cfg → (Queue.contents (queue s')).*2 ≡ₚ queued).
Proof.
  intros Hmax Hs Hfs. pose proof (saved_disk _ _ Hmax Hs) as Hd. unfold disk in Hd. rewrite <- Hfs in Hd.
  destruct (Main.boot_opens router cfg t clock fs d Hd) as (s' & Hb & Hdata & _). exists s'.
  pose proof (life_restart _ t clock fs s' (saved_life _ _ Hs) Hfs Hb) as Hs'%life_safe; [|done].
  pose proof (un_keys _ (sf_unique _ Hs')) as Hnd.
  apply Main.boot_some in Hb as Hb'. destruct Hb' as (st & _ & <- & Hj & _ & _ & k & Hk & Hq).
  split_and!; [done..|]. cbn zeta. split.
  - rewrite Hq, <- Hk. apply sublist_submseteq, sublist_take.
  - intros Hcap. rewrite Hq, take_ge, Hk; [done|]. rewrite Hk. lia.
Qed.
End lifetime.

(** ** Witnesses *)

#[local] Existing Instance memory_codec.
#[local] Instance ascii_only : Unicode := {| to_lower_table := λ r, r |}.
#[local] Instance amd64 : Arch := {| float_overflow := min_int64 |}.
#[local] Existing Instance map_to_list_range.
#[local] Existing Instance memory_codec_ok.
#[local] Existing Instance map_to_list_range_ok.

Definition first_boot : System (P := Mock) :=
  default start (Main.boot Main.local_router Config.defaults 0 (λ _, 1) ∅
    (ReadFile (Config.DataFile Config.defaults) ∅)).

(** A crash while the first notification is at the provider, the second queued. *)
Definition until_crash : list (label (P := Mock)) := [
  LSubmit Application.env0 sample_email; LEnqueue 0 10; LDequeue 11; LBegin 0 wenv; LChoose 0 wenv;
  LSubmit Application.env1 (set_key sample_email "invoice-2"); LEnqueue 1 12].

Definition crashed : System (P := Mock) := run 5 first_boot until_crash.

Lemma crashed_life fair : life Config.defaults Main.local_router fair crashed.
Proof.
  apply (life_run Config.defaults Main.local_router fair); [done| |].
  - repeat constructor; vm_compute; by intros.
  - eapply (life_first _ _ _ 0 (λ _, 1) ∅); [done|reflexivity].
Qed.

Definition rebooted : option (System (P := Mock)) :=
  Main.boot Main.local_router Config.defaults 20 (λ _, 21) (files (store crashed))
    (ReadFile (Config.DataFile Config.defaults) (files (store crashed))).

(** The second notification is recovered and sent, the first is not sent again. *)
Example restart_ex :
  (λ s, nIdempotencyKey <$> (Queue.contents (queue s)).*2) <$> rebooted = Some ["invoice-2"] ∧
  sent crashed = ["acme:invoice-1"].
Proof. by vm_compute. Qed.

Lemma sends_bounded_forever_witness :
  (True → ∀ k, count k (sent crashed) ≤ Z.max 1 5) ∧ NoDup (keys crashed).
Proof.
  refine (sends_bounded_forever Config.defaults Main.local_router True crashed _ (crashed_life True)).
  vm_compute. discriminate.
Defined.

(** The marking of the second notification as processing fails on the file: the
    data written before, with the notification queued, are found again. *)
Definition disk_full : io := {| io_mkdir := None; io_write := Some ("no space left on device", empty_snapshot); io_rename := None |}.

Definition before_failure : System (P := Mock) := step 5 crashed (LDequeue 13).

Definition failing : Worker.Env (P := Mock) := {|
  Worker.now := 14; Worker.t_allow := 14;
  Worker.first := {| Worker.t_transition := 14; Worker.t_event := 14; Worker.write := disk_full |};
  Worker.second := {| Worker.t_transition := 15; Worker.t_event := 15; Worker.write := io_fine |};
  Worker.choose_clock := Worker.choose_clock wenv; Worker.health := Worker.health wenv;
  Worker.record_clock := Worker.record_clock wenv; Worker.reply := Worker.reply wenv; Worker.others := [] |}.

Definition half_written : System (P := Mock) := step 5 before_failure (LBegin 1 failing).

Abbreviation saved' := (saved (P := Mock) Config.defaults Main.local_router True).

Definition recorded (s : System (P := Mock)) : nat := length (concat (map_to_list (Events (data (store s)))).*2).

Lemma saved_writes s d l :
  saved' s d → (∀ s, allowed True s l) → label_io l = io_fine → recorded (step 5 s l) ≠ recorded s →
  saved' (step 5 s l) (data (store (step 5 s l))).
Proof.
  intros Hs Ha Hio Hne. eapply (saved_write _ _ _ s d l Hs); [apply Ha|done| |].
  - intros Heq. apply Hne. exact (f_equal (λ st, length (concat (map_to_list (Events (data st))).*2)) Heq).
  - rewrite Hio. split_and!; [done..|]. by eexists.
Qed.

Lemma saved_idles s d l :
  saved' s d → (∀ s, allowed True s l) → store (step 5 s l) = store s → saved' (step 5 s l) d.
Proof. intros Hs Ha Heq. by eapply (saved_idle _ _ _ s d l Hs). Qed.

Lemma crashed_saved : saved' crashed (data (store crashed)).
Proof.
  set (s1 := step 5 first_boot (LSubmit Application.env0 sample_email)).
  set (s4 := run 5 s1 [LEnqueue 0 10; LDequeue 11; LBegin 0 wenv]).
  set (s5 := step 5 s4 (LChoose 0 wenv)).
  set (s6 := step 5 s5 (LSubmit Application.env1 (set_key sample_email "invoice-2"))).
  assert (H0 : saved' first_boot empty_snapshot) by (eapply (saved_first _ _ _ 0 (λ _, 1) ∅); [done|reflexivity]).
  assert (H1 : saved' s1 (data (store s1))).
  { eapply saved_writes; [exact H0|by vm_compute|done|by vm_compute]. }
  assert (H4 : saved' s4 (data (store s4))).
  { eapply saved_writes; [|by intros|done|by vm_compute]. do 2 (eapply saved_idles; [|intros; exact I|vm_compute; reflexivity]). exact H1. }
  assert (H5 : saved' s5 (data (store s4))).
  { eapply saved_idles; [exact H4|intros; exact I|vm_compute; reflexivity]. }
  assert (H6 : saved' s6 (data (store s6))).
  { eapply saved_writes; [exact H5|by vm_compute|done|by vm_compute]. }
  assert (Hc : crashed = step 5 s6 (LEnqueue 1 12)) by (vm_compute; reflexivity).
  assert (Hd : data (store crashed) = data (store s6)) by (vm_compute; reflexivity). rewrite Hd, Hc.
  eapply saved_idles; [exact H6|intros; exact I|vm_compute; reflexivity].
Qed.

Lemma half_written_saved : saved' half_written (data (store crashed)).
Proof.
  assert (Hidle : store (step 5 crashed (LDequeue 13)) = store crashed) by (vm_compute; reflexivity).
  pose proof (saved_idles crashed _ (LDequeue 13) crashed_saved (λ _, I) Hidle) as Hb.
  refine (saved_failure Config.defaults Main.local_router True (step 5 crashed (LDequeue 13)) _ (LBegin 1 failing) Hb I I _).
  intros (_ & Hno & _). discriminate Hno.
Qed.

(** In memory the failed step has marked the notification. *)
Example half_written_ex :
  nStatus <$> Notifications (data (store half_written)) !! "ntf_1415" = Some StatusProcessing ∧
  nStatus <$> Notifications (data (store crashed)) !! "ntf_1415" = Some StatusQueued.
Proof. by vm_compute. Qed.

Lemma restart_recovers_witness :
  ∃ s', Main.boot Main.local_router Config.defaults 20 (λ _, 21) (files (store half_written))
      (ReadFile (Config.DataFile Config.defaults) (files (store half_written))) = Some s' ∧
    data (store s') ≡ data (store crashed) ∧ NoDup (keys s') ∧ jobs s' = [] ∧
    let queued := base.filter (λ n, nStatus n = StatusQueued) (map_to_list (Notifications (data (store s')))).*2 in
    (Queue.contents (queue s')).*2 ⊆+ queued ∧
    (Z.of_nat (length queued) ≤ 10000 → (Queue.contents (queue s')).*2 ≡ₚ queued).
Proof.
  refine (restart_recovers Config.defaults Main.local_router True half_written (data (store crashed)) 20 (λ _, 21)
    (files (store half_written)) _ half_written_saved eq_refl).
  vm_compute. discriminate.
Defined.

End Lifetime.
