(* ===== verification/Settling.v ===== *)
(** * What is held gets settled

    [System] without interference: no new requests, writes succeed, the queue has
    room.  A step then brings a notification closer to its end, or it is a setback:
    the notification is not due, the bucket refuses, there is no provider.  The
    measure counts, for each notification, the steps of the deliveries it can still
    get; a setback adds a few. *)

From S2P Require Export Lifetime.
Local Open Scope Z_scope.

Module Settling.
Import System.

Section settling.
Context {codec : JsonCodec} {uni : Unicode} {arch : Arch} {P : Type} {prov : Provider P} {mr : MapRange}.

(** ** Specification *)

(** A notification in the queue, or in the hands of a goroutine or timer. *)
Inductive place :=
| InQueue (n : Notification)
| At (j : job (P := P)).

Definition place_n (x : place) : Notification := match x with InQueue n => n | At j => job_n j end.

Definition places (s : System (P := P)) : list place :=
  (InQueue <$> (Queue.contents (queue s)).*2) ++ (At <$> jobs s).








(** The holder of a notification has the stored version of it, in the status of its
    point of the delivery. *)
Definition in_step (d : snapshot) (x : place) : Prop :=
  let n := place_n x in
  (∃ m, Notifications d !! nID n = Some m ∧ nVersion m = nVersion n) ∧
  match x with
  | At (JSending _ _) => nStatus n = StatusProcessing ∧ 0 ≤ nAttempts n ≤ max_int64
  | At (JChoose _) => nStatus n = StatusProcessing ∧ 0 ≤ nAttempts n < max_int64
  | _ => nStatus n = StatusQueued ∧ 0 ≤ nAttempts n < max_int64
  end.

Record tracked (s : System (P := P)) : Prop := {
  tr_queue : Queue.queue_ok (queue s);
  tr_ids : NoDup ((nID ∘ place_n) <$> places s);
  tr_held : ∀ x, x ∈ places s → in_step (data (store s)) x;
}.


(** ** Lemmas: only the entry of the holder is written *)




(** ** Lemmas: one step *)










Context (Hcodec : Worker.codec_total).






(** ** Lemmas: setbacks *)





(** ** Lemmas: what a step keeps *)









(** ** Lemmas: nothing is stuck *)




(** ** Lemmas: where the hypothesis comes from *)


(** A submission under an unused id keeps everything in step. *)
Lemma submit_tracked e n (s : System (P := P)) :
  tracked s → 0 ≤ nAttempts n < max_int64 →
  Notifications (data (store s)) !! nID (Application.prepare e n) = None → tracked (submit e n s).
Proof.
  intros Ht Ha Hfree. destruct (Lifetime.submit_cases e n s) as
    [->|(m & t1 & t2 & o & _ & Hm & Hst & _ & Hid & Hd & Hsub)]; [done|]. rewrite <- Hid in Hfree.
  set (st := run_op (store s) (OpCreate t1 t2 o m)) in *.
  assert (Hold : ∀ x, x ∈ places s → nID (place_n x) ≠ nID m ∧ in_step (data st) x).
  { intros x Hx. destruct (tr_held _ Ht x Hx) as [(y & Hy & Hv) Hrest].
    assert (Hne : nID (place_n x) ≠ nID m) by (intros Heq; rewrite Heq in Hy; congruence).
    split; [done|]. split; [|done]. exists y. split; [|done]. rewrite Hd, created_lookup, decide_False by congruence.
    done. }
  destruct Ht as [Hq Hids _]. destruct Hsub as [-> | ->].
  - split; [done|done|]. intros x Hx. by apply Hold.
  - assert (Hp : places (add_jobs (with_store s st) [JTimer m]) = places s ++ [At (JTimer m)]).
    { unfold places. cbn [queue jobs add_jobs with_store]. by rewrite fmap_app, (assoc_L (++)). }
    split; [done|rewrite Hp|rewrite Hp].
    + rewrite fmap_app. apply NoDup_app. split_and!; [done| |apply NoDup_singleton].
      intros id (x & -> & Hx)%list_elem_of_fmap Hin. apply list_elem_of_singleton in Hin.
      by apply (proj1 (Hold x Hx)).
    + intros x [Hx| ->%list_elem_of_singleton]%elem_of_app; [by apply Hold|].
      split; [|split; [done|cbn [place_n job_n]; lia]]. exists m. split; [|done].
      change (data (store (add_jobs (with_store s st) [JTimer m]))) with (data st).
      rewrite Hd, created_lookup. by rewrite decide_True.
Qed.

(** ** Properties *)

End settling.

(** ** Witness: the queue of a restarted program *)

#[local] Existing Instance memory_codec.
#[local] Existing Instance System.ascii_only.
#[local] Existing Instance System.amd64.
#[local] Existing Instance map_to_list_range.
#[local] Existing Instance memory_codec_ok.
#[local] Existing Instance map_to_list_range_ok.

Definition restarted : System (P := Mock) := default start Lifetime.rebooted.

(** The bucket refuses: by the clock of this call it was last asked in the future. *)
Definition refusing : Worker.Env (P := Mock) := {|
  Worker.now := 22; Worker.t_allow := -2000000000; Worker.first := Worker.first wenv; Worker.second := Worker.second wenv;
  Worker.choose_clock := Worker.choose_clock wenv; Worker.health := Worker.health wenv;
  Worker.record_clock := Worker.record_clock wenv; Worker.reply := Worker.reply wenv; Worker.others := [] |}.


Definition dequeued : System (P := Mock) := step 5 restarted (LDequeue 22).
Definition refused : System (P := Mock) := step 5 dequeued (LBegin 0 refusing).
Definition requeued : System (P := Mock) := step 5 refused (LEnqueue 0 23).
Definition dequeued2 : System (P := Mock) := step 5 requeued (LDequeue 24).
Definition begun : System (P := Mock) := step 5 dequeued2 (LBegin 0 wenv).
Definition chosen : System (P := Mock) := step 5 begun (LChoose 0 wenv).
Definition finished : System (P := Mock) := step 5 chosen (LFinish 0 wenv).

Definition first_held (s : System (P := Mock)) : Notification := default zero_notification (head (live s)).

Example delivery_ex :
  live finished = [] ∧ sent finished = ["acme:invoice-2"] ∧
  (nStatus <$> Notifications (data (store finished)) !! nID (first_held restarted)) = Some StatusAccepted.
Proof. by vm_compute. Qed.











End Settling.
