(* ===== verification/WellFormed.v ===== *)
(** * Everything stored or held is well formed

    The type discipline of the running program, over crashes and restarts: what
    [Validate] established of a request stays true of the notification wherever it
    is, statuses are the ones the package declares, and a provider is only handed
    notifications of its channel.  Here is also why the handlers of the API respect
    what [Lifetime.allowed] asks of callers. *)

From S2P Require Export Lifetime.
Local Open Scope Z_scope.

(** ** Routers keep their candidates under their channel *)

Module Filed.
Section filed.
Context {P : Type} {prov : Provider P} {mr : MapRange}.
Import Router.

Definition filed_map (m : gmap Channel (list candidate)) : Prop :=
  ∀ ch l c, m !! ch = Some l → c ∈ l → ChannelOf (P := P) (cp c) = ch.

Definition filed (r : Router) : Prop := filed_map (providers r).

Lemma filed_insert m ch l :
  filed_map m → (∀ c, c ∈ l → ChannelOf (cp c) = ch) → filed_map (<[ch := l]> m).
Proof.
  intros Hm Hl ch' l' c. rewrite lookup_insert. case_decide as Heq; [|by apply Hm].
  intros [= <-]. subst. apply Hl.
Qed.

Lemma filed_New : filed New.
Proof. intros ch l c Hl. cbn in Hl. by rewrite lookup_empty in Hl. Qed.

Lemma filed_candidates r ch c : filed r → c ∈ candidates r ch → ChannelOf (cp c) = ch.
Proof.
  intros Hr. unfold candidates. destruct (providers r !! ch) as [l|] eqn:Hl; [by apply (Hr ch l)|].
  by intros ?%elem_of_nil.
Qed.

Lemma filed_Add p r : filed r → filed (Add p r).
Proof.
  intros Hr. apply filed_insert; [done|]. intros c [Hc| ->%list_elem_of_singleton]%elem_of_app; [|done].
  by apply (filed_candidates r).
Qed.

(** [Choose] leaves the providers as they are, and returns one of them. *)
Lemma filed_Choose clock answers ch r :
  filed r → filed (Choose clock answers ch r).1 ∧
    ∀ p, (Choose clock answers ch r).2 = Ok p → ChannelOf p = ch.
Proof.
  intros Hr. pose proof (Choose_candidates clock answers ch r) as Hc. split.
  - intros ch' l c Hl Hin. apply list_elem_of_lookup in Hin as [j Hj].
    destruct (Hc ch' j c) as (c0 & Hc0 & Hp); [unfold candidates; by rewrite Hl|].
    apply list_elem_of_lookup_2, (filed_candidates _ _ _ Hr) in Hc0. by destruct Hp as [->|(_ & _ & ->)].
  - intros p. unfold Choose. pose proof (choose_list_spec (cooldown r) clock answers 0 (candidates r ch)) as Hs.
    destruct (choose_list _ _ _ _ _) as [l [q|]]; [|done]. intros [= ->].
    destruct Hs as (_ & _ & j & c & Hj & <- & _). by eapply filed_candidates, list_elem_of_lookup_2.
Qed.

Lemma record_list_cp thr clock name ok i l :
  cp <$> (record_list thr clock name ok i l).1 = cp <$> l.
Proof.
  revert i. induction l as [|c l IH]; intros i; [done|]. cbn [record_list]. specialize (IH (S i)).
  destruct (record_list thr clock name ok (S i) l) as [l' b]. cbn [fst] in IH.
  repeat case_match; cbn [fst]; rewrite ?fmap_cons, ?IH; try done. unfold fail. by case_match.
Qed.

Lemma filed_step thr clock name ok st x :
  filed_map st.1 → (∀ c, c ∈ x.2 → ChannelOf (cp c) = x.1) →
  filed_map (record_step thr clock name ok st x).1.
Proof.
  intros Hst Hx. unfold record_step. destruct st.2; [done|].
  pose proof (record_list_cp thr (clock x.1) name ok 0 x.2) as Hcp.
  destruct (record_list _ _ _ _ _ _) as [l b]. cbn [fst] in *. apply filed_insert; [done|].
  intros c Hc. apply (list_elem_of_fmap_2 cp) in Hc. rewrite Hcp in Hc.
  apply list_elem_of_fmap in Hc as (c0 & -> & Hc0). by apply Hx.
Qed.

Lemma filed_Record `{!MapRangeOk} clock p err r : filed r → filed (Record_ clock p err r).
Proof.
  intros Hr. unfold filed, Record_. cbn [providers set_providers].
  assert (Hks : ∀ x, x ∈ map_range (providers r) → ∀ c, c ∈ x.2 → ChannelOf (cp c) = x.1).
  { intros [ch l] Hx c Hc. apply elem_of_range in Hx. by apply (Hr ch l). }
  revert Hks. assert (Hst : filed_map (providers r, false).1) by done. revert Hst.
  generalize (providers r, false) as st. induction (map_range (providers r)) as [|x ks IH]; intros st Hst Hks; [done|].
  cbn [foldl]. apply IH; [|intros y Hy; apply Hks; by right]. apply filed_step; [done|]. apply Hks. left.
Qed.
End filed.
End Filed.

Module WellFormed.
Import System Lifetime Filed.

Section well_formed.
Context {codec : JsonCodec} {uni : Unicode} {arch : Arch} {P : Type} {prov : Provider P} {mr : MapRange}.
Context {mr_ok : MapRangeOk}.
Context (cfg : Config.Config) (router : Router.Router (P := P)) (fair : Prop).

Local Abbreviation maxA := (Config.MaxAttempts cfg).

(** ** Specification *)

(** The statuses the package declares. *)
Definition statuses : list Status := [
  StatusQueued; StatusProcessing; StatusAccepted; StatusSent; StatusDelivered; StatusBounced; StatusComplained;
  StatusFailed; StatusExpired; StatusCanceled; StatusPaused].

Record typed (n : Notification) : Prop := {
  ty_request : request_ok n;
  ty_status : nStatus n ∈ statuses;
}.

Definition typed_snapshot (d : snapshot) : Prop := ∀ id n, Notifications d !! id = Some n → typed n.

Record well_formed (s : System (P := P)) : Prop := {
  wf_mem : typed_snapshot (data (store s));
  wf_live : ∀ n, n ∈ live s → typed n;
  wf_disk : ∃ d, disk cfg s d ∧ typed_snapshot d;
  wf_router : filed (Worker.d_router (shared s));
  wf_sending : ∀ n p, JSending n p ∈ jobs s → ChannelOf p = nChannel n;
}.

(** ** Lemmas: what is typed stays typed *)

Lemma request_ok_ident n m : ident m = ident n → request_ok n → request_ok m.
Proof.
  intros Hi [H1 H2 H3 H4 H5 H6 H7 H8].
  assert (Hok : request_ok (ident m)) by (rewrite Hi; by split).
  by destruct Hok.
Qed.

Lemma edge_status s t : is_allowed s t = true → t ∈ statuses.
Proof.
  revert s t. apply edges_Forall. unfold edges. repeat constructor; apply (bool_decide_unpack _); by vm_compute.
Qed.

Lemma evolves_typed n m : evolves n m → typed n → typed m.
Proof.
  intros [Hi Hst] [Hr Hs]. split; [by eapply request_ok_ident|]. clear Hi Hr.
  induction Hst as [|x y z Hxy _ IH]; [done|]. by apply IH, edge_status in Hxy || (apply IH; by eapply edge_status).
Qed.

Lemma typed_set n s t v : typed n → s ∈ statuses → typed (set_status n s t v).
Proof. intros [Hr _] Hs. split; [by eapply request_ok_ident; [|exact Hr]|done]. Qed.

(** ** Lemmas: steps *)

Lemma typed_submit e n (s : System (P := P)) :
  well_formed s →
  typed_snapshot (data (store (submit e n s))) ∧ (∀ m, m ∈ live (submit e n s) → typed m) ∧
  (∀ m p, JSending m p ∈ jobs (submit e n s) → JSending m p ∈ jobs s) ∧
  Worker.d_router (shared (submit e n s)) = Worker.d_router (shared s) ∧
  written (store s) (store (submit e n s)).
Proof.
  intros Hs. destruct (submit_cases e n s) as [->|(m & t1 & t2 & o & _ & _ & Hst & Hok & _ & Hd & Hsub)].
  { split_and!; [apply (wf_mem _ Hs)|apply (wf_live _ Hs)|done|done|apply written_refl]. }
  set (st := run_op (store s) (OpCreate t1 t2 o m)) in *.
  assert (Hm : typed m) by (split; [done|rewrite Hst; left]).
  assert (Hmem : typed_snapshot (data st)).
  { intros id x. rewrite Hd, created_lookup. case_decide; [by intros [= <-]|apply (wf_mem _ Hs)]. }
  assert (Hwr : written (store s) st) by apply run_op_written.
  destruct Hsub as [-> | ->]; (split_and!; [exact Hmem| | |done|exact Hwr]).
  - intros x Hx. by apply (wf_live _ Hs).
  - done.
  - intros x. unfold live. cbn [queue jobs add_jobs with_store]. rewrite fmap_app, (assoc_L (++)), elem_of_app.
    intros [Hx| ->%list_elem_of_singleton]; [by apply (wf_live _ Hs)|done].
  - cbn [jobs add_jobs with_store]. by intros x p [?|?%list_elem_of_singleton]%elem_of_app.
Qed.

(** The file holds the old text or the new data. *)
Lemma disk_step (s s' : System (P := P)) :
  safe cfg fair s → well_formed s → storable (data (store s')) → written (store s) (store s') →
  typed_snapshot (data (store s')) → ∃ d, disk cfg s' d ∧ typed_snapshot d.
Proof.
  intros Hs Hw Hst [_ Hf] Hty. rewrite (sf_path _ _ _ Hs) in Hf. destruct Hf as [Hf|(b & Hm & Hf)].
  - destruct (wf_disk _ Hw) as (d & Hd & Hty'). exists d. split; [|done]. unfold disk. by rewrite Hf.
  - exists (data (store s')). split; [|done]. unfold disk. by rewrite Hf.
Qed.

Lemma wf_build (s s' : System (P := P)) :
  safe cfg fair s → well_formed s → storable (data (store s')) → written (store s) (store s') →
  typed_snapshot (data (store s')) → (∀ n, n ∈ live s' → typed n) →
  filed (Worker.d_router (shared s')) → (∀ n p, JSending n p ∈ jobs s' → ChannelOf p = nChannel n) →
  well_formed s'.
Proof. intros. split; try done. by eapply disk_step. Qed.

(** The holder's steps. *)
Lemma wf_left (s : System (P := P)) i j s' l :
  safe cfg fair s → well_formed s → jobs s !! i = Some j → left_by (without i s) s' (job_n j) l →
  storable (data (store s')) → filed (Worker.d_router (shared s')) →
  (∀ n p, JSending n p ∈ l → ChannelOf p = nChannel n) → well_formed s'.
Proof.
  intros Hs Hw Hj [Hq Hjobs [_ Hent Hwr] _ Hev] Hst Hr Hsend.
  assert (Hn : typed (job_n j)).
  { apply (wf_live _ Hw), elem_of_live. right. exists j. split; [by eapply list_elem_of_lookup_2|done]. }
  apply (wf_build s); [done|done|done|exact Hwr| | |done|].
  - intros id m [Hm|[_ Hm]]%Hent; [by apply (wf_mem _ Hw id)|by eapply evolves_typed].
  - intros m [Hm|(j' & Hj' & <-)]%elem_of_live.
    + apply (wf_live _ Hw), elem_of_live. left. by rewrite Hq in Hm.
    + rewrite Hjobs in Hj'. cbn [jobs without] in Hj'. apply elem_of_app in Hj' as [Hj'|Hj'].
      * apply (wf_live _ Hw), elem_of_live. right. exists j'. split; [by eapply list_elem_of_delete_inv|done].
      * rewrite Forall_forall in Hev. eapply evolves_typed; [by apply Hev|done].
  - intros m p. rewrite Hjobs. cbn [jobs without]. intros [Hin|Hin]%elem_of_app; [|by apply Hsend].
    by eapply (wf_sending _ Hw), list_elem_of_delete_inv.
Qed.

(** Steps that leave the store alone. *)
Lemma wf_moved (s s' : System (P := P)) :
  well_formed s → store s' = store s → Worker.d_router (shared s') = Worker.d_router (shared s) →
  (∀ n, n ∈ live s' → n ∈ live s) → (∀ n p, JSending n p ∈ jobs s' → JSending n p ∈ jobs s) → well_formed s'.
Proof.
  intros [H1 H2 (d & Hd & Ht) H4 H5] Hst Hr Hl Hj. split.
  - by rewrite Hst.
  - intros n Hn. by apply H2, Hl.
  - exists d. split; [|done]. unfold disk in *. by rewrite Hst.
  - by rewrite Hr.
  - intros n p Hn. by apply H5, Hj.
Qed.

Lemma supported_statuses st : st ∈ Receipt.supported → st ∈ statuses.
Proof.
  revert st. apply Forall_forall. repeat constructor; apply (bool_decide_unpack _); by vm_compute.
Qed.

Lemma typed_op (s : System (P := P)) a :
  well_formed s → allowed fair s (LStore a) → (∀ t1 t2 o n, a ≠ OpCreate t1 t2 o n) →
  typed_snapshot (data_op (data (store s)) a).
Proof.
  intros Hw Hall Hnc. pose proof (wf_mem _ Hw) as Hm.
  destruct a as [t1 t2 o n|t o n v|t o key ev|o x]; [by destruct (Hnc t1 t2 o n)|..]; simpl in Hall |- *.
  - destruct Hall as (_ & Hst & Hok). destruct (Notifications _ !! nID n) as [old|]; [|done].
    case_match; [done|]. intros id m. rewrite updated_lookup. case_decide; [|apply Hm]. intros [= <-].
    split; [done|]. rewrite !elem_of_cons, elem_of_nil in Hst.
    destruct Hst as [->|[->|[]]]; apply (bool_decide_unpack _); by vm_compute.
  - case_match; [done|]. unfold received_snapshot. cbn [Notifications append_event put_receipt].
    destruct (Notifications _ !! eNotificationID ev) as [n|] eqn:Hn; [|done].
    intros id m. cbn. rewrite lookup_insert. case_decide; [|apply Hm]. intros [= <-].
    apply typed_set; [by apply (Hm _ _ Hn)|by apply supported_statuses].
  - done.
Qed.

Lemma wf_store (s : System (P := P)) a :
  safe cfg fair s → well_formed s → allowed fair s (LStore a) → storable (data (store (step maxA s (LStore a)))) →
  well_formed (step maxA s (LStore a)).
Proof.
  intros Hs Hw Hall.
  assert (Hstep : step maxA s (LStore a) = s ∨ step maxA s (LStore a) = with_store s (run_op (store s) a) ∧
    ∀ t1 t2 o n, a ≠ OpCreate t1 t2 o n) by (destruct a; [by left|right; by split..]).
  destruct Hstep as [->|[-> Hnc]]; [done|]. intros Hst.
  apply (wf_build s); [done..|apply run_op_written| |apply (wf_live _ Hw)|apply (wf_router _ Hw)|apply (wf_sending _ Hw)].
  change (typed_snapshot (data (run_op (store s) a))). rewrite data_run_op. by apply typed_op.
Qed.

Lemma not_sending s n e (l : list (job (P := P))) :
  jobs (begin_step e n s) = jobs s ++ l → ∀ m p, JSending m p ∉ l.
Proof.
  unfold begin_step. destruct (Worker.begin e n (shared s)) as [sh [|x|x]]; cbn [jobs]; intros <-%(inj (app _)) m p;
    rewrite ?list_elem_of_singleton; [apply not_elem_of_nil|done..].
Qed.

Lemma timer_not_sending o m p : JSending m p ∉ timer (P := P) o.
Proof. destruct o as [[n d]|]; simpl; [by intros ?%list_elem_of_singleton|apply not_elem_of_nil]. Qed.

Lemma wf_begin s i e n :
  safe cfg fair s → well_formed s → jobs s !! i = Some (JStart n) → let s' := begin_step e n (without i s) in
  storable (data (store s')) → well_formed s'.
Proof.
  intros Hs Hw Hj s' Hst. destruct (begin_step_left e n (without i s)) as (l & Hl & _). fold s' in Hl.
  eapply (wf_left s i (JStart n)); [done..| |].
  - replace (Worker.d_router (shared s')) with (Worker.d_router (shared s)); [apply (wf_router _ Hw)|].
    unfold s', begin_step, Worker.begin. cbn [shared without]. destruct (Worker.expired _ _).
    { by destruct (Transition _ n StatusExpired). }
    destruct (Rate.Allow _ _ _) as [lim []]; cbn [negb]; [|done].
    by destruct (Worker.move _ n StatusProcessing _) as [st [m [err|]]].
  - intros m p Hin. by destruct (not_sending _ _ _ _ (lb_jobs _ _ _ _ Hl) m p).
Qed.

Lemma wf_choose s i e n :
  safe cfg fair s → well_formed s → jobs s !! i = Some (JChoose n) → let s' := choose_step maxA e n (without i s) in
  storable (data (store s')) → well_formed s'.
Proof.
  intros Hs Hw Hj s' Hst. destruct (choose_step_left maxA e n (without i s)) as (l & Hl & _). fold s' in Hl.
  pose proof (lb_jobs _ _ _ _ Hl) as Hjobs. pose proof (filed_Choose (Worker.choose_clock e) (Worker.health e)
    (nChannel n) _ (wf_router _ Hw)) as [Hr Hp].
  revert Hst Hl Hjobs. unfold s', choose_step. cbn [shared without].
  destruct (Router.Choose _ _ _ _) as [rt [p|err]]; cbn [fst snd] in *.
  - intros Hst Hl Hjobs. eapply (wf_left s i (JChoose n)); [done..|exact Hr|]. cbn [jobs without] in Hjobs.
    apply (inj (app _)) in Hjobs as <-. intros m q [= -> ->]%list_elem_of_singleton. by apply Hp.
  - destruct (Worker.retry _ _ _ _ _) as [st o]. intros Hst Hl Hjobs.
    eapply (wf_left s i (JChoose n)); [done..|exact Hr|]. cbn [jobs without] in Hjobs.
    apply (inj (app _)) in Hjobs as <-. intros m q Hin. by destruct (timer_not_sending o m q).
Qed.

Lemma wf_finish s i e n p :
  safe cfg fair s → well_formed s → jobs s !! i = Some (JSending n p) →
  let s' := finish_step maxA e n p (without i s) in storable (data (store s')) → well_formed s'.
Proof.
  intros Hs Hw Hj s' Hst. destruct (finish_step_left maxA e n p (without i s)) as (l & Hl & _). fold s' in Hl.
  pose proof (lb_jobs _ _ _ _ Hl) as Hjobs.
  revert Hst Hl Hjobs. unfold s', finish_step. cbn [shared without]. destruct (Worker.reply e p _) as [res sendErr].
  pose proof (filed_Record (Worker.record_clock e) p sendErr _ (wf_router _ Hw)) as Hr.
  destruct (Worker.finish _ _ _ _ _ _) as [st o]. intros Hst Hl Hjobs.
  eapply (wf_left s i (JSending n p)); [done..|exact Hr|]. cbn [jobs without] in Hjobs.
  apply (inj (app _)) in Hjobs as <-. intros m q Hin. by destruct (timer_not_sending o m q).
Qed.

Lemma wf_step (s : System (P := P)) l :
  safe cfg fair s → well_formed s → allowed fair s l → storable (data (store (step maxA s l))) →
  well_formed (step maxA s l).
Proof.
  intros Hs Hw Hall Hst. assert (Hsub : ∀ e n, storable (data (store (submit e n s))) → well_formed (submit e n s)).
  { intros e n Hst'. destruct (typed_submit e n s Hw) as (H1 & H2 & H3 & H4 & H5).
    apply (wf_build s); [done..|rewrite H4; apply (wf_router _ Hw)|]. intros m p Hin. by apply (wf_sending _ Hw), H3. }
  destruct l as [e n|e id|a|i now|now| |i e|i e|i e].
  - by apply Hsub.
  - cbn [step] in *. destruct (Get id (store s)); [by apply Hsub|done].
  - by apply wf_store.
  - apply (wf_moved s); [done|cbn [step]; by destruct (jobs s !! i) as [[]|]..| |].
    + intros n. apply enqueue_live.
    + cbn [step]. destruct (jobs s !! i) as [[]|]; try done. intros m q Hin. by eapply list_elem_of_delete_inv.
  - apply (wf_moved s); [done|cbn [step]; by destruct (Queue.Dequeue (queue s)) as [q [n|]]..| |].
    + apply dequeue_live, (un_queue _ (sf_unique _ _ _ Hs)).
    + cbn [step]. destruct (Queue.Dequeue (queue s)) as [q [n|]]; try done. intros m p. cbn [jobs].
      rewrite elem_of_app, list_elem_of_singleton. intros [?|Heq]; [done|]. by destruct (Worker.early now n).
  - by apply (wf_moved s).
  - cbn [step] in *. destruct (jobs s !! i) as [[|n| |]|] eqn:Hj; try done. by apply wf_begin.
  - cbn [step] in *. destruct (jobs s !! i) as [[| |n|]|] eqn:Hj; try done. by apply wf_choose.
  - cbn [step] in *. destruct (jobs s !! i) as [[| | |n p]|] eqn:Hj; try done. by apply wf_finish.
Qed.

Context {codec_ok : JsonCodecOk}.

Lemma wf_boot l t clock fs (s : System (P := P)) d :
  match fs !! Config.DataFile cfg with
  | None => d = empty_snapshot
  | Some b => marshal_indent d = Ok b ∧ storable d
  end →
  typed_snapshot d → filed router →
  Main.boot router cfg t clock fs (ReadFile (Config.DataFile cfg) fs) = Some s → well_formed (carry l s).
Proof.
  intros Hdisk Ht Hr Hboot.
  destruct (Main.boot_opens router cfg t clock fs d Hdisk) as (s0 & Hb0 & Hd & Hst & Hpath & Hfiles).
  rewrite Hboot in Hb0. injection Hb0 as <-.
  assert (Hrt : Worker.d_router (shared s) = router).
  { revert Hboot. unfold Main.boot. destruct (Open _ fs _) as [[st|] [err|]]; try done. by intros [= <-]. }
  apply Main.boot_some in Hboot as (st & _ & <- & Hjobs & _ & _ & k & Hk & Hq).
  assert (Hmem : typed_snapshot (data (store s))).
  { destruct Hd as [Hn _ _ _ _ _]. intros id n. rewrite Hn. apply Ht. }
  split; [exact Hmem| | |cbn [shared carry]; by rewrite Hrt|].
  - intros n [Hn|(j & Hj & _)]%elem_of_live; cbn [queue jobs carry] in *;
      [|rewrite Hjobs in Hj; by apply elem_of_nil in Hj].
    rewrite Hq in Hn. apply (elem_of_submseteq _ k) in Hn; [|apply sublist_submseteq, sublist_take].
    rewrite Hk in Hn. apply list_elem_of_filter in Hn as [_ Hn].
    apply list_elem_of_fmap in Hn as ([id m] & -> & Hm). by eapply Hmem, elem_of_map_to_list.
  - exists d. split; [|done]. unfold disk. change (files (store (carry l s))) with (files (store s)). by rewrite Hfiles.
  - cbn [jobs carry]. rewrite Hjobs. by intros n p ?%elem_of_nil.
Qed.

Lemma life_well_formed (s : System (P := P)) :
  maxA ≤ max_int64 → filed router → life cfg router fair s → well_formed s.
Proof.
  intros Hmax Hr. induction 1 as [t clock fs s Hnone Hboot|s l Hl IH Hall Hst|s t clock fs s' Hl IH Hfs Hboot].
  - replace s with (carry [] s) by (by destruct s). eapply (wf_boot [] _ _ _ _ empty_snapshot); [by rewrite Hnone| |done..].
    intros id n Hn. cbn in Hn. by rewrite lookup_empty in Hn.
  - apply wf_step; [by eapply life_safe|done..].
  - destruct (wf_disk _ IH) as (d & Hd & Ht). eapply (wf_boot _ _ _ _ _ d); [by rewrite Hfs|done..].
Qed.

(** ** The handlers respect [allowed] *)

(** What [Cancel] and [Pause] write is a store step the relation allows, whatever
    happened between their read and their write. *)
Lemma handler_allowed (s s' : System (P := P)) id n n' next now t o :
  maxA ≤ max_int64 → filed router → life cfg router fair s → Get id (store s) = Ok n → Transition now n next = (n', None) →
  next ∈ [StatusCanceled; StatusPaused] → Idempotency (data (store s)) ⊆ Idempotency (data (store s')) →
  allowed fair s' (LStore (OpUpdate t o n' (nVersion n))).
Proof.
  intros Hmax Hr Hl Hget Ht Hnext Hkeys. pose proof (life_well_formed s Hmax Hr Hl) as Hw.
  pose proof (life_safe cfg router fair s Hmax Hl) as Hs. unfold Get in Hget.
  destruct (Notifications (data (store s)) !! id) as [m|] eqn:Hm; [|done]. injection Hget as ->.
  destruct (gd_entry _ _ _ _ _ (sf_mem _ _ _ Hs) _ _ Hm) as [<- Hk]. split_and!.
  - destruct (Transition_tag _ _ _ _ _ Ht) as [[= -> ->] _]. by eapply lookup_weaken.
  - by apply Transition_cases in Ht as [(-> & -> & _)|[(_ & _ & _ & ? & ?)|(-> & _)]].
  - apply Transition_evolves in Ht as [[Hi _] _]. eapply request_ok_ident; [done|]. apply (wf_mem _ Hw _ _ Hm).
Qed.

(** So is what [Ingest] records. *)
Lemma ingest_allowed now o e (s : System (P := P)) :
  (Receipt.Ingest now o e (store s)).1 = store s ∨
  ∃ a, allowed fair s (LStore a) ∧ (Receipt.Ingest now o e (store s)).1 = run_op (store s) a.
Proof.
  unfold Receipt.Ingest. case_match; [by left|].
  destruct (bool_decide_reflect (Receipt.EvStatus e ∈ Receipt.supported)) as [Hst|]; [cbn [negb]|by left].
  destruct (Get _ _); [|by left]. right.
  exists (OpReceipt now o (Receipt.receipt_key e) (Receipt.receipt_event e)). split; [exact Hst|].
  cbn [run_op]. by destruct (RecordReceipt _ _ _ _ _).
Qed.


(** ** Properties *)

(** C5: whatever requests, workers, timers, providers, failures, crashes and
    restarts do, every notification in the store, in the queue, with a goroutine or
    with a timer is well formed: it has its tenant and key, a known channel, 1 to
    1000 targets whose addresses are lower-cased, trimmed and of the form that the
    channel asks, a priority in 0..100, a trigger, and one of the declared statuses;
    and a provider is only handed notifications of its own channel.  No condition is
    put on attempt counters or on what providers answer ([fair] is any proposition);
    what a [Cancel] or [Pause] writes is a change of a stored notification
    ([Lifetime.allowed]; [handler_allowed] shows it of the handlers); what is stored is
    assumed to be what JSON represents without loss ([storable]). *)
Theorem all_well_formed (s : System (P := P)) :
  maxA ≤ max_int64 → filed router → life cfg router fair s →
  (∀ id n, Notifications (data (store s)) !! id = Some n → typed n) ∧
  (∀ n, n ∈ live s → typed n) ∧
  (∀ n p, JSending n p ∈ jobs s → ChannelOf p = nChannel n).
Proof.
  intros Hmax Hr Hw%life_well_formed; [|done..]. split_and!; [apply (wf_mem _ Hw)|apply (wf_live _ Hw)|apply (wf_sending _ Hw)].
Qed.
End well_formed.

(** ** Witness *)

#[local] Existing Instance memory_codec.
#[local] Existing Instance Lifetime.ascii_only.
#[local] Existing Instance Lifetime.amd64.
#[local] Existing Instance map_to_list_range.
#[local] Existing Instance memory_codec_ok.
#[local] Existing Instance map_to_list_range_ok.

Lemma local_router_filed : filed Main.local_router.
Proof. unfold Main.local_router. cbn [foldl]. do 4 apply filed_Add. apply filed_New. Qed.

Lemma all_well_formed_witness :
  length (jobs crashed) = 1%nat ∧
  (∀ id n, Notifications (data (store crashed)) !! id = Some n → typed n) ∧
  (∀ n, n ∈ live crashed → typed n) ∧
  (∀ n p, JSending n p ∈ jobs crashed → ChannelOf p = nChannel n).
Proof.
  split; [vm_compute; reflexivity|].
  apply (all_well_formed Config.defaults Main.local_router False crashed);
    [vm_compute; discriminate|apply local_router_filed|apply crashed_life].
Defined.

End WellFormed.
