(* ===== verification/Platform.v ===== *)
(** * The whole platform: HTTP requests, workers, crashes

    The handlers of [HttpApi] are stated on the application's store and queue, the
    goroutines of [System] on the same objects.  Here a request is shown to be a run
    of [System]'s steps that [Lifetime] allows, so that what is proved of the life
    of the program holds of a server that answers any requests. *)

From S2P Require Export HttpApi WellFormed.
Local Open Scope Z_scope.

Module Platform.
Import System Lifetime.

Section platform.
Context {codec : JsonCodec} {uni : Unicode} {arch : Arch} {P : Type} {prov : Provider P} {mr : MapRange}.
Context {dec : HttpApi.Decoders} {sorter : SortSlice}.
Context {codec_ok : JsonCodecOk} {mr_ok : MapRangeOk}.
Context (cfg : Config.Config) (router : Router.Router (P := P)) (fair : Prop).

Local Abbreviation maxA := (Config.MaxAttempts cfg).

(** What the handlers see of the running program. *)
Definition api (s : System (P := P)) (t : Template.Service) : HttpApi.State := {|
  HttpApi.app := {| Application.Store_ := store s; Application.Queue_ := System.queue s |};
  HttpApi.templates := t |}.

(** The running program after a handler changed the store and the queue. *)
Definition answered (s : System (P := P)) (a : Application.Service) : System (P := P) := {|
  shared := Worker.on_store (shared s) (Application.Store_ a); queue := Application.Queue_ a;
  jobs := jobs s; sent := sent s |}.

(** The attempt counter that a request brings, where [fair] asks for one that a call
    can increment. *)
Definition countable (r : HttpApi.Req) : Prop :=
  fair → ∀ n, HttpApi.decode HttpApi.dec_notification r = Ok n → 0 ≤ nAttempts n < max_int64.

(** ** Lemmas: what the handlers do, as steps *)

(** At most two steps [ls] lead from [s] to what the handler leaves, which can be stored. *)
Definition amounts (s : System (P := P)) (a : Application.Service) : Prop :=
  ∃ ls, (length ls ≤ 2)%nat ∧ run maxA s ls = answered s a ∧
    (life cfg router fair s → storable (data (Application.Store_ a)) → life cfg router fair (run maxA s ls)).

(** Or, when the steps [lo] of others come between its reads and its write, one step
    after them. *)
Definition amounts_among (lo : list (label (P := P))) (s : System (P := P)) (a : Application.Service) : Prop :=
  amounts s a ∨
  let s1 := run maxA s lo in
  Application.Queue_ a = System.queue s ∧
  ∃ l, step maxA s1 l = with_store s1 (Application.Store_ a) ∧
    (life cfg router fair s → life cfg router fair s1 → storable (data (Application.Store_ a)) →
       life cfg router fair (step maxA s1 l)).

Lemma amounts_nil s t : amounts s (HttpApi.app (api s t)).
Proof. exists []. split_and!; [simpl; lia|by destruct s as [[] ? ? ?]|done]. Qed.

Lemma enqueue_store s i now : store (step maxA s (LEnqueue i now)) = store s.
Proof. cbn [step]. by destruct (jobs s !! i) as [[]|]. Qed.

(** A step of a handler, and its [Enqueue]. *)
Lemma life_enqueue s l i now :
  life cfg router fair s → allowed fair s l → storable (data (store (run maxA s [l; LEnqueue i now]))) →
  life cfg router fair (run maxA s [l; LEnqueue i now]).
Proof.
  intros Hl Ha. unfold run. cbn [foldl]. rewrite enqueue_store. intros Hst.
  apply life_step; [by apply life_step|done|by rewrite enqueue_store].
Qed.

Lemma amounts_store s a :
  (∀ t1 t2 o n, a ≠ OpCreate t1 t2 o n) → (life cfg router fair s → allowed fair s (LStore a)) →
  amounts s {| Application.Store_ := run_op (store s) a; Application.Queue_ := System.queue s |}.
Proof.
  intros Hnc Hall. exists [LStore a].
  split_and!; [simpl; lia|by destruct a as [t1 t2 o n| | |]; [destruct (Hnc t1 t2 o n)|..]|].
  intros Hl Hst. apply life_step; [done|by apply Hall|]. by destruct a as [t1 t2 o n| | |]; [destruct (Hnc t1 t2 o n)|..].
Qed.

(** [Submit] is its step followed by the [Enqueue] of what it left. *)
Lemma submit_answered e n s :
  run maxA s [LSubmit e n; LEnqueue (length (jobs s)) (Application.t_enqueue e)] =
  answered s (Application.Submit e None n {| Application.Store_ := store s; Application.Queue_ := System.queue s |}).1.
Proof.
  assert (Hnone : jobs s !! length (jobs s) = None) by (by apply lookup_ge_None_2).
  assert (Hs : s = answered s {| Application.Store_ := store s; Application.Queue_ := System.queue s |})
    by (by destruct s as [[] ? ? ?]).
  unfold run. cbn [foldl step]. unfold submit, Application.Submit.
  destruct (Validate n) as [m [err|]]; [by rewrite Hnone|]. set (m' := Application.prepare e m).
  cbn [Application.Store_]. destruct (Application.suppressed m' (store s)); [by rewrite Hnone|].
  destruct (Create _ _ _ m' (store s)) as [st [[saved created] err]].
  destruct err as [err|].
  { rewrite bool_decide_false, andb_false_r by done. cbn [andb jobs with_store]. by rewrite Hnone. }
  rewrite bool_decide_true, andb_true_r by done.
  destruct created; [|cbn [andb jobs with_store]; by rewrite Hnone]. cbn [andb].
  destruct (Application.due _ _); [|cbn [jobs with_store]; by rewrite Hnone].
  cbn [jobs add_jobs with_store queue Application.Queue_]. rewrite list_lookup_middle by done.
  rewrite delete_middle, app_nil_r. by destruct (Queue.Enqueue _ _ _) as [q [qerr|]].
Qed.

Lemma amounts_submit e ctx n s :
  (fair → 0 ≤ nAttempts n < max_int64) →
  amounts s (Application.Submit e ctx n {| Application.Store_ := store s; Application.Queue_ := System.queue s |}).1.
Proof.
  intros Hn. destruct ctx as [err|]; [apply (amounts_nil s Template.NewService)|].
  exists [LSubmit e n; LEnqueue (length (jobs s)) (Application.t_enqueue e)]. split_and!; [simpl; lia|apply submit_answered|].
  intros Hl Hst. apply life_enqueue; [done|exact Hn|]. by rewrite submit_answered.
Qed.

Lemma amounts_replay e id s :
  amounts s (Application.Replay e id {| Application.Store_ := store s; Application.Queue_ := System.queue s |}).1.
Proof.
  unfold Application.Replay. cbn [Application.Store_]. destruct (Get id (store s)) as [old|err] eqn:Hg;
    [|apply (amounts_nil s Template.NewService)].
  exists [LReplay e id; LEnqueue (length (jobs s)) (Application.t_enqueue e)].
  pose proof (submit_answered e (Application.replayed e old) s) as Hs.
  destruct (Application.Submit _ _ _ _) as [a [[m c] err]]. cbn [fst] in *.
  assert (Hrun : run maxA s [LReplay e id; LEnqueue (length (jobs s)) (Application.t_enqueue e)] = answered s a).
  { rewrite <- Hs. unfold run. cbn [foldl]. by unfold step at 2; rewrite Hg. }
  split_and!; [simpl; lia|exact Hrun|].
  intros Hl Hst. apply life_enqueue; [done..|]. by rewrite Hrun.
Qed.

Context (max_ok : maxA ≤ max_int64) (router_filed : Filed.filed router).

Lemma amounts_transition now t o others lo id expected next s :
  next ∈ [StatusCanceled; StatusPaused] → store (run maxA s lo) = foldl run_op (store s) others →
  amounts_among lo s
    {| Application.Store_ := (Application.transition now t o others id expected next (store s)).1;
       Application.Queue_ := System.queue s |}.
Proof.
  intros Hnext Hlo. assert (Hnil : amounts s {| Application.Store_ := store s; Application.Queue_ := System.queue s |})
    by apply (amounts_nil s Template.NewService).
  unfold Application.transition. destruct (Get id (store s)) as [n|err] eqn:Hg; [|by left]. case_match; [by left|].
  destruct (Transition now n next) as [n' [err|]] eqn:Ht; [by left|]. rewrite <- Hlo.
  right. split; [done|]. exists (LStore (OpUpdate t o n' (nVersion n))). split; [done|]. intros Hl Hl1 Hst.
  apply life_step; [done| |done]. eapply (WellFormed.handler_allowed cfg router fair s); [done..|]. apply run_keys.
Qed.

Lemma amounts_ingest now o ev s :
  amounts s {| Application.Store_ := (Receipt.Ingest now o ev (store s)).1; Application.Queue_ := System.queue s |}.
Proof.
  assert (Hnil : amounts s {| Application.Store_ := store s; Application.Queue_ := System.queue s |})
    by apply (amounts_nil s Template.NewService).
  unfold Receipt.Ingest. case_match; [done|].
  destruct (bool_decide_reflect (Receipt.EvStatus ev ∈ Receipt.supported)) as [Hst|]; [cbn [negb]|done].
  destruct (Get _ _); [|done].
  pose proof (amounts_store s (OpReceipt now o (Receipt.receipt_key ev) (Receipt.receipt_event ev))) as Ha.
  cbn [run_op] in Ha. destruct (RecordReceipt _ _ _ _ _) as [st fresh]. by apply Ha.
Qed.

Lemma amounts_notifications e r s t :
  countable r → HttpApi.Path r = "/api/v1/notifications" →
  amounts s (HttpApi.app (HttpApi.notifications e r (api s t)).1).
Proof.
  intros Hpl Hp. unfold HttpApi.notifications. rewrite Hp.
  replace (HasSuffix "/api/v1/notifications" "/batch") with false by (by vm_compute).
  case_match; [apply (amounts_nil s t)|]. case_match; [apply (amounts_nil s t)|].
  destruct (HttpApi.decode _ r) as [n|err] eqn:Hd; [|apply (amounts_nil s t)].
  assert (Hn : fair → 0 ≤ nAttempts (HttpApi.fill_tenant r n) < max_int64).
  { intros Hf. pose proof (Hpl Hf n Hd). unfold HttpApi.fill_tenant. by destruct (decide (nTenantID n = "")). }
  pose proof (amounts_submit (HttpApi.app_env e 0) (HttpApi.CtxErr r) (HttpApi.fill_tenant r n) s Hn) as Hs.
  cbn [HttpApi.app api]. by destruct (Application.Submit _ _ _ _) as [a [[m c] [err|]]].
Qed.

Lemma amounts_byID e r s t lo :
  store (run maxA s lo) = foldl run_op (store s) (HttpApi.others e) →
  amounts_among lo s (HttpApi.app (HttpApi.notificationByID e r (api s t)).1).
Proof.
  intros Hlo. assert (Hnil : amounts_among lo s (HttpApi.app (api s t))) by (left; apply (amounts_nil s t)).
  unfold HttpApi.notificationByID. destruct (Split _ _) as [|id rest]; [done|].
  destruct (decide (id = "")) as [_|_]; [done|]. destruct rest as [|action [|]]; [by case_match| |done].
  destruct (decide (action = "timeline")) as [_|_]; [by case_match|]. destruct (bool_decide (action ∈ _)); [|done].
  destruct (negb _); [done|]. cbn [HttpApi.store HttpApi.app api Application.Store_].
  destruct (Get id (store s)) as [n|err]; [|done].
  destruct (decide (action = "cancel")); [|destruct (decide (action = "pause"))].
  - apply amounts_transition; [left|done].
  - apply amounts_transition; [right; left|done].
  - left. pose proof (amounts_replay (HttpApi.app_env e 0) id s) as Hr.
    by destruct (Application.Replay _ _ _) as [a [x err]].
Qed.

Lemma amounts_webhook secret e r s t : amounts s (HttpApi.app (HttpApi.webhook secret e r (api s t)).1).
Proof.
  unfold HttpApi.webhook. case_match; [apply (amounts_nil s t)|]. case_match; [apply (amounts_nil s t)|].
  destruct (HttpApi.dec_event _) as [ev|err]; [|apply (amounts_nil s t)].
  pose proof (amounts_ingest (HttpApi.now e) (HttpApi.write e) ev s) as Hi.
  unfold HttpApi.store. cbn [HttpApi.app api Application.Store_].
  by destruct (Receipt.Ingest _ _ _ _) as [st [b [err|]]].
Qed.

Lemma amounts_suppressions e r s t : amounts s (HttpApi.app (HttpApi.suppressions e r (api s t)).1).
Proof.
  unfold HttpApi.suppressions. case_match; [apply (amounts_nil s t)|]. case_match; [apply (amounts_nil s t)|].
  destruct (HttpApi.decode _ r) as [x|err]; [|apply (amounts_nil s t)]. case_match; [apply (amounts_nil s t)|].
  pose proof (amounts_store s (OpSuppress (HttpApi.write e) (HttpApi.new_suppression e r x))) as Ha.
  cbn [run_op] in Ha. unfold HttpApi.store. cbn [HttpApi.app api Application.Store_].
  destruct (Suppress _ _ _) as [st [err|]]; by apply Ha.
Qed.

(** Whatever the request, its handler leaves what a run of steps leaves. *)
Lemma amounts_handler secret e r s t lo :
  countable r → store (run maxA s lo) = foldl run_op (store s) (HttpApi.others e) →
  amounts_among lo s (HttpApi.app (HttpApi.Handler secret e r (api s t)).1).
Proof.
  intros Hc Hlo. assert (Hnil : amounts_among lo s (HttpApi.app (api s t))) by (left; apply (amounts_nil s t)).
  rewrite HttpApi.Handler_state. unfold HttpApi.mux.
  case_decide; [done|]. case_decide; [done|]. case_decide; [left; by apply amounts_notifications|].
  case_match; [by apply amounts_byID|]. case_decide.
  { unfold HttpApi.templates_handler. case_match; [done|]. case_match; [|done].
    by destruct (Template.Create _ _) as [t' [err|]]. }
  case_match.
  { unfold HttpApi.templateByID. destruct (Split _ _) as [|id [|action rest]]; [done..|].
    repeat (case_match; try done). }
  case_decide; [done|]. case_match; [left; apply amounts_webhook|]. case_decide; [left; apply amounts_suppressions|].
  case_decide; [|done]. unfold HttpApi.audit. by case_match.
Qed.

(** Without others the two cases are one. *)
Lemma amounts_handler_alone secret e r s t :
  HttpApi.others e = [] → countable r → amounts s (HttpApi.app (HttpApi.Handler secret e r (api s t)).1).
Proof.
  intros Halone Hc. destruct (amounts_handler secret e r s t []) as [?|(Hq & l & Hl & Hlife)]; [done|by rewrite Halone|done|].
  exists [l]. split_and!; [simpl; lia| |by intros; apply Hlife].
  unfold answered. rewrite Hq. exact Hl.
Qed.

(** ** The program that answers requests *)

(** The atomic steps of goroutines: of queue, timers and workers, and the pieces of
    handlers that others interrupt: a [Submit] before its [Enqueue], a receipt, a
    suppression.  The write of a [Cancel] or [Pause] depends on its read, see
    [sv_write]. *)
Definition piece (l : label (P := P)) : Prop :=
  match l with
  | LSubmit _ n => fair → 0 ≤ nAttempts n < max_int64
  | LStore (OpUpdate _ _ _ _) => False
  | LStore (OpReceipt _ _ _ ev) => eStatus ev ∈ Receipt.supported
  | LFinish _ e => fair → ∀ p r, ResStatus (Worker.reply e p r).1 ≠ StatusQueued
  | _ => True
  end.

(** One process from a state to a later one: requests answered undisturbed, pieces,
    and the writes of [Cancel] and [Pause] of what they read at any earlier moment. *)
Inductive serves (s0 : System (P := P)) (t0 : Template.Service) : System (P := P) → Template.Service → Prop :=
| sv_start : serves s0 t0 s0 t0
| sv_request s t e r :
    serves s0 t0 s t → HttpApi.others e = [] → countable r →
    let st := (HttpApi.Handler (Config.WebhookSecret cfg) e r (api s t)).1 in
    storable (data (HttpApi.store st)) →
    serves s0 t0 (answered s (HttpApi.app st)) (HttpApi.templates st)
| sv_piece s t l :
    serves s0 t0 s t → piece l → storable (data (store (step maxA s l))) → serves s0 t0 (step maxA s l) t
| sv_write s1 t1 s t id n n' now next t_event o :
    serves s0 t0 s1 t1 → serves s1 t1 s t →
    Get id (store s1) = Ok n → Transition now n next = (n', None) → next ∈ [StatusCanceled; StatusPaused] →
    let s' := with_store s (Update t_event o n' (nVersion n) (store s)).1 in
    storable (data (store s')) → serves s0 t0 s' t.

(** From a first start without a data file, through restarts on what the file holds. *)
Inductive platform : System (P := P) → Template.Service → Prop :=
| pf_first t clock fs s :
    fs !! Config.DataFile cfg = None →
    Main.boot router cfg t clock fs (ReadFile (Config.DataFile cfg) fs) = Some s →
    platform s Template.NewService
| pf_serves s t s' t' : platform s t → serves s t s' t' → platform s' t'
| pf_restart s t tm clock fs s' :
    platform s t → fs !! Config.DataFile cfg = files (store s) !! Config.DataFile cfg →
    Main.boot router cfg tm clock fs (ReadFile (Config.DataFile cfg) fs) = Some s' →
    platform (carry (sent s) s') Template.NewService.

Lemma piece_allowed s l : piece l → allowed fair s l.
Proof. by destruct l as [e n|e id|[]|i now|now| |i e|i e|i e]. Qed.

Lemma serves_life s0 t0 s t :
  serves s0 t0 s t → life cfg router fair s0 →
  life cfg router fair s ∧ Idempotency (data (store s0)) ⊆ Idempotency (data (store s)).
Proof.
  induction 1 as [s0 t0|s0 t0 s t e r _ IH Halone Hpl st Hst|s0 t0 s t l _ IH Hp Hst|
    s0 t0 s1 t1 s t id n n' now next te o _ IH1 _ IH2 Hg Ht Hn s' Hst]; intros Hl; [done|..].
  - destruct (IH Hl) as [Hs Hk].
    destruct (amounts_handler_alone (Config.WebhookSecret cfg) e r s t Halone Hpl) as (ls & _ & Hrun & Hlife). fold st in Hrun, Hlife.
    rewrite <- Hrun. split; [by apply Hlife|]. etrans; [exact Hk|apply run_keys].
  - destruct (IH Hl) as [Hs Hk]. split; [apply life_step; [done|by apply piece_allowed|done]|].
    etrans; [exact Hk|apply step_keys].
  - destruct (IH1 Hl) as [Hl1 Hk1]. destruct (IH2 Hl1) as [Hl2 Hk2].
    change s' with (step maxA s (LStore (OpUpdate te o n' (nVersion n)))) in Hst |- *.
    split; [|etrans; [exact Hk1|etrans; [exact Hk2|apply step_keys]]].
    apply life_step; [done| |done].
    by eapply (WellFormed.handler_allowed cfg router fair s1 s id).
Qed.

Lemma platform_life s t : platform s t → life cfg router fair s.
Proof.
  induction 1 as [t clock fs s Hn Hb|s t s' t' _ IH Hs|s t tm clock fs s' _ IH Hfs Hb].
  - by eapply life_first.
  - by destruct (serves_life _ _ _ _ Hs IH).
  - by eapply life_restart.
Qed.

(** ** Properties *)

(** C1: the guarantees hold of the whole program, over any number of crashes and
    restarts: its API answers requests, valid or not, at once or piece by piece,
    between the steps of queue, timers and workers (a [Cancel] or [Pause] may write
    long after its read).  No notification is held twice; everything stored or held
    is well formed and stored under its id and key.  If moreover [fair] holds, that
    is if no submitted attempt counter is negative or the largest integer and no
    provider answers with the status queued, no notification is handed to providers
    more often than the configured limit (once if that is not positive), over all
    restarts; without that condition, which the source does not check, the limit can
    be exceeded ([negative_attempts]).  What is stored is assumed to be what JSON
    represents without loss ([storable]). *)
Theorem platform_correct (s : System (P := P)) (t : Template.Service) :
  platform s t →
  (fair → ∀ k, count k (sent s) ≤ Z.max 1 maxA) ∧ NoDup (keys s) ∧
  (∀ id n, Notifications (data (store s)) !! id = Some n → nID n = id ∧ WellFormed.typed n) ∧
  (∀ n, n ∈ live s → WellFormed.typed n ∧ Idempotency (data (store s)) !! idempotency_key n = Some (nID n)).
Proof.
  intros Hl%platform_life. pose proof (life_safe cfg router fair s max_ok Hl) as Hs.
  pose proof (WellFormed.life_well_formed cfg router fair s max_ok router_filed Hl) as Hw. split_and!.
  - intros Hf. apply (bd_all _ _ (sf_bounded _ _ _ Hs Hf)).
  - apply (un_keys _ (sf_unique _ _ _ Hs)).
  - intros id n Hn. split; [by apply (gd_entry _ _ _ _ _ (sf_mem _ _ _ Hs))|by apply (WellFormed.wf_mem _ _ Hw id)].
  - intros n Hn. split; [by apply (WellFormed.wf_live _ _ Hw)|by apply (sf_live _ _ _ Hs)].
Qed.
End platform.

Section requests.
Context {codec : JsonCodec} {uni : Unicode} {arch : Arch} {P : Type} {prov : Provider P} {mr : MapRange}.
Context {dec : HttpApi.Decoders} {sorter : SortSlice}.
Context {codec_ok : JsonCodecOk} {mr_ok : MapRangeOk}.
Context (cfg : Config.Config) (router : Router.Router (P := P)).

Local Abbreviation maxA := (Config.MaxAttempts cfg).
Local Abbreviation any_life := (life cfg router False).

(** C10: every request to the API is a run of at most two of the system's atomic
    steps, whatever it brings, and whatever steps [lo] of other goroutines come
    between its read and its write: taken from the state it finds, or from the one
    [lo] leaves, they leave the store that the handler leaves, and its queue or, after
    [lo], the queue as [lo] left it; router, limiter, goroutines and provider calls
    are untouched.  The life of the program, with no condition on attempt counters
    and providers, goes on, if what was stored is what JSON represents without
    loss. *)
Theorem requests_refine (secret : string) (e : HttpApi.Env) (r : HttpApi.Req) (s : System (P := P))
    (t : Template.Service) (lo : list (label (P := P))) :
  maxA ≤ max_int64 → Filed.filed router →
  store (run maxA s lo) = foldl run_op (store s) (HttpApi.others e) →
  let a := HttpApi.app (HttpApi.Handler secret e r (api s t)).1 in
  ∃ pre own, (length own ≤ 2)%nat ∧
    let s1 := run maxA s pre in
    let s' := run maxA s1 own in
    (pre = [] ∧ System.queue s' = Application.Queue_ a ∨
     pre = lo ∧ System.queue s' = System.queue s1 ∧ Application.Queue_ a = System.queue s) ∧
    store s' = Application.Store_ a ∧ jobs s' = jobs s1 ∧ sent s' = sent s1 ∧
    Worker.d_router (shared s') = Worker.d_router (shared s1) ∧
    Worker.d_limiter (shared s') = Worker.d_limiter (shared s1) ∧
    (any_life s → any_life s1 → storable (data (store s')) → any_life s').
Proof.
  intros Hmax Hr Hlo a.
  destruct (amounts_handler cfg router False Hmax Hr secret e r s t lo ltac:(done) Hlo) as
    [(ls & Hlen & Hrun & Hlife)|(Hq & l & Hl & Hlife)]; fold a in Hrun, Hlife || fold a in Hq, Hl, Hlife.
  - exists [], ls. cbn zeta. change (run maxA s []) with s. rewrite Hrun in Hlife |- *.
    split_and!; [done|by left|done..|]. intros Hs _. by apply Hlife.
  - exists lo, [l]. cbn zeta. change (run maxA (run maxA s lo) [l]) with (step maxA (run maxA s lo) l).
    rewrite Hl in Hlife |- *. split_and!; [simpl; lia|by right|done..].
Qed.
End requests.

(** ** Witnesses *)

#[local] Existing Instance memory_codec.
#[local] Existing Instance Lifetime.ascii_only.
#[local] Existing Instance Lifetime.amd64.
#[local] Existing Instance map_to_list_range.
#[local] Existing Instance memory_codec_ok.
#[local] Existing Instance map_to_list_range_ok.
#[local] Existing Instance merge_sort_slice.
#[local] Existing Instance HttpApi.sample_decoders.

Lemma sample_countable : countable True HttpApi.post_email.
Proof.
  intros _ n Hn. vm_compute in Hn. injection Hn as <-. split; vm_compute; [discriminate|reflexivity].
Qed.

(** A submission over HTTP, taken to the provider. *)
Definition posted : HttpApi.State :=
  (HttpApi.Handler (Config.WebhookSecret Config.defaults) HttpApi.sample_env HttpApi.post_email
     (api first_boot Template.NewService)).1.
Definition posted_system : System (P := Mock) := answered first_boot (HttpApi.app posted).
Definition at_provider : System (P := Mock) :=
  step 5 (step 5 (step 5 posted_system (LDequeue 400)) (LBegin 0 wenv)) (LChoose 0 wenv).

Lemma at_provider_platform : platform Config.defaults Main.local_router True at_provider (HttpApi.templates posted).
Proof.
  apply (pf_serves Config.defaults _ _ first_boot Template.NewService).
  { eapply (pf_first Config.defaults _ _ 0 (λ _, 1) ∅); reflexivity. }
  do 3 (apply (sv_piece Config.defaults); [|exact I|exact I]).
  apply (sv_request Config.defaults True first_boot Template.NewService first_boot Template.NewService
    HttpApi.sample_env HttpApi.post_email); [apply sv_start|reflexivity|apply sample_countable|exact I].
Qed.

(** A cancellation, between whose read and write a worker marks the notification. *)
Definition marking : list (label (P := Mock)) := [LDequeue 400; LBegin 0 wenv].

Definition marked : Notification :=
  default zero_notification (Notifications (data (store (run 5 posted_system marking))) !! "ntf_0102030405060708090a0b0c").

Definition raced : HttpApi.Env := {|
  HttpApi.app_env := HttpApi.app_env HttpApi.sample_env; HttpApi.others := [OpUpdate 6 io_fine marked 1];
  HttpApi.now := 500; HttpApi.t_event := 501; HttpApi.write := io_fine; HttpApi.time_text := "2024-01-01" |}.

Definition cancel : HttpApi.Req := HttpApi.post "/api/v1/notifications/ntf_0102030405060708090a0b0c/cancel" "".

Definition cancelled : HttpApi.State * option HttpApi.Resp :=
  HttpApi.Handler (Config.WebhookSecret Config.defaults) raced cancel (api posted_system Template.NewService).

Example raced_ex :
  HttpApi.status <$> cancelled.2 = Some 409 ∧
  nStatus <$> Notifications (data (HttpApi.store cancelled.1)) !! "ntf_0102030405060708090a0b0c" = Some StatusProcessing.
Proof. by vm_compute. Qed.

Lemma requests_refine_witness :
  let a := HttpApi.app cancelled.1 in
  ∃ pre own, (length own ≤ 2)%nat ∧
    let s1 := run 5 posted_system pre in
    let s' := run 5 s1 own in
    (pre = [] ∧ System.queue s' = Application.Queue_ a ∨
     pre = marking ∧ System.queue s' = System.queue s1 ∧ Application.Queue_ a = System.queue posted_system) ∧
    store s' = Application.Store_ a ∧ jobs s' = jobs s1 ∧ sent s' = sent s1 ∧
    Worker.d_router (shared s') = Worker.d_router (shared s1) ∧
    Worker.d_limiter (shared s') = Worker.d_limiter (shared s1) ∧
    (life Config.defaults Main.local_router False posted_system → life Config.defaults Main.local_router False s1 →
       storable (data (store s')) → life Config.defaults Main.local_router False s').
Proof.
  assert (Hmark : store (run 5 posted_system marking) = foldl run_op (store posted_system) (HttpApi.others raced))
    by (vm_compute; reflexivity).
  refine (requests_refine Config.defaults Main.local_router (Config.WebhookSecret Config.defaults)
    raced cancel posted_system Template.NewService marking _ _ Hmark).
  - vm_compute. discriminate.
  - apply WellFormed.local_router_filed.
Defined.

Lemma platform_correct_witness :
  sent at_provider = ["acme:invoice-1"] ∧
  (True → ∀ k, count k (sent at_provider) ≤ Z.max 1 5) ∧ NoDup (keys at_provider) ∧
  (∀ id n, Notifications (data (store at_provider)) !! id = Some n → nID n = id ∧ WellFormed.typed n) ∧
  (∀ n, n ∈ live at_provider →
     WellFormed.typed n ∧ Idempotency (data (store at_provider)) !! idempotency_key n = Some (nID n)).
Proof.
  split; [vm_compute; reflexivity|].
  refine (platform_correct Config.defaults Main.local_router True _ _ at_provider (HttpApi.templates posted)
    at_provider_platform).
  - vm_compute. discriminate.
  - apply WellFormed.local_router_filed.
Defined.

End Platform.
